(* ===== verification/_CoqProject ===== *)
-Q . S2P
Prelude.v
CxxStd.v
Hex.v
PeerEndpoint.v
KademliaId.v
StdSort.v
RoutingTable.v
DhtNode.v
FileSystem.v
Storage.v
StorageLru.v
StorageProps.v
StorageCrash.v
StorageTorn.v
Manifest.v
Chunker.v
Tcp.v
PeerService.v
PeerCrash.v
PeerClient.v
PeerLifecycle.v
Hybrid.v
DssClient.v
DssClientProps.v
SealedTransfer.v
PeerNetwork.v
FullPeers.v
NetworkCrash.v
Tracker.v
TrackerClient.v
Cli.v
PeerMain.v
TrackerMain.v
Worker.v
Qt.v
EmbeddedPeer.v
MainWindow.v
MainWindowProps.v
Desktop.v
DesktopProps.v
Layout.v
