(* ===== verification/Prelude.v ===== *)
(** * Decent Store: verification library (root file)

    Decent Store is a decentralised file store.  A client cuts a file into chunks,
    optionally encrypts them, places them on peers that it finds with a
    Kademlia-like metric, and shares a link to a manifest that lists the chunks; a
    peer keeps chunks and manifests in a bounded store and serves them over TCP; a
    tracker, which the client no longer uses, keeps a table of peers and chunks.

    ** The parts and their files

    - [Prelude]: byte strings, exceptions, the state-and-exception monad [M],
      integers of machine width, iteration orders of hash containers, tactics.
    - [CxxStd], [StdSort], [FileSystem]: what the program uses of the C++ library:
      number printing and parsing, [std::istringstream], [std::sort], paths, files.
    - [Hex], [KademliaId]: [core/dht/kademlia_id.cpp], [core/crypto/shq256.cpp] and
      the hexadecimal helpers of [core/crypto/hybrid.cpp].
    - [PeerEndpoint]: [core/common/peer_endpoint.h],
      [core/net/peer_endpoint_parse.cpp].
    - [RoutingTable], [DhtNode]: [core/dht/kademlia_routing_table.cpp],
      [core/dht/dht_node.cpp].
    - [Storage] (operations), [StorageLru] (abstract specification and simulation),
      [StorageProps] (theorems), [StorageCrash] (the changes of the files one by one,
      crashes between and inside them), [StorageTorn] (a torn table, a full disk):
      [core/storage/storage_manager.cpp].
    - [Manifest]: [core/manifest/manifest.cpp].  [Chunker]: [core/chunk/chunker.cpp].
    - [Tcp]: [core/net/tcp.cpp].
    - [PeerService]: the loop and the handlers of [core/peer/peer_service.cpp];
      [PeerLifecycle]: its [start], [stop] and thread.  [PeerCrash]: what any bytes on
      a connection ask for, and a peer that is killed while it serves them.
    - [PeerClient]: [core/peer/peer_client.cpp], and the exchange of a client with a
      peer service ([talk]).
    - [Hybrid]: [core/crypto/hybrid.cpp].
    - [DssClient] (operations), [DssClientProps] (theorems):
      [core/dss/dss_client.cpp].  [SealedTransfer]: theorems on encrypted files.
    - [PeerNetwork]: the peers behind the client: services over their storage
      managers, reached through the sessions of [PeerClient].  [FullPeers]: peers
      with too little room.  [NetworkCrash]: peers that are killed between an upload
      and a download.
    - [Cli]: [client/main.cpp].  [PeerMain]: [peer/main.cpp] and the start of
      [runLoop].  [Worker]: [client/dss_worker.cpp].
    - [Qt]: what the graphical client takes from Qt, as a class with its laws.
      [EmbeddedPeer]: the peer service inside the graphical client.
    - [MainWindow] (state and handlers), [MainWindowProps] (lemmas and theorems on
      single handlers): [client/main_window.cpp].  [Desktop] (the two threads with
      their queues as a step function), [DesktopProps] (theorems on runs).
      [Layout]: the widgets that [setupUi] builds, [client/main_gui.cpp], and what
      the window offers to its user.
    - [Tracker] (table and handlers), [TrackerMain] (socket and accept loop):
      [tracker/main.cpp].  [TrackerClient]: [core/tracker/tracker_client.cpp].

    The definitions keep the names of the C++ functions.  A function that changes
    state is a function on that state, in the monad [M] when it can throw: the
    state after an exception is the state that the exception leaves.  The public
    operations of a component are composed as in the source: [DssClient.putFile]
    calls [Chunker.chunkFile], [Hybrid.aes_gcm_encrypt], [DhtNode.store] and the
    peers; [PeerService.dispatch] calls [Storage.storeChunk].

    ** How the parts meet

    The client sees its peers through the class [DssClient.PeerApi], the five
    functions of [PeerClient] that it calls.  What a download guarantees is proved
    against that class without any law: peers may lie, fail and change.  What an
    upload guarantees uses [DssClientProps.PeerLaws], peers that keep what they are
    given; what a download needs of them is its part [DssClientProps.PeerReads], which
    peers that were killed still keep ([NetworkCrash.worn_reads]).  Two instances
    discharge it: [DssClientProps.honest_laws] for tables, and [PeerNetwork.wire_laws]
    for running services with room for what is uploaded, where each call is a session
    on a connection to a storage manager.  The wire between [PeerClient] and
    [PeerService] is [Tcp.Conn]: the bytes that will arrive, cut into segments at will,
    how much each send accepts, and whether it raises SIGPIPE, which ends the programs
    that serve ([PeerService.run_loop], [TrackerMain.accept_loop]).  The theorems about
    [talk] hold for every cut.

    The graphical client is put together from the same parts: a click makes
    [MainWindow] post a job, [Desktop.run_job] runs it as a slot of [Worker], which
    calls [DssClient], and the signal at its end comes back to a handler of
    [MainWindow].  The embedded peer is the service of [PeerLifecycle]: its thread
    moves between the events of the user and, given as a schedule, while a handler
    waits for it.  Two things may take for ever there: a handler of the peer that is
    kept busy by its client (the event [PeerLifecycle.More]) and a slot of the worker
    that waits for a silent peer ([Desktop.HangJob]).  The settings that a handler of the
    window sets are written when it ends, and closing the window waits for the embedded
    peer and then for the slots of the worker ([MainWindow.close_window]).

    Code that is not the program's is a parameter: SHA-256 ([Hex.Sha256], only that
    a digest has 32 bytes), AES-GCM and RSA ([Hybrid.AesGcm], [Hybrid.Rsa], only
    that opening undoes sealing), name resolution and [connect] ([Tcp.Net]), which
    file operations and allocations succeed ([FileSystem.Env], asked anew in every
    call), the order in which hash containers and directories are visited
    ([IterOrder]), the clock and the random bytes (arguments), the string functions
    of Qt ([Qt.Qt], [Qt.QtLaws]), what the user types and chooses (events).  There
    are always two texts with the same 32 bytes of digest, so no statement may assume
    that digests do not collide, nor offer a collision as an alternative: where digests
    must differ, the texts are named.  An upload needs that the blocks and the manifest
    it sends differ in their digests from each other and from what the peers hold
    ([DssClientProps.told_apart], a field of [upload_setup]); a download, that no peer
    answers with another text that has the digest that is asked for
    ([DssClientProps.no_forgery]).

    ** The theorems

    - The client: an uploaded file is downloaded unchanged, in the clear and
      encrypted, through the sockets and the services of peers with room for it, from
      the command line and through the worker of the graphical client; a download that returns
      is the original whatever the peers did; one good peer is enough.
    - The storage manager refines an abstract LRU cache over runs with any mix of
      operations and restarts; the byte count, the limit, what is evicted, what is
      read back.
    - Crashes: a peer that is killed at any moments, of any requests, and started again
      serves whole chunks only; killed anywhere but in the writing of its table it comes
      back with a table and a byte count that agree, and with the chunks it would have
      kept; an uploaded file is downloaded although its peers were killed at any moments
      of serving readers.
    - The wire: the calls of the peer client act on a remote peer as the calls of
      its storage manager; the line and payload loops are exact; refusals.
    - The peer: [stop] waits for at most six moves of the thread and a handler that
      goes on, a clean life cycle leaves nothing behind; the peer program answers a
      sequence of requests as the specification says.
    - The window: from a click on Put to the downloaded file; every operation that
      is started is reported once unless a slot hangs, and the threads come to rest;
      the settings that are stored are those of the window unless the process was
      terminated; the peers that are discovered are those the client uses; what the
      handlers and the destructor wait for, and that nothing terminates the process
      while the thread of the embedded peer has not failed; what the enabled widgets
      offer is covered by these theorems and never asks for a repair.
    - Text forms: manifests, endpoints, hexadecimal, wrapped keys are read back.
    - Placement: the XOR metric, the nearest nodes, agreement of clients that know
      the same peers.
    - The tracker: the program keeps serving while no client goes away in the middle of
      its answer, and its answers after any history of connections; its peer list and
      its list of rare chunks as the client reads them.
    - Faults: the inputs and failures for which the code does not do what it
      should are theorems as well (an upload to a peer without room is reported as
      complete and lost, a table torn by a crash makes a full peer refuse everything,
      a write to a full disk goes unnoticed, an oversized chunk empties the store, a failed
      overwrite is not counted, a hostile size ends the service, a dead worker
      ends the process and the window with it, repeated encrypted blocks are lost,
      an encrypted block takes the place of its plain copies, a client that goes away
      while it is answered ends the peer and the tracker, a client that sends
      carriage returns keeps [stop] waiting, a silent peer hangs the worker and the
      closing of the window, settings whose application takes the process down are
      lost, the progress bar hides too early, and others).

    ** Fuel

    Loops over sockets, streams and files are recursive on a number of rounds that
    is computed from the length of what is left to read, each round consuming at
    least one byte; the lemmas [recv_payload_loop_spec], [recv_all_loop_spec],
    [recv_line_loop_stream] and [send_loop_spec] show that it is enough.  The loop of the
    eviction has the size of the table as fuel, that of the manifest parser the
    number of chunks that the vector could reserve.

    ** What is not modelled

    Directories and symbolic links (an environment answers for directories, and a
    trailing slash is ignored), the order in which an operating system that crashes
    itself brings writes to the disk (a process that is killed leaves its writes in
    their order, the last one cut anywhere), partial writes to the files of the client,
    changes to the files by others during an operation, the reuse of a closed
    descriptor number, failing allocations other than those whose size comes from
    outside, console output, the clock that makes a socket time out (a timeout is one
    way in which a connection ends), a command line that hangs in a call, SIGPIPE in the middle of a client's operation beyond
    its session ([PeerClient.vanished_peer_kills_client]; the calls of [DssClient] return)
    and in the graphical client, whose libraries may turn it off.  Of the graphical
    client: tooltips, margins and sizes; the nested event loop of message boxes (a box
    returns at once); characters outside one-byte strings in a [QString]; which of the jobs that
    are still posted when the window is destroyed the worker begins (an argument says
    whether those return).
    The directory [build] holds what CMake and the Qt tools generate. *)

From Stdlib Require Export ZArith Lia Ascii String.
From stdpp Require Export prelude gmap strings sorting.

(** ** Byte strings

    [std::string] and [std::vector<char>] are both sequences of [char]; the code
    copies between the two freely, so both are lists of bytes here. *)

Abbreviation str := (list ascii).

Definition lit (s : string) : str := list_ascii_of_string s.
Arguments lit s%_string.

Declare Scope dss_scope.
Delimit Scope dss_scope with dss.
Open Scope dss_scope.

Definition newline : ascii := "010".
Definition carriage_return : ascii := "013".
Definition space : ascii := " ".

(** ** Exceptions

    The exceptions the program throws or receives from the standard library.
    Each of them derives from [std::exception]. *)

Inductive exn :=
  | RuntimeError (what : str)
  | InvalidArgument (what : str)
  | OutOfRange (what : str)
  | LengthError (what : str)
  | BadAlloc
  | FilesystemError (what : str).

Definition what (e : exn) : str :=
  match e with
  | RuntimeError w | InvalidArgument w | OutOfRange w | LengthError w
  | FilesystemError w => w
  | BadAlloc => lit "std::bad_alloc"
  end.

#[export] Instance exn_eq_dec : EqDecision exn.
Proof. solve_decision. Defined.

Inductive result (A : Type) :=
  | Ok (a : A)
  | Throw (e : exn).
Arguments Ok {A} a.
Arguments Throw {A} e.

#[export] Instance result_eq_dec `{EqDecision A} : EqDecision (result A).
Proof. solve_decision. Defined.

#[export] Instance result_ret : MRet result := @Ok.
#[export] Instance result_bind : MBind result := λ A B f r,
  match r with Ok a => f a | Throw e => Throw e end.
#[export] Instance result_fmap : FMap result := λ A B f r,
  match r with Ok a => Ok (f a) | Throw e => Throw e end.

Definition is_ok {A} (r : result A) : bool :=
  match r with Ok _ => true | Throw _ => false end.

Definition from_ok {A} (d : A) (r : result A) : A :=
  match r with Ok a => a | Throw _ => d end.

(** ** Stateful computations that may throw

    C++ keeps every mutation made before a [throw], so the state is returned
    with the exception. *)

Definition M (S A : Type) : Type := S → result A * S.

#[export] Instance M_ret {S} : MRet (M S) := λ A a s, (Ok a, s).
#[export] Instance M_bind {S} : MBind (M S) := λ A B f m s,
  match m s with
  | (Ok a, s') => f a s'
  | (Throw e, s') => (Throw e, s')
  end.

Definition throwM {S A} (e : exn) : M S A := λ s, (Throw e, s).
Definition getM {S} : M S S := λ s, (Ok s, s).
Definition putM {S} (s : S) : M S unit := λ _, (Ok (), s).
Definition modifyM {S} (f : S → S) : M S unit := λ s, (Ok (), f s).
Definition liftR {S A} (r : result A) : M S A := λ s, (r, s).

(** A loop over a range that stops at the first exception. *)
Fixpoint forM {S A} (l : list A) (f : A → M S unit) : M S unit :=
  match l with
  | [] => mret ()
  | a :: l' => f a ;; forM l' f
  end.

(** ** Machine integers *)

Open Scope Z_scope.

Definition u8 (z : Z) : Z := z mod 2 ^ 8.
Definition u16 (z : Z) : Z := z mod 2 ^ 16.
Definition u32 (z : Z) : Z := z mod 2 ^ 32.
Definition u64 (z : Z) : Z := z mod 2 ^ 64.
Definition i32 (z : Z) : Z := (z + 2 ^ 31) mod 2 ^ 32 - 2 ^ 31.

Definition UINT64_MAX : Z := 2 ^ 64 - 1.
Definition INT_MAX : Z := 2 ^ 31 - 1.
Definition INT_MIN : Z := - 2 ^ 31.

Definition zlen {A} (l : list A) : Z := Z.of_nat (length l).

Definition is_byte (z : Z) : Prop := 0 ≤ z < 256.
#[export] Instance is_byte_dec z : Decision (is_byte z).
Proof. unfold is_byte. apply _. Defined.

(** ** Hint database and tactics *)

Create HintDb dss.
#[export] Hint Unfold is_byte u8 u16 u32 u64 : dss.

(** Splits the monadic definitions of the development to their branches. *)
Ltac m_unfold :=
  unfold mbind, mret, M_bind, M_ret, result_bind, result_ret, result_fmap,
    throwM, getM, putM, modifyM, liftR in *; cbn beta iota in *.

(** Closes a decidable closed goal by evaluation. *)
Ltac by_eval := apply (bool_decide_eq_true_1 _); vm_compute; reflexivity.

(** ** Bytes *)

Lemma u8_range z : is_byte (u8 z).
Proof. unfold is_byte, u8. apply Z.mod_pos_bound. lia. Qed.

Lemma u8_id z : is_byte z → u8 z = z.
Proof. unfold is_byte, u8. intros. apply Z.mod_small. lia. Qed.

Lemma u64_id z : 0 ≤ z < 2 ^ 64 → u64 z = z.
Proof. apply Z.mod_small. Qed.

Lemma u64_range z : 0 ≤ u64 z < 2 ^ 64.
Proof. apply Z.mod_pos_bound. lia. Qed.

Lemma is_byte_lxor a b : is_byte a → is_byte b → is_byte (Z.lxor a b).
Proof.
  unfold is_byte. intros Ha Hb. split.
  - apply Z.lxor_nonneg. lia.
  - destruct (decide (Z.lxor a b = 0)) as [->|]; [lia|].
    change 256 with (2 ^ 8). apply Z.log2_lt_pow2.
    + assert (0 ≤ Z.lxor a b) by (apply Z.lxor_nonneg; lia). lia.
    + eapply Z.le_lt_trans; [apply Z.log2_lxor; lia|].
      destruct (decide (a = 0)) as [->|]; destruct (decide (b = 0)) as [->|];
        cbn [Z.log2 Z.max]; try lia;
        repeat match goal with
        | |- context [Z.log2 ?x] =>
            lazymatch goal with
            | H : Z.log2 x < 8 |- _ => fail
            | _ => assert (Z.log2 x < 8) by (apply Z.log2_lt_pow2; lia)
            end
        end; lia.
Qed.

#[export] Hint Resolve u8_range u8_id u64_range is_byte_lxor : dss.

(** ** Lists *)

Lemma zlen_nonneg {A} (l : list A) : 0 ≤ zlen l.
Proof. unfold zlen. lia. Qed.

Lemma zlen_app {A} (l k : list A) : zlen (l ++ k) = zlen l + zlen k.
Proof. unfold zlen. rewrite length_app. lia. Qed.

Lemma zlen_cons {A} (x : A) l : zlen (x :: l) = 1 + zlen l.
Proof. unfold zlen. cbn [length]. lia. Qed.

Lemma zlen_nil {A} (l : list A) : zlen l = 0 ↔ l = [].
Proof. unfold zlen. destruct l; cbn [length]; split; (done || lia). Qed.

Lemma take_prefix_of {A} n m (l : list A) :
  (n ≤ m)%nat → take n l `prefix_of` take m l.
Proof.
  intros. exists (drop n (take m l)).
  rewrite <- (take_drop n (take m l)) at 1. f_equal.
  rewrite take_take. f_equal. lia.
Qed.

(** [span p l] is the longest prefix whose elements satisfy [p], and the rest. *)
Fixpoint span {A} (p : A → bool) (l : list A) : list A * list A :=
  match l with
  | [] => ([], [])
  | x :: l' => if p x then let (a, b) := span p l' in (x :: a, b) else ([], l)
  end.

Lemma span_app {A} (p : A → bool) (l k : list A) :
  Forall (λ x, p x = true) l →
  (∀ x k', k = x :: k' → p x = false) →
  span p (l ++ k) = (l, k).
Proof.
  intros Hl Hk. induction Hl as [|x l Hx Hl IH]; cbn.
  - destruct k as [|y k]; cbn; [done|]. by rewrite (Hk y k).
  - by rewrite Hx, IH.
Qed.

Lemma span_all {A} (p : A → bool) (l : list A) :
  Forall (λ x, p x = true) l → span p l = (l, []).
Proof. intros. rewrite <- (app_nil_r l) at 1. by apply span_app. Qed.

Lemma span_spec {A} (p : A → bool) (l a b : list A) :
  span p l = (a, b) →
  l = a ++ b ∧ Forall (λ x, p x = true) a ∧
  (∀ x b', b = x :: b' → p x = false).
Proof.
  revert a b. induction l as [|x l IH]; intros a b Hs; cbn in Hs.
  - inv Hs. repeat split; [constructor | done].
  - destruct (p x) eqn:Hp.
    + destruct (span p l) as [a' b'] eqn:E. inv Hs.
      destruct (IH a' b eq_refl) as (-> & ? & ?). auto.
    + inv Hs. repeat split; [constructor|]. intros y b' [= <- <-]. done.
Qed.

Fixpoint drop_while {A} (p : A → bool) (l : list A) : list A :=
  match l with
  | [] => []
  | x :: l' => if p x then drop_while p l' else l
  end.

Lemma drop_while_stop {A} (p : A → bool) (l : list A) :
  (∀ x l', l = x :: l' → p x = false) → drop_while p l = l.
Proof. destruct l as [|x l]; cbn; [done|]. intros H. by rewrite (H x l). Qed.

Lemma drop_while_app {A} (p : A → bool) (l k : list A) :
  Forall (λ x, p x = true) l → drop_while p (l ++ k) = drop_while p k.
Proof. induction 1 as [|x l Hx _ IH]; cbn; [done|]. by rewrite Hx. Qed.

Lemma find_app {A} (p : A → bool) (l k : list A) :
  find p (l ++ k) = match find p l with Some x => Some x | None => find p k end.
Proof. induction l as [|x l IH]; cbn; [done|]. by destruct (p x). Qed.

(** ** Iteration order

    [std::unordered_map], [std::unordered_set] and directory iterators visit
    every element once, in an order that is not specified: an interface, and the
    theorems hold for every instance. *)

Class IterOrder := {
  iterate : ∀ {K} `{Countable K} {V}, gmap K V → list (K * V);
  iterate_set : ∀ {K} `{Countable K}, gset K → list K;
  iterate_perm : ∀ {K} `{Countable K} {V} (m : gmap K V), iterate m ≡ₚ map_to_list m;
  iterate_set_perm : ∀ {K} `{Countable K} (X : gset K), iterate_set X ≡ₚ elements X;
}.

(** One such order, for the witnesses. *)
Definition some_order : IterOrder.
Proof.
  refine {| iterate _ _ _ _ m := map_to_list m; iterate_set _ _ _ X := elements X |};
    intros; reflexivity.
Defined.

Section iteration.
Context `{IterOrder} `{Countable K}.

Lemma elem_of_iterate {V} (m : gmap K V) k v : (k, v) ∈ iterate m ↔ m !! k = Some v.
Proof. rewrite iterate_perm. apply elem_of_map_to_list. Qed.

Lemma NoDup_iterate {V} (m : gmap K V) : NoDup (iterate m).*1.
Proof. rewrite iterate_perm. apply NoDup_fst_map_to_list. Qed.

Lemma length_iterate {V} (m : gmap K V) : length (iterate m) = size m.
Proof. rewrite iterate_perm. apply length_map_to_list. Qed.

Lemma elem_of_iterate_set (X : gset K) x : x ∈ iterate_set X ↔ x ∈ X.
Proof. rewrite iterate_set_perm. apply elem_of_elements. Qed.

Lemma list_to_map_iterate {V} (m : gmap K V) : list_to_map (iterate m) = m.
Proof.
  rewrite <- (list_to_map_to_list m) at 2. symmetry. apply list_to_map_proper.
  - apply NoDup_fst_map_to_list.
  - by rewrite iterate_perm.
Qed.
End iteration.
