(* ===== verification/CxxStd.v ===== *)
(** * The part of the C++ standard library the program uses

    Character classes, decimal and hexadecimal printing and reading of integers
    ([std::to_string], [strtol], [std::stoi]), the searches of [std::string] and
    the extraction operators of [std::istringstream], as libstdc++ implements
    them in the "C" locale on a 64-bit machine. *)

From S2P Require Import Prelude.

(** ** Characters *)

Definition char_code (c : ascii) : Z := Z.of_N (N_of_ascii c).
Definition char_of (z : Z) : ascii := ascii_of_N (Z.to_N z).

(** [isspace]: space, and the range from horizontal tab to carriage return. *)
Definition is_space (c : ascii) : bool :=
  let n := char_code c in (n =? 32) || ((9 <=? n) && (n <=? 13)).

Definition not_space (c : ascii) : bool := negb (is_space c).

(** The value of a character as a digit, letters counting from ten. *)
Definition digit_val (c : ascii) : option Z :=
  let n := char_code c in
  if (48 <=? n) && (n <=? 57) then Some (n - 48)
  else if (97 <=? n) && (n <=? 102) then Some (n - 87)
  else if (65 <=? n) && (n <=? 70) then Some (n - 55)
  else None.

Definition digit_in (base : Z) (c : ascii) : option Z :=
  match digit_val c with
  | Some v => if v <? base then Some v else None
  | None => None
  end.

(** The lower-case digit that the program's tables and streams print. *)
Definition digit_char (d : Z) : ascii :=
  char_of (if d <? 10 then 48 + d else 87 + d).

(** [std::tolower] on one character of the "C" locale. *)
Definition tolower (c : ascii) : ascii :=
  let n := char_code c in
  if (65 <=? n) && (n <=? 90) then char_of (n + 32) else c.

(** ** Integers *)

(** The digits at the head of [l] in the given base, and what follows them. *)
Fixpoint span_digits (base : Z) (l : str) : list Z * str :=
  match l with
  | [] => ([], [])
  | c :: l' =>
      match digit_in base c with
      | Some d => let (ds, r) := span_digits base l' in (d :: ds, r)
      | None => ([], l)
      end
  end.

Definition digits_value (base : Z) (ds : list Z) : Z :=
  foldl (λ acc d, acc * base + d) 0 ds.

Fixpoint dec_go (fuel : nat) (n : Z) (acc : list Z) : list Z :=
  match fuel with
  | O => acc
  | S fuel' =>
      let acc' := n mod 10 :: acc in
      if n / 10 =? 0 then acc' else dec_go fuel' (n / 10) acc'
  end.

(** One decimal digit takes more than one bit, so the bit length is enough fuel. *)
Definition dec_digits (n : Z) : list Z := dec_go (S (Z.to_nat (Z.log2 n))) n [].

(** [std::to_string], and [operator<<] of an integer. *)
Definition to_string (z : Z) : str :=
  if z <? 0 then "-"%char :: map digit_char (dec_digits (- z))
  else map digit_char (dec_digits z).

(** An optional sign. *)
Definition read_sign (l : str) : bool * str :=
  match l with
  | c :: l' => if Ascii.eqb c "-" then (true, l')
               else if Ascii.eqb c "+" then (false, l') else (false, l)
  | [] => (false, [])
  end.

(** [strtol] skips the prefix [0x] in base 16 when a hexadecimal digit follows. *)
Definition skip_hex_prefix (base : Z) (l : str) : str :=
  match l with
  | z :: x :: c :: l' =>
      if (base =? 16) && Ascii.eqb z "0" && Ascii.eqb (tolower x) "x"
         && bool_decide (is_Some (digit_in 16 c))
      then c :: l' else l
  | _ => l
  end.

(** [strtol]: [None] when no conversion could be performed. *)
Definition strtol (base : Z) (s : str) : option Z :=
  let (neg, s1) := read_sign (drop_while is_space s) in
  match span_digits base (skip_hex_prefix base s1) with
  | ([], _) => None
  | (ds, _) =>
      let v := digits_value base ds in Some (if neg : bool then - v else v)
  end.

(** [std::stoi(s, nullptr, base)]; what follows the number is ignored. *)
Definition stoi (base : Z) (s : str) : result Z :=
  match strtol base s with
  | None => Throw (InvalidArgument (lit "stoi"))
  | Some v =>
      if (v <? INT_MIN) || (INT_MAX <? v) then Throw (OutOfRange (lit "stoi"))
      else Ok v
  end.

(** [std::stoul(s)] and [std::stoull(s)], by name: a negative number is negated
    modulo 2^64. *)
Definition sto_u64 (name s : str) : result Z :=
  match strtol 10 s with
  | None => Throw (InvalidArgument name)
  | Some v => if UINT64_MAX <? Z.abs v then Throw (OutOfRange name) else Ok (u64 v)
  end.
Definition stoul : str → result Z := sto_u64 (lit "stoul").
Definition stoull : str → result Z := sto_u64 (lit "stoull").

(** ** Searching in strings *)

(** [s.find(c)]: [None] is [npos]. *)
Fixpoint find_char (c : ascii) (s : str) : option nat :=
  match s with
  | [] => None
  | x :: s' => if Ascii.eqb x c then Some O else S <$> find_char c s'
  end.

(** [s.rfind(c)]. *)
Fixpoint rfind_char (c : ascii) (s : str) : option nat :=
  match s with
  | [] => None
  | x :: s' =>
      match rfind_char c s' with
      | Some i => Some (S i)
      | None => if Ascii.eqb x c then Some O else None
      end
  end.

(** [s.rfind(p, 0) == 0]: [s] starts with [p]. *)
Fixpoint starts_with (p s : str) : bool :=
  match p, s with
  | [], _ => true
  | c :: p', d :: s' => Ascii.eqb c d && starts_with p' s'
  | _ :: _, [] => false
  end.

(** ** [std::istringstream]

    What is left to read, and [failbit].  [eofbit] alone changes nothing that
    the program observes: an extraction from an exhausted stream fails anyway. *)

Record istream := mk_istream { in_rest : str; in_fail : bool }.

Definition istringstream (s : str) : istream := mk_istream s false.

(** [in >> word]: on failure the string keeps its old value. *)
Definition get_word (old : str) (st : istream) : str * istream :=
  if in_fail st then (old, st)
  else match drop_while is_space (in_rest st) with
       | [] => (old, mk_istream [] true)
       | l => let (w, r) := span not_space l in (w, mk_istream r false)
       end.

(** [in >> n] for [n] of an integer type with the given bounds: a failed
    conversion stores 0, an overflow stores the bound; an unsigned type
    accepts a minus sign and negates modulo 2^64. *)
Definition get_int_gen (lo hi : Z) (neg_wraps : bool) (old : Z) (st : istream)
  : Z * istream :=
  if in_fail st then (old, st)
  else match drop_while is_space (in_rest st) with
       | [] => (old, mk_istream [] true)
       | l =>
           let (neg, l1) := read_sign l in
           match span_digits 10 l1 with
           | ([], r) => (0, mk_istream r true)
           | (ds, r) =>
               let v := digits_value 10 ds in
               if neg : bool then
                 if neg_wraps then
                   if hi <? v then (hi, mk_istream r true)
                   else (u64 (- v), mk_istream r false)
                 else if - v <? lo then (lo, mk_istream r true)
                      else (- v, mk_istream r false)
               else if hi <? v then (hi, mk_istream r true)
                    else (v, mk_istream r false)
           end
       end.

(** [in >> n] for [std::size_t] and [std::uint64_t]. *)
Definition get_u64 : Z → istream → Z * istream := get_int_gen 0 UINT64_MAX true.

(** [in >> n] for [int]. *)
Definition get_int : Z → istream → Z * istream := get_int_gen INT_MIN INT_MAX false.

(** [std::getline(in, line, delim)]: [None] when the stream fails. *)
Definition getline (delim : ascii) (s : str) : option (str * str) :=
  match s with
  | [] => None
  | _ =>
      let (l, r) := span (λ c, negb (Ascii.eqb c delim)) s in
      Some (l, tail r)
  end.

(** The loop [while (std::getline(in, line, delim))], every line it sees. *)
Fixpoint getlines_fuel (fuel : nat) (delim : ascii) (s : str) : list str :=
  match fuel with
  | O => []
  | S fuel' =>
      match getline delim s with
      | None => []
      | Some (l, r) => l :: getlines_fuel fuel' delim r
      end
  end.

(** Every line but the last takes its delimiter, so the length is enough fuel. *)
Definition getlines (delim : ascii) (s : str) : list str :=
  getlines_fuel (length s) delim s.

(** ** Digits *)

Lemma digit_char_spec d c :
  0 ≤ d < 16 → digit_char d = c →
  digit_val c = Some d ∧ is_space c = false ∧ tolower c = c ∧
  Ascii.eqb c "-" = false ∧ Ascii.eqb c "+" = false ∧ Ascii.eqb c newline = false ∧
  Ascii.eqb c carriage_return = false ∧ Ascii.eqb c ":" = false.
Proof.
  intros Hd <-.
  assert (d = 0 ∨ d = 1 ∨ d = 2 ∨ d = 3 ∨ d = 4 ∨ d = 5 ∨ d = 6 ∨ d = 7 ∨ d = 8 ∨
          d = 9 ∨ d = 10 ∨ d = 11 ∨ d = 12 ∨ d = 13 ∨ d = 14 ∨ d = 15) as Hc by lia.
  repeat (destruct Hc as [->|Hc]; [by vm_compute|]). by subst; vm_compute.
Qed.

Definition is_digit (base d : Z) : Prop := 0 ≤ d < base.

Lemma digit_in_char base d :
  base ≤ 16 → is_digit base d → digit_in base (digit_char d) = Some d.
Proof.
  unfold is_digit, digit_in. intros ? ?.
  destruct (digit_char_spec d _ ltac:(lia) eq_refl) as [-> _].
  by destruct (Z.ltb_spec d base); [|lia].
Qed.

(** No digit of the base can follow. *)
Definition no_digit (base : Z) (k : str) : Prop :=
  ∀ c k', k = c :: k' → digit_in base c = None.

Lemma no_digit_nil base : no_digit base [].
Proof. by intros ???. Qed.

Lemma no_digit_cons base c k : digit_in base c = None → no_digit base (c :: k).
Proof. by intros ??? [= <- <-]. Qed.

#[export] Hint Resolve no_digit_nil : dss.
#[export] Hint Extern 1 (no_digit _ _) =>
  (apply no_digit_cons; reflexivity) : dss.

Lemma span_digits_chars base ds k :
  base ≤ 16 → Forall (is_digit base) ds → no_digit base k →
  span_digits base (map digit_char ds ++ k) = (ds, k).
Proof.
  intros Hb Hds Hk. induction Hds as [|d ds Hd Hds IH]; cbn.
  - destruct k as [|c k]; cbn; [done|]. by rewrite (Hk c k).
  - by rewrite digit_in_char, IH.
Qed.

Lemma digits_value_app base ds ds' :
  digits_value base (ds ++ ds') =
  foldl (λ acc d, acc * base + d) (digits_value base ds) ds'.
Proof. unfold digits_value. apply foldl_app. Qed.

Lemma dec_go_spec fuel n acc :
  0 ≤ n < 2 ^ Z.of_nat fuel → (0 < fuel)%nat →
  ∃ ds, dec_go fuel n acc = ds ++ acc ∧ digits_value 10 ds = n ∧
        Forall (is_digit 10) ds ∧ ds ≠ [].
Proof.
  revert n acc. induction fuel as [|fuel IH]; intros n acc Hn Hf; [lia|].
  cbn [dec_go]. assert (0 ≤ n mod 10 < 10) by (apply Z.mod_pos_bound; lia).
  destruct (Z.eqb_spec (n / 10) 0) as [E|E].
  - exists [n mod 10]. repeat split; [|by constructor; [|constructor]|done].
    unfold digits_value. cbn. rewrite (Z.div_mod n 10) at 2 by lia. lia.
  - assert (fuel ≠ 0%nat).
    { intros ->. change (2 ^ Z.of_nat 1) with 2 in Hn.
      rewrite Z.div_small in E; lia. }
    destruct (IH (n / 10) (n mod 10 :: acc)) as (ds & -> & Hv & Hds & _); [|lia|].
    { rewrite Nat2Z.inj_succ, Z.pow_succ_r in Hn by lia.
      split; [apply Z.div_pos; lia|]. apply Z.div_lt_upper_bound; lia. }
    exists (ds ++ [n mod 10]). rewrite <- app_assoc. repeat split; [| |].
    + rewrite digits_value_app, Hv. cbn. rewrite (Z.div_mod n 10) at 3 by lia. lia.
    + apply Forall_app. split; [done|]. by constructor; [|constructor].
    + by destruct ds.
Qed.

Lemma dec_digits_spec n :
  0 ≤ n → digits_value 10 (dec_digits n) = n ∧
          Forall (is_digit 10) (dec_digits n) ∧ dec_digits n ≠ [].
Proof.
  intros Hn. unfold dec_digits.
  destruct (dec_go_spec (S (Z.to_nat (Z.log2 n))) n []) as (ds & E & ? & ? & ?);
    [|lia|by rewrite E, app_nil_r].
  split; [done|]. rewrite Nat2Z.inj_succ, Z2Nat.id by apply Z.log2_nonneg.
  destruct (decide (n = 0)) as [->|]; [by vm_compute|].
  apply Z.log2_spec. lia.
Qed.

Lemma dec_go_length fuel n acc : (length (dec_go fuel n acc) ≤ fuel + length acc)%nat.
Proof.
  revert n acc. induction fuel as [|fuel IH]; intros n acc; cbn [dec_go]; [lia|].
  destruct (_ =? 0); cbn [length]; [lia|].
  specialize (IH (n / 10) (n mod 10 :: acc)). cbn [length] in IH. lia.
Qed.

(** The characters of a printed number. *)
Lemma to_string_nonneg z :
  0 ≤ z → to_string z = map digit_char (dec_digits z).
Proof. intros. unfold to_string. by destruct (Z.ltb_spec z 0); [lia|]. Qed.

Lemma to_string_chars z :
  0 ≤ z →
  ∃ d ds, dec_digits z = d :: ds ∧ to_string z = digit_char d :: map digit_char ds ∧
          is_digit 10 d ∧ Forall (is_digit 10) ds.
Proof.
  intros Hz. rewrite to_string_nonneg by done.
  destruct (dec_digits_spec z Hz) as (_ & Hd & Hne).
  destruct (dec_digits z) as [|d ds]; [done|]. inv Hd. exists d, ds. done.
Qed.

Lemma to_string_length z : 0 ≤ z < 2 ^ 64 → zlen (to_string z) ≤ 64.
Proof.
  intros Hz. rewrite to_string_nonneg by lia. unfold zlen, dec_digits. rewrite length_map.
  pose proof (dec_go_length (S (Z.to_nat (Z.log2 z))) z []) as Hl. cbn [length] in Hl.
  assert (Z.log2 z < 64); [|lia].
  destruct (decide (z = 0)) as [->|]; [done|]. apply Z.log2_lt_pow2; lia.
Qed.

Lemma digit_char_not_space d : is_digit 16 d → not_space (digit_char d) = true.
Proof.
  intros Hd. unfold not_space.
  by destruct (digit_char_spec d _ Hd eq_refl) as (_ & -> & _).
Qed.

Lemma to_string_not_space z :
  0 ≤ z → Forall (λ c, not_space c = true) (to_string z) ∧ to_string z ≠ [].
Proof.
  intros Hz. destruct (to_string_chars z Hz) as (d & ds & _ & -> & Hd & Hds).
  unfold is_digit in *. split; [|done]. constructor.
  - apply digit_char_not_space. unfold is_digit. lia.
  - apply Forall_map. eapply Forall_impl; [exact Hds|].
    intros. apply digit_char_not_space. unfold is_digit. cbn in *. lia.
Qed.

Lemma read_sign_digit d k :
  is_digit 16 d → read_sign (digit_char d :: k) = (false, digit_char d :: k).
Proof.
  intros Hd. destruct (digit_char_spec d _ Hd eq_refl) as (_ & _ & _ & H1 & H2 & _).
  cbn [read_sign]. by rewrite H1, H2.
Qed.

Lemma drop_space_digit d k :
  is_digit 16 d → drop_while is_space (digit_char d :: k) = digit_char d :: k.
Proof.
  intros Hd. destruct (digit_char_spec d _ Hd eq_refl) as (_ & H & _).
  cbn [drop_while]. by rewrite H.
Qed.

(** ** Round trips of printed integers *)

Lemma skip_hex_prefix_10 l : skip_hex_prefix 10 l = l.
Proof. by destruct l as [|? [|? [|??]]]. Qed.

(** Reading back what [to_string] printed, whatever is not a digit follows. *)
Lemma strtol_to_string_nonneg z k :
  0 ≤ z → no_digit 10 k → strtol 10 (to_string z ++ k) = Some z.
Proof.
  intros Hz Hk. unfold strtol.
  destruct (dec_digits_spec z Hz) as (Hv & Hds & _).
  destruct (to_string_chars z Hz) as (d & ds & E & Hs & Hd & _).
  assert (is_digit 16 d) by (unfold is_digit in *; lia).
  rewrite Hs. cbn [app]. rewrite drop_space_digit, read_sign_digit by done.
  rewrite skip_hex_prefix_10.
  change (digit_char d :: map digit_char ds ++ k)
    with (map digit_char (d :: ds) ++ k).
  rewrite <- E, span_digits_chars by (done || lia). by rewrite E, <- E, Hv.
Qed.

Lemma strtol_to_string z k :
  no_digit 10 k → strtol 10 (to_string z ++ k) = Some z.
Proof.
  intros Hk. destruct (Z.ltb_spec z 0) as [Hz|Hz];
    [|by apply strtol_to_string_nonneg].
  unfold to_string, strtol. destruct (Z.ltb_spec z 0); [|lia].
  cbn [app drop_while]. change (is_space "-") with false. cbn [read_sign].
  change (Ascii.eqb "-" "-") with true. cbn iota. rewrite skip_hex_prefix_10.
  destruct (dec_digits_spec (- z)) as (Hv & Hds & Hne); [lia|].
  rewrite span_digits_chars by (done || lia).
  destruct (dec_digits (- z)) eqn:E; [done|]. rewrite <- E in *. rewrite E, <- E.
  f_equal. lia.
Qed.

Lemma stoi_to_string z k :
  INT_MIN ≤ z ≤ INT_MAX → no_digit 10 k → stoi 10 (to_string z ++ k) = Ok z.
Proof.
  intros Hz Hk. unfold stoi. rewrite strtol_to_string by done.
  destruct (Z.ltb_spec z INT_MIN); [lia|]. destruct (Z.ltb_spec INT_MAX z); [lia|].
  done.
Qed.

Lemma sto_u64_to_string name z : 0 ≤ z < 2 ^ 64 → sto_u64 name (to_string z) = Ok z.
Proof.
  intros Hz. unfold sto_u64. rewrite <- (app_nil_r (to_string z)).
  rewrite strtol_to_string by apply no_digit_nil. rewrite Z.abs_eq, u64_id by lia.
  unfold UINT64_MAX. by destruct (Z.ltb_spec (2 ^ 64 - 1) z); [lia|].
Qed.

Lemma stoul_to_string z : 0 ≤ z < 2 ^ 64 → stoul (to_string z) = Ok z.
Proof. apply sto_u64_to_string. Qed.

Lemma stoull_to_string z : 0 ≤ z < 2 ^ 64 → stoull (to_string z) = Ok z.
Proof. apply sto_u64_to_string. Qed.

(** ** Extraction *)

(** A nonempty string without white space: what [>>] extracts as one word. *)
Definition is_word (w : str) : Prop :=
  w ≠ [] ∧ Forall (λ c, not_space c = true) w.

#[export] Instance is_word_dec w : Decision (is_word w).
Proof. unfold is_word. apply _. Defined.

Definition blank (l : str) : Prop := Forall (λ c, is_space c = true) l.

(** A word ends at the end of the input or at white space. *)
Definition word_end (k : str) : Prop :=
  ∀ c k', k = c :: k' → is_space c = true.

Lemma word_end_nil : word_end [].
Proof. by intros ???. Qed.

Lemma word_end_cons c k : is_space c = true → word_end (c :: k).
Proof. by intros ??? [= <- <-]. Qed.

Lemma word_end_no_digit k : word_end k → no_digit 10 k.
Proof.
  intros Hk c k' ->. specialize (Hk c k' eq_refl).
  unfold is_space in Hk. unfold digit_in, digit_val.
  apply orb_true_iff in Hk. rewrite andb_true_iff, Z.eqb_eq, !Z.leb_le in Hk.
  destruct (Z.leb_spec 48 (char_code c)); [lia|].
  destruct (Z.leb_spec 97 (char_code c)); [lia|].
  destruct (Z.leb_spec 65 (char_code c)); [lia|]. done.
Qed.

#[export] Hint Resolve word_end_nil word_end_no_digit : dss.
#[export] Hint Extern 1 (word_end (_ :: _)) =>
  (apply word_end_cons; reflexivity) : dss.
#[export] Hint Extern 1 (blank _) =>
  (repeat constructor; reflexivity) : dss.

Lemma not_space_false c : is_space c = true → not_space c = false.
Proof. unfold not_space. by intros ->. Qed.

Lemma drop_blank_word b w k :
  blank b → is_word w → drop_while is_space (b ++ w ++ k) = w ++ k.
Proof.
  intros Hb [Hne Hw]. rewrite drop_while_app by exact Hb.
  destruct Hw as [|c w Hc Hw]; [done|]. cbn [app drop_while].
  unfold not_space in Hc. by destruct (is_space c).
Qed.

Lemma get_word_word old b w k :
  blank b → is_word w → word_end k →
  get_word old (mk_istream (b ++ w ++ k) false) = (w, mk_istream k false).
Proof.
  intros Hb Hw Hk. unfold get_word. cbn [in_fail in_rest].
  rewrite drop_blank_word by done. destruct Hw as [Hne Hw].
  destruct w as [|c w]; [done|]. cbn [app].
  change (c :: w ++ k) with ((c :: w) ++ k).
  rewrite span_app; [done|done|].
  intros x k' ->. apply not_space_false. by apply (Hk x k').
Qed.

Lemma to_string_word z : 0 ≤ z → is_word (to_string z).
Proof. intros Hz. split; apply to_string_not_space; done. Qed.

#[export] Hint Resolve to_string_word : dss.

Lemma get_int_gen_to_string lo hi nw old b z k :
  blank b → 0 ≤ z ≤ hi → no_digit 10 k →
  get_int_gen lo hi nw old (mk_istream (b ++ to_string z ++ k) false) =
  (z, mk_istream k false).
Proof.
  intros Hb [Hz Hhi] Hk. unfold get_int_gen. cbn [in_fail in_rest].
  rewrite drop_blank_word by (done || by apply to_string_word).
  destruct (dec_digits_spec z Hz) as (Hv & Hds & _).
  destruct (to_string_chars z Hz) as (d & ds & E & Hs & Hd & _).
  assert (is_digit 16 d) by (unfold is_digit in *; lia).
  rewrite Hs. cbn [app]. rewrite read_sign_digit by done.
  change (digit_char d :: map digit_char ds ++ k)
    with (map digit_char (d :: ds) ++ k).
  rewrite <- E, span_digits_chars by (done || lia).
  rewrite E. rewrite <- E, Hv. by destruct (Z.ltb_spec hi z); [lia|].
Qed.

Lemma get_u64_to_string old b z k :
  blank b → 0 ≤ z < 2 ^ 64 → no_digit 10 k →
  get_u64 old (mk_istream (b ++ to_string z ++ k) false) = (z, mk_istream k false).
Proof.
  intros. apply get_int_gen_to_string; [done| |done]. unfold UINT64_MAX. lia.
Qed.

Lemma get_u64_first old z k :
  0 ≤ z < 2 ^ 64 → no_digit 10 k →
  get_u64 old (istringstream (to_string z ++ k)) = (z, mk_istream k false).
Proof. intros. by apply (get_u64_to_string old []); [constructor|..]. Qed.

Lemma get_word_first old w k :
  is_word w → word_end k → get_word old (istringstream (w ++ k)) = (w, mk_istream k false).
Proof. intros. by apply (get_word_word old []); [constructor|..]. Qed.

Lemma get_word_next old w k :
  is_word w → word_end k →
  get_word old (mk_istream (space :: w ++ k) false) = (w, mk_istream k false).
Proof. intros. apply (get_word_word old [space]); auto with dss. Qed.

Lemma get_u64_next old z k :
  0 ≤ z < 2 ^ 64 → no_digit 10 k →
  get_u64 old (mk_istream (space :: to_string z ++ k) false) = (z, mk_istream k false).
Proof. intros. apply (get_u64_to_string old [space]); auto with dss. Qed.

Lemma space_no_digit c k : is_space c = true → no_digit 10 (c :: k).
Proof. intros. by apply word_end_no_digit, word_end_cons. Qed.

(** What a successful extraction returns, and that it consumes input. *)
Lemma drop_while_length {A} (p : A → bool) l : (length (drop_while p l) ≤ length l)%nat.
Proof. induction l as [|x l IH]; cbn; [done|]. destruct (p x); cbn; lia. Qed.

Lemma get_word_ok old st w st' :
  get_word old st = (w, st') → in_fail st' = false →
  is_word w ∧ in_fail st = false ∧ (length (in_rest st') < length (in_rest st))%nat.
Proof.
  unfold get_word. destruct (in_fail st) eqn:Hf; [by intros [= <- <-] ?; congruence|].
  pose proof (drop_while_length is_space (in_rest st)) as Hlen.
  assert (∀ c l, drop_while is_space (in_rest st) = c :: l → not_space c = true) as Hhd.
  { induction (in_rest st) as [|x l IH]; cbn; [done|]. destruct (is_space x) eqn:Hx.
    - apply IH. pose proof (drop_while_length is_space l). lia.
    - intros c k [= <- <-]. unfold not_space. by rewrite Hx. }
  destruct (drop_while is_space (in_rest st)) as [|c l]; [by intros [= <- <-]|].
  destruct (span not_space (c :: l)) as [a b] eqn:E. intros [= <- <-] _.
  apply span_spec in E as (El & Ha & Hb). specialize (Hhd c l eq_refl).
  destruct a as [|x a].
  - cbn in El. by rewrite (Hb c l) in Hhd.
  - split; [done|]. split; [done|]. cbn [in_rest].
    apply (f_equal length) in El. rewrite length_app in El. cbn [length] in *. lia.
Qed.

Lemma digits_value_nonneg ds : Forall (λ d, 0 ≤ d) ds → 0 ≤ digits_value 10 ds.
Proof.
  intros Hds. unfold digits_value.
  assert (∀ z, 0 ≤ z → 0 ≤ foldl (λ acc d, acc * 10 + d) z ds) as Hf; [|by apply Hf].
  induction Hds as [|d ds Hd Hds IH]; intros z Hz; cbn; [done|]. apply IH. lia.
Qed.

Lemma span_digits_nonneg base l ds r :
  span_digits base l = (ds, r) → Forall (λ d, 0 ≤ d) ds.
Proof.
  revert ds r. induction l as [|c l IH]; intros ds r; cbn; [by intros [= <- <-]|].
  destruct (digit_in base c) as [d|] eqn:Hd; [|by intros [= <- <-]].
  destruct (span_digits base l) as [ds' r']. intros [= <- <-].
  constructor; [|by eapply IH]. unfold digit_in, digit_val in Hd.
  repeat match type of Hd with context [if ?b then _ else _] => destruct b eqn:? end;
    simplify_eq; rewrite andb_true_iff, !Z.leb_le in *; lia.
Qed.

Lemma get_u64_ok old st v st' :
  get_u64 old st = (v, st') → in_fail st' = false → 0 ≤ v < 2 ^ 64.
Proof.
  unfold get_u64, get_int_gen. destruct (in_fail st) eqn:Hf; [by intros [= <- <-] ?; congruence|].
  destruct (drop_while is_space (in_rest st)) as [|c l]; [by intros [= <- <-]|].
  destruct (read_sign (c :: l)) as [neg l1].
  destruct (span_digits 10 l1) as [[|d ds] r] eqn:E; [by intros [= <- <-]|].
  pose proof (digits_value_nonneg _ (span_digits_nonneg _ _ _ _ E)) as Hv.
  unfold UINT64_MAX. destruct neg.
  - destruct (_ <? _); intros [= <- <-]; [done|]. intros _. apply u64_range.
  - destruct (Z.ltb_spec (2 ^ 64 - 1) (digits_value 10 (d :: ds))); intros [= <- <-]; [done|].
    intros _. lia.
Qed.

(** Extraction at the end of the input fails and keeps the variable. *)
Lemma get_word_eof old b :
  blank b → get_word old (mk_istream b false) = (old, mk_istream [] true).
Proof.
  intros Hb. unfold get_word. cbn [in_fail in_rest].
  assert (drop_while is_space b = []) as ->; [|done].
  rewrite <- (app_nil_r b). by rewrite drop_while_app.
Qed.

(** A property of the minus sign and of the digits is one of every character
    of a printed number. *)
Lemma to_string_forall (P : ascii → Prop) z :
  P "-"%char → (∀ d, 0 ≤ d < 10 → P (digit_char d)) → Forall P (to_string z).
Proof.
  intros Hm Hd.
  assert (∀ n, 0 ≤ n → Forall P (map digit_char (dec_digits n))) as Hn.
  { intros n Hn. destruct (dec_digits_spec n Hn) as (_ & Hds & _).
    apply Forall_map. eapply Forall_impl; [exact Hds|]. exact Hd. }
  unfold to_string. destruct (Z.ltb_spec z 0).
  - constructor; [done|]. apply Hn. lia.
  - by apply Hn.
Qed.

Lemma to_string_nonempty z : to_string z ≠ [].
Proof.
  unfold to_string. destruct (Z.ltb_spec z 0); [done|].
  destruct (dec_digits_spec z) as (_ & _ & Hne); [done|]. by destruct (dec_digits z).
Qed.

Lemma rfind_char_last c s k :
  Forall (λ x, Ascii.eqb x c = false) k → rfind_char c (s ++ c :: k) = Some (length s).
Proof.
  intros Hk. assert (rfind_char c k = None) as Hn.
  { induction Hk as [|x k Hx _ IH]; cbn; [done|]. by rewrite IH, Hx. }
  induction s as [|x s IH]; cbn.
  - by rewrite Hn, Ascii.eqb_refl.
  - by rewrite IH.
Qed.

Lemma find_char_first c s k :
  Forall (λ x, Ascii.eqb x c = false) s → find_char c (s ++ c :: k) = Some (length s).
Proof.
  induction 1 as [|x s Hx _ IH]; cbn.
  - by rewrite Ascii.eqb_refl.
  - by rewrite Hx, IH.
Qed.

Lemma starts_with_app p s : starts_with p (p ++ s) = true.
Proof. induction p as [|c p IH]; cbn; [done|]. by rewrite Ascii.eqb_refl. Qed.

(** [getline] up to the next delimiter, and at the end of the input. *)
Lemma getline_delim d w k :
  Forall (λ c, negb (Ascii.eqb c d) = true) w → getline d (w ++ d :: k) = Some (w, k).
Proof.
  intros Hw. unfold getline. destruct (w ++ d :: k) eqn:E; [by destruct w|].
  rewrite <- E, span_app; [done|done|]. intros x k' [= <- <-]. by rewrite Ascii.eqb_refl.
Qed.

Lemma getline_last d w :
  w ≠ [] → Forall (λ c, negb (Ascii.eqb c d) = true) w → getline d w = Some (w, []).
Proof.
  intros Hne Hw. unfold getline. destruct w eqn:E; [done|]. rewrite <- E in *.
  by rewrite span_all.
Qed.
