(* ===== verification/Hex.v ===== *)
(** * Hexadecimal text and SHA-256

    Models the hex helpers of [src/core/dht/kademlia_id.cpp]
    ([hexToBytes], [bytesToHex]) and of [src/core/crypto/hybrid.cpp] ([to_hex],
    [from_hex]), and [src/core/crypto/shq256.cpp] ([sha256_hex]).  The digest
    itself is OpenSSL's: a parameter, the class [Sha256]. *)

From S2P Require Import Prelude.
From S2P Require Import CxxStd.

(** ** The tables and loops *)

Definition kHex : str := lit "0123456789abcdef".

Definition kHex_at (i : Z) : ascii := nth (Z.to_nat i) kHex "0"%char.

(** Two characters of output per byte. *)
Definition hex_pair (b : Z) : str :=
  [kHex_at (Z.land (Z.shiftr b 4) 15); kHex_at (Z.land b 15)].

Definition bytesToHex (data : list Z) : str := flat_map hex_pair data.

Definition to_hex (data : list Z) : str := flat_map hex_pair data.

(** The loop over [substr(i, 2)]; [std::stoi] may throw. *)
Fixpoint hex_bytes_loop (hex : str) : result (list Z) :=
  match hex with
  | a :: b :: hex' =>
      value ← stoi 16 [a; b];
      out ← hex_bytes_loop hex';
      mret (u8 value :: out)
  | _ => mret []
  end.

Definition hexToBytes (hex : str) : result (list Z) :=
  if negb (Nat.even (length hex)) then mret [] else hex_bytes_loop hex.

Definition from_hex (hex : str) : result (list Z) :=
  if negb (Nat.even (length hex)) then mret [] else hex_bytes_loop hex.

(** ** SHA-256 *)

(** OpenSSL's [SHA256_Init]/[Update]/[Final]: a digest of
    [SHA256_DIGEST_LENGTH = 32] bytes for every input. *)
Class Sha256 := {
  SHA256 : str → list Z;
  SHA256_length d : length (SHA256 d) = 32%nat;
  SHA256_bytes d : Forall is_byte (SHA256 d);
}.

(** [oss << std::hex << std::setw(2) << std::setfill('0') << b]. *)
Definition put_hex2 (b : Z) : str :=
  if b <? 16 then ["0"%char; digit_char b]
  else [digit_char (b / 16); digit_char (b mod 16)].

Definition sha256_hex `{Sha256} (data : str) : str := flat_map put_hex2 (SHA256 data).

(** ** Lemmas *)

Lemma nibbles b :
  is_byte b →
  Z.land (Z.shiftr b 4) 15 = b / 16 ∧ Z.land b 15 = b mod 16 ∧
  0 ≤ b / 16 < 16 ∧ 0 ≤ b mod 16 < 16.
Proof.
  intros [H1 H2]. change 15 with (Z.ones 4). rewrite !Z.land_ones by lia.
  rewrite Z.shiftr_div_pow2 by lia. change (2 ^ 4) with 16.
  assert (0 ≤ b / 16 < 16).
  { split; [apply Z.div_pos; lia | apply Z.div_lt_upper_bound; lia]. }
  rewrite (Z.mod_small (b / 16)) by lia.
  repeat split; (lia || apply Z.mod_pos_bound; lia).
Qed.

Lemma kHex_at_digit i : 0 ≤ i < 16 → kHex_at i = digit_char i.
Proof.
  intros Hd.
  assert (i = 0 ∨ i = 1 ∨ i = 2 ∨ i = 3 ∨ i = 4 ∨ i = 5 ∨ i = 6 ∨ i = 7 ∨ i = 8 ∨
          i = 9 ∨ i = 10 ∨ i = 11 ∨ i = 12 ∨ i = 13 ∨ i = 14 ∨ i = 15) as Hc by lia.
  repeat (destruct Hc as [->|Hc]; [done|]). by subst.
Qed.

Lemma hex_pair_digits b :
  is_byte b → hex_pair b = [digit_char (b / 16); digit_char (b mod 16)].
Proof.
  intros Hb. destruct (nibbles b Hb) as (E1 & E2 & ? & ?).
  unfold hex_pair. by rewrite E1, E2, !kHex_at_digit.
Qed.

Lemma put_hex2_pair b : is_byte b → put_hex2 b = hex_pair b.
Proof.
  intros Hb. rewrite hex_pair_digits by done. unfold put_hex2. destruct Hb.
  destruct (Z.ltb_spec b 16); [|done]. rewrite Z.div_small, Z.mod_small by lia.
  by vm_compute (digit_char 0).
Qed.

Lemma length_bytesToHex data : length (bytesToHex data) = (2 * length data)%nat.
Proof. unfold bytesToHex. induction data as [|b l IH]; cbn in *; lia. Qed.

Lemma stoi_hex_pair b : is_byte b → stoi 16 (hex_pair b) = Ok b.
Proof.
  intros Hb. rewrite hex_pair_digits by done.
  destruct (nibbles b Hb) as (_ & _ & ? & ?). unfold stoi, strtol.
  rewrite drop_space_digit, read_sign_digit by done.
  change (skip_hex_prefix 16 [digit_char (b / 16); digit_char (b mod 16)])
    with (map digit_char [b / 16; b mod 16]).
  rewrite <- (app_nil_r (map digit_char _)).
  rewrite span_digits_chars by first [lia | apply no_digit_nil | by repeat constructor; lia].
  unfold digits_value. cbn [foldl].
  replace ((0 * 16 + b / 16) * 16 + b mod 16) with b
    by (rewrite (Z.div_mod b 16) at 1; lia).
  unfold INT_MIN, INT_MAX. destruct Hb.
  destruct (Z.ltb_spec b (- 2 ^ 31)); [lia|].
  by destruct (Z.ltb_spec (2 ^ 31 - 1) b); [lia|].
Qed.

Lemma hex_bytes_loop_inverse data :
  Forall is_byte data → hex_bytes_loop (flat_map hex_pair data) = Ok data.
Proof.
  induction 1 as [|b l Hb Hl IH]; [done|].
  change (flat_map hex_pair (b :: l)) with (hex_pair b ++ flat_map hex_pair l).
  pose proof (stoi_hex_pair b Hb) as Hs. unfold hex_pair in Hs |- * at 1.
  cbn [app hex_bytes_loop]. rewrite Hs. unfold mbind, result_bind.
  rewrite IH. unfold mret, result_ret. by rewrite u8_id.
Qed.

Lemma even_length_hex data : Nat.even (length (flat_map hex_pair data)) = true.
Proof.
  fold (bytesToHex data). rewrite length_bytesToHex. apply Nat.even_mul.
Qed.

Lemma hexToBytes_inverse data :
  Forall is_byte data → hexToBytes (bytesToHex data) = Ok data.
Proof.
  intros. unfold hexToBytes, bytesToHex. rewrite even_length_hex.
  by apply hex_bytes_loop_inverse.
Qed.

(** The digits that [sha256_hex] prints are those of the program's own table. *)
Lemma sha256_hex_bytesToHex `{Sha256} data :
  sha256_hex data = bytesToHex (SHA256 data).
Proof.
  unfold sha256_hex, bytesToHex. pose proof (SHA256_bytes data) as Hb.
  induction Hb as [|b l Hb _ IH]; [done|]. cbn [flat_map].
  by rewrite put_hex2_pair, IH.
Qed.

Lemma hex_pair_not_space b : is_byte b → Forall (λ c, not_space c = true) (hex_pair b).
Proof.
  intros Hb. rewrite hex_pair_digits by done.
  destruct (nibbles b Hb) as (_ & _ & ? & ?).
  repeat constructor; by apply digit_char_not_space.
Qed.

Lemma bytesToHex_word data :
  Forall is_byte data → data ≠ [] → is_word (bytesToHex data).
Proof.
  intros Hb Hne. split.
  - by destruct data.
  - clear Hne. unfold bytesToHex. induction Hb; [constructor|]. cbn [flat_map].
    apply Forall_app. split; [by apply hex_pair_not_space|done].
Qed.

(** A chunk id or a manifest id is one word of 64 characters. *)
Lemma sha256_hex_word `{Sha256} data :
  is_word (sha256_hex data) ∧ length (sha256_hex data) = 64%nat.
Proof.
  rewrite sha256_hex_bytesToHex, length_bytesToHex, SHA256_length. split; [|done].
  apply bytesToHex_word; [apply SHA256_bytes|].
  intros E. pose proof (SHA256_length data) as HL. by rewrite E in HL.
Qed.

(** Equal texts come from equal digests. *)
Lemma sha256_hex_inj `{Sha256} d d' :
  sha256_hex d = sha256_hex d' → SHA256 d = SHA256 d'.
Proof.
  rewrite !sha256_hex_bytesToHex. intros E.
  assert (Ok (SHA256 d) = Ok (SHA256 d')) as [= ->]; [|done].
  rewrite <- (hexToBytes_inverse (SHA256 d)) by apply SHA256_bytes.
  rewrite E. apply hexToBytes_inverse, SHA256_bytes.
Qed.

(** ** A concrete digest for the witnesses

    32 bytes that depend on the length, the sum and the weighted sum of the
    input: no cryptographic strength, but a function with the stated laws. *)

Definition toy_digest (d : str) : list Z :=
  let s := foldl (λ acc c, acc * 31 + char_code c + 1) 7 d in
  map (λ i, u8 (s / (i + 1) + 17 * i + zlen d)) (seqZ 0 32).

Definition toy_sha256 : Sha256.
Proof.
  refine {| SHA256 := toy_digest |}.
  - intros d. unfold toy_digest. by rewrite length_map, length_seqZ.
  - intros d. unfold toy_digest. apply Forall_map, Forall_true.
    intros. apply u8_range.
Defined.
