(* ===== verification/PeerEndpoint.v ===== *)
(** * Peer endpoints

    Models [src/core/common/peer_endpoint.h] and
    [src/core/net/peer_endpoint_parse.cpp]: the record and the parser of the
    entries [host:port] and [tcp://host:port]. *)

From S2P Require Import Prelude.
From S2P Require Import CxxStd.

Record PeerEndpoint := mk_endpoint { ip : str; port : Z }.

#[export] Instance PeerEndpoint_eq_dec : EqDecision PeerEndpoint.
Proof. solve_decision. Defined.

#[export] Instance PeerEndpoint_countable : Countable PeerEndpoint.
Proof.
  refine (inj_countable' (λ e, (ip e, port e)) (λ '(i, p), mk_endpoint i p) _).
  by intros [].
Defined.

(** The text [ip + ":" + std::to_string(port)]. *)
Definition endpoint_text (p : PeerEndpoint) : str :=
  ip p ++ ":"%char :: to_string (port p).

(** ** The parser *)

(** The set [" \t\r\n"] of [trim_ws]. *)
Definition is_ws (c : ascii) : bool :=
  Ascii.eqb c " " || Ascii.eqb c "009" || Ascii.eqb c "013" || Ascii.eqb c "010".

Definition rtrim (s : str) : str := reverse (drop_while is_ws (reverse s)).

(** From the first to the last character outside the set. *)
Definition trim_ws (s : str) : str := rtrim (drop_while is_ws s).

(** The test for a leading [tcp://], the letters in either case. *)
Definition has_tcp_prefix (item : str) : bool :=
  match item with
  | a :: b :: c :: d :: e :: f :: _ =>
      Ascii.eqb (tolower a) "t" && Ascii.eqb (tolower b) "c" &&
      Ascii.eqb (tolower c) "p" && Ascii.eqb d ":" && Ascii.eqb e "/" && Ascii.eqb f "/"
  | _ => false
  end.

(** The part after the optional scheme: the last colon ends the host. *)
Definition parse_host_port (item : str) : result PeerEndpoint :=
  match rfind_char ":" item with
  | None | Some O =>
      Throw (RuntimeError
        (lit "Invalid peer entry (expected host:port or tcp://host:port): " ++ item))
  | Some colon =>
      let host := trim_ws (take colon item) in
      let portStr := trim_ws (drop (S colon) item) in
      if bool_decide (host = []) || bool_decide (portStr = []) then
        Throw (RuntimeError (lit "Invalid peer entry (empty host or port): " ++ item))
      else
        match stoi 10 portStr with
        | Ok p => Ok (mk_endpoint host p)
        | Throw _ =>
            Throw (RuntimeError (lit "Invalid peer entry (bad port): " ++ portStr))
        end
  end.

Definition parse_peer_entry (item : str) : result PeerEndpoint :=
  let item := trim_ws item in
  let item := if has_tcp_prefix item then trim_ws (drop 6 item) else item in
  parse_host_port item.

(** ** Trimming *)

Definition ws (s : str) : Prop := Forall (λ c, is_ws c = true) s.

(** A nonempty text that starts and ends outside the set. *)
Definition trimmed (s : str) : Prop :=
  (∃ c s', s = c :: s' ∧ is_ws c = false) ∧ (∃ s' c, s = s' ++ [c] ∧ is_ws c = false).

Lemma rtrim_app x c y :
  is_ws c = false → rtrim (x ++ c :: y) = x ++ c :: rtrim y.
Proof.
  intros Hc. unfold rtrim. rewrite reverse_app, reverse_cons.
  assert (∀ l, drop_while is_ws ((l ++ [c]) ++ reverse x) =
               drop_while is_ws l ++ [c] ++ reverse x) as ->.
  { induction l as [|a l IH]; cbn; [by rewrite Hc|].
    destruct (is_ws a); [exact IH|]. by rewrite <- app_assoc. }
  rewrite !reverse_app, !reverse_involutive. by rewrite <- app_assoc.
Qed.

Lemma rtrim_ws s : ws s → rtrim s = [].
Proof.
  intros Hs. unfold rtrim.
  assert (drop_while is_ws (reverse s) = []) as ->; [|done].
  rewrite <- (app_nil_r (reverse s)). rewrite drop_while_app; [done|].
  by apply Forall_reverse.
Qed.

Lemma rtrim_prefix s : rtrim s `prefix_of` s.
Proof.
  induction s as [|c s IH] using rev_ind; [done|].
  unfold rtrim in *. rewrite reverse_snoc. cbn [drop_while].
  destruct (is_ws c) eqn:Hc.
  - by apply prefix_app_r.
  - by rewrite reverse_cons, reverse_involutive.
Qed.

(** Only the end of a text that starts outside the set is trimmed. *)
Lemma trim_ws_head c s : is_ws c = false → trim_ws (c :: s) = c :: rtrim s.
Proof.
  intros Hc. unfold trim_ws. cbn [drop_while]. rewrite Hc.
  apply (rtrim_app [] c s Hc).
Qed.

Lemma trim_ws_ltrim b s : ws b → trim_ws (b ++ s) = trim_ws s.
Proof. intros Hb. unfold trim_ws. by rewrite drop_while_app. Qed.

(** Trimming a trimmed text and a tail trims the tail. *)
Lemma trim_ws_app s k : trimmed s → trim_ws (s ++ k) = s ++ rtrim k.
Proof.
  intros [(c & s' & E & Hc) (s'' & d & E' & Hd)].
  assert (trim_ws (s ++ k) = rtrim (s ++ k)) as ->.
  { rewrite E. unfold trim_ws. cbn [app drop_while]. by rewrite Hc. }
  rewrite E', <- !app_assoc. by apply rtrim_app.
Qed.

Lemma trim_ws_trimmed s : trimmed s → trim_ws s = s.
Proof.
  intros Hs. rewrite <- (app_nil_r s) at 1. rewrite trim_ws_app by done.
  by rewrite app_nil_r.
Qed.

(** The trim of any text is empty or trimmed. *)
Lemma rtrim_last s : rtrim s = [] ∨ ∃ s' c, rtrim s = s' ++ [c] ∧ is_ws c = false.
Proof.
  induction s as [|c s IH] using rev_ind; [by left|].
  unfold rtrim in *. rewrite reverse_snoc. cbn [drop_while].
  destruct (is_ws c) eqn:Hc; [done|]. right.
  exists s, c. by rewrite reverse_cons, reverse_involutive.
Qed.

Lemma trim_ws_result s : trim_ws s = [] ∨ trimmed (trim_ws s).
Proof.
  unfold trim_ws. set (l := drop_while is_ws s).
  destruct (rtrim_last l) as [->|(s' & c & E & Hc)]; [by left|]. right. split.
  - assert (rtrim l `prefix_of` l) as [k Hk] by apply rtrim_prefix.
    destruct (rtrim l) as [|a t] eqn:Ht; [by destruct s'|]. clear E Ht.
    exists a, t. split; [done|]. clear -Hk. subst l.
    induction s as [|b s IH]; cbn in Hk; [done|].
    destruct (is_ws b) eqn:Hb; [auto|]. by injection Hk as -> _.
  - rewrite E. eauto.
Qed.

(** ** What the parser accepts *)

(** What may follow the port number: [std::stoi] stops at the first non-digit,
    and a colon would move the split. *)
Definition port_tail (k : str) : Prop :=
  no_digit 10 k ∧ Forall (λ c, Ascii.eqb c ":" = false) k.

Lemma port_tail_rtrim k : port_tail k → port_tail (rtrim k).
Proof.
  intros [Hd Hc]. destruct (rtrim_prefix k) as [r Hr]. split.
  - intros c k' E. apply (Hd c (k' ++ r)). by rewrite Hr, E.
  - rewrite Hr in Hc. by apply Forall_app in Hc as [? _].
Qed.

Lemma to_string_no_colon z : Forall (λ c, Ascii.eqb c ":" = false) (to_string z).
Proof.
  apply to_string_forall; [done|]. intros d Hd.
  apply (digit_char_spec d _ ltac:(lia) eq_refl).
Qed.

Lemma not_space_not_ws c : is_space c = false → is_ws c = false.
Proof.
  intros H. unfold is_ws. destruct (Ascii.eqb_spec c " ") as [->|]; [done|].
  destruct (Ascii.eqb_spec c "009") as [->|]; [done|].
  destruct (Ascii.eqb_spec c "013") as [->|]; [done|].
  by destruct (Ascii.eqb_spec c "010") as [->|].
Qed.

Lemma to_string_trimmed z : trimmed (to_string z).
Proof.
  assert (Forall (λ c, is_ws c = false) (to_string z)) as Hf.
  { apply to_string_forall; [done|]. intros d Hd. apply not_space_not_ws.
    apply (digit_char_spec d _ ltac:(lia) eq_refl). }
  pose proof (to_string_nonempty z) as Hne. split.
  - destruct (to_string z) as [|c s']; [done|]. inv Hf. eauto.
  - destruct (to_string z) as [|c s' _] using rev_ind; [done|].
    apply Forall_app in Hf as [_ Hc]. inv Hc. eauto.
Qed.

Lemma trimmed_app_mid s t : trimmed s → trimmed t → trimmed (s ++ ":"%char :: t).
Proof.
  intros [(c & s' & -> & Hc) _] [_ (t' & d & -> & Hd)]. split.
  - cbn [app]. eauto.
  - exists ((c :: s') ++ ":"%char :: t'), d. by rewrite <- app_assoc.
Qed.

(** An endpoint whose text the parser can give back. *)
Definition endpoint_ok (ep : PeerEndpoint) : Prop :=
  trimmed (ip ep) ∧ INT_MIN ≤ port ep ≤ INT_MAX.

Lemma endpoint_text_trimmed ep : endpoint_ok ep → trimmed (endpoint_text ep).
Proof. intros [? _]. by apply trimmed_app_mid, to_string_trimmed. Qed.

Lemma parse_host_port_accepts ep k :
  endpoint_ok ep → port_tail k → parse_host_port (endpoint_text ep ++ k) = Ok ep.
Proof.
  destruct ep as [host p]. intros [Hh Hp] Hk. cbn [ip port] in *.
  unfold parse_host_port, endpoint_text. rewrite <- app_assoc. cbn [app ip port].
  rewrite rfind_char_last.
  2: { apply Forall_app. split; [apply to_string_no_colon | apply Hk]. }
  assert (host ≠ []) as Hne by (destruct Hh as [(? & ? & -> & _) _]; done).
  destruct (length host) as [|n] eqn:Hl; [by destruct host|]. rewrite <- Hl.
  rewrite take_app_length.
  replace (drop (S (length host)) (host ++ ":"%char :: to_string p ++ k))
    with (to_string p ++ k)
    by (change (host ++ ":"%char :: to_string p ++ k)
          with (host ++ [":"%char] ++ to_string p ++ k);
        rewrite app_assoc, drop_app_length'; [done|rewrite length_app; cbn; lia]).
  rewrite (trim_ws_trimmed host), trim_ws_app by auto using to_string_trimmed.
  rewrite bool_decide_eq_false_2 by done.
  rewrite bool_decide_eq_false_2
    by (intros [E _]%app_eq_nil; by apply to_string_nonempty in E).
  rewrite stoi_to_string; [done|done|]. by apply port_tail_rtrim.
Qed.

(** The plain text of an endpoint. *)
Lemma parse_endpoint_text ep :
  endpoint_ok ep → has_tcp_prefix (endpoint_text ep) = false →
  parse_peer_entry (endpoint_text ep) = Ok ep.
Proof.
  intros Hep Hs. unfold parse_peer_entry.
  rewrite trim_ws_trimmed by (by apply endpoint_text_trimmed). rewrite Hs.
  rewrite <- (app_nil_r (endpoint_text ep)). apply parse_host_port_accepts; [done|].
  split; [apply no_digit_nil|done].
Qed.

(** The optional scheme and the blanks after it: [None] when there is none, and
    then the entry itself does not read like one. *)
Definition scheme_text (scheme : option (str * str)) : str :=
  match scheme with None => [] | Some (s, b) => s ++ b end.

Definition scheme_ok (scheme : option (str * str)) (rest : str) : Prop :=
  match scheme with
  | None => has_tcp_prefix rest = false
  | Some (s, b) => length s = 6%nat ∧ has_tcp_prefix s = true ∧ ws b
  end.

Lemma has_tcp_prefix_app s k :
  length s = 6%nat → has_tcp_prefix s = true → has_tcp_prefix (s ++ k) = true.
Proof. by destruct s as [|? [|? [|? [|? [|? [|? [|??]]]]]]]. Qed.

Lemma tcp_prefix_trimmed s : length s = 6%nat → has_tcp_prefix s = true → trimmed s.
Proof.
  destruct s as [|a [|b [|c [|d [|e [|f [|??]]]]]]]; try done. intros _ Hp.
  cbn in Hp. repeat (apply andb_true_iff in Hp as [Hp ?]). split.
  - exists a, [b; c; d; e; f]. split; [done|].
    destruct (is_ws a) eqn:E; [|done]. unfold is_ws in E.
    repeat (apply orb_true_iff in E as [E|E]);
      apply Ascii.eqb_eq in E; subst a; done.
  - exists [a; b; c; d; e], f. split; [done|]. by apply Ascii.eqb_eq in H as ->.
Qed.

Lemma rtrim_trimmed_app b s k : trimmed s → rtrim (b ++ s ++ k) = b ++ s ++ rtrim k.
Proof.
  intros [_ (s' & c & -> & Hc)]. rewrite <- !app_assoc, !(app_assoc b).
  by apply rtrim_app.
Qed.

(** The parser accepts every text that consists of white space, an optional
    [tcp://] in either case and more white space, and the text [host:port] of an
    endpoint, and returns that endpoint.  The port may have any value of type
    [int], and anything without a colon that does not start with a digit may
    follow it: [std::stoi] ignores it. *)
Theorem parse_peer_entry_accepts b scheme ep k :
  ws b → scheme_ok scheme (endpoint_text ep ++ rtrim k) → endpoint_ok ep →
  port_tail k →
  parse_peer_entry (b ++ scheme_text scheme ++ endpoint_text ep ++ k) = Ok ep.
Proof.
  intros Hb Hs Hep Hk. unfold parse_peer_entry. rewrite trim_ws_ltrim by done.
  pose proof (endpoint_text_trimmed ep Hep) as Ht.
  pose proof (port_tail_rtrim k Hk) as Hk'.
  destruct scheme as [[s b']|]; cbn [scheme_text scheme_ok] in *.
  - destruct Hs as (Hl & Hp' & Hb'). pose proof (tcp_prefix_trimmed s Hl Hp').
    rewrite <- app_assoc, trim_ws_app by done.
    rewrite has_tcp_prefix_app by done. rewrite drop_app_length' by done.
    rewrite rtrim_trimmed_app, trim_ws_ltrim, trim_ws_app by done.
    apply parse_host_port_accepts; auto using port_tail_rtrim.
  - cbn [app]. rewrite trim_ws_app, Hs by done. by apply parse_host_port_accepts.
Qed.

(** [" TCP:// 10.0.0.1:70000 b"]: white space, a scheme, a port that no socket
    has, and a tail. *)
Lemma parse_peer_entry_accepts_witness :
  parse_peer_entry (lit " TCP:// 10.0.0.1:70000 b") =
  Ok (mk_endpoint (lit "10.0.0.1") 70000).
Proof.
  apply (parse_peer_entry_accepts (lit " ") (Some (lit "TCP://", lit " "))
           (mk_endpoint (lit "10.0.0.1") 70000) (lit " b")).
  - by repeat constructor.
  - repeat split; try done. by repeat constructor.
  - split; [|done]. split; [by eexists _, _|].
    exists (lit "10.0.0."), "1"%char. done.
  - split; [by apply no_digit_cons|by repeat constructor].
Defined.

(** Whatever text is parsed, a returned endpoint has a host that is not empty
    and has no white space around it, and a port in the range of [int]; every
    other text throws a [runtime_error]. *)
Theorem parse_peer_entry_result item :
  match parse_peer_entry item with
  | Ok ep => endpoint_ok ep
  | Throw e => ∃ w, e = RuntimeError w
  end.
Proof.
  unfold parse_peer_entry.
  generalize (if has_tcp_prefix (trim_ws item)
              then trim_ws (drop 6 (trim_ws item)) else trim_ws item) as i.
  intros i. unfold parse_host_port.
  destruct (rfind_char ":" i) as [[|n]|]; [by eexists| |by eexists].
  case_bool_decide as Hh; cbn [orb]; [by eexists|].
  case_bool_decide as Hp; [by eexists|].
  destruct (stoi 10 _) as [p|e] eqn:Hs; [|by eexists]. split; cbn [ip port].
  - by destruct (trim_ws_result (take (S n) i)).
  - unfold stoi in Hs. destruct (strtol _ _) as [v|]; [|done].
    destruct (Z.ltb_spec v INT_MIN); [done|].
    destruct (Z.ltb_spec INT_MAX v); [done|]. injection Hs as ->. lia.
Qed.
