(* ===== verification/KademliaId.v ===== *)
(** * 160-bit identifiers and the XOR metric

    Models [src/core/dht/kademlia_id.cpp].  [Id] is [std::array<uint8_t, 20>]:
    a list of 20 bytes, [id_ok].  The order by distance is related to the order
    of the 160-bit integers that the arrays spell, most significant byte
    first. *)

From S2P Require Import Prelude.
From S2P Require Import CxxStd.
From S2P Require Import Hex.
From S2P Require Import PeerEndpoint.

Abbreviation Id := (list Z).

Definition ID_BYTES : nat := 20.

Definition id_ok (id : Id) : Prop := length id = ID_BYTES ∧ Forall is_byte id.

#[export] Instance id_ok_dec id : Decision (id_ok id).
Proof. unfold id_ok. apply _. Defined.

(** [Id id{};] *)
Definition id_zero : Id := replicate ID_BYTES 0.

(** Truncates, or pads with zeros. *)
Definition idFromBytes (bytes : list Z) : Id :=
  let n := Nat.min (length bytes) ID_BYTES in
  take n bytes ++ drop n id_zero.

Section ids.
Context `{Sha256}.

Definition makeNodeId (peer : PeerEndpoint) : result Id :=
  let hex := sha256_hex (endpoint_text peer) in
  bytes ← hexToBytes hex;
  mret (idFromBytes bytes).

Definition makeKeyId (key : str) : result Id :=
  let hex := sha256_hex key in
  bytes ← hexToBytes hex;
  mret (idFromBytes bytes).
End ids.

Definition xorDistance (a b : Id) : Id := zip_with (λ x y, u8 (Z.lxor x y)) a b.

(** [operator<] of [std::array]: the lexicographic order. *)
Fixpoint array_lt (a b : list Z) : bool :=
  match a, b with
  | _, [] => false
  | [], _ :: _ => true
  | x :: a', y :: b' =>
      if x <? y then true else if y <? x then false else array_lt a' b'
  end.

Definition closerTo (a b target : Id) : bool :=
  array_lt (xorDistance a target) (xorDistance b target).

Definition toHex (id : Id) : str := bytesToHex id.

Definition fromHex (hex : str) : result Id :=
  bytes ← hexToBytes hex;
  let n := Nat.min (length bytes) ID_BYTES in
  mret (take n bytes ++ drop n id_zero).

(** ** Identifiers as integers *)

(** The 160-bit integer, most significant byte first. *)
Definition id_value (id : Id) : Z := foldl (λ acc b, acc * 256 + b) 0 id.

(** The distance of the Kademlia metric. *)
Definition distance (a b : Id) : Z := id_value (xorDistance a b).

Lemma id_value_app l k :
  id_value (l ++ k) = foldl (λ acc b, acc * 256 + b) (id_value l) k.
Proof. apply foldl_app. Qed.

Lemma id_value_snoc l b : id_value (l ++ [b]) = id_value l * 256 + b.
Proof. by rewrite id_value_app. Qed.

Lemma id_value_bounds l :
  Forall is_byte l → 0 ≤ id_value l < 256 ^ Z.of_nat (length l).
Proof.
  induction l as [|b l IH] using rev_ind; intros Hl; [by vm_compute|].
  apply Forall_app in Hl as [Hl Hb]. inv Hb. unfold is_byte in *.
  rewrite id_value_snoc, length_app. cbn [length].
  rewrite Nat.add_1_r, Nat2Z.inj_succ, Z.pow_succ_r by lia. specialize (IH Hl). lia.
Qed.

Lemma id_value_cons b l :
  id_value (b :: l) = b * 256 ^ Z.of_nat (length l) + id_value l.
Proof.
  induction l as [|c l IH] using rev_ind; [cbn; lia|].
  change (b :: l ++ [c]) with ((b :: l) ++ [c]).
  rewrite !id_value_snoc, IH, length_app. cbn [length].
  rewrite Nat.add_1_r, Nat2Z.inj_succ, Z.pow_succ_r by lia. lia.
Qed.

Lemma array_lt_value a b :
  length a = length b → Forall is_byte a → Forall is_byte b →
  array_lt a b = true ↔ id_value a < id_value b.
Proof.
  intros Hl Ha. revert b Hl. induction Ha as [|x a Hx Ha IH]; intros [|y b] Hl Hb; try done.
  injection Hl as Hl. inv Hb. rewrite !id_value_cons, Hl. cbn [array_lt].
  pose proof (id_value_bounds a Ha) as Hva. rewrite Hl in Hva.
  pose proof (id_value_bounds b ltac:(done)) as Hvb.
  set (p := 256 ^ Z.of_nat (length b)) in *.
  destruct (Z.ltb_spec x y); [split; [nia|done]|].
  destruct (Z.ltb_spec y x); [split; [done|nia]|].
  assert (x = y) as -> by lia. rewrite IH by done. lia.
Qed.

Lemma id_value_inj a b :
  length a = length b → Forall is_byte a → Forall is_byte b →
  id_value a = id_value b → a = b.
Proof.
  intros Hl Ha. revert b Hl. induction Ha as [|x a Hx Ha IH]; intros [|y b] Hl Hb; try done.
  injection Hl as Hl. inv Hb. rewrite !id_value_cons, Hl.
  pose proof (id_value_bounds a Ha) as Hva. rewrite Hl in Hva.
  pose proof (id_value_bounds b ltac:(done)) as Hvb.
  set (p := 256 ^ Z.of_nat (length b)) in *. intros E.
  assert (x = y) as -> by nia. f_equal. apply IH; [done|done|nia].
Qed.

(** ** The bits of a distance *)

Lemma testbit_byte_append v b m :
  is_byte b → 0 ≤ m →
  Z.testbit (v * 256 + b) m = if m <? 8 then Z.testbit b m else Z.testbit v (m - 8).
Proof.
  intros Hb Hm. unfold is_byte in Hb. change 256 with (2 ^ 8).
  destruct (Z.ltb_spec m 8).
  - rewrite <- (Z.mod_pow2_bits_low _ 8) by lia.
    rewrite Z.add_comm, Z_mod_plus_full, Z.mod_small by lia. done.
  - replace m with ((m - 8) + 8) at 1 by lia. rewrite <- Z.div_pow2_bits by lia.
    rewrite Z.div_add_l by lia. rewrite (Z.div_small b) by lia. f_equal. lia.
Qed.

Lemma lxor_byte_append v w b c :
  is_byte b → is_byte c →
  Z.lxor (v * 256 + b) (w * 256 + c) = Z.lxor v w * 256 + Z.lxor b c.
Proof.
  intros Hb Hc. apply Z.bits_inj'. intros m Hm. rewrite Z.lxor_spec.
  rewrite !testbit_byte_append by auto with dss.
  destruct (m <? 8); by rewrite Z.lxor_spec.
Qed.

Lemma xorDistance_bytes a b :
  Forall is_byte a → Forall is_byte b → Forall is_byte (xorDistance a b).
Proof.
  intros Ha. revert b. induction Ha as [|x a Hx Ha IH]; intros b Hb; [constructor|].
  destruct Hb as [|y b Hy Hb]; [constructor|].
  constructor; [apply u8_range|by apply IH].
Qed.

Lemma xorDistance_length a b :
  length a = length b → length (xorDistance a b) = length a.
Proof. intros. unfold xorDistance. rewrite length_zip_with. lia. Qed.

Lemma xorDistance_ok a b : id_ok a → id_ok b → id_ok (xorDistance a b).
Proof.
  intros [Ha ?] [Hb ?]. split.
  - rewrite xorDistance_length; congruence.
  - by apply xorDistance_bytes.
Qed.

#[export] Hint Resolve xorDistance_ok : dss.

(** The distance is the exclusive or of the integers. *)
Lemma distance_lxor a b :
  length a = length b → Forall is_byte a → Forall is_byte b →
  distance a b = Z.lxor (id_value a) (id_value b).
Proof.
  unfold distance. revert b.
  induction a as [|x a IH] using rev_ind; intros b Hl Ha Hb.
  { by destruct b. }
  destruct b as [|y b _] using rev_ind; [by destruct a|].
  rewrite !length_app in Hl. cbn [length] in Hl.
  apply Forall_app in Ha as [Ha Hx]. apply Forall_app in Hb as [Hb Hy].
  inv Hx. inv Hy. unfold xorDistance in *.
  rewrite zip_with_app by lia. cbn [zip_with].
  rewrite !id_value_snoc, IH, lxor_byte_append by (done || lia).
  rewrite u8_id; auto with dss.
Qed.

Lemma distance_lxor_ok a b :
  id_ok a → id_ok b → distance a b = Z.lxor (id_value a) (id_value b).
Proof. intros [? ?] [? ?]. apply distance_lxor; congruence || done. Qed.

Lemma id_value_nonneg id : id_ok id → 0 ≤ id_value id.
Proof. intros [_ H]. by apply id_value_bounds. Qed.

Lemma lxor_le_add u v : 0 ≤ u → 0 ≤ v → Z.lxor u v ≤ u + v.
Proof.
  intros Hu Hv. rewrite <- (Z.add_lxor_2land u v).
  assert (0 ≤ Z.land u v) by (apply Z.land_nonneg; lia). lia.
Qed.

(** ** The order by distance *)

Lemma closerTo_distance a b t :
  id_ok a → id_ok b → id_ok t →
  closerTo a b t = true ↔ distance a t < distance b t.
Proof.
  intros Ha Hb Ht. unfold closerTo, distance.
  destruct (xorDistance_ok a t Ha Ht), (xorDistance_ok b t Hb Ht).
  apply array_lt_value; congruence || done.
Qed.

(** Two ids at the same distance from a target are equal. *)
Lemma distance_unique a b t :
  id_ok a → id_ok b → id_ok t → distance a t = distance b t → a = b.
Proof.
  intros Ha Hb Ht. rewrite !distance_lxor_ok by done. intros E.
  destruct Ha as [? ?], Hb as [? ?]. apply id_value_inj; [congruence|done..|].
  apply (f_equal (λ x, Z.lxor x (id_value t))) in E.
  by rewrite !Z.lxor_assoc, !Z.lxor_nilpotent, !Z.lxor_0_r in E.
Qed.

Lemma array_lt_irrefl a : array_lt a a = false.
Proof.
  induction a as [|x a IH]; [done|]. cbn. by destruct (Z.ltb_spec x x); [lia|].
Qed.

Lemma closerTo_irrefl a t : closerTo a a t = false.
Proof. apply array_lt_irrefl. Qed.

Lemma closerTo_trans a b c t :
  id_ok a → id_ok b → id_ok c → id_ok t →
  closerTo a b t = true → closerTo b c t = true → closerTo a c t = true.
Proof. intros. rewrite !closerTo_distance in * by done. lia. Qed.

Lemma closerTo_asym a b t :
  id_ok a → id_ok b → id_ok t → closerTo a b t = true → closerTo b a t = false.
Proof.
  intros. apply not_true_iff_false. rewrite !closerTo_distance in * by done. lia.
Qed.

Lemma closerTo_total a b t :
  id_ok a → id_ok b → id_ok t →
  closerTo a b t = false → closerTo b a t = false → a = b.
Proof.
  intros Ha Hb Ht H1 H2. apply (distance_unique _ _ t Ha Hb Ht).
  apply not_true_iff_false in H1, H2. rewrite !closerTo_distance in * by done. lia.
Qed.

(** ** Identifiers from digests and text *)

Lemma idFromBytes_ok bytes : Forall is_byte bytes → id_ok (idFromBytes bytes).
Proof.
  intros Hb. unfold idFromBytes, id_ok. split.
  - rewrite length_app, length_take, length_drop.
    unfold id_zero. rewrite length_replicate. unfold ID_BYTES. lia.
  - apply Forall_app. split; [by apply Forall_take|].
    apply Forall_drop, Forall_replicate. unfold is_byte. lia.
Qed.

Lemma idFromBytes_long bytes :
  (ID_BYTES ≤ length bytes)%nat → idFromBytes bytes = take ID_BYTES bytes.
Proof.
  intros. unfold idFromBytes. rewrite Nat.min_r by done.
  rewrite drop_ge; [apply app_nil_r|]. unfold id_zero. by rewrite length_replicate.
Qed.

Section id_lemmas.
Context `{Sha256}.

(** The first 20 bytes of a digest. *)
Definition digest_id (data : str) : Id := take ID_BYTES (SHA256 data).

Lemma digest_id_ok data : id_ok (digest_id data).
Proof.
  unfold digest_id, id_ok. split.
  - rewrite length_take, SHA256_length. done.
  - apply Forall_take, SHA256_bytes.
Qed.

Lemma id_of_hash_text data :
  (bytes ← hexToBytes (sha256_hex data); mret (idFromBytes bytes)) =
  Ok (digest_id data).
Proof.
  rewrite sha256_hex_bytesToHex, hexToBytes_inverse by apply SHA256_bytes.
  m_unfold. f_equal. apply idFromBytes_long. rewrite SHA256_length. unfold ID_BYTES. lia.
Qed.

Lemma makeKeyId_digest key : makeKeyId key = Ok (digest_id key).
Proof. apply id_of_hash_text. Qed.

Lemma makeNodeId_digest peer :
  makeNodeId peer = Ok (digest_id (endpoint_text peer)).
Proof. apply id_of_hash_text. Qed.
End id_lemmas.

#[export] Hint Resolve digest_id_ok : dss.

(** ** Properties *)

(** On identifiers, [closerTo] is the order of the 160-bit integers: the
    lexicographic comparison of the distance arrays decides whether the exclusive
    or of one id with the target, as an integer, is less than that of the other. *)
Theorem closerTo_is_integer_order a b t :
  id_ok a → id_ok b → id_ok t →
  closerTo a b t = true ↔
  Z.lxor (id_value a) (id_value t) < Z.lxor (id_value b) (id_value t).
Proof.
  intros. by rewrite closerTo_distance, !distance_lxor_ok.
Qed.

Lemma closerTo_is_integer_order_witness :
  let id n := idFromBytes [n; 7; 255] in
  closerTo (id 5) (id 200) (id 1) = true ∧
  (closerTo (id 5) (id 200) (id 1) = true ↔
   Z.lxor (id_value (id 5)) (id_value (id 1)) <
   Z.lxor (id_value (id 200)) (id_value (id 1))).
Proof.
  split; [reflexivity|].
  apply closerTo_is_integer_order; apply idFromBytes_ok; by repeat constructor.
Defined.

(** The distance is a metric in which every distance from a target is taken
    by at most one id: it is symmetric, zero exactly between equal ids, satisfies
    the triangle inequality, and determines the id. *)
Theorem xor_metric a b c :
  id_ok a → id_ok b → id_ok c →
  distance a b = distance b a ∧
  (distance a b = 0 ↔ a = b) ∧
  distance a c ≤ distance a b + distance b c ∧
  (distance a c = distance b c → a = b).
Proof.
  intros Ha Hb Hc. rewrite !distance_lxor_ok by done. split; [apply Z.lxor_comm|].
  split; [|split].
  - split; [|by intros ->; apply Z.lxor_nilpotent]. intros E%Z.lxor_eq.
    destruct Ha, Hb. apply id_value_inj; congruence || done.
  - pose proof (id_value_nonneg _ Ha). pose proof (id_value_nonneg _ Hb).
    pose proof (id_value_nonneg _ Hc).
    replace (Z.lxor (id_value a) (id_value c))
      with (Z.lxor (Z.lxor (id_value a) (id_value b)) (Z.lxor (id_value b) (id_value c))).
    + apply lxor_le_add; by apply Z.lxor_nonneg.
    + rewrite Z.lxor_assoc, <- (Z.lxor_assoc (id_value b)), Z.lxor_nilpotent.
      by rewrite Z.lxor_0_l.
  - rewrite <- !distance_lxor_ok by done. by apply distance_unique.
Qed.

Lemma xor_metric_witness :
  let id n := idFromBytes [n; 7; 255] in
  distance (id 5) (id 9) ≤ distance (id 5) (id 200) + distance (id 200) (id 9).
Proof.
  cbn zeta. apply (xor_metric (idFromBytes [5; 7; 255]) (idFromBytes [200; 7; 255])
    (idFromBytes [9; 7; 255])); apply idFromBytes_ok; by repeat constructor.
Defined.

(** Printing an id and reading the text back gives the id. *)
Theorem fromHex_toHex id : id_ok id → fromHex (toHex id) = Ok id.
Proof.
  intros [Hl Hb]. unfold fromHex, toHex. rewrite hexToBytes_inverse by done.
  m_unfold. f_equal. rewrite Hl, Nat.min_id, take_ge by lia.
  by rewrite drop_ge, app_nil_r.
Qed.

Lemma fromHex_toHex_witness :
  fromHex (toHex (idFromBytes [222; 173; 190; 239])) = Ok (idFromBytes [222; 173; 190; 239]).
Proof. apply fromHex_toHex, idFromBytes_ok. by repeat constructor. Defined.

(** The detour through hexadecimal text never throws: a node id is the first
    20 bytes of the digest of [ip:port], a key id the first 20 bytes of the digest
    of the key, and both are well formed. *)
Theorem ids_are_digest_prefixes `{Sha256} peer key :
  makeNodeId peer = Ok (take 20 (SHA256 (endpoint_text peer))) ∧
  makeKeyId key = Ok (take 20 (SHA256 key)) ∧
  id_ok (from_ok [] (makeNodeId peer)) ∧ id_ok (from_ok [] (makeKeyId key)).
Proof.
  rewrite makeNodeId_digest, makeKeyId_digest. cbn [from_ok].
  repeat split; apply digest_id_ok.
Qed.

Lemma ids_are_digest_prefixes_witness :
  makeKeyId (H := toy_sha256) (lit "client") =
  Ok (take 20 (SHA256 (Sha256 := toy_sha256) (lit "client"))).
Proof.
  exact (proj1 (proj2 (ids_are_digest_prefixes (H := toy_sha256)
    (mk_endpoint (lit "127.0.0.1") 9101) (lit "client")))).
Defined.
