(* ===== verification/StdSort.v ===== *)
(** * [std::sort]

    The standard fixes what [std::sort] returns up to the order of equivalent
    elements: a permutation of the input in which no element is before one that
    the comparison puts first.  [std_sort] is an executable function with that
    contract, and under a comparison that separates the elements it is the only
    one. *)

From S2P Require Import Prelude.

Section std_sort.
Context {A : Type} (lt : A → A → bool).

Fixpoint sort_insert (x : A) (l : list A) : list A :=
  match l with
  | [] => [x]
  | y :: l' => if lt y x then y :: sort_insert x l' else x :: y :: l'
  end.

Fixpoint std_sort (l : list A) : list A :=
  match l with
  | [] => []
  | x :: l' => sort_insert x (std_sort l')
  end.

(** The contract: what the algorithm of an implementation may return. *)
Definition sort_result (l r : list A) : Prop :=
  r ≡ₚ l ∧ StronglySorted (λ a b, lt b a = false) r.

Lemma sort_insert_perm x l : sort_insert x l ≡ₚ x :: l.
Proof.
  induction l as [|y l IH]; cbn; [done|]. destruct (lt y x); [|done].
  rewrite IH. apply Permutation_swap.
Qed.

Lemma std_sort_perm l : std_sort l ≡ₚ l.
Proof. induction l as [|x l IH]; cbn; [done|]. by rewrite sort_insert_perm, IH. Qed.

(** The comparison compares an integer key, on the elements with [P]. *)
Section keyed.
Context (P : A → Prop) (key : A → Z).
Context (lt_key : ∀ a b, P a → P b → lt a b = true ↔ key a < key b).

Let le_key (a b : A) : Prop := key a ≤ key b.

Lemma lt_key_false a b : P a → P b → lt b a = false ↔ key a ≤ key b.
Proof. intros Ha Hb. rewrite <- not_true_iff_false, lt_key by done. lia. Qed.

Lemma sort_insert_keyed x l :
  P x → Forall P l → StronglySorted le_key l → StronglySorted le_key (sort_insert x l).
Proof.
  intros Hx Hl Hs. induction Hs as [|y l Hs IH Hy]; cbn; [by repeat constructor|].
  inv Hl. destruct (lt y x) eqn:E.
  - constructor; [by apply IH|]. apply lt_key in E; [|done..].
    rewrite sort_insert_perm. constructor; [unfold le_key; lia|done].
  - apply lt_key_false in E; [|done..]. constructor; [by constructor|].
    constructor; [done|]. eapply Forall_impl; [exact Hy|].
    unfold le_key. cbn. lia.
Qed.

Lemma std_sort_keyed l : Forall P l → StronglySorted le_key (std_sort l).
Proof.
  induction 1 as [|x l Hx Hl IH]; cbn; [constructor|].
  apply sort_insert_keyed; [done| |done]. by rewrite std_sort_perm.
Qed.

Lemma StronglySorted_keyed l :
  Forall P l →
  StronglySorted (λ a b, lt b a = false) l ↔ StronglySorted le_key l.
Proof.
  intros Hl. induction Hl as [|x l Hx Hl IH]; [split; constructor|].
  assert (Forall (λ b, lt b x = false) l ↔ Forall (le_key x) l) as Hf.
  { clear IH. induction Hl as [|y l Hy Hl IH]; [split; constructor|].
    rewrite !Forall_cons, IH. unfold le_key. by rewrite lt_key_false. }
  split; intros Hs; inv Hs; (constructor; [by apply IH | by apply Hf]).
Qed.

Lemma std_sort_result l : Forall P l → sort_result l (std_sort l).
Proof.
  intros Hl. split; [apply std_sort_perm|]. apply StronglySorted_keyed.
  - by rewrite std_sort_perm.
  - by apply std_sort_keyed.
Qed.

(** A key that separates the elements leaves one result. *)
Lemma sort_result_unique l r1 r2 :
  Forall P l → (∀ a b, a ∈ l → b ∈ l → key a = key b → a = b) →
  sort_result l r1 → sort_result l r2 → r1 = r2.
Proof.
  intros Hl Hinj [Hp1 Hs1] [Hp2 Hs2].
  apply StronglySorted_keyed in Hs1; [|by rewrite Hp1].
  apply StronglySorted_keyed in Hs2; [|by rewrite Hp2].
  eapply StronglySorted_unique_strong; [|exact Hs1|exact Hs2|by rewrite Hp1].
  intros a b Ha Hb ? ?. apply Hinj; [by rewrite <- Hp1|by rewrite <- Hp2|].
  unfold le_key in *. lia.
Qed.
End keyed.
End std_sort.
