(* ===== verification/RoutingTable.v ===== *)
(** * The routing table

    Models [src/core/dht/kademlia_routing_table.h] and [.cpp]: a flat list of
    the known nodes, one entry per id and none for the node itself. *)

From S2P Require Import Prelude.
From S2P Require Import StdSort.
From S2P Require Import PeerEndpoint.
From S2P Require Import KademliaId.

Record NodeInfo := mk_node { node_id : Id; endpoint : PeerEndpoint }.

#[export] Instance NodeInfo_eq_dec : EqDecision NodeInfo.
Proof. solve_decision. Defined.

Record RoutingTable := mk_table { selfId : Id; nodes : list NodeInfo }.

(** The constructor. *)
Definition new_table (self : Id) : RoutingTable := mk_table self [].

(** The loop that replaces the endpoint of the first entry with the node's id;
    [None] when it runs off the end. *)
Fixpoint replace_endpoint (node : NodeInfo) (l : list NodeInfo) : option (list NodeInfo) :=
  match l with
  | [] => None
  | n :: l' =>
      if bool_decide (node_id n = node_id node)
      then Some (mk_node (node_id n) (endpoint node) :: l')
      else cons n <$> replace_endpoint node l'
  end.

Definition addNode (node : NodeInfo) (t : RoutingTable) : RoutingTable :=
  if bool_decide (node_id node = selfId t) then t
  else match replace_endpoint node (nodes t) with
       | Some l => mk_table (selfId t) l
       | None => mk_table (selfId t) (nodes t ++ [node])
       end.

(** The comparison that [closestNodes] gives to [std::sort]. *)
Definition node_closer (target : Id) (a b : NodeInfo) : bool :=
  closerTo (node_id a) (node_id b) target.

Definition closestNodes (t : RoutingTable) (target : Id) (k : nat) : list NodeInfo :=
  if bool_decide (nodes t = []) || (k =? 0)%nat then []
  else
    let tmp := std_sort (node_closer target) (nodes t) in
    if (k <? length tmp)%nat then take k tmp else tmp.

Definition allNodes (t : RoutingTable) : list NodeInfo := nodes t.

(** ** Invariant *)

(** One entry per id, no entry for the node itself, and ids of the right shape. *)
Record table_ok (t : RoutingTable) : Prop := {
  table_self : id_ok (selfId t);
  table_ids : Forall (λ n, id_ok (node_id n)) (nodes t);
  table_nodup : NoDup (map node_id (nodes t));
  table_no_self : selfId t ∉ map node_id (nodes t);
}.

(** What the table knows about an id. *)
Definition endpoint_of (t : RoutingTable) (i : Id) : option PeerEndpoint :=
  endpoint <$> find (λ n, bool_decide (node_id n = i)) (nodes t).

Lemma find_none_not_elem i l :
  find (λ n, bool_decide (node_id n = i)) l = None ↔ i ∉ map node_id l.
Proof.
  induction l as [|n l IH]; cbn; [split; [intros _; apply not_elem_of_nil|done]|].
  rewrite not_elem_of_cons, <- IH. case_bool_decide; naive_solver.
Qed.

Lemma replace_endpoint_none node l :
  replace_endpoint node l = None ↔ node_id node ∉ map node_id l.
Proof.
  induction l as [|n l IH]; cbn; [split; [intros _; apply not_elem_of_nil|done]|].
  rewrite not_elem_of_cons, <- IH. case_bool_decide; [naive_solver|].
  rewrite fmap_None. naive_solver.
Qed.

Lemma replace_endpoint_ids node l l' :
  replace_endpoint node l = Some l' → map node_id l' = map node_id l.
Proof.
  revert l'. induction l as [|n l IH]; intros l' E; cbn in E; [done|].
  case_bool_decide; [by inv E|]. apply fmap_Some in E as (k & E & ->). cbn.
  by rewrite (IH k).
Qed.

Lemma replace_endpoint_find node l l' i :
  replace_endpoint node l = Some l' →
  endpoint <$> find (λ n, bool_decide (node_id n = i)) l' =
  (if bool_decide (i = node_id node) then Some (endpoint node)
   else endpoint <$> find (λ n, bool_decide (node_id n = i)) l).
Proof.
  revert l'. induction l as [|n l IH]; intros l' E; cbn in E; [done|].
  case_bool_decide as Hn.
  - inv E. cbn. rewrite Hn. repeat case_bool_decide; congruence || done.
  - apply fmap_Some in E as (k & E & ->). cbn. specialize (IH k E).
    repeat case_bool_decide; congruence || done.
Qed.

Lemma Forall_ids (P : Id → Prop) l :
  Forall (λ n, P (node_id n)) l ↔ Forall P (map node_id l).
Proof. by rewrite Forall_map. Qed.

Lemma new_table_ok self : id_ok self → table_ok (new_table self).
Proof. intros. split; cbn; [done|constructor|constructor|set_solver]. Qed.

Lemma addNode_ok node t : table_ok t → id_ok (node_id node) → table_ok (addNode node t).
Proof.
  intros [Hs Hi Hn Hx] Hid. unfold addNode. case_bool_decide as Hself; [by split|].
  rewrite Forall_ids in Hi.
  destruct (replace_endpoint node (nodes t)) as [l|] eqn:E.
  - apply replace_endpoint_ids in E. split; cbn; rewrite ?Forall_ids, ?E; done.
  - apply replace_endpoint_none in E.
    split; cbn; rewrite ?Forall_ids, ?map_app; cbn; [done| | |].
    + apply Forall_app. split; [done|by constructor].
    + apply NoDup_app. split; [done|]. split; [set_solver|]. apply NoDup_singleton.
    + set_solver.
Qed.

Lemma endpoint_of_addNode node t i :
  node_id node ≠ selfId t →
  endpoint_of (addNode node t) i =
  if bool_decide (i = node_id node) then Some (endpoint node) else endpoint_of t i.
Proof.
  intros Hs. unfold addNode, endpoint_of. rewrite bool_decide_eq_false_2 by done.
  destruct (replace_endpoint node (nodes t)) as [l|] eqn:E; cbn.
  - by apply replace_endpoint_find.
  - apply replace_endpoint_none in E. rewrite find_app. cbn.
    destruct (find (λ n, bool_decide (node_id n = i)) (nodes t)) as [n|] eqn:F.
    + case_bool_decide as Hi; [|done]. subst i. exfalso. apply E.
      apply find_some in F as [F <-%bool_decide_eq_true].
      apply list_elem_of_In, in_map, F.
    + repeat case_bool_decide; congruence || done.
Qed.

Lemma addNode_selfId n t : selfId (addNode n t) = selfId t.
Proof.
  unfold addNode. case_bool_decide; [done|].
  by destruct (replace_endpoint _ _).
Qed.

(** Under the invariant the entries are what the table knows. *)
Lemma elem_of_nodes t n :
  table_ok t → n ∈ nodes t ↔ endpoint_of t (node_id n) = Some (endpoint n).
Proof.
  intros Ht. pose proof (table_nodup _ Ht) as Hn. unfold endpoint_of. clear Ht.
  induction (nodes t) as [|m l IH]; cbn.
  { split; [by intros ?%not_elem_of_nil|done]. }
  cbn in Hn. apply NoDup_cons in Hn as [Hm Hn]. specialize (IH Hn).
  rewrite elem_of_cons. case_bool_decide as E; cbn.
  - destruct m as [i e], n as [j f]; cbn in *; subst. split; [|intros [= ->]; by left].
    intros [[= ->]|Hin]; [done|]. destruct Hm.
    by apply (list_elem_of_fmap_2 node_id _ _ Hin).
  - rewrite <- IH. split; [|by right]. intros [->|]; done.
Qed.

(** ** Sorting by distance *)

Lemma node_closer_key target a b :
  id_ok target → id_ok (node_id a) → id_ok (node_id b) →
  node_closer target a b = true ↔
  distance (node_id a) target < distance (node_id b) target.
Proof. intros. by apply closerTo_distance. Qed.

Section sorted_nodes.
Context (t : RoutingTable) (target : Id) (Ht : table_ok t) (Htg : id_ok target).

Lemma nodes_sort_result :
  sort_result (node_closer target) (nodes t) (std_sort (node_closer target) (nodes t)).
Proof.
  eapply (std_sort_result _ (λ n, id_ok (node_id n)) (λ n, distance (node_id n) target)).
  - intros. by apply node_closer_key.
  - apply Ht.
Qed.

Lemma node_distance_inj a b :
  a ∈ nodes t → b ∈ nodes t →
  distance (node_id a) target = distance (node_id b) target → a = b.
Proof.
  intros Ha Hb E. pose proof (table_ids _ Ht) as Hi. rewrite Forall_forall in Hi.
  apply distance_unique in E; [|by apply Hi..|done].
  pose proof (table_nodup _ Ht) as Hn.
  apply list_elem_of_lookup in Ha as [i Ha]. apply list_elem_of_lookup in Hb as [j Hb].
  assert (i = j) as ->; [|congruence].
  eapply (NoDup_lookup _ i j (node_id a) Hn); rewrite list_lookup_fmap.
  - by rewrite Ha.
  - by rewrite Hb, E.
Qed.

Lemma nodes_sort_unique r :
  sort_result (node_closer target) (nodes t) r →
  r = std_sort (node_closer target) (nodes t).
Proof.
  intros Hr.
  eapply (sort_result_unique (node_closer target) (λ n, id_ok (node_id n))
           (λ n, distance (node_id n) target) ltac:(intros; by apply node_closer_key)
           (nodes t)).
  - apply Ht.
  - intros. by apply node_distance_inj.
  - done.
  - apply nodes_sort_result.
Qed.

Lemma nodes_sort_strict :
  StronglySorted (λ a b, distance (node_id a) target < distance (node_id b) target)
    (std_sort (node_closer target) (nodes t)).
Proof.
  destruct nodes_sort_result as [Hp Hs].
  apply (StronglySorted_keyed (node_closer target) (λ n, id_ok (node_id n))
           (λ n, distance (node_id n) target)) in Hs.
  2: { intros. by apply node_closer_key. }
  2: { rewrite Hp. apply Ht. }
  assert (NoDup (std_sort (node_closer target) (nodes t))) as Hnd.
  { rewrite Hp. eapply NoDup_fmap_1, (table_nodup _ Ht). }
  assert (∀ n, n ∈ std_sort (node_closer target) (nodes t) → n ∈ nodes t) as Hin.
  { intros n. by rewrite Hp. }
  revert Hnd Hin. generalize (std_sort (node_closer target) (nodes t)) Hs.
  clear Hs Hp. induction 1 as [|a l Hs IH Ha]; intros Hnd Hin; [constructor|].
  inv Hnd. constructor; [apply IH; [done|set_solver]|].
  rewrite Forall_forall in Ha |- *. intros b Hb. specialize (Ha b Hb).
  destruct (decide (distance (node_id a) target = distance (node_id b) target)) as [E|];
    [|lia]. apply node_distance_inj in E; [by subst|set_solver..].
Qed.

Lemma closestNodes_take k :
  closestNodes t target k = take k (std_sort (node_closer target) (nodes t)).
Proof.
  unfold closestNodes. case_bool_decide as E; cbn [orb].
  { rewrite E. cbn [std_sort]. by rewrite take_nil. }
  destruct (Nat.eqb_spec k 0) as [->|]; [done|].
  destruct (Nat.ltb_spec k (length (std_sort (node_closer target) (nodes t)))); [done|].
  by rewrite take_ge.
Qed.
End sorted_nodes.

(** ** Properties *)

(** Adding a node keeps the invariant, and afterwards the table knows the
    node's endpoint under its id and knows about every other id what it knew
    before; a node with the table's own id changes nothing. *)
Theorem addNode_spec node t :
  table_ok t → id_ok (node_id node) →
  table_ok (addNode node t) ∧
  ∀ i, endpoint_of (addNode node t) i =
       if bool_decide (i = node_id node ∧ i ≠ selfId t) then Some (endpoint node)
       else endpoint_of t i.
Proof.
  intros Ht Hid. split; [by apply addNode_ok|]. intros i.
  destruct (decide (node_id node = selfId t)) as [E|E].
  - unfold addNode. rewrite bool_decide_eq_true_2 by done.
    rewrite bool_decide_eq_false_2; [done|]. intros [-> ?]. done.
  - rewrite endpoint_of_addNode by done. repeat case_bool_decide; naive_solver.
Qed.

Definition example_id (n : Z) : Id := idFromBytes [n].
Definition example_node (n : Z) : NodeInfo :=
  mk_node (example_id n) (mk_endpoint (lit "10.0.0.1") n).
Definition example_table : RoutingTable :=
  foldl (λ t n, addNode (example_node n) t) (new_table (example_id 0)) [9; 5; 12; 3; 0].

Lemma example_table_ok : table_ok example_table.
Proof.
  unfold example_table. cbn [foldl].
  repeat (apply addNode_ok; [|by apply idFromBytes_ok; repeat constructor]).
  apply new_table_ok, idFromBytes_ok. by repeat constructor.
Qed.

Lemma addNode_spec_witness :
  endpoint_of (addNode (mk_node (example_id 5) (mk_endpoint (lit "h") 1)) example_table)
    (example_id 5) = Some (mk_endpoint (lit "h") 1).
Proof.
  rewrite (proj2 (addNode_spec (mk_node (example_id 5) (mk_endpoint (lit "h") 1))
    example_table example_table_ok (idFromBytes_ok [5] ltac:(by repeat constructor)))).
  reflexivity.
Defined.

(** [closestNodes] returns the [k] nearest nodes: as many as [k] and the table
    allow, all from the table, in order of strictly growing distance from the
    target, and every node left out is farther away than every node returned. *)
Theorem closestNodes_nearest t target k :
  table_ok t → id_ok target →
  length (closestNodes t target k) = Nat.min k (length (nodes t)) ∧
  StronglySorted (λ a b, distance (node_id a) target < distance (node_id b) target)
    (closestNodes t target k) ∧
  ∃ left_out,
    nodes t ≡ₚ closestNodes t target k ++ left_out ∧
    ∀ n m, n ∈ closestNodes t target k → m ∈ left_out →
           distance (node_id n) target < distance (node_id m) target.
Proof.
  intros Ht Htg. rewrite closestNodes_take.
  set (r := std_sort (node_closer target) (nodes t)).
  destruct (nodes_sort_result t target Ht Htg) as [Hp _]. fold r in Hp.
  pose proof (nodes_sort_strict t target Ht Htg) as Hs. fold r in Hs.
  rewrite <- (take_drop k r) in Hs at 1.
  split; [by rewrite length_take, Hp|]. split; [by apply StronglySorted_app_1_l in Hs|].
  exists (drop k r). split; [by rewrite take_drop, Hp|].
  intros n m Hn Hm. by eapply (StronglySorted_app_1_elem_of _ _ _ n m Hs).
Qed.

Lemma closestNodes_nearest_witness :
  map node_id (closestNodes example_table (example_id 4) 2) = [example_id 5; example_id 3] ∧
  length (closestNodes example_table (example_id 4) 2) = Nat.min 2 (length (nodes example_table)).
Proof.
  split; [reflexivity|].
  apply (closestNodes_nearest example_table (example_id 4) 2 example_table_ok).
  apply idFromBytes_ok. by repeat constructor.
Defined.

(** The answer does not depend on the sorting algorithm: whatever permutation
    of the nodes [std::sort] may return under its contract, its first [k] entries
    are the result. *)
Theorem closestNodes_any_sort t target k r :
  table_ok t → id_ok target →
  sort_result (node_closer target) (nodes t) r →
  closestNodes t target k = take k r.
Proof.
  intros Ht Htg Hr. rewrite closestNodes_take. f_equal. symmetry.
  by apply nodes_sort_unique.
Qed.

Lemma closestNodes_any_sort_witness :
  closestNodes example_table (example_id 4) 2 =
  take 2 (std_sort (node_closer (example_id 4)) (nodes example_table)).
Proof.
  apply closestNodes_any_sort.
  - exact example_table_ok.
  - apply idFromBytes_ok. by repeat constructor.
  - apply nodes_sort_result; [exact example_table_ok|].
    apply idFromBytes_ok. by repeat constructor.
Defined.
