(* ===== verification/DhtNode.v ===== *)
(** * The DHT node

    Models [src/core/dht/dht_node.h] and [.cpp]: the placement of keys on a
    fixed set of peers by XOR distance. *)

From S2P Require Import Prelude.
From S2P Require Import CxxStd.
From S2P Require Import StdSort.
From S2P Require Import Hex.
From S2P Require Import PeerEndpoint.
From S2P Require Import KademliaId.
From S2P Require Import RoutingTable.

Record DhtNode := mk_dht { dht_selfId : Id; dht_table : RoutingTable }.

Section dht.
Context `{Sha256}.

(** The loop of the constructor. *)
Fixpoint add_peers (peers : list PeerEndpoint) (t : RoutingTable)
  : result RoutingTable :=
  match peers with
  | [] => mret t
  | p :: peers' =>
      i ← makeNodeId p;
      add_peers peers' (addNode (mk_node i p) t)
  end.

Definition new_dht (peers : list PeerEndpoint) : result DhtNode :=
  self ← makeKeyId (lit "client");
  t ← add_peers peers (new_table self);
  mret (mk_dht self t).

Definition findNode (d : DhtNode) (target : Id) (k : nat) : list NodeInfo :=
  let all := allNodes (dht_table d) in
  if bool_decide (all = []) || (k =? 0)%nat then []
  else
    let k := if (length all <? k)%nat then length all else k in
    closestNodes (dht_table d) target k.

Definition store (d : DhtNode) (key : str) (replicas : Z) : result (list PeerEndpoint) :=
  let replicas := if replicas <=? 0 then 1 else replicas in
  let all := allNodes (dht_table d) in
  if bool_decide (all = []) then mret []
  else
    let k := Z.to_nat replicas in
    let k := if (length all <? k)%nat then length all else k in
    keyId ← makeKeyId key;
    mret (map endpoint (closestNodes (dht_table d) keyId k)).

Definition findValue (d : DhtNode) (key : str) (replicas : Z)
  : result (list PeerEndpoint) := store d key replicas.

(** ** The table that the constructor builds *)

Definition peer_id (p : PeerEndpoint) : Id := digest_id (endpoint_text p).
Definition client_id : Id := digest_id (lit "client").
Definition peer_node (p : PeerEndpoint) : NodeInfo := mk_node (peer_id p) p.

Definition add_all (peers : list PeerEndpoint) (t : RoutingTable) : RoutingTable :=
  foldl (λ t p, addNode (peer_node p) t) t peers.

Definition peers_table (peers : list PeerEndpoint) : RoutingTable :=
  add_all peers (new_table client_id).

Lemma add_peers_ok peers t : add_peers peers t = Ok (add_all peers t).
Proof.
  revert t. induction peers as [|p peers IH]; intros t; [done|].
  cbn [add_peers]. rewrite makeNodeId_digest. m_unfold. by rewrite IH.
Qed.

(** The constructor never throws. *)
Lemma new_dht_ok peers : new_dht peers = Ok (mk_dht client_id (peers_table peers)).
Proof.
  unfold new_dht. rewrite makeKeyId_digest. m_unfold. by rewrite add_peers_ok.
Qed.

Lemma add_all_table_ok peers t : table_ok t → table_ok (add_all peers t).
Proof.
  revert t. induction peers as [|p peers IH]; intros t Ht; [done|].
  apply IH, addNode_ok; [done|]. apply digest_id_ok.
Qed.

Lemma peers_table_ok peers : table_ok (peers_table peers).
Proof. apply add_all_table_ok, new_table_ok, digest_id_ok. Qed.

Lemma add_all_selfId peers t : selfId (add_all peers t) = selfId t.
Proof.
  unfold add_all. revert t. induction peers as [|p peers IH]; intros t; [done|].
  cbn [foldl]. by rewrite IH, addNode_selfId.
Qed.

(** Peers that hash to one node id are the same peer. *)
Definition no_collision (peers : list PeerEndpoint) : Prop :=
  Forall (λ p, Forall (λ q, peer_id p = peer_id q → p = q) peers) peers.

#[global] Instance no_collision_dec peers : Decision (no_collision peers).
Proof. unfold no_collision. apply _. Defined.

Lemma no_collision_eq peers p q :
  no_collision peers → p ∈ peers → q ∈ peers → peer_id p = peer_id q → p = q.
Proof.
  unfold no_collision. rewrite Forall_forall. intros Hc Hp.
  specialize (Hc p Hp). cbn in Hc. rewrite Forall_forall in Hc. eauto.
Qed.

(** The last peer with an id is the one the table knows under it. *)
Lemma endpoint_of_peers_table peers i e :
  endpoint_of (peers_table peers) i = Some e → e ∈ peers ∧ peer_id e = i ∧ i ≠ client_id.
Proof.
  unfold peers_table. induction peers as [|p peers IH] using rev_ind; [done|].
  unfold add_all in *. rewrite foldl_app. cbn [foldl].
  set (t := foldl _ (new_table client_id) peers) in *.
  assert (selfId t = client_id) as Hs by apply add_all_selfId.
  destruct (decide (peer_id p = client_id)) as [Hp|Hp].
  - unfold addNode. cbn [node_id peer_node]. rewrite bool_decide_eq_true_2 by congruence.
    intros E. destruct (IH E) as (? & ? & ?). set_solver.
  - rewrite endpoint_of_addNode by (cbn [node_id peer_node]; congruence). cbn [node_id endpoint peer_node].
    case_bool_decide as Hi.
    + intros [= ->]. subst. set_solver.
    + intros E. destruct (IH E) as (? & ? & ?). set_solver.
Qed.

Lemma endpoint_of_peers_table_some peers p :
  p ∈ peers → peer_id p ≠ client_id →
  is_Some (endpoint_of (peers_table peers) (peer_id p)).
Proof.
  unfold peers_table. intros Hin Hc.
  induction peers as [|q peers IH] using rev_ind; [by apply not_elem_of_nil in Hin|].
  unfold add_all in *. rewrite foldl_app. cbn [foldl].
  set (t := foldl _ (new_table client_id) peers) in *.
  assert (selfId t = client_id) as Hs by apply add_all_selfId.
  apply elem_of_app in Hin. rewrite list_elem_of_singleton in Hin.
  destruct (decide (peer_id q = client_id)) as [Hq|Hq].
  - unfold addNode. cbn [node_id peer_node]. rewrite bool_decide_eq_true_2 by congruence.
    destruct Hin as [Hin| ->]; [by apply IH|done].
  - rewrite endpoint_of_addNode by (cbn [node_id peer_node]; congruence). cbn [node_id endpoint peer_node].
    case_bool_decide as Hi; [done|]. destruct Hin as [Hin| ->]; [by apply IH|done].
Qed.

(** The entries are the configured peers, each under its own id. *)
Lemma elem_of_peers_table peers n :
  no_collision peers →
  n ∈ nodes (peers_table peers) ↔
  ∃ p, n = peer_node p ∧ p ∈ peers ∧ peer_id p ≠ client_id.
Proof.
  intros Hc. rewrite elem_of_nodes by apply peers_table_ok. split.
  - intros (He & Hi & Hne)%endpoint_of_peers_table. exists (endpoint n).
    destruct n as [i e]; cbn [node_id endpoint] in *. unfold peer_node. rewrite Hi. done.
  - intros (p & -> & Hp & Hne). cbn [node_id endpoint peer_node].
    destruct (endpoint_of_peers_table_some peers p Hp Hne) as [q Hq].
    rewrite Hq. f_equal. apply endpoint_of_peers_table in Hq as (? & ? & _).
    by apply (no_collision_eq peers).
Qed.

Lemma node_is_peer peers n :
  n ∈ nodes (peers_table peers) → n = peer_node (endpoint n) ∧ endpoint n ∈ peers.
Proof.
  rewrite elem_of_nodes by apply peers_table_ok.
  intros (He & Hi & _)%endpoint_of_peers_table.
  split; [|done]. destruct n as [i e]; cbn [node_id endpoint] in *. unfold peer_node. by rewrite Hi.
Qed.

Lemma peers_table_perm peers1 peers2 :
  no_collision peers1 → (∀ p, p ∈ peers1 ↔ p ∈ peers2) →
  nodes (peers_table peers1) ≡ₚ nodes (peers_table peers2).
Proof.
  intros Hc Hm.
  assert (no_collision peers2) as Hc2.
  { unfold no_collision. rewrite Forall_forall. intros p Hp. rewrite Forall_forall.
    intros q Hq. apply (no_collision_eq peers1); [done|by apply Hm..]. }
  apply NoDup_Permutation.
  - eapply NoDup_fmap_1, (table_nodup _ (peers_table_ok peers1)).
  - eapply NoDup_fmap_1, (table_nodup _ (peers_table_ok peers2)).
  - intros n. rewrite !elem_of_peers_table by done.
    split; intros (p & ? & ? & ?); exists p; naive_solver.
Qed.

(** ** Placement *)

(** The nodes of the table in the order of their distance from the key. *)
Definition ranking (peers : list PeerEndpoint) (key : str) : list NodeInfo :=
  std_sort (node_closer (digest_id key)) (nodes (peers_table peers)).

Lemma store_ranking d peers key replicas :
  new_dht peers = Ok d →
  store d key replicas =
  Ok (map endpoint (take (Z.to_nat (Z.max 1 replicas)) (ranking peers key))).
Proof.
  rewrite new_dht_ok. intros [= <-]. unfold store, allNodes. cbn [dht_table].
  set (r := if replicas <=? 0 then 1 else replicas).
  assert (r = Z.max 1 replicas) as -> by (subst r; destruct (Z.leb_spec replicas 0); lia).
  case_bool_decide as E.
  { unfold ranking. rewrite E. cbn [std_sort]. by rewrite take_nil. }
  rewrite makeKeyId_digest. m_unfold. do 2 f_equal.
  rewrite closestNodes_take. unfold ranking.
  set (s := std_sort _ _). assert (length s = length (nodes (peers_table peers))) as Hl.
  { subst s. by rewrite std_sort_perm. }
  rewrite <- Hl. destruct (Nat.ltb_spec (length s) (Z.to_nat (Z.max 1 replicas))); [|done].
  rewrite !take_ge; done || lia.
Qed.

Lemma ranking_same_peers peers1 peers2 key :
  no_collision peers1 → (∀ p, p ∈ peers1 ↔ p ∈ peers2) →
  ranking peers1 key = ranking peers2 key.
Proof.
  intros Hc Hm. unfold ranking.
  apply nodes_sort_unique; [apply peers_table_ok|apply digest_id_ok|].
  destruct (nodes_sort_result (peers_table peers1) (digest_id key)
              (peers_table_ok peers1) (digest_id_ok _)) as [Hp Hs].
  split; [|done]. rewrite Hp. by apply peers_table_perm.
Qed.

Lemma elem_of_ranking peers key n :
  n ∈ ranking peers key ↔ n ∈ nodes (peers_table peers).
Proof. unfold ranking. by rewrite std_sort_perm. Qed.

Lemma ranking_endpoints_nodup peers key : NoDup (map endpoint (ranking peers key)).
Proof.
  assert (NoDup (ranking peers key)) as Hn.
  { unfold ranking. rewrite std_sort_perm.
    eapply NoDup_fmap_1, (table_nodup _ (peers_table_ok peers)). }
  assert (∀ n, n ∈ ranking peers key → n = peer_node (endpoint n)) as Hp.
  { intros n. rewrite elem_of_ranking. apply node_is_peer. }
  revert Hn Hp. induction (ranking peers key) as [|n l IH]; intros Hn Hp; [constructor|].
  inv Hn. cbn. constructor; [|apply IH; [done|set_solver]].
  intros (m & E & Hm)%list_elem_of_fmap.
  assert (n = m) as ->; [|done].
  rewrite (Hp n), (Hp m), E by set_solver. done.
Qed.

(** The targets of a key, as the client uses them. *)
Lemma store_in_peers d peers key replicas ts p :
  new_dht peers = Ok d → store d key replicas = Ok ts → p ∈ ts → p ∈ peers.
Proof.
  intros Hd. rewrite (store_ranking d peers) by done. intros [= <-].
  intros (n & -> & Hn)%list_elem_of_fmap. apply (node_is_peer peers n).
  apply (elem_of_ranking peers key). eapply elem_of_submseteq; [exact Hn|].
  apply sublist_submseteq, sublist_take.
Qed.

(** No peer is a target twice. *)
Lemma store_distinct d peers key replicas ts :
  new_dht peers = Ok d → store d key replicas = Ok ts → NoDup ts.
Proof.
  intros Hd. rewrite (store_ranking d peers) by done. intros [= <-].
  eapply sublist_NoDup; [apply (ranking_endpoints_nodup peers key)|].
  rewrite fmap_take. apply sublist_take.
Qed.

Lemma store_some_targets d peers key replicas :
  new_dht peers = Ok d → nodes (peers_table peers) ≠ [] →
  ∃ ts, store d key replicas = Ok ts ∧ ts ≠ [] ∧ Z.of_nat (length ts) ≤ Z.max 1 replicas ∧
        NoDup ts ∧ ∀ p, p ∈ ts → p ∈ peers.
Proof.
  intros Hd Hne. pose proof (λ ts p, store_in_peers d peers key replicas ts p Hd) as Hin.
  rewrite (store_ranking d peers) in * by done. eexists. split; [done|].
  assert (ranking peers key ≠ []) as Hr.
  { intros E. apply Hne. assert (ranking peers key ≡ₚ nodes (peers_table peers)) as Hp
      by apply std_sort_perm. rewrite E in Hp. by apply Permutation_nil_l in Hp. }
  split; [|split; [|split]].
  - destruct (ranking peers key); [done|]. destruct (Z.to_nat (Z.max 1 replicas)) eqn:E; [lia|done].
  - rewrite length_map, length_take. lia.
  - by apply (store_distinct d peers key replicas); [|rewrite (store_ranking d peers)].
  - intros p. by apply Hin.
Qed.

(** The lookup never throws. *)
Lemma findValue_total d peers key replicas :
  new_dht peers = Ok d → ∃ ts, findValue d key replicas = Ok ts.
Proof. intros Hd. unfold findValue. rewrite (store_ranking d peers) by done. by eexists. Qed.

(** C24. Where a key is stored: [store] never throws and returns as many distinct
    configured peers as the replica count, at least one, and the table allow;
    their nodes are nearer to the key than every other node of the table. *)
Theorem store_targets d peers key replicas :
  new_dht peers = Ok d →
  ∃ out left_out,
    store d key replicas = Ok (map endpoint out) ∧
    length out = Nat.min (Z.to_nat (Z.max 1 replicas)) (length (nodes (dht_table d))) ∧
    NoDup (map endpoint out) ∧
    (∀ n, n ∈ out → endpoint n ∈ peers ∧ node_id n = peer_id (endpoint n)) ∧
    nodes (dht_table d) ≡ₚ out ++ left_out ∧
    ∀ n m, n ∈ out → m ∈ left_out →
           distance (node_id n) (digest_id key) < distance (node_id m) (digest_id key).
Proof.
  intros Hd. rewrite (store_ranking d peers) by done.
  pose proof Hd as Hd'. rewrite new_dht_ok in Hd'. injection Hd' as <-. cbn [dht_table].
  set (k := Z.to_nat _). set (r := ranking peers key).
  assert (r ≡ₚ nodes (peers_table peers)) as Hp by apply std_sort_perm.
  pose proof (nodes_sort_strict _ (digest_id key) (peers_table_ok peers)
    (digest_id_ok _)) as Hs.
  change (std_sort _ _) with r in Hs. rewrite <- (take_drop k r) in Hs.
  exists (take k r), (drop k r). split; [done|].
  split; [by rewrite length_take, Hp|]. split; [|split; [|split]].
  - rewrite fmap_take. pose proof (ranking_endpoints_nodup peers key) as Hn.
    fold r in Hn. rewrite <- (take_drop k (map endpoint r)) in Hn.
    by apply NoDup_app in Hn as [? _].
  - intros n Hn.
    assert (n ∈ nodes (peers_table peers)) as Hin.
    { rewrite <- Hp. eapply elem_of_submseteq; [exact Hn|].
      apply sublist_submseteq, sublist_take. }
    destruct (node_is_peer peers n Hin) as [E ?]. split; [done|]. by rewrite E.
  - by rewrite take_drop, Hp.
  - intros n m Hn Hm. by eapply (StronglySorted_app_1_elem_of _ _ _ n m Hs).
Qed.

(** C23. Two clients that know the same set of peers, in any order and with any
    repetition, agree on where a key is: the peers that one of them uploads to
    and those that the other asks first are the same sequence, up to the length
    that their replica counts give it. *)
Theorem placement_agreement peers1 peers2 d1 d2 key r1 r2 :
  no_collision peers1 → (∀ p, p ∈ peers1 ↔ p ∈ peers2) →
  new_dht peers1 = Ok d1 → new_dht peers2 = Ok d2 → Z.max 1 r1 ≤ Z.max 1 r2 →
  ∃ out1 out2,
    store d1 key r1 = Ok out1 ∧ findValue d2 key r2 = Ok out2 ∧
    out1 `prefix_of` out2 ∧ (Z.max 1 r1 = Z.max 1 r2 → out1 = out2).
Proof.
  intros Hc Hm H1 H2 Hr. unfold findValue.
  rewrite (store_ranking d1 peers1), (store_ranking d2 peers2) by done.
  rewrite (ranking_same_peers peers1 peers2) by done.
  eexists _, _. split; [done|]. split; [done|]. split; [|by intros ->].
  rewrite !fmap_take. apply take_prefix_of. lia.
Qed.
End dht.

Definition peer_at (n : Z) : PeerEndpoint := mk_endpoint (lit "127.0.0.1") n.

Lemma store_targets_witness :
  ∃ out left_out : list NodeInfo,
    store (H := toy_sha256)
      (from_ok (mk_dht [] (new_table [])) (new_dht (H := toy_sha256)
        [peer_at 9101; peer_at 9102; peer_at 9103])) (lit "key") 2 = Ok (map endpoint out) ∧
    length out = 2%nat ∧ length left_out = 1%nat.
Proof.
  destruct (store_targets (H := toy_sha256)
    (from_ok (mk_dht [] (new_table [])) (new_dht (H := toy_sha256)
        [peer_at 9101; peer_at 9102; peer_at 9103]))
    [peer_at 9101; peer_at 9102; peer_at 9103] (lit "key") 2)
    as (out & left_out & Hs & Hl & _ & _ & Hp & _); [by vm_compute|].
  exists out, left_out. split; [exact Hs|].
  apply Permutation_length in Hp. rewrite length_app, Hl in Hp.
  rewrite Hl. vm_compute in Hp |- *. split; [done|lia].
Defined.

Lemma placement_agreement_witness :
  let ps1 := [peer_at 9101; peer_at 9102; peer_at 9103] in
  let ps2 := [peer_at 9103; peer_at 9101; peer_at 9103; peer_at 9102] in
  no_collision (H := toy_sha256) ps1 ∧
  ∃ d1 d2 out1 out2,
    store (H := toy_sha256) d1 (lit "key") 1 = Ok out1 ∧
    findValue (H := toy_sha256) d2 (lit "key") 3 = Ok out2 ∧ out1 `prefix_of` out2.
Proof.
  cbn zeta.
  assert (no_collision (H := toy_sha256) [peer_at 9101; peer_at 9102; peer_at 9103]) as Hc.
  { apply (bool_decide_eq_true_1 _). by vm_compute. }
  split; [exact Hc|].
  destruct (placement_agreement (H := toy_sha256)
    [peer_at 9101; peer_at 9102; peer_at 9103]
    [peer_at 9103; peer_at 9101; peer_at 9103; peer_at 9102]
    _ _ (lit "key") 1 3 Hc ltac:(set_solver)
    (new_dht_ok (H := toy_sha256) _) (new_dht_ok (H := toy_sha256) _) ltac:(lia))
    as (out1 & out2 & E1 & E2 & Hp & _).
  eexists _, _, out1, out2. exact (conj E1 (conj E2 Hp)).
Defined.
