(* ===== verification/FileSystem.v ===== *)
(** * Files

    What the program uses of [std::filesystem] and of file streams: the regular
    files, named by paths.  A path is resolved as the kernel does in a tree
    without symbolic links: the empty component and [.] stay where they are and
    [..] goes to the parent, so two texts can name one file.  Directories are not
    tracked: whether an operation on a path succeeds, whether a stream on a path
    opens a directory, and whether memory can be had, the environment decides,
    anew for every call. *)

From S2P Require Import Prelude.
From S2P Require Import CxxStd.

(** ** Paths *)

(** Whether the path is absolute, and its components from the last one up. *)
Definition fs_key : Type := bool * list str.

Fixpoint split_slash (p : str) : list str :=
  match p with
  | [] => [[]]
  | c :: p' =>
      if Ascii.eqb c "/" then [] :: split_slash p'
      else match split_slash p' with
           | x :: l => (c :: x) :: l
           | [] => [[c]]
           end
  end.

Definition dot : str := lit ".".
Definition dotdot : str := lit "..".

Definition walk (absolute : bool) (stack : list str) (c : str) : list str :=
  if bool_decide (c = []) || bool_decide (c = dot) then stack
  else if bool_decide (c = dotdot) then
    match stack with
    | [] => if absolute then [] else [dotdot]
    | t :: stack' => if bool_decide (t = dotdot) then dotdot :: stack else stack'
    end
  else c :: stack.

Definition is_absolute (p : str) : bool := starts_with (lit "/") p.

Definition resolve (p : str) : fs_key :=
  (is_absolute p, foldl (walk (is_absolute p)) [] (split_slash p)).

(** [dir + "/" + name]. *)
Definition join (dir name : str) : str := dir ++ "/"%char :: name.

(** ** Files and the environment *)

Abbreviation FS := (gmap fs_key str).

Record Env := mk_env {
  can_open_out : str → bool;      (* an [std::ofstream] on the path opens *)
  can_rename : str → str → bool;  (* [fs::rename] of an existing file *)
  can_remove : str → bool;        (* [fs::remove] *)
  can_stat : str → bool;          (* [fs::file_size] *)
  dir_exists : str → bool;        (* [fs::exists] on a directory *)
  open_dir : str → option Z;      (* a stream on a directory opens: its end position *)
  can_alloc : Z → bool;           (* a request for that many bytes *)
  ec_message : str;               (* the text of the last error code *)
}.

(** An environment in which every call succeeds. *)
Definition good_env : Env :=
  mk_env (λ _, true) (λ _ _, true) (λ _, true) (λ _, true) (λ _, true)
    (λ _, None) (λ _, true) (lit "Success").

(** A stream opened for writing, filled and closed: [None] if it did not open. *)
Definition write_file (env : Env) (p data : str) (fs : FS) : option FS :=
  if can_open_out env p then Some (<[resolve p := data]> fs) else None.

(** The content of a stream opened for reading: [None] if there is no file. *)
Definition read_file (p : str) (fs : FS) : option str := fs !! resolve p.

(** A stream opened for reading: the position of its end, as the unsigned 64-bit
    number that [tellg] is cast to, and the bytes it delivers.  A directory opens
    too, and delivers none. *)
Definition open_in (env : Env) (p : str) (fs : FS) : option (Z * str) :=
  match read_file p fs with
  | Some data => Some (zlen data, data)
  | None => (λ n, (u64 n, [])) <$> open_dir env p
  end.

(** A buffer of [n] bytes: [std::vector<char>(n)], [resize(n)] and
    [std::string(n, c)] throw when there is no memory for them.  The text of the
    [std::length_error] is the one of the constructor of a vector; the two others
    throw the same type with another text. *)
Definition new_buffer (env : Env) (n : Z) : result unit :=
  if 2 ^ 63 - 1 <? n then Throw (LengthError (lit "cannot create std::vector larger than max_size()"))
  else if can_alloc env n then Ok () else Throw BadAlloc.

(** The zeroed buffer after the bytes were read into it. *)
Definition fill (n : Z) (bytes : str) : str :=
  bytes ++ replicate (Z.to_nat n - length bytes) "000"%char.

Definition rename_file (env : Env) (p q : str) (fs : FS) : option FS :=
  match fs !! resolve p with
  | Some data =>
      if can_rename env p q
      then Some (<[resolve q := data]> (delete (resolve p) fs)) else None
  | None => None
  end.

Definition remove_file (env : Env) (p : str) (fs : FS) : FS :=
  if can_remove env p then delete (resolve p) fs else fs.

(** The regular files of a directory, name and content. *)
Definition dir_entries `{IterOrder} (dir : str) (fs : FS) : list (str * str) :=
  omap (λ '((a, ks), data),
    match ks with
    | name :: up => if bool_decide ((a, up) = resolve dir) then Some (name, data) else None
    | [] => None
    end) (iterate fs).

Lemma fill_all data : fill (zlen data) data = data.
Proof. unfold fill, zlen. by rewrite Nat2Z.id, Nat.sub_diag, app_nil_r. Qed.

(** ** Names of files in a directory *)

(** One component that stays in its directory. *)
Definition simple_name (n : str) : Prop :=
  Forall (λ c, Ascii.eqb c "/" = false) n ∧ n ≠ [] ∧ n ≠ dot ∧ n ≠ dotdot.

#[export] Instance simple_name_dec n : Decision (simple_name n).
Proof. unfold simple_name. apply _. Defined.

Lemma split_slash_nonempty p : split_slash p ≠ [].
Proof.
  destruct p as [|c p]; cbn; [done|]. destruct (Ascii.eqb c "/"); [done|].
  by destruct (split_slash p).
Qed.

Lemma split_slash_app a b :
  split_slash (a ++ "/"%char :: b) = split_slash a ++ split_slash b.
Proof.
  induction a as [|c a IH]; cbn; [done|]. rewrite IH.
  destruct (Ascii.eqb c "/"); [done|].
  pose proof (split_slash_nonempty a). by destruct (split_slash a).
Qed.

Lemma split_slash_simple n :
  Forall (λ c, Ascii.eqb c "/" = false) n → split_slash n = [n].
Proof. induction 1 as [|c n Hc _ IH]; cbn; [done|]. by rewrite Hc, IH. Qed.

Lemma is_absolute_join dir name :
  is_absolute (join dir name) = is_absolute (join dir []).
Proof. unfold is_absolute, join. by destruct dir as [|c dir]. Qed.

Lemma walk_simple a stack n : simple_name n → walk a stack n = n :: stack.
Proof.
  intros (_ & H1 & H2 & H3). unfold walk. by rewrite !bool_decide_eq_false_2.
Qed.

(** The resolved directory, as the start of the paths in it. *)
Definition resolve_dir (dir : str) : fs_key := resolve (join dir []).

Lemma resolve_join dir name :
  simple_name name →
  resolve (join dir name) = ((resolve_dir dir).1, name :: (resolve_dir dir).2).
Proof.
  intros Hn. unfold resolve_dir, resolve. rewrite is_absolute_join. cbn [fst snd].
  f_equal. unfold join. rewrite !split_slash_app, !foldl_app.
  rewrite (split_slash_simple name) by apply Hn. cbn [foldl split_slash].
  by rewrite walk_simple.
Qed.

Lemma resolve_dir_join dir name :
  simple_name name →
  resolve_dir (join dir name) = ((resolve_dir dir).1, name :: (resolve_dir dir).2).
Proof.
  intros Hn. rewrite <- resolve_join by done. unfold resolve_dir, resolve.
  assert (is_absolute (join (join dir name) []) = is_absolute (join dir name)) as ->
    by (unfold join, is_absolute; by destruct dir).
  unfold join. rewrite !split_slash_app, !foldl_app. cbn [split_slash foldl]. done.
Qed.

(** A directory named with a nonempty text. *)
Lemma resolve_dir_nonempty dir : dir ≠ [] → resolve dir = resolve_dir dir.
Proof.
  intros Hne. unfold resolve_dir, resolve, join.
  rewrite split_slash_app, foldl_app. cbn [split_slash foldl].
  by destruct dir.
Qed.

Lemma resolve_join_inj dir n m :
  simple_name n → simple_name m → resolve (join dir n) = resolve (join dir m) → n = m.
Proof. intros Hn Hm. rewrite !resolve_join by done. by intros [= ->]. Qed.

Section entries.
Context `{IterOrder}.

Lemma elem_of_dir_entries dir fs name data :
  (name, data) ∈ dir_entries dir fs ↔
  fs !! ((resolve dir).1, name :: (resolve dir).2) = Some data.
Proof.
  unfold dir_entries. rewrite list_elem_of_omap. split.
  - intros ([[a ks] d] & Hin%elem_of_iterate & E).
    destruct ks as [|k up]; [done|]. case_bool_decide as Hd; [|done].
    injection E as -> ->. by rewrite <- Hd.
  - intros Hf. eexists (_, _, data). split; [by apply elem_of_iterate|]. cbn.
    by rewrite bool_decide_eq_true_2 by done.
Qed.

Lemma NoDup_dir_entries dir fs : NoDup (dir_entries dir fs).*1.
Proof.
  unfold dir_entries. pose proof (NoDup_iterate fs) as Hn.
  induction (iterate fs) as [|[[a ks] d] l IH]; cbn in *; [constructor|].
  apply NoDup_cons in Hn as [Hnew Hn]. specialize (IH Hn). destruct ks as [|k up]; [done|].
  case_bool_decide as Hd; [|done]. cbn. constructor; [|done].
  intros ([n' d'] & -> & Hin)%list_elem_of_fmap.
  apply list_elem_of_omap in Hin as ([[a' ks'] e] & Hin & E).
  destruct ks' as [|k' up']; [done|]. case_bool_decide as Hd'; [|done].
  injection E as -> ->. destruct Hnew. rewrite <- Hd' in Hd. cbn in *.
  injection Hd as -> ->. by apply (list_elem_of_fmap_2 fst _ _ Hin).
Qed.
End entries.
