(* ===== verification/Storage.v ===== *)
(** * The storage manager

    Models [src/core/storage/storage_manager.h] and [.cpp]: chunks as files
    under [baseDir/chunks], a table of sizes and access times in memory that is
    persisted to [baseDir/metadata.db], a limit on the bytes stored and eviction
    of the least recently used chunk.  The files are part of the state; every
    call takes the environment that decides which file operations succeed. *)

From S2P Require Import Prelude.
From S2P Require Import CxxStd.
From S2P Require Import FileSystem.

Record ChunkMeta := mk_meta { csize : Z; lastAccess : Z }.

#[export] Instance ChunkMeta_eq_dec : EqDecision ChunkMeta.
Proof. solve_decision. Defined.

Record ChunkInfo := mk_info { info_id : str; info_size : Z; info_lastAccess : Z }.

Record StorageManager := mk_storage {
  baseDir_ : str;
  maxBytes_ : Z;
  usedBytes_ : Z;
  accessCounter_ : Z;
  meta_ : gmap str ChunkMeta;
  disk : FS;
}.

Definition chunksDir_ (s : StorageManager) : str := join (baseDir_ s) (lit "chunks").
Definition manifestsDir_ (s : StorageManager) : str := join (baseDir_ s) (lit "manifests").
Definition metaPath_ (s : StorageManager) : str := join (baseDir_ s) (lit "metadata.db").

(** The constructor, over the files that are there. *)
Definition new_storage (baseDir : str) (maxBytes : Z) (fs : FS) : StorageManager :=
  mk_storage baseDir maxBytes 0 0 ∅ fs.

Definition chunkPath (s : StorageManager) (hash : str) : str := join (chunksDir_ s) hash.

(** Field updates. *)
Definition set_disk (fs : FS) (s : StorageManager) : StorageManager :=
  mk_storage (baseDir_ s) (maxBytes_ s) (usedBytes_ s) (accessCounter_ s) (meta_ s) fs.
Definition set_used (u : Z) (s : StorageManager) : StorageManager :=
  mk_storage (baseDir_ s) (maxBytes_ s) u (accessCounter_ s) (meta_ s) (disk s).
Definition set_counter (c : Z) (s : StorageManager) : StorageManager :=
  mk_storage (baseDir_ s) (maxBytes_ s) (usedBytes_ s) c (meta_ s) (disk s).
Definition set_meta (m : gmap str ChunkMeta) (s : StorageManager) : StorageManager :=
  mk_storage (baseDir_ s) (maxBytes_ s) (usedBytes_ s) (accessCounter_ s) m (disk s).
Definition set_max (b : Z) (s : StorageManager) : StorageManager :=
  mk_storage (baseDir_ s) b (usedBytes_ s) (accessCounter_ s) (meta_ s) (disk s).

Section storage.
Context `{IterOrder}.

(** ** The metadata file *)

Definition entry_text (kv : str * ChunkMeta) : str :=
  kv.1 ++ space :: to_string (csize kv.2) ++ space :: to_string (lastAccess kv.2)
  ++ [newline].

Definition metadata_text (s : StorageManager) : str :=
  to_string (accessCounter_ s) ++ space :: to_string (usedBytes_ s) ++ newline ::
  flat_map entry_text (iterate (meta_ s)).

(** Best effort: a file that does not open is no error. *)
Definition persistMetadata (env : Env) (s : StorageManager) : StorageManager :=
  match write_file env (metaPath_ s) (metadata_text s) (disk s) with
  | Some fs => set_disk fs s
  | None => s
  end.

(** The loop [while (in >> id >> m.size >> m.lastAccess)].  Each round consumes
    input, so the length of the text is enough fuel. *)
Fixpoint read_entries (fuel : nat) (id : str) (m : ChunkMeta) (inp : istream)
    (meta : gmap str ChunkMeta) : gmap str ChunkMeta :=
  match fuel with
  | O => meta
  | S fuel' =>
      let (id, inp) := get_word id inp in
      let (size, inp) := get_u64 (csize m) inp in
      let (last, inp) := get_u64 (lastAccess m) inp in
      if in_fail inp then meta
      else read_entries fuel' id (mk_meta size last) inp (<[id := mk_meta size last]> meta)
  end.

(** One directory entry of the scan. *)
Definition scan_entry (env : Env) (s : StorageManager) (entry : str * str) : StorageManager :=
  let (id, data) := entry in
  if can_stat env (chunkPath s id) then
    let size := zlen data in
    let counter := u64 (accessCounter_ s + 1) in
    mk_storage (baseDir_ s) (maxBytes_ s) (u64 (usedBytes_ s + size)) counter
      (<[id := mk_meta size counter]> (meta_ s)) (disk s)
  else s.

Definition rebuildMetadataFromDisk (env : Env) (s : StorageManager) : StorageManager :=
  let s := set_counter 0 (set_used 0 (set_meta ∅ s)) in
  if dir_exists env (chunksDir_ s) then
    let s := foldl (scan_entry env) s (dir_entries (chunksDir_ s) (disk s)) in
    persistMetadata env s
  else s.

Definition loadMetadata (env : Env) (s : StorageManager) : StorageManager :=
  let s := set_counter 0 (set_used 0 (set_meta ∅ s)) in
  match read_file (metaPath_ s) (disk s) with
  | None => rebuildMetadataFromDisk env s
  | Some text =>
      let inp := istringstream text in
      let (storedCounter, inp) := get_u64 0 inp in
      let (storedUsed, inp) := get_u64 0 inp in
      if in_fail inp then rebuildMetadataFromDisk env s
      else
        let s := set_used storedUsed (set_counter storedCounter s) in
        set_meta (read_entries (length text) [] (mk_meta 0 0) inp (meta_ s)) s
  end.

(** The three [create_directories] calls ignore their errors. *)
Definition init (env : Env) (s : StorageManager) : StorageManager := loadMetadata env s.

(** A new process over the files of an old one. *)
Definition restart (env : Env) (maxBytes : Z) (s : StorageManager) : StorageManager :=
  init env (new_storage (baseDir_ s) maxBytes (disk s)).

(** ** Eviction *)

Definition touch (hash : str) (s : StorageManager) : StorageManager :=
  match meta_ s !! hash with
  | None => s
  | Some m =>
      let counter := u64 (accessCounter_ s + 1) in
      set_meta (<[hash := mk_meta (csize m) counter]> (meta_ s)) (set_counter counter s)
  end.

(** The search for the victim: the first entry with the least access time. *)
Definition lru_victim (l : list (str * ChunkMeta)) : option (str * ChunkMeta) :=
  match l with
  | [] => None
  | e :: _ =>
      Some (foldl (λ victim it,
        if lastAccess it.2 <? lastAccess victim.2 then it else victim) e l)
  end.

Definition evict (env : Env) (victim : str * ChunkMeta) (s : StorageManager)
    : StorageManager :=
  let s := set_disk (remove_file env (chunkPath s victim.1) (disk s)) s in
  let s := set_used (u64 (usedBytes_ s - csize victim.2)) s in
  set_meta (delete victim.1 (meta_ s)) s.

(** The loop of [enforceLimit]: each round erases an entry, so the number of
    entries is enough fuel. *)
Fixpoint enforce_loop (fuel : nat) (env : Env) (s : StorageManager) : StorageManager :=
  match fuel with
  | O => s
  | S fuel' =>
      if maxBytes_ s <? usedBytes_ s then
        match lru_victim (iterate (meta_ s)) with
        | None => s
        | Some victim => enforce_loop fuel' env (evict env victim s)
        end
      else s
  end.

Definition enforceLimit (env : Env) (s : StorageManager) : StorageManager :=
  if maxBytes_ s =? 0 then s
  else persistMetadata env (enforce_loop (size (meta_ s)) env s).

Definition setMaxBytes (env : Env) (bytes : Z) (s : StorageManager) : StorageManager :=
  enforceLimit env (set_max bytes s).

(** ** Chunks *)

(** The saturating subtraction of an entry that is overwritten or deleted. *)
Definition forget_size (hash : str) (s : StorageManager) : StorageManager :=
  match meta_ s !! hash with
  | Some m =>
      set_used (if csize m <=? usedBytes_ s then usedBytes_ s - csize m else 0) s
  | None => s
  end.

Definition tmpPath (s : StorageManager) (hash : str) : str :=
  chunkPath s hash ++ lit ".tmp".

(** After the file is in place. *)
Definition add_entry (hash : str) (newSize : Z) (s : StorageManager) : StorageManager :=
  let counter := u64 (accessCounter_ s + 1) in
  let s := set_meta (<[hash := mk_meta newSize counter]> (meta_ s)) (set_counter counter s) in
  set_used (u64 (usedBytes_ s + newSize)) s.

Definition record_chunk (env : Env) (hash : str) (newSize : Z) (s : StorageManager)
    : StorageManager :=
  enforceLimit env (add_entry hash newSize s).

Definition storeChunk (env : Env) (hash data : str) : M StorageManager unit :=
  if bool_decide (hash = []) then throwM (RuntimeError (lit "storeChunk: empty hash"))
  else
    let newSize := zlen data in
    modifyM (forget_size hash) ;;
    s ← getM;
    match write_file env (tmpPath s hash) data (disk s) with
    | None =>
        throwM (RuntimeError (lit "storeChunk: failed to open temp file for " ++ hash))
    | Some fs =>
        putM (set_disk fs s) ;;
        match rename_file env (tmpPath s hash) (chunkPath s hash) fs with
        | None =>
            putM (set_disk (remove_file env (tmpPath s hash) fs) s) ;;
            throwM (RuntimeError (lit "storeChunk: rename failed for " ++ hash ++
                                  lit ": " ++ ec_message env))
        | Some fs' =>
            putM (set_disk fs' s) ;;
            modifyM (record_chunk env hash newSize)
        end
    end.

Definition loadChunk (env : Env) (hash : str) : M StorageManager str :=
  s ← getM;
  match open_in env (chunkPath s hash) (disk s) with
  | None => throwM (RuntimeError (lit "loadChunk: missing chunk " ++ hash))
  | Some (size, bytes) =>
      liftR (new_buffer env size) ;;
      modifyM (touch hash) ;;
      modifyM (persistMetadata env) ;;
      mret (fill size bytes)
  end.

Definition deleteChunk (env : Env) (hash : str) (s : StorageManager) : StorageManager :=
  let s := match meta_ s !! hash with
           | Some _ => set_meta (delete hash (meta_ s)) (forget_size hash s)
           | None => s
           end in
  let s := set_disk (remove_file env (chunkPath s hash) (disk s)) s in
  persistMetadata env s.

Definition listChunks (s : StorageManager) : list ChunkInfo :=
  map (λ kv, mk_info kv.1 (csize kv.2) (lastAccess kv.2)) (iterate (meta_ s)).

Definition hasChunk (s : StorageManager) (hash : str) : bool :=
  bool_decide (is_Some (meta_ s !! hash)).
End storage.

(** ** Sums of sizes *)

Definition total (m : gmap str ChunkMeta) : Z := map_fold (λ _ c acc, csize c + acc) 0 m.

Definition sizes_ok (m : gmap str ChunkMeta) : Prop := map_Forall (λ _ c, 0 ≤ csize c) m.

Lemma total_empty : total ∅ = 0.
Proof. apply map_fold_empty. Qed.

Lemma total_delete m i c : m !! i = Some c → total m = csize c + total (delete i m).
Proof.
  intros Hi. unfold total.
  apply (map_fold_delete_L (λ _ c acc, csize c + acc)); [|done]. intros. lia.
Qed.

Lemma total_insert m i c : total (<[i := c]> m) = csize c + total (delete i m).
Proof.
  rewrite (total_delete _ i c) by apply lookup_insert_eq. by rewrite delete_insert_eq.
Qed.

Lemma total_insert_new m i c : m !! i = None → total (<[i := c]> m) = csize c + total m.
Proof. intros Hi. by rewrite total_insert, delete_id. Qed.

Lemma total_nonneg m : sizes_ok m → 0 ≤ total m.
Proof.
  unfold sizes_ok. induction m as [|i c m Hi IH] using map_ind; intros Hm.
  - by rewrite total_empty.
  - apply map_Forall_insert in Hm as [Hc Hm]; [|done]. specialize (IH Hm).
    rewrite total_insert_new by done. lia.
Qed.

Lemma sizes_ok_delete m i : sizes_ok m → sizes_ok (delete i m).
Proof. apply map_Forall_delete. Qed.

Lemma total_member m i c : sizes_ok m → m !! i = Some c → csize c ≤ total m.
Proof.
  intros Hm Hi. rewrite (total_delete m i c Hi).
  pose proof (total_nonneg _ (sizes_ok_delete m i Hm)). lia.
Qed.

Lemma sizes_ok_submap m m' : m' ⊆ m → sizes_ok m → sizes_ok m'.
Proof. intros Hs Hm i c Hi. apply (Hm i). by apply (lookup_weaken m'). Qed.

(** ** Names and paths *)

(** A chunk id that is one word, one file name, and not the name of a temporary
    file.  The hexadecimal digests that the clients use are such names. *)
Definition chunk_name (id : str) : Prop :=
  is_word id ∧ simple_name id ∧ ¬ lit ".tmp" `suffix_of` id.

#[export] Instance chunk_name_dec id : Decision (chunk_name id).
Proof. unfold chunk_name. apply _. Defined.

(** The part of the paths that depends on the base directory. *)
Definition base_key (s : StorageManager) : fs_key := resolve_dir (baseDir_ s).

Lemma resolve_dir_chunks s :
  resolve_dir (chunksDir_ s) = ((base_key s).1, lit "chunks" :: (base_key s).2).
Proof. apply resolve_dir_join. by_eval. Qed.

Lemma resolve_chunks s :
  resolve (chunksDir_ s) = ((base_key s).1, lit "chunks" :: (base_key s).2).
Proof. apply resolve_join. by_eval. Qed.

Lemma resolve_chunkPath s id :
  simple_name id →
  resolve (chunkPath s id) = ((base_key s).1, id :: lit "chunks" :: (base_key s).2).
Proof. intros. unfold chunkPath. rewrite resolve_join by done. by rewrite resolve_dir_chunks. Qed.

Lemma resolve_metaPath s :
  resolve (metaPath_ s) = ((base_key s).1, lit "metadata.db" :: (base_key s).2).
Proof. apply resolve_join. by_eval. Qed.

Lemma chunkPath_not_metaPath s id :
  simple_name id → resolve (chunkPath s id) ≠ resolve (metaPath_ s).
Proof.
  intros Hid. rewrite resolve_chunkPath, resolve_metaPath by done. intros [= _ E].
  apply (f_equal length) in E. cbn in E. lia.
Qed.

Lemma simple_name_tmp id : simple_name id → simple_name (id ++ lit ".tmp").
Proof.
  intros (Hs & Hne & _). repeat split.
  - apply Forall_app. split; [done|]. by repeat constructor.
  - by destruct id.
  - destruct id as [|a [|b id]]; done.
  - destruct id as [|a [|b [|c id]]]; done.
Qed.

Lemma tmpPath_eq s id : tmpPath s id = chunkPath s (id ++ lit ".tmp").
Proof. unfold tmpPath, chunkPath, join. by rewrite <- app_assoc. Qed.

Lemma chunkPath_inj s i j :
  simple_name i → simple_name j →
  resolve (chunkPath s i) = resolve (chunkPath s j) → i = j.
Proof. intros. by apply (resolve_join_inj (chunksDir_ s)). Qed.

Lemma tmpPath_not_chunk s id j :
  simple_name id → chunk_name j → resolve (tmpPath s id) ≠ resolve (chunkPath s j).
Proof.
  intros Hid (_ & Hj & Hnt) E. rewrite tmpPath_eq in E.
  apply chunkPath_inj in E; [|by apply simple_name_tmp|done].
  apply Hnt. by exists id.
Qed.

Lemma chunk_name_simple id : chunk_name id → simple_name id.
Proof. by intros (_ & ? & _). Qed.

#[export] Hint Resolve chunk_name_simple simple_name_tmp : dss.

(** The path functions depend on the base directory only. *)
Lemma chunkPath_base s s' id : baseDir_ s = baseDir_ s' → chunkPath s id = chunkPath s' id.
Proof. unfold chunkPath, chunksDir_. by intros ->. Qed.

Lemma metaPath_base s s' : baseDir_ s = baseDir_ s' → metaPath_ s = metaPath_ s'.
Proof. unfold metaPath_. by intros ->. Qed.

(** ** The invariant *)

Definition has_file (s : StorageManager) (id : str) (c : ChunkMeta) : Prop :=
  ∃ data, disk s !! resolve (chunkPath s id) = Some data ∧ zlen data = csize c.

(** The access times separate the entries: the order of use is total. *)
Definition times_distinct (m : gmap str ChunkMeta) : Prop :=
  ∀ i j c d, m !! i = Some c → m !! j = Some d → lastAccess c = lastAccess d → i = j.

Record storage_inv (s : StorageManager) : Prop := {
  inv_names : map_Forall (λ id _, chunk_name id) (meta_ s);
  inv_sizes : sizes_ok (meta_ s);
  inv_used : usedBytes_ s = total (meta_ s);
  inv_used_u64 : usedBytes_ s < 2 ^ 64;
  inv_counter : 0 ≤ accessCounter_ s < 2 ^ 64;
  inv_times : map_Forall (λ _ c, 0 ≤ lastAccess c ≤ accessCounter_ s) (meta_ s);
  inv_distinct : times_distinct (meta_ s);
  inv_disk : map_Forall (has_file s) (meta_ s);
}.

Lemma times_distinct_submap m m' : m' ⊆ m → times_distinct m → times_distinct m'.
Proof. intros Hs Hm i j c d Hi Hj. apply Hm; by apply (lookup_weaken m'). Qed.

(** Changes of the disk elsewhere keep the invariant. *)
Lemma inv_set_disk s fs :
  storage_inv s →
  (∀ id, is_Some (meta_ s !! id) → chunk_name id →
         fs !! resolve (chunkPath s id) = disk s !! resolve (chunkPath s id)) →
  storage_inv (set_disk fs s).
Proof.
  intros Hs Hf. destruct Hs. split; cbn [meta_ usedBytes_ accessCounter_ set_disk]; try done.
  intros id c Hid. destruct (inv_disk0 id c Hid) as (data & Hd & Hl).
  exists data. split; [|done]. cbn [disk set_disk].
  rewrite (chunkPath_base _ s) by done. rewrite <- Hd.
  apply Hf; [by eexists|by apply (inv_names0 id c)].
Qed.

Section storage_lemmas.
Context `{IterOrder}.

Lemma persist_fields env s :
  baseDir_ (persistMetadata env s) = baseDir_ s ∧
  maxBytes_ (persistMetadata env s) = maxBytes_ s ∧
  usedBytes_ (persistMetadata env s) = usedBytes_ s ∧
  accessCounter_ (persistMetadata env s) = accessCounter_ s ∧
  meta_ (persistMetadata env s) = meta_ s.
Proof. unfold persistMetadata. by destruct (write_file _ _ _ _). Qed.

Lemma persist_disk_other env s k :
  k ≠ resolve (metaPath_ s) → disk (persistMetadata env s) !! k = disk s !! k.
Proof.
  intros Hk. unfold persistMetadata, write_file.
  destruct (can_open_out env (metaPath_ s)); [|done]. cbn [disk set_disk].
  by rewrite lookup_insert_ne.
Qed.

Lemma persist_inv env s : storage_inv s → storage_inv (persistMetadata env s).
Proof.
  intros Hs. unfold persistMetadata, write_file.
  destruct (can_open_out env (metaPath_ s)); [|done].
  apply inv_set_disk; [done|]. intros id _ Hid. apply lookup_insert_ne.
  apply not_eq_sym, chunkPath_not_metaPath. by apply chunk_name_simple.
Qed.

Lemma touch_inv hash s :
  storage_inv s → accessCounter_ s < 2 ^ 64 - 1 → storage_inv (touch hash s).
Proof.
  intros Hs Hc. unfold touch. destruct (meta_ s !! hash) as [m|] eqn:Hm; [|done].
  pose proof (inv_counter _ Hs). rewrite u64_id by lia.
  destruct Hs. split; cbn [meta_ usedBytes_ accessCounter_ set_meta set_counter];
    try done; try lia.
  - apply map_Forall_insert_2; [by apply (inv_names0 hash m)|done].
  - apply map_Forall_insert_2; [by apply (inv_sizes0 hash m)|done].
  - rewrite total_insert. cbn [csize]. by rewrite inv_used0, (total_delete _ hash m).
  - apply map_Forall_insert_2; [cbn; lia|]. intros i c Hi.
    specialize (inv_times0 i c Hi). cbn in *. lia.
  - intros i j c d Hi Hj E.
    apply lookup_insert_Some in Hi as [[<- <-]|[Hi1 Hi]];
      apply lookup_insert_Some in Hj as [[<- <-]|[Hj1 Hj]]; [done| | |].
    + specialize (inv_times0 j d Hj). cbn in *. lia.
    + specialize (inv_times0 i c Hi). cbn in *. lia.
    + by apply (inv_distinct0 i j c d).
  - intros i c Hi. apply lookup_insert_Some in Hi as [[<- <-]|[Hi1 Hi]].
    + exact (inv_disk0 hash m Hm).
    + exact (inv_disk0 i c Hi).
Qed.

(** ** Eviction *)

Lemma lru_victim_spec l v :
  lru_victim l = Some v → v ∈ l ∧ ∀ e, e ∈ l → lastAccess v.2 ≤ lastAccess e.2.
Proof.
  destruct l as [|a l]; [done|]. intros Hv.
  set (f := λ v e : str * ChunkMeta, if lastAccess e.2 <? lastAccess v.2 then e else v).
  assert (∀ k x, (foldl f x k = x ∨ foldl f x k ∈ k) ∧
                 lastAccess (foldl f x k).2 ≤ lastAccess x.2 ∧
                 ∀ e, e ∈ k → lastAccess (foldl f x k).2 ≤ lastAccess e.2) as Hf.
  { induction k as [|y k IH]; intros x; cbn [foldl].
    - repeat split; [by left|lia|]. by intros e ?%not_elem_of_nil.
    - destruct (IH (f x y)) as (Hin & Hle & Hall).
      assert (f x y = x ∨ f x y = y) as Hxy by (unfold f; destruct (_ <? _); auto).
      assert (lastAccess (f x y).2 ≤ lastAccess x.2 ∧
              lastAccess (f x y).2 ≤ lastAccess y.2) as [Hx Hy].
      { unfold f. destruct (Z.ltb_spec (lastAccess y.2) (lastAccess x.2)); lia. }
      split; [|split; [lia|]].
      + rewrite elem_of_cons. destruct Hin as [E|?]; [|by right; right].
        rewrite E. destruct Hxy as [->| ->]; [by left|by right; left].
      + intros e [->|He]%elem_of_cons; [lia|by apply Hall]. }
  assert (v = foldl f a (a :: l)) as -> by (injection Hv; intros <-; reflexivity).
  destruct (Hf (a :: l) a) as (Hin & _ & Hall). split; [|done].
  destruct Hin as [->|?]; [by left|done].
Qed.

Lemma lru_victim_none l : lru_victim l = None → l = [].
Proof. by destruct l. Qed.

Lemma evict_inv env s i c :
  storage_inv s → meta_ s !! i = Some c → storage_inv (evict env (i, c) s).
Proof.
  intros Hs Hi. pose proof (total_nonneg _ (inv_sizes _ Hs)) as Hn.
  pose proof (total_member _ i c (inv_sizes _ Hs) Hi) as Hle.
  pose proof (inv_sizes _ Hs i c Hi) as Hc. cbn in Hc.
  pose proof (inv_used _ Hs) as Hu. pose proof (inv_used_u64 _ Hs) as Hu'.
  destruct Hs. split; cbn [evict meta_ usedBytes_ accessCounter_ set_meta set_used set_disk
    fst snd]; try done.
  - by apply map_Forall_delete.
  - by apply map_Forall_delete.
  - rewrite u64_id by lia. rewrite (total_delete _ i c Hi) in Hu. lia.
  - rewrite u64_id by lia. lia.
  - by apply map_Forall_delete.
  - eapply times_distinct_submap; [apply delete_subseteq|done].
  - intros j d [Hij Hj]%lookup_delete_Some.
    destruct (inv_disk0 j d Hj) as (data & Hd & Hl). exists data. split; [|done].
    unfold evict, remove_file.
    cbn [disk set_disk set_used set_meta fst]. rewrite (chunkPath_base _ s) by done.
    destruct (can_remove env (chunkPath s i)); [|done]. rewrite lookup_delete_ne; [done|].
    intros E%chunkPath_inj; [by subst| |].
    + apply chunk_name_simple, (inv_names0 i c Hi).
    + apply chunk_name_simple, (inv_names0 j d Hj).
Qed.

(** What evicting down to a limit does to the table: the rest fits, everything
    evicted was used longer ago than everything kept, and without the last
    eviction the rest would not fit. *)
Record lru_trim (limit : Z) (m m' : gmap str ChunkMeta) : Prop := {
  trim_sub : m' ⊆ m;
  trim_fits : total m' ≤ limit;
  trim_older i c j d :
    m !! i = Some c → m' !! i = None → m' !! j = Some d → lastAccess c < lastAccess d;
  trim_needed :
    m' = m ∨ ∃ i c, m !! i = Some c ∧ m' !! i = None ∧ limit < total m' + csize c ∧
      ∀ j d, m !! j = Some d → m' !! j = None → lastAccess d ≤ lastAccess c;
}.

Lemma lru_trim_refl limit m : total m ≤ limit → lru_trim limit m m.
Proof. intros. split; [done|done| |by left]. intros i c j d Hi E. congruence. Qed.

Lemma lru_trim_step limit m m' i c :
  times_distinct m → m !! i = Some c → limit < total m →
  (∀ j d, m !! j = Some d → lastAccess c ≤ lastAccess d) →
  lru_trim limit (delete i m) m' → lru_trim limit m m'.
Proof.
  intros Hd Hi Hl Hmin [Hsub Hfit Hold Hneed].
  assert (m' !! i = None) as Hi'.
  { destruct (m' !! i) as [d|] eqn:E; [|done].
    apply (lookup_weaken _ _ _ _ E) in Hsub. by rewrite lookup_delete_eq in Hsub. }
  assert (m' ⊆ m) as Hsub' by (etransitivity; [exact Hsub|apply delete_subseteq]).
  split; [done|done| |].
  - intros a ca b cb Ha Ha' Hb. destruct (decide (a = i)) as [->|Hne].
    + assert (ca = c) as -> by congruence.
      apply (lookup_weaken _ m) in Hb as Hb'; [|done].
      specialize (Hmin b cb Hb').
      destruct (decide (lastAccess c = lastAccess cb)) as [E|]; [|lia].
      rewrite (Hd i b c cb Hi Hb' E) in Hi'. congruence.
    + eapply Hold; [|exact Ha'|exact Hb]. by rewrite lookup_delete_ne.
  - right. destruct Hneed as [->|(a & ca & Ha & Ha' & Hl' & Hlast)].
    + exists i, c. rewrite (total_delete m i c Hi) in Hl.
      repeat split; [done|done|lia|]. intros b cb Hb Hb'.
      destruct (decide (b = i)) as [->|Hne]; [by assert (cb = c) as -> by congruence|].
      rewrite lookup_delete_ne in Hb' by done. congruence.
    + apply lookup_delete_Some in Ha as [Hne Ha]. exists a, ca.
      repeat split; [done|done|done|]. intros b cb Hb Hb'.
      destruct (decide (b = i)) as [->|Hneb].
      * assert (cb = c) as -> by congruence. by apply Hmin with a.
      * apply (Hlast b cb); [|done]. by rewrite lookup_delete_ne.
Qed.

Lemma enforce_loop_spec fuel env s :
  storage_inv s → (size (meta_ s) ≤ fuel)%nat → 0 ≤ maxBytes_ s →
  let s' := enforce_loop fuel env s in
  storage_inv s' ∧ lru_trim (maxBytes_ s) (meta_ s) (meta_ s') ∧
  baseDir_ s' = baseDir_ s ∧ maxBytes_ s' = maxBytes_ s ∧
  accessCounter_ s' = accessCounter_ s ∧
  ∀ k, (∀ id, resolve (chunkPath s id) = k → is_Some (meta_ s' !! id) ∨ meta_ s !! id = None) →
       disk s' !! k = disk s !! k.
Proof.
  cbn zeta. revert s. induction fuel as [|fuel IH]; intros s Hs Hf Hmax.
  { assert (meta_ s = ∅) as E by (apply map_size_empty_inv; lia).
    cbn [enforce_loop]. split; [done|]. split; [|done].
    apply lru_trim_refl. by rewrite E, total_empty. }
  cbn [enforce_loop]. destruct (Z.ltb_spec (maxBytes_ s) (usedBytes_ s)) as [Hlt|Hle].
  2: { split; [done|]. split; [|done]. apply lru_trim_refl. by rewrite <- inv_used. }
  destruct (lru_victim (iterate (meta_ s))) as [[i c]|] eqn:Hv.
  2: { apply lru_victim_none in Hv. apply (f_equal length) in Hv.
       rewrite length_iterate in Hv. apply map_size_empty_inv in Hv.
       rewrite inv_used, Hv, total_empty in Hlt by done. lia. }
  apply lru_victim_spec in Hv as [Hi%elem_of_iterate Hmin].
  pose proof (evict_inv env s i c Hs Hi) as Hs1.
  destruct (IH (evict env (i, c) s) Hs1) as (Hinv & Htrim & Hb & Hm & Hc & Hdisk).
  { cbn [evict meta_ set_meta set_used set_disk fst]. rewrite map_size_delete_Some by eauto. lia. }
  { done. }
  cbn [evict meta_ maxBytes_ set_meta set_used set_disk fst] in Htrim, Hm.
  split; [done|]. split; [|split; [by rewrite Hb|split; [by rewrite Hm|split; [by rewrite Hc|]]]].
  - apply (lru_trim_step _ _ _ i c); [apply Hs|done|by rewrite <- inv_used| |done].
    intros j d Hj. apply (Hmin (j, d)). by apply elem_of_iterate.
  - intros k Hk. rewrite Hdisk.
    + unfold evict, remove_file. cbn [disk set_meta set_used set_disk fst].
      destruct (can_remove env (chunkPath s i)); [|done]. apply lookup_delete_ne. intros E.
      destruct (Hk i E) as [[d Hd]|Hd]; [|congruence].
      pose proof (lookup_weaken _ _ _ _ Hd (trim_sub _ _ _ Htrim)) as Hd'.
      by rewrite lookup_delete_eq in Hd'.
    + intros id Hid. rewrite (chunkPath_base _ s) in Hid by done.
      destruct (Hk id Hid) as [?|Hn]; [by left|right].
      cbn [evict meta_ set_meta set_used set_disk fst]. by apply lookup_delete_None; right.
Qed.

Lemma enforceLimit_spec env s :
  storage_inv s → 0 ≤ maxBytes_ s →
  let s' := enforceLimit env s in
  storage_inv s' ∧
  (if maxBytes_ s =? 0 then meta_ s' = meta_ s
   else lru_trim (maxBytes_ s) (meta_ s) (meta_ s')) ∧
  baseDir_ s' = baseDir_ s ∧ maxBytes_ s' = maxBytes_ s ∧
  accessCounter_ s' = accessCounter_ s ∧
  ∀ id, is_Some (meta_ s' !! id) →
        disk s' !! resolve (chunkPath s id) = disk s !! resolve (chunkPath s id).
Proof.
  intros Hs Hmax. cbn zeta. unfold enforceLimit.
  destruct (Z.eqb_spec (maxBytes_ s) 0); [done|].
  destruct (enforce_loop_spec (size (meta_ s)) env s Hs (Nat.le_refl _) Hmax)
    as (Hinv & Htrim & Hb & Hm & Hc & Hd).
  set (s1 := enforce_loop _ _ _) in *.
  destruct (persist_fields env s1) as (Eb & Em & Eu & Ec & Et).
  split; [by apply persist_inv|]. rewrite Et, Eb, Em, Ec. repeat (split; [done|]).
  intros id [c Hid]. pose proof (inv_names _ Hinv id c Hid) as Hn. cbn in Hn.
  rewrite persist_disk_other.
  - apply Hd. intros j Hj. destruct (meta_ s !! j) as [d|] eqn:E; [left|by right].
    assert (j = id) as ->; [|by eexists].
    apply (chunkPath_inj s); [|by apply chunk_name_simple|done].
    apply chunk_name_simple, (inv_names _ Hs j d E).
  - rewrite (metaPath_base _ s) by done. by apply chunkPath_not_metaPath, chunk_name_simple.
Qed.

(** ** Storing a chunk *)

Definition io_ok (env : Env) (s : StorageManager) (hash : str) : Prop :=
  can_open_out env (tmpPath s hash) = true ∧
  can_rename env (tmpPath s hash) (chunkPath s hash) = true.

#[export] Instance io_ok_dec env s hash : Decision (io_ok env s hash).
Proof. unfold io_ok. apply _. Defined.

(** The disk after the temporary file was renamed. *)
Definition stored_disk (s : StorageManager) (hash data : str) : FS :=
  <[resolve (chunkPath s hash) := data]>
    (delete (resolve (tmpPath s hash)) (<[resolve (tmpPath s hash) := data]> (disk s))).

Lemma forget_size_fields hash s :
  baseDir_ (forget_size hash s) = baseDir_ s ∧ maxBytes_ (forget_size hash s) = maxBytes_ s ∧
  accessCounter_ (forget_size hash s) = accessCounter_ s ∧
  meta_ (forget_size hash s) = meta_ s ∧ disk (forget_size hash s) = disk s.
Proof. unfold forget_size. by destruct (meta_ s !! hash). Qed.

Lemma forget_size_used hash s :
  storage_inv s → usedBytes_ (forget_size hash s) = total (delete hash (meta_ s)).
Proof.
  intros Hs. unfold forget_size. destruct (meta_ s !! hash) as [m|] eqn:Hm.
  - pose proof (total_member _ hash m (inv_sizes _ Hs) Hm).
    rewrite (inv_used _ Hs). cbn [usedBytes_ set_used].
    destruct (Z.leb_spec (csize m) (total (meta_ s))); [|lia].
    rewrite (total_delete _ hash m Hm). lia.
  - rewrite delete_id by done. apply Hs.
Qed.

Lemma storeChunk_success env hash data s :
  hash ≠ [] → io_ok env s hash →
  storeChunk env hash data s =
  (Ok (), record_chunk env hash (zlen data)
            (set_disk (stored_disk s hash data) (forget_size hash s))).
Proof.
  intros Hne [Ho Hr]. unfold storeChunk. rewrite bool_decide_eq_false_2 by done. m_unfold.
  destruct (forget_size_fields hash s) as (Eb & _ & _ & _ & Ed).
  unfold write_file, rename_file, tmpPath.
  rewrite !(chunkPath_base (forget_size hash s) s) by done. fold (tmpPath s hash).
  rewrite Ho, lookup_insert_eq, Hr, Ed. done.
Qed.

Lemma add_entry_inv hash data fs s :
  storage_inv s → chunk_name hash → usedBytes_ s + zlen data < 2 ^ 64 →
  accessCounter_ s < 2 ^ 64 - 1 →
  fs !! resolve (chunkPath s hash) = Some data →
  (∀ j, is_Some (meta_ s !! j) → chunk_name j → j ≠ hash →
        fs !! resolve (chunkPath s j) = disk s !! resolve (chunkPath s j)) →
  storage_inv (add_entry hash (zlen data) (set_disk fs (forget_size hash s))).
Proof.
  intros Hs Hname Hu Hc Hfile Hfs.
  destruct (forget_size_fields hash s) as (Eb & _ & Ec & Em & _).
  pose proof (forget_size_used hash s Hs) as Eu.
  pose proof (total_nonneg _ (sizes_ok_delete _ hash (inv_sizes _ Hs))) as Hn.
  pose proof (zlen_nonneg data) as Hz. pose proof (inv_counter _ Hs) as Hcnt.
  assert (total (delete hash (meta_ s)) ≤ usedBytes_ s) as Hle.
  { rewrite (inv_used _ Hs). destruct (meta_ s !! hash) as [m|] eqn:Hm.
    - rewrite (total_delete _ hash m Hm). pose proof (inv_sizes _ Hs hash m Hm). cbn in *. lia.
    - by rewrite delete_id. }
  destruct Hs. split; unfold add_entry; cbn [meta_ usedBytes_ accessCounter_ set_meta set_used
    set_counter set_disk]; rewrite ?Em, ?Ec, ?Eu, ?u64_id by lia; try lia.
  - by apply map_Forall_insert_2.
  - apply map_Forall_insert_2; [cbn; lia|done].
  - rewrite total_insert. cbn [csize]. lia.
  - apply map_Forall_insert_2; [cbn; lia|]. intros i c Hi.
    specialize (inv_times0 i c Hi). cbn in *. lia.
  - intros i j c d Hi Hj E.
    apply lookup_insert_Some in Hi as [[<- <-]|[Hi1 Hi]];
      apply lookup_insert_Some in Hj as [[<- <-]|[Hj1 Hj]]; [done| | |].
    + specialize (inv_times0 j d Hj). cbn in *. lia.
    + specialize (inv_times0 i c Hi). cbn in *. lia.
    + by apply (inv_distinct0 i j c d).
  - intros i c Hi. unfold has_file. cbn [disk set_used set_meta set_disk set_counter].
    rewrite (chunkPath_base _ s) by done.
    apply lookup_insert_Some in Hi as [[<- <-]|[Hi1 Hi]]; [by exists data|].
    rewrite Hfs; [by apply inv_disk0|by eexists|by apply (inv_names0 i c)|done].
Qed.

Lemma stored_disk_other s hash data j :
  chunk_name hash → chunk_name j → j ≠ hash →
  stored_disk s hash data !! resolve (chunkPath s j) = disk s !! resolve (chunkPath s j).
Proof.
  intros Hh Hj Hne. unfold stored_disk. rewrite lookup_insert_ne.
  - rewrite lookup_delete_ne, lookup_insert_ne; [done|..];
      apply tmpPath_not_chunk; auto with dss.
  - intros E%chunkPath_inj; auto with dss.
Qed.

(** The arguments for which no 64-bit counter overflows. *)
Definition store_args_ok (hash data : str) (s : StorageManager) : Prop :=
  chunk_name hash ∧ usedBytes_ s + zlen data < 2 ^ 64 ∧ accessCounter_ s < 2 ^ 64 - 1.

#[export] Instance store_args_ok_dec hash data s : Decision (store_args_ok hash data s).
Proof. unfold store_args_ok. apply _. Defined.

(** The table before the limit is enforced. *)
Definition with_entry (hash data : str) (s : StorageManager) : gmap str ChunkMeta :=
  <[hash := mk_meta (zlen data) (accessCounter_ s + 1)]> (meta_ s).

(** The state before the limit is enforced. *)
Definition stored (hash data : str) (s : StorageManager) : StorageManager :=
  add_entry hash (zlen data) (set_disk (stored_disk s hash data) (forget_size hash s)).

Lemma stored_spec hash data s :
  storage_inv s → store_args_ok hash data s →
  storage_inv (stored hash data s) ∧ meta_ (stored hash data s) = with_entry hash data s ∧
  maxBytes_ (stored hash data s) = maxBytes_ s ∧ baseDir_ (stored hash data s) = baseDir_ s ∧
  accessCounter_ (stored hash data s) = accessCounter_ s + 1.
Proof.
  intros Hs (Hname & Hu & Hc). destruct (forget_size_fields hash s) as (Eb & Ex & Ec & Em & _).
  pose proof (inv_counter _ Hs). split.
  { apply add_entry_inv; try done; [apply lookup_insert_eq|].
    intros. by apply stored_disk_other. }
  unfold stored, add_entry, with_entry.
  cbn [meta_ maxBytes_ baseDir_ accessCounter_ set_used set_meta set_disk set_counter].
  by rewrite Em, Ec, u64_id by lia.
Qed.

Lemma storeChunk_spec env hash data s :
  storage_inv s → 0 ≤ maxBytes_ s → store_args_ok hash data s → io_ok env s hash →
  ∃ s', storeChunk env hash data s = (Ok (), s') ∧ storage_inv s' ∧
    (if maxBytes_ s =? 0 then meta_ s' = with_entry hash data s
     else lru_trim (maxBytes_ s) (with_entry hash data s) (meta_ s')) ∧
    baseDir_ s' = baseDir_ s ∧ maxBytes_ s' = maxBytes_ s ∧
    accessCounter_ s' = accessCounter_ s + 1 ∧
    (∀ id, is_Some (meta_ s' !! id) →
       read_file (chunkPath s id) (disk s') =
       if bool_decide (id = hash) then Some data else read_file (chunkPath s id) (disk s)).
Proof.
  intros Hs Hmax Hargs Hio. assert (hash ≠ []) as Hne by apply Hargs.
  rewrite storeChunk_success by done. eexists. split; [done|].
  destruct (stored_spec hash data s Hs Hargs) as (Hs1 & Em & Ex & Eb & Ec).
  unfold record_chunk. fold (stored hash data s).
  destruct (enforceLimit_spec env (stored hash data s) Hs1)
    as (Hinv & Htrim & Hb & Hx & Hcn & Hd); [by rewrite Ex|].
  rewrite Ex, Em in Htrim. rewrite Hb, Hx, Hcn. do 5 (split; [done|]).
  intros id Hid. unfold read_file. specialize (Hd id Hid).
  rewrite (chunkPath_base _ s) in Hd by done. rewrite Hd.
  change (disk (stored hash data s)) with (stored_disk s hash data).
  case_bool_decide as E; [subst id; apply lookup_insert_eq|].
  destruct Hid as [c Hid]. apply stored_disk_other; [apply Hargs| |done].
  by apply (inv_names _ Hinv id c).
Qed.

(** The entry just stored is the most recently used one, so it is evicted only
    when it does not fit alone. *)
Lemma new_entry_survives limit hash data s m' :
  storage_inv s → zlen data ≤ limit →
  lru_trim limit (with_entry hash data s) m' → is_Some (m' !! hash).
Proof.
  intros Hs Hz [Hsub Hfit Hold Hneed].
  destruct (m' !! hash) as [c|] eqn:E; [by eexists|]. exfalso.
  assert (with_entry hash data s !! hash = Some (mk_meta (zlen data) (accessCounter_ s + 1)))
    as Hh by apply lookup_insert_eq.
  assert (m' = ∅) as ->.
  { apply map_empty. intros j. destruct (m' !! j) as [d|] eqn:Hj; [|done]. exfalso.
    pose proof (Hold hash _ j d Hh E Hj) as Hlt. cbn [lastAccess] in Hlt.
    pose proof (lookup_weaken _ _ _ _ Hj Hsub) as Hj'.
    unfold with_entry in Hj'.
    apply lookup_insert_Some in Hj' as [[<- <-]|[Hne Hj']]; [congruence|].
    pose proof (inv_times _ Hs j d Hj') as Ht. cbn in Ht. lia. }
  destruct Hneed as [Em|(i & c & Hi & _ & Hl & Hlast)]; [by rewrite <- Em in Hh|].
  rewrite total_empty in Hl. specialize (Hlast hash _ Hh (lookup_empty _)). cbn in Hlast.
  unfold with_entry in Hi.
  apply lookup_insert_Some in Hi as [[<- <-]|[Hne Hi]]; [cbn in Hl; lia|].
  pose proof (inv_times _ Hs i c Hi) as Ht. cbn in Ht. lia.
Qed.

Lemma big_entry_wipes limit hash data s m' :
  storage_inv s → limit < zlen data → lru_trim limit (with_entry hash data s) m' → m' = ∅.
Proof.
  intros Hs Hz [Hsub Hfit Hold _].
  assert (with_entry hash data s !! hash = Some (mk_meta (zlen data) (accessCounter_ s + 1)))
    as Hh by apply lookup_insert_eq.
  assert (sizes_ok m') as Hsz.
  { eapply sizes_ok_submap; [exact Hsub|]. apply map_Forall_insert_2; [|apply Hs].
    apply zlen_nonneg. }
  destruct (m' !! hash) as [c|] eqn:E.
  - pose proof (lookup_weaken _ _ _ _ E Hsub) as E'. rewrite Hh in E'. injection E' as <-.
    pose proof (total_member m' hash _ Hsz E) as Ht. cbn [csize] in Ht. lia.
  - apply map_empty. intros j. destruct (m' !! j) as [d|] eqn:Hj; [|done]. exfalso.
    pose proof (Hold hash _ j d Hh E Hj) as Hlt. cbn [lastAccess] in Hlt.
    pose proof (lookup_weaken _ _ _ _ Hj Hsub) as Hj'.
    unfold with_entry in Hj'.
    apply lookup_insert_Some in Hj' as [[<- <-]|[Hne Hj']]; [congruence|].
    pose proof (inv_times _ Hs j d Hj') as Ht. cbn in Ht. lia.
Qed.

Lemma loadChunk_found env hash data s :
  read_file (chunkPath s hash) (disk s) = Some data → new_buffer env (zlen data) = Ok () →
  loadChunk env hash s = (Ok data, persistMetadata env (touch hash s)).
Proof.
  intros Hf Hb. unfold loadChunk, open_in. m_unfold. by rewrite Hf, Hb, fill_all.
Qed.

Lemma loadChunk_missing env hash s :
  read_file (chunkPath s hash) (disk s) = None → open_dir env (chunkPath s hash) = None →
  loadChunk env hash s =
  (Throw (RuntimeError (lit "loadChunk: missing chunk " ++ hash)), s).
Proof. intros Hf Hd. unfold loadChunk, open_in. m_unfold. by rewrite Hf, Hd. Qed.

Lemma loadChunk_state env hash s :
  (loadChunk env hash s).2 = s ∨ (loadChunk env hash s).2 = persistMetadata env (touch hash s).
Proof.
  unfold loadChunk. m_unfold. destruct (open_in _ _ _) as [[n bytes]|]; [|by left].
  destruct (new_buffer env n); [by right|by left].
Qed.

(** ** Failed stores *)

(** A store of a new chunk that fails leaves the table as it was. *)
Lemma storeChunk_new_failure env hash data s r s' :
  storage_inv s → chunk_name hash → meta_ s !! hash = None → ¬ io_ok env s hash →
  storeChunk env hash data s = (r, s') → is_ok r = false ∧ storage_inv s' ∧
  meta_ s' = meta_ s ∧ maxBytes_ s' = maxBytes_ s ∧ baseDir_ s' = baseDir_ s.
Proof.
  intros Hs Hname Hnew Hio. unfold storeChunk. rewrite bool_decide_eq_false_2 by apply Hname.
  m_unfold. unfold forget_size. rewrite Hnew. unfold write_file.
  assert (∀ fs, (∀ k, k ≠ resolve (tmpPath s hash) → fs !! k = disk s !! k) →
                storage_inv (set_disk fs s)) as Hframe.
  { intros fs Hfs. apply inv_set_disk; [done|]. intros id _ Hid. apply Hfs.
    apply not_eq_sym, tmpPath_not_chunk; auto with dss. }
  destruct (can_open_out env (tmpPath s hash)) eqn:Ho; [|by intros [= <- <-]].
  unfold rename_file. rewrite lookup_insert_eq.
  destruct (can_rename env (tmpPath s hash) (chunkPath s hash)) eqn:Hr.
  { by destruct Hio. }
  intros [= <- <-]. split; [done|]. split; [|done]. apply Hframe. intros k Hk.
  unfold remove_file. destruct (can_remove env _).
  - by rewrite lookup_delete_ne, lookup_insert_ne.
  - by rewrite lookup_insert_ne.
Qed.

Lemma storeChunk_overwrite_failure env hash data s m :
  storage_inv s → chunk_name hash → meta_ s !! hash = Some m →
  can_open_out env (tmpPath s hash) = false →
  storeChunk env hash data s =
  (Throw (RuntimeError (lit "storeChunk: failed to open temp file for " ++ hash)),
   set_used (usedBytes_ s - csize m) s).
Proof.
  intros Hs Hname Hm Ho. unfold storeChunk. rewrite bool_decide_eq_false_2 by apply Hname.
  m_unfold. unfold forget_size. rewrite Hm.
  pose proof (total_member _ hash m (inv_sizes _ Hs) Hm) as Hle.
  rewrite <- (inv_used _ Hs) in Hle. destruct (Z.leb_spec (csize m) (usedBytes_ s)); [|lia].
  unfold write_file, tmpPath. rewrite (chunkPath_base _ s) by done.
  fold (tmpPath s hash). by rewrite Ho.
Qed.

(** ** Other operations *)

Lemma deleteChunk_inv env hash s :
  storage_inv s → simple_name hash → storage_inv (deleteChunk env hash s).
Proof.
  intros Hs Hh. unfold deleteChunk. apply persist_inv.
  assert (storage_inv (match meta_ s !! hash with
           | Some _ => set_meta (delete hash (meta_ s)) (forget_size hash s)
           | None => s end) ∧
          meta_ (match meta_ s !! hash with
           | Some _ => set_meta (delete hash (meta_ s)) (forget_size hash s)
           | None => s end) !! hash = None) as [Hs1 Hd].
  { destruct (meta_ s !! hash) as [m|] eqn:Hm; [|done].
    split; [|apply lookup_delete_eq].
    destruct (forget_size_fields hash s) as (Eb & _ & Ec & Em & Ed).
    pose proof (forget_size_used hash s Hs) as Eu.
    pose proof (total_delete _ hash m Hm) as Et. pose proof (inv_sizes _ Hs hash m Hm) as Hsz.
    cbn in Hsz. destruct Hs.
    split; cbn [meta_ usedBytes_ accessCounter_ set_meta]; rewrite ?Ec, ?Eu; try done; try lia.
    - by apply map_Forall_delete.
    - by apply map_Forall_delete.
    - by apply map_Forall_delete.
    - eapply times_distinct_submap; [apply delete_subseteq|done].
    - apply map_Forall_delete. intros i c Hi. unfold has_file. cbn [disk set_meta].
      rewrite Ed, (chunkPath_base _ s) by done. by apply inv_disk0. }
  set (s1 := match meta_ s !! hash with Some _ => _ | None => _ end) in *.
  apply inv_set_disk; [done|]. intros id Hid Hn. unfold remove_file.
  destruct (can_remove env _); [|done]. apply lookup_delete_ne.
  intros E%chunkPath_inj; [|done|by apply chunk_name_simple]. subst id.
  destruct Hid as [? Hid]. congruence.
Qed.

Lemma setMaxBytes_inv env b s :
  storage_inv s → 0 ≤ b → storage_inv (setMaxBytes env b s) ∧ maxBytes_ (setMaxBytes env b s) = b.
Proof.
  intros Hs Hb. unfold setMaxBytes.
  assert (storage_inv (set_max b s)) as Hs1 by (by destruct Hs; split).
  destruct (enforceLimit_spec env (set_max b s) Hs1 Hb) as (? & _ & _ & Hm & _).
  by rewrite Hm.
Qed.

(** ** Restart *)

(** The file on disk tells what the table holds. *)
Definition synced (s : StorageManager) : Prop :=
  read_file (metaPath_ s) (disk s) = Some (metadata_text s).

Lemma persist_synced env s :
  can_open_out env (metaPath_ s) = true → synced (persistMetadata env s).
Proof.
  intros Ho. unfold synced, persistMetadata, write_file. rewrite Ho.
  unfold read_file. cbn [disk set_disk]. rewrite (metaPath_base _ s) by done.
  apply lookup_insert_eq.
Qed.

Definition insert_entries (l : list (str * ChunkMeta)) (m : gmap str ChunkMeta) :=
  foldl (λ m kv, <[kv.1 := kv.2]> m) m l.

Lemma insert_entries_union l m :
  NoDup l.*1 → insert_entries l m = list_to_map l ∪ m.
Proof.
  revert m. induction l as [|[k v] l IH]; intros m Hn; cbn in *.
  - by rewrite (left_id_L ∅ (∪)).
  - apply NoDup_cons in Hn as [Hk Hn]. unfold insert_entries in *. cbn [foldl fst snd].
    rewrite IH by done. rewrite <- insert_union_r, insert_union_l; [done|].
    by apply not_elem_of_list_to_map.
Qed.

Lemma insert_entries_map l : NoDup l.*1 → insert_entries l ∅ = list_to_map l.
Proof. intros. by rewrite insert_entries_union, (right_id_L ∅ (∪)). Qed.

Definition entry_ok (kv : str * ChunkMeta) : Prop :=
  is_word kv.1 ∧ 0 ≤ csize kv.2 < 2 ^ 64 ∧ 0 ≤ lastAccess kv.2 < 2 ^ 64.

Lemma read_entries_text fuel l id0 m0 acc :
  Forall entry_ok l → (length l ≤ fuel)%nat →
  read_entries fuel id0 m0 (mk_istream (newline :: flat_map entry_text l) false) acc =
  insert_entries l acc.
Proof.
  intros Hl. revert fuel id0 m0 acc.
  induction Hl as [|[id m] l (Hw & Hs & Ha) Hl IH]; intros [|fuel] id0 m0 acc Hf;
    cbn [length] in Hf; try done; try lia.
  cbn [fst snd] in *. destruct m as [size last]; cbn [csize lastAccess] in *.
  cbn [read_entries flat_map].
  assert (newline :: entry_text (id, mk_meta size last) ++ flat_map entry_text l =
          [newline] ++ id ++ [space] ++ to_string size ++ [space] ++ to_string last ++
          newline :: flat_map entry_text l) as ->.
  { unfold entry_text. cbn [fst snd csize lastAccess app].
    by rewrite <- !app_assoc; cbn [app]; rewrite <- !app_assoc; cbn [app];
      rewrite <- !app_assoc. }
  rewrite (get_word_word _ [newline] id); [|auto with dss|done|by apply word_end_cons].
  do 2 (rewrite (get_u64_to_string _ [space]); [|auto with dss|done|by apply space_no_digit]).
  cbn [in_fail]. rewrite IH by lia. done.
Qed.

Lemma entries_ok s : storage_inv s → Forall entry_ok (iterate (meta_ s)).
Proof.
  intros Hs. apply Forall_forall. intros [id m] Hin%elem_of_iterate.
  pose proof (inv_names _ Hs id m Hin) as Hn. pose proof (inv_times _ Hs id m Hin) as Ht.
  pose proof (inv_sizes _ Hs id m Hin) as Hz. cbn in *.
  pose proof (total_member _ id m (inv_sizes _ Hs) Hin) as Hm.
  pose proof (inv_used _ Hs). pose proof (inv_used_u64 _ Hs). pose proof (inv_counter _ Hs).
  split; [apply Hn|]. cbn [snd]. lia.
Qed.

Lemma length_entry_texts l : (length l ≤ length (flat_map entry_text l))%nat.
Proof.
  induction l as [|e l IH]; [done|]. cbn [flat_map length]. rewrite length_app.
  unfold entry_text at 1. rewrite !length_app. cbn [length]. lia.
Qed.

(** A restart reads back the table whose text the file holds: the counters of the
    first line and the entries of the lines after it. *)
Lemma restart_from_entries env b counter used l s' :
  0 ≤ counter < 2 ^ 64 → 0 ≤ used < 2 ^ 64 → Forall entry_ok l → NoDup l.*1 →
  read_file (metaPath_ s') (disk s') =
    Some (to_string counter ++ space :: to_string used ++ newline :: flat_map entry_text l) →
  restart env b s' = mk_storage (baseDir_ s') b used counter (list_to_map l) (disk s').
Proof.
  intros Hc Hu Hl Hnd Hsync. unfold restart, init, loadMetadata, new_storage.
  cbn [set_meta set_used set_counter baseDir_ maxBytes_ usedBytes_ accessCounter_ meta_ disk].
  rewrite (metaPath_base _ s') by done. rewrite Hsync.
  rewrite get_u64_first by (lia || by apply space_no_digit).
  change (space :: to_string used ++ ?k) with ([space] ++ to_string used ++ k).
  rewrite (get_u64_to_string _ [space] _ (newline :: _))
    by (lia || (by apply space_no_digit) || auto with dss). cbn [in_fail].
  rewrite read_entries_text, insert_entries_map; [done|done|done|].
  pose proof (length_entry_texts l).
  repeat (rewrite length_app; cbn [length]). lia.
Qed.

Lemma used_range s : storage_inv s → 0 ≤ usedBytes_ s < 2 ^ 64.
Proof.
  intros Hs. pose proof (total_nonneg _ (inv_sizes _ Hs)).
  rewrite (inv_used _ Hs) at 1. split; [done|apply (inv_used_u64 _ Hs)].
Qed.

Lemma restart_from_text env b s s' :
  storage_inv s → read_file (metaPath_ s') (disk s') = Some (metadata_text s) →
  restart env b s' =
  mk_storage (baseDir_ s') b (usedBytes_ s) (accessCounter_ s) (meta_ s) (disk s').
Proof.
  intros Hs Hsync. rewrite <- (list_to_map_iterate (meta_ s)).
  apply restart_from_entries; [apply Hs|by apply used_range|by apply entries_ok|
    apply NoDup_iterate|done].
Qed.

Lemma restart_synced env s :
  storage_inv s → synced s → restart env (maxBytes_ s) s = s.
Proof. intros. rewrite (restart_from_text _ _ s s) by done. by destruct s. Qed.

(** ** The scan of the chunk directory *)

Lemma scan_entry_add env s id data :
  can_stat env (chunkPath s id) = true →
  scan_entry env s (id, data) = add_entry id (zlen data) s.
Proof. intros Hst. cbn [scan_entry]. by rewrite Hst. Qed.

Lemma empty_inv dir b fs : storage_inv (new_storage dir b fs).
Proof. by split. Qed.

End storage_lemmas.
