(* ===== verification/StorageLru.v ===== *)
(** * The storage manager is an LRU cache

    The abstract specification of [Storage]: a list of chunks, most recently used
    first, cut to the longest prefix that fits the limit.  The storage manager,
    with its table, access counter, byte count and files, refines it. *)

From S2P Require Import Prelude.
From S2P Require Import CxxStd.
From S2P Require Import FileSystem.
From S2P Require Import Storage.

(** ** The abstract cache *)

(** The longest prefix whose sizes add up to at most the limit. *)
Fixpoint fit {A} (sz : A → Z) (limit : Z) (l : list A) : list A :=
  match l with
  | [] => []
  | e :: l' => if sz e <=? limit then e :: fit sz (limit - sz e) l' else []
  end.

Definition forget {A} (id : str) (l : list (str * A)) : list (str * A) :=
  filter (λ e, e.1 ≠ id) l.

Definition entry_bytes (e : str * str) : Z := zlen e.2.

(** A limit of 0 is no limit. *)
Definition trim (limit : Z) (c : list (str * str)) : list (str * str) :=
  if limit =? 0 then c else fit entry_bytes limit c.

Record Cache := mk_cache { limit : Z; entries : list (str * str) }.

Definition cache_find (id : str) (c : Cache) : option str :=
  snd <$> find (λ e, bool_decide (e.1 = id)) (entries c).

Inductive storage_op :=
  | StoreOp (hash data : str)
  | LoadOp (hash : str)
  | HasOp (hash : str)
  | DeleteOp (hash : str)
  | LimitOp (bytes : Z)
  | RestartOp.

Inductive reply :=
  | Done
  | Data (data : str)
  | Flag (b : bool)
  | Failed (e : exn).

Definition cache_op (op : storage_op) (c : Cache) : reply * Cache :=
  match op with
  | StoreOp hash data =>
      (Done, mk_cache (limit c) (trim (limit c) ((hash, data) :: forget hash (entries c))))
  | LoadOp hash =>
      match cache_find hash c with
      | Some data => (Data data, mk_cache (limit c) ((hash, data) :: forget hash (entries c)))
      | None => (Failed (RuntimeError (lit "loadChunk: missing chunk " ++ hash)), c)
      end
  | HasOp hash => (Flag (bool_decide (is_Some (cache_find hash c))), c)
  | DeleteOp hash => (Done, mk_cache (limit c) (forget hash (entries c)))
  | LimitOp bytes => (Done, mk_cache bytes (trim bytes (entries c)))
  | RestartOp => (Done, c)
  end.

(** ** The same operations of the storage manager *)

Section run.
Context `{IterOrder}.

Definition reply_of {A} (f : A → reply) (r : result A) : reply :=
  match r with Ok a => f a | Throw e => Failed e end.

Definition storage_exec (env : Env) (op : storage_op) (s : StorageManager)
    : reply * StorageManager :=
  match op with
  | StoreOp hash data =>
      let (r, s) := storeChunk env hash data s in (reply_of (λ _, Done) r, s)
  | LoadOp hash => let (r, s) := loadChunk env hash s in (reply_of Data r, s)
  | HasOp hash => (Flag (hasChunk s hash), s)
  | DeleteOp hash => (Done, deleteChunk env hash s)
  | LimitOp bytes => (Done, setMaxBytes env bytes s)
  | RestartOp => (Done, restart env (maxBytes_ s) s)
  end.
End run.

Fixpoint run_all {S} (exec : storage_op → S → reply * S) (ops : list storage_op) (s : S)
    : list reply * S :=
  match ops with
  | [] => ([], s)
  | op :: ops' =>
      let (r, s) := exec op s in
      let (rs, s) := run_all exec ops' s in (r :: rs, s)
  end.

(** ** Prefixes that fit *)

Fixpoint sum_sizes {A} (sz : A → Z) (l : list A) : Z :=
  match l with [] => 0 | e :: l' => sz e + sum_sizes sz l' end.

Section fit.
Context {A : Type} (sz : A → Z).

Lemma sum_sizes_app l k : sum_sizes sz (l ++ k) = sum_sizes sz l + sum_sizes sz k.
Proof. induction l as [|e l IH]; cbn; [done|]. rewrite IH. lia. Qed.

Lemma sum_sizes_perm l k : l ≡ₚ k → sum_sizes sz l = sum_sizes sz k.
Proof. induction 1; cbn; lia. Qed.

Lemma sum_sizes_nonneg l : Forall (λ e, 0 ≤ sz e) l → 0 ≤ sum_sizes sz l.
Proof. induction 1; cbn in *; lia. Qed.

Lemma fit_all b l : Forall (λ e, 0 ≤ sz e) l → sum_sizes sz l ≤ b → fit sz b l = l.
Proof.
  intros Hl. revert b. induction Hl as [|e l He Hl IH]; intros b Hb; cbn in *; [done|].
  pose proof (sum_sizes_nonneg l Hl). destruct (Z.leb_spec (sz e) b); [|lia].
  rewrite IH by lia. done.
Qed.

Lemma fit_snoc b l e : b < sum_sizes sz (l ++ [e]) → fit sz b (l ++ [e]) = fit sz b l.
Proof.
  revert b. induction l as [|x l IH]; intros b Hb; cbn in *.
  - by destruct (Z.leb_spec (sz e) b); [lia|].
  - destruct (sz x <=? b); [|done]. rewrite IH by lia. done.
Qed.

Lemma fit_sum b l : 0 ≤ b → sum_sizes sz (fit sz b l) ≤ b.
Proof.
  revert b. induction l as [|x l IH]; intros b Hb; cbn; [done|].
  destruct (Z.leb_spec (sz x) b); cbn; [|done]. specialize (IH (b - sz x)). lia.
Qed.

Lemma fit_prefix b l : fit sz b l `prefix_of` l.
Proof.
  revert b. induction l as [|x l IH]; intros b; cbn; [done|].
  destruct (sz x <=? b); [by apply prefix_cons|apply prefix_nil].
Qed.

Lemma fit_map {B} (szB : B → Z) (f : A → B) b l :
  (∀ e, e ∈ l → szB (f e) = sz e) → fit szB b (map f l) = map f (fit sz b l).
Proof.
  revert b. induction l as [|x l IH]; intros b Hf; cbn; [done|].
  rewrite Hf by set_solver. destruct (sz x <=? b); cbn; [|done].
  rewrite IH; [done|]. set_solver.
Qed.
End fit.

Lemma elem_of_forget {A} id (l : list (str * A)) e : e ∈ forget id l ↔ e.1 ≠ id ∧ e ∈ l.
Proof. unfold forget. by rewrite list_elem_of_filter. Qed.

Lemma forget_map {A B} id (f : str * A → str * B) l :
  (∀ e, (f e).1 = e.1) → forget id (map f l) = map f (forget id l).
Proof.
  intros Hf. unfold forget. induction l as [|x l IH]; [done|]. cbn [map].
  rewrite !filter_cons, Hf. destruct (decide (x.1 ≠ id)); cbn [map]; by rewrite IH.
Qed.

(** ** The order of use *)

Definition newer (a b : str * ChunkMeta) : Prop := lastAccess b.2 < lastAccess a.2.

(** [l] lists the table, most recently used first. *)
Definition recency (l : list (str * ChunkMeta)) (m : gmap str ChunkMeta) : Prop :=
  (∀ i c, (i, c) ∈ l ↔ m !! i = Some c) ∧ StronglySorted newer l.

Lemma newer_sorted_NoDup l : StronglySorted newer l → NoDup l.
Proof.
  induction 1 as [|e l _ IH Hl]; constructor; [|done]. intros Hin.
  rewrite Forall_forall in Hl. specialize (Hl e Hin). unfold newer in Hl. lia.
Qed.

Lemma recency_perm l m : recency l m → l ≡ₚ map_to_list m.
Proof.
  intros [Hl Hs]. apply NoDup_Permutation.
  - by apply newer_sorted_NoDup.
  - apply NoDup_map_to_list.
  - intros [i c]. by rewrite Hl, elem_of_map_to_list.
Qed.

Lemma recency_length l m : recency l m → length l = size m.
Proof. intros Hl. rewrite (recency_perm l m Hl). apply length_map_to_list. Qed.

Definition meta_bytes (e : str * ChunkMeta) : Z := csize e.2.

Lemma recency_total l m : recency l m → sum_sizes meta_bytes l = total m.
Proof.
  intros Hl. rewrite (sum_sizes_perm _ _ _ (recency_perm l m Hl)).
  unfold total. rewrite map_fold_foldr. unfold sum_sizes, meta_bytes.
  induction (map_to_list m) as [|[i c] k IH]; cbn; [done|]. by rewrite IH.
Qed.

Lemma recency_nonneg l m : recency l m → sizes_ok m → Forall (λ e, 0 ≤ meta_bytes e) l.
Proof. intros [Hl _] Hm. apply Forall_forall. intros [i c] Hin%Hl. by apply (Hm i). Qed.

Lemma sorted_forget id l : StronglySorted newer l → StronglySorted newer (forget id l).
Proof.
  unfold forget. induction 1 as [|e l Hl IH He]; [constructor|].
  rewrite filter_cons. case_decide; [|done]. constructor; [done|].
  rewrite Forall_forall in *. intros x [_ Hx]%list_elem_of_filter. by apply He.
Qed.

Lemma recency_forget id l m : recency l m → recency (forget id l) (delete id m).
Proof.
  intros [Hl Hs]. split; [|by apply sorted_forget]. intros i c.
  rewrite elem_of_forget, lookup_delete_Some, Hl. cbn. naive_solver.
Qed.

Lemma recency_insert id x l m :
  recency l m → map_Forall (λ _ c, lastAccess c < lastAccess x) m →
  recency ((id, x) :: forget id l) (<[id := x]> m).
Proof.
  intros Hr Hx. destruct (recency_forget id l m Hr) as [Hl Hs]. split.
  - intros i c. rewrite elem_of_cons, Hl, lookup_insert_Some, lookup_delete_Some.
    split; [intros [[= -> ->]|?]|intros [[-> ->]|?]]; auto.
  - constructor; [done|]. apply Forall_forall.
    intros [i c] [_ Hi]%Hl%lookup_delete_Some. by apply (Hx i c).
Qed.

Lemma recency_snoc l i c m :
  recency (l ++ [(i, c)]) m →
  m !! i = Some c ∧ recency l (delete i m) ∧
  ∀ e, e ∈ l → lastAccess c < lastAccess e.2.
Proof.
  intros [Hl Hs]. assert (m !! i = Some c) as Hi by (apply Hl; set_solver).
  apply StronglySorted_app in Hs as (Hlast & Hs & _).
  assert (∀ e, e ∈ l → lastAccess c < lastAccess e.2) as Hold.
  { intros e He. apply (Hlast e (i, c)); [done|set_solver]. }
  split; [done|]. split; [|done]. split; [|done]. intros j d.
  rewrite lookup_delete_Some, <- Hl, elem_of_app, list_elem_of_singleton. split.
  - intros Hj. split; [|by left]. intros ->.
    assert (m !! j = Some d) as Hd by (apply Hl; set_solver).
    assert (d = c) as -> by congruence. specialize (Hold _ Hj). cbn in Hold. lia.
  - intros [Hne [?|[= -> ->]]]; done.
Qed.

(** ** Refinement *)

Definition env_ok (env : Env) : Prop :=
  (∀ p, can_open_out env p = true) ∧ (∀ p q, can_rename env p q = true) ∧
  (∀ p, can_remove env p = true) ∧ (∀ p, dir_exists env p = true) ∧
  (∀ n, can_alloc env n = true) ∧
  ∀ s id, chunk_name id → open_dir env (chunkPath s id) = None.

(** No chunk file is left behind that the table does not know. *)
Definition no_orphan (s : StorageManager) (id : str) : Prop :=
  meta_ s !! id = None → disk s !! resolve (chunkPath s id) = None.

Definition orphan_free (s : StorageManager) : Prop := ∀ id, chunk_name id → no_orphan s id.

(** The table entries with the bytes of their files. *)
Definition view (s : StorageManager) (l : list (str * ChunkMeta)) : list (str * str) :=
  map (λ e, (e.1, default [] (read_file (chunkPath s e.1) (disk s)))) l.

Section refinement.
Context `{IterOrder}.

Record refines (c : Cache) (s : StorageManager) : Prop := {
  ref_inv : storage_inv s;
  ref_limit : maxBytes_ s = limit c;
  ref_positive : 0 < maxBytes_ s;
  ref_used : usedBytes_ s ≤ maxBytes_ s;
  ref_orphans : orphan_free s;
  ref_synced : synced s;
  ref_entries : ∃ l, recency l (meta_ s) ∧ entries c = view s l;
}.

Lemma view_ext s s' l :
  (∀ e, e ∈ l → read_file (chunkPath s' e.1) (disk s') = read_file (chunkPath s e.1) (disk s)) →
  view s' l = view s l.
Proof.
  intros He. unfold view. apply list_fmap_ext. intros i e Hi. f_equal. f_equal.
  apply He. by apply list_elem_of_lookup_2 with i.
Qed.

Lemma view_forget s id l : forget id (view s l) = view s (forget id l).
Proof. by apply forget_map. Qed.

(** The oldest entry of the order is the victim. *)
Lemma lru_victim_recency l i c m :
  recency (l ++ [(i, c)]) m → lru_victim (iterate m) = Some (i, c).
Proof.
  intros Hr. destruct (recency_snoc _ _ _ _ Hr) as (Hi & [Hl _] & Hold).
  destruct (lru_victim (iterate m)) as [[j d]|] eqn:Hv.
  - apply lru_victim_spec in Hv as [Hj%elem_of_iterate Hmin].
    specialize (Hmin (i, c)). rewrite elem_of_iterate in Hmin. specialize (Hmin Hi).
    destruct Hr as [Hr _]. apply Hr, elem_of_app in Hj as [Hj|Hj].
    + specialize (Hold _ Hj). cbn in *. lia.
    + by apply list_elem_of_singleton in Hj as ->.
  - apply lru_victim_none in Hv. apply elem_of_iterate in Hi. rewrite Hv in Hi.
    by apply not_elem_of_nil in Hi.
Qed.

Lemma enforce_loop_recency env l fuel s :
  storage_inv s → recency l (meta_ s) → (length l ≤ fuel)%nat → 0 ≤ maxBytes_ s →
  recency (fit meta_bytes (maxBytes_ s) l) (meta_ (enforce_loop fuel env s)).
Proof.
  revert fuel s. induction l as [|[i c] l IH] using rev_ind; intros fuel s Hs Hr Hf Hmax.
  - assert (meta_ s = ∅) as E.
    { apply map_size_empty_inv. by rewrite <- (recency_length _ _ Hr). }
    cbn [fit]. destruct fuel as [|fuel]; cbn [enforce_loop]; [done|].
    rewrite (inv_used _ Hs), E, total_empty. by destruct (Z.ltb_spec (maxBytes_ s) 0); [lia|].
  - rewrite length_app in Hf. cbn in Hf. destruct fuel as [|fuel]; [lia|]. cbn [enforce_loop].
    rewrite (inv_used _ Hs), <- (recency_total _ _ Hr).
    destruct (Z.ltb_spec (maxBytes_ s) (sum_sizes meta_bytes (l ++ [(i, c)]))) as [Hlt|Hle].
    + rewrite (lru_victim_recency _ _ _ _ Hr), fit_snoc by done.
      destruct (recency_snoc _ _ _ _ Hr) as (Hi & Hr' & _).
      apply (IH fuel (evict env (i, c) s)); [by apply evict_inv|done|lia|done].
    + rewrite fit_all; [done|by eapply recency_nonneg, inv_sizes|done].
Qed.

Lemma no_orphan_persist env s id :
  chunk_name id → no_orphan s id → no_orphan (persistMetadata env s) id.
Proof.
  intros Hid Ho. unfold no_orphan. destruct (persist_fields env s) as (Eb & _ & _ & _ & ->).
  rewrite (chunkPath_base _ s) by done. rewrite persist_disk_other; [by apply Ho|].
  by apply chunkPath_not_metaPath, chunk_name_simple.
Qed.

Lemma no_orphan_evict env s e id :
  env_ok env → no_orphan s id → no_orphan (evict env e s) id.
Proof.
  intros (_ & _ & Hrm & _) Ho. unfold no_orphan, evict, remove_file. rewrite Hrm.
  cbn [meta_ disk set_meta set_used set_disk].
  rewrite (chunkPath_base _ s) by done. intros [<-|Hm]%lookup_delete_None.
  - apply lookup_delete_eq.
  - apply lookup_delete_None. right. by apply Ho.
Qed.

Lemma no_orphan_enforce env s id :
  env_ok env → chunk_name id → no_orphan s id → no_orphan (enforceLimit env s) id.
Proof.
  intros He Hid Ho. unfold enforceLimit. destruct (_ =? 0); [done|].
  apply no_orphan_persist; [done|]. generalize (size (meta_ s)). intros fuel.
  revert s Ho. induction fuel as [|fuel IH]; intros s Ho; cbn [enforce_loop]; [done|].
  destruct (_ <? _); [|done]. destruct (lru_victim _); [|done].
  by apply IH, no_orphan_evict.
Qed.

Lemma orphan_free_persist env s : orphan_free s → orphan_free (persistMetadata env s).
Proof. intros Ho id Hid. by apply no_orphan_persist, Ho. Qed.

Lemma orphan_free_enforce env s :
  env_ok env → orphan_free s → orphan_free (enforceLimit env s).
Proof. intros He Ho id Hid. by apply no_orphan_enforce, Ho. Qed.

(** A table over its limit is cut to the specified prefix. *)
Lemma enforce_refines env s l :
  env_ok env → storage_inv s → 0 < maxBytes_ s → orphan_free s → recency l (meta_ s) →
  refines (mk_cache (maxBytes_ s) (trim (maxBytes_ s) (view s l))) (enforceLimit env s).
Proof.
  intros He Hs Hmax Ho Hr.
  destruct (enforceLimit_spec env s Hs) as (Hinv & _ & Eb & Em & _ & Hd); [lia|].
  assert (recency (fit meta_bytes (maxBytes_ s) l) (meta_ (enforceLimit env s))) as Hr'.
  { unfold enforceLimit. destruct (Z.eqb_spec (maxBytes_ s) 0); [lia|].
    destruct (persist_fields env (enforce_loop (size (meta_ s)) env s)) as (_ & _ & _ & _ & ->).
    apply enforce_loop_recency; [done|done| |lia]. by rewrite (recency_length _ _ Hr). }
  assert (synced (enforceLimit env s)).
  { unfold enforceLimit. destruct (Z.eqb_spec (maxBytes_ s) 0); [lia|].
    apply persist_synced. by destruct He as [-> _]. }
  split; cbn [limit entries]; rewrite ?Em; try done.
  - rewrite (inv_used _ Hinv), <- (recency_total _ _ Hr'). apply fit_sum. lia.
  - by apply orphan_free_enforce.
  - exists (fit meta_bytes (maxBytes_ s) l). split; [done|].
    unfold trim. destruct (Z.eqb_spec (maxBytes_ s) 0); [lia|].
    transitivity (view s (fit meta_bytes (maxBytes_ s) l)).
    + apply fit_map. intros [i c] Hi%Hr. destruct (inv_disk _ Hs i c Hi) as (data & Hf & Hz).
      unfold entry_bytes, read_file. cbn [fst snd]. by rewrite Hf.
    + symmetry. apply view_ext. intros [i c] Hi%Hr'. unfold read_file. cbn [fst].
      rewrite (chunkPath_base _ s) by done. apply Hd. by eexists.
Qed.

Lemma cache_find_view c s l id :
  storage_inv s → recency l (meta_ s) → entries c = view s l →
  cache_find id c =
  match meta_ s !! id with
  | Some _ => read_file (chunkPath s id) (disk s)
  | None => None
  end.
Proof.
  intros Hs [Hl _] E. unfold cache_find. rewrite E. clear E.
  assert (∀ m : gmap str ChunkMeta, map_Forall (has_file s) m → (∀ i c, (i, c) ∈ l → m !! i = Some c) →
    snd <$> find (λ e : str * str, bool_decide (e.1 = id)) (view s l) =
    if bool_decide (id ∈ l.*1) then read_file (chunkPath s id) (disk s) else None) as Hf.
  { clear Hl. intros m Hm. induction l as [|[i d] k IH]; intros Hk; [done|].
    unfold view in *. cbn [map find fst]. rewrite fmap_cons. cbn [fst].
    destruct (bool_decide_reflect (i = id)) as [Ei|Ei].
    - subst i. rewrite bool_decide_eq_true_2 by set_solver. cbn [fmap option_fmap option_map snd].
      destruct (Hm id d (Hk id d ltac:(set_solver))) as (data & Hd & _).
      unfold read_file. by rewrite Hd.
    - rewrite IH by set_solver. rewrite (bool_decide_ext (id ∈ i :: k.*1) (id ∈ k.*1)); [done|].
      set_solver. }
  rewrite (Hf (meta_ s)) by (apply Hs || by intros; apply Hl).
  destruct (meta_ s !! id) as [d|] eqn:Hid.
  - rewrite bool_decide_eq_true_2; [done|]. by apply (list_elem_of_fmap_2 fst l (id, d)), Hl.
  - rewrite bool_decide_eq_false_2; [done|]. intros ([j d] & -> & Hj%Hl)%list_elem_of_fmap.
    cbn in Hid. congruence.
Qed.

Lemma store_refines env c s hash data :
  env_ok env → refines c s → store_args_ok hash data s →
  ∃ s', storeChunk env hash data s = (Ok (), s') ∧
    refines (mk_cache (limit c) (trim (limit c) ((hash, data) :: forget hash (entries c)))) s' ∧
    accessCounter_ s' = accessCounter_ s + 1.
Proof.
  intros He [Hs Hlim Hpos Hused Ho Hsync (l & Hr & E)] Hargs.
  assert (io_ok env s hash) as Hio by (destruct He as (H1 & H2 & _); split; auto).
  destruct (storeChunk_spec env hash data s Hs) as (s' & Hst & _ & _ & _ & _ & Hcnt & _);
    [lia|done|done|].
  exists s'. split; [done|]. split; [|done].
  rewrite storeChunk_success in Hst by (done || by apply Hargs). injection Hst as <-.
  destruct (stored_spec hash data s Hs Hargs) as (Hs1 & Em & Ex & Eb & _).
  destruct Hargs as (Hname & _). unfold record_chunk. fold (stored hash data s).
  assert (disk (stored hash data s) = stored_disk s hash data) as Ed by done.
  revert Hs1 Em Ex Eb Ed. generalize (stored hash data s). intros s1 Hs1 Em Ex Eb Ed.
  assert (recency ((hash, mk_meta (zlen data) (accessCounter_ s + 1)) :: forget hash l)
            (meta_ s1)) as Hr1.
  { rewrite Em. apply recency_insert; [done|]. intros i d Hi. cbn.
    pose proof (inv_times _ Hs i d Hi) as Ht. cbn in Ht. lia. }
  assert (orphan_free s1) as Ho1.
  { intros id Hid. unfold no_orphan. rewrite Em, Ed, (chunkPath_base _ s) by done.
    unfold with_entry. intros [Hm Hne]%lookup_insert_None. rewrite stored_disk_other by done. by apply Ho. }
  replace (limit c) with (maxBytes_ s1) by congruence.
  rewrite E, view_forget. replace ((hash, data) :: view s (forget hash l))
    with (view s1 ((hash, mk_meta (zlen data) (accessCounter_ s + 1)) :: forget hash l)).
  - apply enforce_refines; try done. by rewrite Ex.
  - unfold view at 1. cbn [map fst]. f_equal.
    + f_equal. unfold read_file. rewrite Ed, (chunkPath_base _ s) by done.
      unfold stored_disk. by rewrite lookup_insert_eq.
    + apply view_ext. intros [i d] [Hne Hi]%elem_of_forget. unfold read_file. cbn in *.
      rewrite Ed, (chunkPath_base _ s) by done. apply stored_disk_other; [done| |done]. by apply (inv_names _ Hs i d), Hr.
Qed.

Lemma load_refines env c s hash :
  env_ok env → refines c s → chunk_name hash → maxBytes_ s < 2 ^ 63 →
  accessCounter_ s < 2 ^ 64 - 1 →
  let '(r, c') := cache_op (LoadOp hash) c in
  ∃ s', storage_exec env (LoadOp hash) s = (r, s') ∧ refines c' s' ∧
        accessCounter_ s' ≤ accessCounter_ s + 1.
Proof.
  intros He Hc Hname Hmax Hcnt. pose proof Hc as [Hs Hlim Hpos Hused Ho Hsync (l & Hr & E)].
  cbn [cache_op storage_exec]. rewrite (cache_find_view c s l hash) by done.
  destruct (meta_ s !! hash) as [m|] eqn:Hm.
  2: { rewrite loadChunk_missing by (by apply Ho || by apply He). eexists. split; [done|].
       split; [done|lia]. }
  destruct (inv_disk _ Hs hash m Hm) as (data & Hd & Hz). unfold read_file. rewrite Hd.
  assert (new_buffer env (zlen data) = Ok ()) as Hbuf.
  { unfold new_buffer. pose proof (total_member _ hash m (inv_sizes _ Hs) Hm) as Hle.
    rewrite <- (inv_used _ Hs), <- Hz in Hle. destruct (Z.ltb_spec (2 ^ 63 - 1) (zlen data)); [lia|].
    by destruct He as (_ & _ & _ & _ & -> & _). }
  rewrite (loadChunk_found _ _ data) by done. eexists. split; [done|].
  set (s1 := touch hash s). pose proof (inv_counter _ Hs).
  assert (meta_ s1 = <[hash := mk_meta (csize m) (accessCounter_ s + 1)]> (meta_ s) ∧
          usedBytes_ s1 = usedBytes_ s ∧ maxBytes_ s1 = maxBytes_ s ∧
          baseDir_ s1 = baseDir_ s ∧ disk s1 = disk s ∧ accessCounter_ s1 = accessCounter_ s + 1)
    as (Em & Eu & Ex & Eb & Ed & Ec).
  { subst s1. unfold touch. rewrite Hm. cbn [meta_ set_meta]. by rewrite u64_id by lia. }
  assert (storage_inv s1) as Hs1 by (by apply touch_inv).
  assert (orphan_free s1) as Ho1.
  { intros id Hid. unfold no_orphan. rewrite Em, Ed, (chunkPath_base _ s) by done.
    intros [? _]%lookup_insert_None. by apply Ho. }
  destruct (persist_fields env s1) as (Eb' & Ex' & Eu' & Ec' & Em').
  split; [|rewrite Ec', Ec; lia].
  split; rewrite ?Ex', ?Eu', ?Ex, ?Eu; try done.
  - by apply persist_inv.
  - by apply orphan_free_persist.
  - apply persist_synced. by destruct He as [-> _].
  - exists ((hash, mk_meta (csize m) (accessCounter_ s + 1)) :: forget hash l). split.
    + rewrite Em', Em. apply recency_insert; [done|]. intros i d Hi. cbn.
      pose proof (inv_times _ Hs i d Hi) as Ht. cbn in Ht. lia.
    + cbn [entries]. rewrite E, view_forget.
      assert (∀ i, chunk_name i → read_file (chunkPath (persistMetadata env s1) i)
                (disk (persistMetadata env s1)) = read_file (chunkPath s i) (disk s)) as Hrd.
      { intros i Hi. unfold read_file. rewrite (chunkPath_base _ s1) by done.
        rewrite persist_disk_other by (apply chunkPath_not_metaPath; auto with dss).
        by rewrite Ed, (chunkPath_base _ s). }
      unfold view at 2. cbn [map fst]. rewrite Hrd by done. unfold read_file. rewrite Hd.
      f_equal. symmetry. apply view_ext. intros [i d] [_ Hi%Hr]%elem_of_forget.
      apply Hrd, (inv_names _ Hs i d Hi).
Qed.

Lemma delete_fields env s hash :
  (∀ p, can_remove env p = true) →
  ∃ s1, deleteChunk env hash s = persistMetadata env s1 ∧
    meta_ s1 = delete hash (meta_ s) ∧ baseDir_ s1 = baseDir_ s ∧
    maxBytes_ s1 = maxBytes_ s ∧ accessCounter_ s1 = accessCounter_ s ∧
    disk s1 = delete (resolve (chunkPath s hash)) (disk s).
Proof.
  intros Hrm. unfold deleteChunk. eexists. split; [done|].
  destruct (forget_size_fields hash s) as (Eb & Ex & Ec & Em & Ed).
  unfold remove_file. rewrite Hrm. cbn [meta_ baseDir_ maxBytes_ accessCounter_ disk set_disk].
  destruct (meta_ s !! hash) as [m|] eqn:Hm.
  - cbn [meta_ baseDir_ maxBytes_ accessCounter_ disk set_meta].
    by rewrite Ed, (chunkPath_base _ s).
  - by rewrite delete_id.
Qed.

Lemma delete_refines env c s hash :
  env_ok env → refines c s → chunk_name hash →
  refines (cache_op (DeleteOp hash) c).2 (deleteChunk env hash s) ∧
  accessCounter_ (deleteChunk env hash s) = accessCounter_ s.
Proof.
  intros He [Hs Hlim Hpos Hused Ho Hsync (l & Hr & E)] Hname.
  pose proof (deleteChunk_inv env hash s Hs (chunk_name_simple _ Hname)) as Hinv.
  destruct He as (Ho1 & _ & Hrm & _). cbn [cache_op snd].
  destruct (delete_fields env s hash Hrm) as (s1 & Es & Em & Eb & Ex & Ec & Ed).
  rewrite Es in *. destruct (persist_fields env s1) as (Eb' & Ex' & Eu' & Ec' & Em').
  pose proof (recency_forget hash l _ Hr) as Hr1. rewrite <- Em, <- Em' in Hr1.
  assert (∀ i, chunk_name i → i ≠ hash →
            read_file (chunkPath (persistMetadata env s1) i) (disk (persistMetadata env s1)) =
            read_file (chunkPath s i) (disk s)) as Hrd.
  { intros i Hi Hne. unfold read_file. rewrite (chunkPath_base _ s1) by done.
    rewrite persist_disk_other by (apply chunkPath_not_metaPath; auto with dss).
    rewrite Ed, (chunkPath_base s1 s) by done. apply lookup_delete_ne.
    intros ?%chunkPath_inj; auto with dss. }
  split; [|by rewrite Ec']. split; cbn [limit entries]; rewrite ?Ex', ?Ex; try done.
  - rewrite (inv_used _ Hinv), Em', Em. pose proof (inv_used _ Hs) as Hu.
    destruct (meta_ s !! hash) as [m|] eqn:Hm.
    + rewrite (total_delete _ hash m Hm) in Hu.
      pose proof (inv_sizes _ Hs hash m Hm) as Hz. cbn in Hz. lia.
    + rewrite delete_id by done. lia.
  - apply orphan_free_persist. intros id Hid. unfold no_orphan. rewrite Em, Ed, (chunkPath_base _ s) by done.
    intros [<-|?]%lookup_delete_None; [apply lookup_delete_eq|].
    apply lookup_delete_None. right. by apply Ho.
  - by apply persist_synced.
  - exists (forget hash l). split; [done|]. rewrite E, view_forget. symmetry. apply view_ext.
    intros [i d] [Hne Hi%Hr]%elem_of_forget.
    apply Hrd; [|done]. apply (inv_names _ Hs i d Hi).
Qed.

Lemma limit_refines env c s bytes :
  env_ok env → refines c s → 0 < bytes →
  refines (cache_op (LimitOp bytes) c).2 (setMaxBytes env bytes s) ∧
  accessCounter_ (setMaxBytes env bytes s) = accessCounter_ s ∧
  maxBytes_ (setMaxBytes env bytes s) = bytes.
Proof.
  intros He [Hs Hlim Hpos Hused Ho Hsync (l & Hr & E)] Hb. unfold setMaxBytes.
  assert (storage_inv (set_max bytes s)) as Hs1 by (by destruct Hs; split).
  destruct (enforceLimit_spec env (set_max bytes s) Hs1) as (_ & _ & _ & -> & -> & _);
    [cbn; lia|].
  split; [|done]. cbn [cache_op snd]. rewrite E.
  change (view s l) with (view (set_max bytes s) l).
  by apply (enforce_refines env (set_max bytes s)).
Qed.

(** ** Runs *)

(** Chunk names, no removed limit, and sizes for which 64 bits are enough. *)
Definition op_ok (op : storage_op) : Prop :=
  match op with
  | StoreOp hash data => chunk_name hash ∧ zlen data < 2 ^ 63
  | LoadOp hash | DeleteOp hash => chunk_name hash
  | LimitOp bytes => 0 < bytes < 2 ^ 63
  | HasOp _ | RestartOp => True
  end.

#[export] Instance op_ok_dec op : Decision (op_ok op).
Proof. destruct op; cbn [op_ok]; apply _. Defined.

Lemma step_refines env op c s :
  env_ok env → refines c s → op_ok op → maxBytes_ s < 2 ^ 63 → accessCounter_ s < 2 ^ 64 - 1 →
  ∃ s', storage_exec env op s = ((cache_op op c).1, s') ∧ refines (cache_op op c).2 s' ∧
        maxBytes_ s' < 2 ^ 63 ∧ accessCounter_ s' ≤ accessCounter_ s + 1.
Proof.
  intros He Hc Hop Hmax Hcnt. destruct op as [hash data|hash|hash|hash|bytes|].
  - destruct Hop as [Hname Hz]. pose proof (ref_used _ _ Hc).
    destruct (store_refines env c s hash data) as (s' & Est & Hc' & Ec); [done|done| |].
    { split; [done|]. lia. }
    exists s'. cbn [storage_exec cache_op fst snd]. rewrite Est. refine (conj eq_refl (conj Hc' (conj _ _))); [|lia].
    rewrite (ref_limit _ _ Hc'). cbn [limit]. by rewrite <- (ref_limit _ _ Hc).
  - pose proof (load_refines env c s hash He Hc Hop Hmax Hcnt) as Hl.
    destruct (cache_op (LoadOp hash) c) as [r c'] eqn:El. destruct Hl as (s' & Est & Hc' & Ec).
    exists s'. cbn [fst snd]. refine (conj Est (conj Hc' (conj _ Ec))).
    rewrite (ref_limit _ _ Hc'). cbn in El.
    assert (limit c' = limit c) as ->; [|by rewrite <- (ref_limit _ _ Hc)].
    destruct (cache_find hash c); by injection El as _ <-.
  - exists s. cbn [storage_exec cache_op fst snd]. refine (conj _ (conj Hc (conj Hmax _))); [|lia].
    f_equal. f_equal. unfold hasChunk. apply bool_decide_ext.
    destruct Hc as [Hs _ _ _ _ _ (l & Hr & E)]. rewrite (cache_find_view c s l) by done.
    destruct (meta_ s !! hash) as [m|] eqn:Hm; [|done].
    destruct (inv_disk _ Hs hash m Hm) as (data & Hd & _). unfold read_file. by rewrite Hd.
  - destruct (delete_refines env c s hash He Hc Hop) as [Hc' Ec].
    eexists. split; [done|]. split; [done|]. rewrite Ec, (ref_limit _ _ Hc').
    cbn [cache_op snd limit]. rewrite <- (ref_limit _ _ Hc). lia.
  - destruct (limit_refines env c s bytes He Hc) as (Hc' & Ec & Em); [apply Hop|].
    eexists. split; [done|]. split; [done|]. rewrite Ec, Em. cbn in Hop. lia.
  - exists s. cbn [storage_exec cache_op fst snd].
    rewrite restart_synced by (apply Hc).
    refine (conj eq_refl (conj Hc (conj Hmax _))). lia.
Qed.

Lemma run_refines env ops c s :
  env_ok env → refines c s → Forall op_ok ops → maxBytes_ s < 2 ^ 63 →
  accessCounter_ s + zlen ops < 2 ^ 64 →
  ∃ s', run_all (storage_exec env) ops s = ((run_all cache_op ops c).1, s') ∧
        refines (run_all cache_op ops c).2 s'.
Proof.
  intros He Hc Hops. revert c s Hc. induction Hops as [|op ops Hop Hops IH]; intros c s Hc Hm Hn.
  - by exists s.
  - rewrite zlen_cons in Hn. pose proof (zlen_nonneg ops).
    destruct (step_refines env op c s) as (s1 & E1 & Hc1 & Hm1 & Hn1); try done; [lia|].
    destruct (IH _ _ Hc1 Hm1) as (s2 & E2 & Hc2); [lia|].
    exists s2. cbn [run_all]. rewrite E1. destruct (cache_op op c) as [r c1]. cbn [fst snd] in *.
    rewrite E2. by destruct (run_all cache_op ops c1).
Qed.

Lemma init_refines env dir bytes :
  env_ok env → 0 < bytes →
  let s := init env (new_storage dir bytes ∅) in
  refines (mk_cache bytes []) s ∧ maxBytes_ s = bytes ∧ accessCounter_ s = 0.
Proof.
  intros (Ho & _ & _ & Hd & _) Hb. cbn zeta. unfold init, loadMetadata, read_file.
  cbn [disk new_storage set_meta set_used set_counter]. rewrite lookup_empty.
  unfold rebuildMetadataFromDisk. rewrite Hd.
  assert (dir_entries (chunksDir_ (set_counter 0 (set_used 0 (set_meta ∅
    (set_counter 0 (set_used 0 (set_meta ∅ (new_storage dir bytes ∅)))))))) ∅ = []) as E.
  { apply elem_of_nil_inv. intros [i d] Hi%elem_of_dir_entries. by rewrite lookup_empty in Hi. }
  cbn [disk new_storage set_meta set_used set_counter] in E |- *.
  rewrite E. cbn [foldl]. set (s0 := new_storage dir bytes ∅).
  assert (storage_inv s0) as Hs by (split; done).
  change (set_counter 0 (set_used 0 (set_meta ∅ (set_counter 0 (set_used 0 (set_meta ∅ s0))))))
    with s0.
  destruct (persist_fields env s0) as (_ & Ex & Eu & Ec & Em).
  split; [|by rewrite Ex, Ec]. split; rewrite ?Ex, ?Eu; try done.
  - by apply persist_inv.
  - change (0 ≤ bytes). lia.
  - apply orphan_free_persist. intros id _ _. apply lookup_empty.
  - by apply persist_synced.
  - exists []. split; [|done]. rewrite Em. split; [|constructor].
    intros i c. change (meta_ s0) with (∅ : gmap str ChunkMeta).
    rewrite lookup_empty. split; [by intros ?%not_elem_of_nil|done].
Qed.
End refinement.
