(* ===== verification/StorageProps.v ===== *)
(** * What the storage manager guarantees, and what it does not

    The theorems about [Storage] and [StorageLru]: runs of operations behave as
    the abstract LRU cache, a chunk that fits is read back, the limit holds after
    every store, the table survives restarts and the loss of its file; and the
    inputs and faults for which the code does not keep these promises. *)

From S2P Require Import Prelude.
From S2P Require Import CxxStd.
From S2P Require Import FileSystem.
From S2P Require Import Storage.
From S2P Require Import StorageLru.

(** The operation cannot leave the byte count behind: a store that fails is the
    store of a new chunk, and a restart finds the current table on disk. *)
Definition no_lost_update `{IterOrder} (env : Env) (op : storage_op) (s : StorageManager) : Prop :=
  match op with
  | StoreOp hash data =>
      store_args_ok hash data s ∧ (io_ok env s hash ∨ meta_ s !! hash = None)
  | LoadOp hash => accessCounter_ s < 2 ^ 64 - 1
  | DeleteOp hash => simple_name hash
  | LimitOp bytes => 0 ≤ bytes
  | HasOp _ => True
  | RestartOp => synced s
  end.

(** States reached from a store opened on an empty directory, with a limit that
    is never negative and an environment that may change at every step, without a failed
    overwrite of a chunk ([failed_overwrite_uncounts] says what that does) and
    without a restart on a table that is not the one in memory. *)
Inductive reachable_without_loss `{IterOrder} (dir : str) (bytes : Z) : StorageManager → Prop :=
  | reach_new fs : reachable_without_loss dir bytes (new_storage dir bytes fs)
  | reach_step env op s :
      reachable_without_loss dir bytes s → no_lost_update env op s →
      reachable_without_loss dir bytes (storage_exec env op s).2.

Section storage_props.
Context `{IterOrder}.

Lemma step_inv env op s :
  storage_inv s → 0 ≤ maxBytes_ s → no_lost_update env op s →
  storage_inv (storage_exec env op s).2 ∧ 0 ≤ maxBytes_ (storage_exec env op s).2.
Proof.
  intros Hs Hm Hop. destruct op as [hash data|hash|hash|hash|bytes|]; cbn [storage_exec].
  - destruct Hop as [Hargs Hio]. destruct (storeChunk env hash data s) as [r s'] eqn:E.
    cbn [snd]. destruct (decide (io_ok env s hash)) as [Hok|Hbad].
    + destruct (storeChunk_spec env hash data s) as (s2 & E2 & ? & _ & _ & Ex & _); try done.
      rewrite E in E2. injection E2 as -> ->. by rewrite Ex.
    + destruct Hio as [?|Hnew]; [done|].
      by destruct (storeChunk_new_failure env hash data s r s' Hs (proj1 Hargs) Hnew Hbad E)
        as (_ & ? & _ & -> & _).
  - cbn in Hop. pose proof (loadChunk_state env hash s) as Hl.
    destruct (loadChunk env hash s) as [r s']. cbn [snd] in *. destruct Hl as [->| ->]; [done|].
    destruct (persist_fields env (touch hash s)) as (_ & -> & _).
    split; [by apply persist_inv, touch_inv|]. unfold touch. by destruct (meta_ s !! hash).
  - done.
  - cbn [snd]. split; [by apply deleteChunk_inv|]. unfold deleteChunk.
    match goal with |- 0 ≤ maxBytes_ (persistMetadata _ ?x) =>
      destruct (persist_fields env x) as (_ & -> & _) end.
    cbn [maxBytes_ set_disk]. destruct (meta_ s !! hash); [|done]. cbn [maxBytes_ set_meta].
    by destruct (forget_size_fields hash s) as (_ & -> & _).
  - cbn [snd]. cbn in Hop. destruct (setMaxBytes_inv env bytes s) as [? ->]; done.
  - cbn [snd]. by rewrite restart_synced.
Qed.

Lemma reachable_inv dir bytes s :
  0 ≤ bytes → reachable_without_loss dir bytes s → storage_inv s ∧ 0 ≤ maxBytes_ s.
Proof.
  intros Hb. induction 1 as [fs|env op s _ [IH1 IH2]].
  - split; [apply empty_inv|done].
  - by apply step_inv.
Qed.

(** ** The scan of the chunk directory *)

Lemma scan_spec env l s :
  (∀ p, can_stat env p = true) → storage_inv s → NoDup l.*1 →
  Forall (λ e, chunk_name e.1 ∧ disk s !! resolve (chunkPath s e.1) = Some e.2 ∧
               meta_ s !! e.1 = None) l →
  usedBytes_ s + sum_sizes entry_bytes l < 2 ^ 64 → accessCounter_ s + zlen l < 2 ^ 64 →
  let s' := foldl (scan_entry env) s l in
  storage_inv s' ∧ baseDir_ s' = baseDir_ s ∧ disk s' = disk s ∧
  ∀ i, is_Some (meta_ s' !! i) ↔ i ∈ l.*1 ∨ is_Some (meta_ s !! i).
Proof.
  intros Hst. cbn zeta. revert s.
  induction l as [|[id data] l IH]; intros s Hs Hnd Hl Hu Hc.
  { split; [done|]. split; [done|]. split; [done|]. intros i. cbn. set_solver. }
  cbn [foldl]. rewrite scan_entry_add by done.
  apply Forall_cons in Hl as [(Hname & Hfile & Hnew) Hl].
  cbn [sum_sizes entry_bytes snd fst] in *. rewrite fmap_cons in *. cbn [fst] in *.
  apply NoDup_cons in Hnd as [Hni Hnd]. rewrite zlen_cons in Hc.
  assert (0 ≤ sum_sizes entry_bytes l).
  { apply sum_sizes_nonneg, Forall_forall. intros. apply zlen_nonneg. }
  pose proof (zlen_nonneg l). pose proof (zlen_nonneg data). pose proof (inv_counter _ Hs).
  pose proof (total_nonneg _ (inv_sizes _ Hs)). pose proof (inv_used _ Hs).
  change (entry_bytes (id, data)) with (zlen data) in Hu.
  assert (set_disk (disk s) (forget_size id s) = s) as E.
  { unfold forget_size. rewrite Hnew. by destruct s. }
  assert (storage_inv (add_entry id (zlen data) s)) as Hs1.
  { rewrite <- E. apply add_entry_inv; try done; lia. }
  destruct (IH (add_entry id (zlen data) s) Hs1 Hnd) as (Hinv & Eb & Ed & Hm).
  - eapply Forall_impl; [apply Forall_and; split; [exact Hl|]|].
    { apply Forall_forall. intros e He. exact (list_elem_of_fmap_2 fst l e He). }
    intros e [(Hn & Hf & Hm) He]. split; [done|]. split; [done|].
    unfold add_entry. cbn [meta_ set_used set_meta]. rewrite lookup_insert_ne; [done|].
    by intros ->.
  - unfold add_entry. cbn [usedBytes_ set_used set_meta set_counter].
    rewrite u64_id by lia. lia.
  - unfold add_entry. cbn [accessCounter_ set_used set_meta set_counter].
    rewrite u64_id by lia. lia.
  - split; [done|]. split; [done|]. split; [done|]. intros i. rewrite Hm.
    unfold add_entry. cbn [meta_ set_used set_meta]. rewrite elem_of_cons, lookup_insert_is_Some.
    destruct (decide (id = i)) as [->|]; naive_solver.
Qed.

(** ** Theorems *)

(** C6. A storage manager opened on an empty directory with a limit answers any
    sequence of stores, loads, look-ups, deletions, changes of the limit and
    restarts exactly as the abstract LRU cache of [StorageLru] does (when the
    file operations succeed), and its table, byte count and files are those of
    the cache. *)
Theorem storage_is_lru_cache env dir bytes ops
    (He : env_ok env) (Hb : 0 < bytes < 2 ^ 63) (Hops : Forall op_ok ops)
    (Hn : zlen ops < 2 ^ 64) :
  ∃ replies c s,
    run_all cache_op ops (mk_cache bytes []) = (replies, c) ∧
    run_all (storage_exec env) ops (init env (new_storage dir bytes ∅)) = (replies, s) ∧
    refines c s.
Proof.
  destruct (init_refines env dir bytes He) as (Hr & Em & Ec); [lia|].
  destruct (run_refines env ops _ _ He Hr Hops) as (s' & E & Hr'); [rewrite Em; lia|rewrite Ec; lia|].
  eexists _, _, s'. split; [apply surjective_pairing|]. done.
Qed.

(** C14. In every state that is reached without a failed overwrite of a chunk and without
    a restart on a table that was not written, whatever other file operations failed
    on the way, the byte count is the sum of the table's sizes, each entry has its file with
    that many bytes, and the access times are distinct and at most the counter. *)
Theorem reachable_accounts dir bytes s (Hb : 0 ≤ bytes) (Hr : reachable_without_loss dir bytes s) :
  usedBytes_ s = total (meta_ s) ∧ 0 ≤ usedBytes_ s < 2 ^ 64 ∧
  map_Forall (has_file s) (meta_ s) ∧ times_distinct (meta_ s) ∧
  map_Forall (λ _ c, 0 ≤ lastAccess c ≤ accessCounter_ s) (meta_ s).
Proof.
  destruct (reachable_inv dir bytes s Hb Hr) as [Hs _].
  pose proof (total_nonneg _ (inv_sizes _ Hs)). pose proof (inv_used _ Hs).
  destruct Hs. repeat (split; [done || lia|]). done.
Qed.

(** C21. A chunk that fits the limit is stored and read back unchanged, and the
    chunks that stay in the table keep their bytes. *)
Theorem stored_chunk_is_loaded env env' hash data s
    (Hs : storage_inv s) (Hm : 0 ≤ maxBytes_ s) (Hargs : store_args_ok hash data s)
    (Hio : io_ok env s hash) (Hfit : maxBytes_ s = 0 ∨ zlen data ≤ maxBytes_ s)
    (Hmem : new_buffer env' (zlen data) = Ok ()) :
  ∃ s', storeChunk env hash data s = (Ok (), s') ∧ hasChunk s' hash = true ∧
    (loadChunk env' hash s').1 = Ok data ∧
    ∀ id, hasChunk s' id = true → id ≠ hash →
          (loadChunk env' id s').1 = (loadChunk env' id s).1.
Proof.
  destruct (storeChunk_spec env hash data s Hs Hm Hargs Hio)
    as (s' & E & _ & Htrim & Eb & _ & _ & Hd).
  exists s'. split; [done|].
  assert (is_Some (meta_ s' !! hash)) as Hhas.
  { destruct (Z.eqb_spec (maxBytes_ s) 0) as [|Hne].
    - rewrite Htrim. unfold with_entry. rewrite lookup_insert_eq. by eexists.
    - apply (new_entry_survives _ _ _ _ _ Hs) in Htrim; [done|]. by destruct Hfit. }
  unfold hasChunk. rewrite bool_decide_eq_true_2 by done. split; [done|].
  assert (∀ t u id, baseDir_ t = baseDir_ u →
    read_file (chunkPath u id) (disk t) = read_file (chunkPath u id) (disk u) →
    (loadChunk env' id t).1 = (loadChunk env' id u).1) as Hload.
  { intros t u id Etu Er. unfold loadChunk, open_in. m_unfold.
    rewrite (chunkPath_base t u) by done. rewrite Er.
    destruct (match read_file (chunkPath u id) (disk u) with Some _ => _ | None => _ end)
      as [[n b]|]; [|done]. by destruct (new_buffer env' n). }
  split.
  - erewrite loadChunk_found; [done| |done]. rewrite (chunkPath_base s' s) by done.
    rewrite Hd by done. by rewrite bool_decide_eq_true_2.
  - intros id Hid%bool_decide_eq_true_1 Hne. apply Hload; [done|].
    rewrite Hd by done. by rewrite bool_decide_eq_false_2.
Qed.

(** C22. A store under a limit keeps the table within the limit; what it evicts
    was used less recently than everything it keeps, and it evicts no more than
    it must. *)
Theorem store_evicts_oldest env hash data s
    (Hs : storage_inv s) (Hm : 0 < maxBytes_ s) (Hargs : store_args_ok hash data s)
    (Hio : io_ok env s hash) :
  ∃ s', storeChunk env hash data s = (Ok (), s') ∧ usedBytes_ s' ≤ maxBytes_ s ∧
    lru_trim (maxBytes_ s)
      (<[hash := mk_meta (zlen data) (accessCounter_ s + 1)]> (meta_ s)) (meta_ s').
Proof.
  destruct (storeChunk_spec env hash data s Hs) as (s' & E & Hs' & Htrim & _); [lia|done|done|].
  destruct (Z.eqb_spec (maxBytes_ s) 0); [lia|]. exists s'. split; [done|].
  split; [|done]. rewrite (inv_used _ Hs'). by destruct Htrim.
Qed.

(** A chunk larger than the limit is reported as stored, and the store is
    empty afterwards: every chunk is evicted, the new one included. *)
Theorem oversize_store_empties env hash data s
    (Hs : storage_inv s) (Hm : 0 < maxBytes_ s) (Hargs : store_args_ok hash data s)
    (Hio : io_ok env s hash) (Hbig : maxBytes_ s < zlen data) :
  ∃ s', storeChunk env hash data s = (Ok (), s') ∧ meta_ s' = ∅ ∧ usedBytes_ s' = 0.
Proof.
  destruct (storeChunk_spec env hash data s Hs) as (s' & E & Hs' & Htrim & _); [lia|done|done|].
  destruct (Z.eqb_spec (maxBytes_ s) 0); [lia|]. exists s'. split; [done|].
  assert (meta_ s' = ∅) as Em by exact (big_entry_wipes _ _ _ _ _ Hs Hbig Htrim).
  by rewrite (inv_used _ Hs'), Em, total_empty.
Qed.

(** A process that starts on the files of one that persisted its table has
    the same table, counters and files. *)
Theorem restart_keeps_state env s
    (Hs : storage_inv s) (Ho : can_open_out env (metaPath_ s) = true) :
  restart env (maxBytes_ s) (persistMetadata env s) = persistMetadata env s.
Proof.
  destruct (persist_fields env s) as (_ & <- & _).
  apply restart_synced; [by apply persist_inv|by apply persist_synced].
Qed.

(** Without a metadata file the table is rebuilt from the directory: every
    chunk file is found with its size, and the invariant holds. *)
Theorem rebuild_finds_chunks env dir bytes fs
    (Hst : ∀ p, can_stat env p = true) (Hd : ∀ p, dir_exists env p = true)
    (Hmeta : read_file (metaPath_ (new_storage dir bytes fs)) fs = None)
    (Hids : Forall (λ e, chunk_name e.1) (dir_entries (chunksDir_ (new_storage dir bytes fs)) fs))
    (Hsize : sum_sizes entry_bytes (dir_entries (chunksDir_ (new_storage dir bytes fs)) fs)
             < 2 ^ 64)
    (Hcount : zlen (dir_entries (chunksDir_ (new_storage dir bytes fs)) fs) < 2 ^ 64) :
  let s := init env (new_storage dir bytes fs) in
  storage_inv s ∧
  ∀ id, chunk_name id →
        hasChunk s id = true ↔ is_Some (fs !! resolve (chunkPath (new_storage dir bytes fs) id)).
Proof.
  cbn zeta. set (s0 := new_storage dir bytes fs) in *.
  unfold init, loadMetadata. change (set_counter 0 (set_used 0 (set_meta ∅ s0))) with s0.
  change (disk s0) with fs. rewrite Hmeta. unfold rebuildMetadataFromDisk.
  change (set_counter 0 (set_used 0 (set_meta ∅ s0))) with s0.
  rewrite Hd. change (disk s0) with fs.
  assert (∀ id data, (id, data) ∈ dir_entries (chunksDir_ s0) fs → chunk_name id →
            fs !! resolve (chunkPath s0 id) = Some data) as Hfile.
  { intros id data Hin%elem_of_dir_entries Hid. rewrite resolve_chunkPath by auto with dss.
    by rewrite resolve_chunks in Hin. }
  destruct (scan_spec env (dir_entries (chunksDir_ s0) fs) s0) as (Hinv & _ & _ & Hm);
    [done|by apply empty_inv|apply NoDup_dir_entries| |done|done|].
  { rewrite Forall_forall in *. intros [id data] Hin. specialize (Hids _ Hin).
    split; [done|]. split; [by apply Hfile|done]. }
  split; [by apply persist_inv|]. intros id Hid. unfold hasChunk.
  match goal with |- context [persistMetadata env ?x] =>
    destruct (persist_fields env x) as (_ & _ & _ & _ & ->) end.
  rewrite bool_decide_eq_true, Hm.
  change (meta_ s0) with (∅ : gmap str ChunkMeta). rewrite lookup_empty, is_Some_alt. split.
  - intros [([i data] & -> & Hin)%list_elem_of_fmap|[]].
    exists data. by apply Hfile.
  - intros [data Hf]. left. apply (list_elem_of_fmap_2 fst _ (id, data)), elem_of_dir_entries.
    rewrite resolve_chunks. by rewrite resolve_chunkPath in Hf by auto with dss.
Qed.

(** ** Where the code falls short *)

Lemma storeChunk_unlimited env hash data s :
  hash ≠ [] → io_ok env s hash → maxBytes_ s = 0 →
  storeChunk env hash data s = (Ok (), stored hash data s).
Proof.
  intros Hne Hio Hm. rewrite storeChunk_success by done. f_equal.
  unfold record_chunk. fold (stored hash data s). unfold enforceLimit.
  assert (maxBytes_ (stored hash data s) = maxBytes_ s) as ->.
  { unfold stored, add_entry. cbn [maxBytes_ set_used set_meta set_counter set_disk].
    by destruct (forget_size_fields hash s) as (_ & -> & _). }
  by rewrite Hm.
Qed.

Lemma resolve_parent s n :
  simple_name n → resolve (chunkPath s (lit "../" ++ n)) = resolve (join (baseDir_ s) n).
Proof.
  intros Hn. unfold chunkPath, chunksDir_.
  assert (∀ a, is_absolute (join (baseDir_ s) a) = is_absolute (join (baseDir_ s) [])) as Ha
    by (intros; apply is_absolute_join).
  unfold resolve.
  assert (is_absolute (join (join (baseDir_ s) (lit "chunks")) (lit "../" ++ n)) =
          is_absolute (join (baseDir_ s) n)) as ->.
  { rewrite (Ha n), <- (Ha (lit "chunks" ++ "/"%char :: lit "../" ++ n)).
    unfold join. by rewrite <- app_assoc. }
  f_equal. unfold join. rewrite !split_slash_app, !foldl_app.
  change (split_slash (lit "../" ++ n)) with (dotdot :: split_slash n).
  rewrite (split_slash_simple n) by apply Hn.
  change (split_slash (lit "chunks")) with [lit "chunks"]. cbn [foldl].
  by rewrite (walk_simple _ _ (lit "chunks")) by by_eval.
Qed.

(** When the file of a chunk that is already stored cannot be written again,
    the call fails with the table and the files as they were, but the bytes of
    the chunk are no longer counted. *)
Theorem failed_overwrite_uncounts env hash data s m
    (Hs : storage_inv s) (Hname : chunk_name hash) (Hm : meta_ s !! hash = Some m)
    (Ho : can_open_out env (tmpPath s hash) = false) :
  ∃ s', storeChunk env hash data s =
        (Throw (RuntimeError (lit "storeChunk: failed to open temp file for " ++ hash)), s') ∧
    meta_ s' = meta_ s ∧ disk s' = disk s ∧ usedBytes_ s' = total (meta_ s') - csize m.
Proof.
  eexists. split; [by apply storeChunk_overwrite_failure|].
  cbn [meta_ disk usedBytes_ set_used]. by rewrite (inv_used _ Hs).
Qed.

(** Without a limit a store does not persist the table: a chunk that was
    stored is on disk after a restart, but the table does not know it. *)
Theorem unlimited_store_forgotten env env' hash data s
    (Hs : storage_inv s) (Hsync : synced s) (Hm : maxBytes_ s = 0)
    (Hargs : store_args_ok hash data s) (Hio : io_ok env s hash)
    (Hnew : meta_ s !! hash = None) (Hmem : new_buffer env' (zlen data) = Ok ()) :
  ∃ s', storeChunk env hash data s = (Ok (), s') ∧ hasChunk s' hash = true ∧
    hasChunk (restart env' 0 s') hash = false ∧
    (loadChunk env' hash (restart env' 0 s')).1 = Ok data.
Proof.
  destruct (stored_spec hash data s Hs Hargs) as (_ & Em & _ & Eb & _).
  assert (hash ≠ []) by apply Hargs. destruct Hargs as [Hname _].
  eexists. split; [by apply storeChunk_unlimited|]. unfold hasChunk.
  assert (disk (stored hash data s) = stored_disk s hash data) as Ed by done.
  rewrite (restart_from_text env' 0 s (stored hash data s) Hs).
  - rewrite Em. unfold with_entry. rewrite lookup_insert_eq. cbn [meta_].
    rewrite Hnew. split; [done|]. split; [done|].
    erewrite loadChunk_found; [done| |done]. unfold read_file. cbn [disk].
    rewrite Ed, (chunkPath_base _ s) by done. apply lookup_insert_eq.
  - unfold read_file. rewrite (metaPath_base _ s), Ed by done. unfold stored_disk.
    rewrite lookup_insert_ne by (apply chunkPath_not_metaPath; auto with dss).
    rewrite tmpPath_eq, lookup_delete_ne, lookup_insert_ne; [done|..];
      apply chunkPath_not_metaPath; auto with dss.
Qed.

(** A chunk name is used as a path without a check: storing under
    [../metadata.db] replaces the metadata file, and loading it returns that
    file to the caller. *)
Theorem chunk_name_escapes env env' data text s
    (Hm : maxBytes_ s = 0) (Hio : io_ok env s (lit "../metadata.db"))
    (Htext : read_file (metaPath_ s) (disk s) = Some text)
    (Hmem : new_buffer env' (zlen text) = Ok ()) :
  (loadChunk env' (lit "../metadata.db") s).1 = Ok text ∧
  ∃ s', storeChunk env (lit "../metadata.db") data s = (Ok (), s') ∧
        read_file (metaPath_ s) (disk s') = Some data.
Proof.
  assert (resolve (chunkPath s (lit "../metadata.db")) = resolve (metaPath_ s)) as E
    by exact (resolve_parent s (lit "metadata.db") ltac:(by_eval)).
  split.
  - erewrite loadChunk_found; [done| |done]. unfold read_file. by rewrite E.
  - eexists. split; [by apply storeChunk_unlimited|].
    change (disk (stored ?h data s)) with (stored_disk s h data). unfold read_file, stored_disk.
    rewrite <- E. apply lookup_insert_eq.
Qed.
End storage_props.

(** ** Witnesses *)

Definition demo_id (c : ascii) : str := replicate 4 c.
Definition demo_a : str := demo_id "a".
Definition demo_b : str := demo_id "b".

Lemma good_env_ok : env_ok good_env.
Proof. done. Qed.

(** A store with a limit of 10 bytes that holds one chunk of 6 bytes. *)
Definition demo_store (bytes : Z) : StorageManager :=
  (storeChunk (H := some_order) good_env demo_a (lit "sixsix")
     (persistMetadata (H := some_order) good_env (new_storage (lit "node") bytes ∅))).2.

Lemma demo_inv bytes : 0 ≤ bytes → storage_inv (demo_store bytes).
Proof.
  intros Hb. pose proof some_order as Hord.
  set (s0 := persistMetadata (H := some_order) good_env (new_storage (lit "node") bytes ∅)).
  assert (storage_inv s0) as Hs0 by apply persist_inv, empty_inv.
  destruct (storeChunk_spec (H := some_order) good_env demo_a (lit "sixsix") s0 Hs0 Hb)
    as (s' & E & Hs' & _); [by_eval|by_eval|].
  unfold demo_store. fold s0. rewrite E. exact Hs'.
Qed.
Definition demo_ops : list storage_op :=
  [StoreOp demo_a (lit "sixsix"); StoreOp demo_b (lit "four"); LoadOp demo_a; RestartOp;
   StoreOp (demo_id "c") (lit "four"); HasOp demo_b; LoadOp demo_a; LimitOp 5; HasOp demo_a].

Lemma storage_is_lru_cache_witness :
  ∃ s, run_all (storage_exec (H := some_order) good_env) demo_ops
         (init (H := some_order) good_env (new_storage (lit "node") 10 ∅)) =
       ([Done; Done; Data (lit "sixsix"); Done; Done; Flag false; Data (lit "sixsix"); Done;
         Flag false], s) ∧
       refines (H := some_order) (mk_cache 5 []) s.
Proof.
  destruct (storage_is_lru_cache (H := some_order) good_env (lit "node") 10 demo_ops
    good_env_ok ltac:(lia) ltac:(by_eval) ltac:(by_eval)) as (rs & c & s & E & E' & Hr).
  vm_compute in E. injection E as <- <-. exists s. exact (conj E' Hr).
Defined.

Lemma reachable_accounts_witness :
  let s := (storage_exec (H := some_order) good_env (StoreOp demo_a (lit "sixsix"))
              (new_storage (lit "node") 10 ∅)).2 in
  reachable_without_loss (H := some_order) (lit "node") 10 s ∧ usedBytes_ s = total (meta_ s).
Proof.
  cbn zeta.
  assert (reachable_without_loss (H := some_order) (lit "node") 10
    (storage_exec (H := some_order) good_env (StoreOp demo_a (lit "sixsix"))
              (new_storage (lit "node") 10 ∅)).2) as Hr.
  { apply reach_step; [apply reach_new|]. split; [by_eval|right; by_eval]. }
  split; [exact Hr|].
  exact (proj1 (reachable_accounts (H := some_order) (lit "node") 10 _ ltac:(lia) Hr)).
Defined.

Lemma stored_chunk_is_loaded_witness :
  storage_inv (demo_store 10) ∧
  ∃ s', storeChunk (H := some_order) good_env demo_b (lit "four") (demo_store 10) = (Ok (), s') ∧
        (loadChunk (H := some_order) good_env demo_b s').1 = Ok (lit "four").
Proof.
  split; [apply demo_inv; lia|].
  destruct (stored_chunk_is_loaded (H := some_order) good_env good_env demo_b (lit "four")
    (demo_store 10)) as (s' & E & _ & El & _);
    [apply demo_inv; lia|by_eval|by_eval|by_eval|right; by_eval|by_eval|].
  exists s'. exact (conj E El).
Defined.

Lemma store_evicts_oldest_witness :
  ∃ s', storeChunk (H := some_order) good_env demo_b (lit "sixsix") (demo_store 10) =
        (Ok (), s') ∧ usedBytes_ s' ≤ 10.
Proof.
  destruct (store_evicts_oldest (H := some_order) good_env demo_b (lit "sixsix")
    (demo_store 10)) as (s' & E & Hu & _);
    [apply demo_inv; lia|by_eval|by_eval|by_eval|].
  exists s'. exact (conj E Hu).
Defined.

Lemma oversize_store_empties_witness :
  hasChunk (demo_store 10) demo_a = true ∧
  ∃ s', storeChunk (H := some_order) good_env demo_b (lit "eleven bytes") (demo_store 10) =
        (Ok (), s') ∧ meta_ s' = ∅.
Proof.
  split; [by vm_compute|].
  destruct (oversize_store_empties (H := some_order) good_env demo_b (lit "eleven bytes")
    (demo_store 10)) as (s' & E & Hm & _);
    [apply demo_inv; lia|by_eval|by_eval|by_eval|by_eval|].
  exists s'. exact (conj E Hm).
Defined.

Lemma restart_keeps_state_witness :
  restart (H := some_order) good_env 10 (persistMetadata (H := some_order) good_env (demo_store 10))
  = persistMetadata (H := some_order) good_env (demo_store 10).
Proof.
  exact (restart_keeps_state (H := some_order) good_env (demo_store 10) (demo_inv 10 ltac:(lia))
           eq_refl).
Defined.

(** Two chunk files and no metadata file. *)
Definition demo_fs : FS :=
  <[resolve (lit "node/chunks/aaaa") := lit "sixsix"]>
    (<[resolve (lit "node/chunks/bbbb") := lit "four"]> ∅).

Lemma rebuild_finds_chunks_witness :
  let s := init (H := some_order) good_env (new_storage (lit "node") 10 demo_fs) in
  storage_inv s ∧ hasChunk s demo_a = true.
Proof.
  cbn zeta.
  destruct (rebuild_finds_chunks (H := some_order) good_env (lit "node") 10 demo_fs) as [Hs Hc];
    [done|done|by_eval|by_eval|by_eval|by_eval|].
  split; [exact Hs|]. apply Hc; [by_eval|]. by_eval.
Defined.

(** The disk is full when the chunk is stored again. *)
Definition full_env : Env :=
  mk_env (λ _, false) (λ _ _, true) (λ _, true) (λ _, true) (λ _, true) (λ _, None)
    (λ _, true) (lit "No space left on device").

Lemma failed_overwrite_uncounts_witness :
  ∃ e s', storeChunk (H := some_order) full_env demo_a (lit "sixsix") (demo_store 10) =
          (Throw e, s') ∧ hasChunk s' demo_a = true ∧ usedBytes_ s' = 0.
Proof.
  destruct (failed_overwrite_uncounts (H := some_order) full_env demo_a (lit "sixsix")
    (demo_store 10) (mk_meta 6 1)) as (s' & E & Hm & _ & Hu);
    [apply demo_inv; lia|by_eval|by_eval|by_eval|].
  eexists _, s'. split; [exact E|]. unfold hasChunk. rewrite Hu, Hm.
  split; by vm_compute.
Defined.

(** Without a limit, the file that the start wrote is still the empty table's. *)
Lemma unlimited_store_forgotten_witness :
  let s := persistMetadata (H := some_order) good_env (new_storage (lit "node") 0 ∅) in
  ∃ s', storeChunk (H := some_order) good_env demo_a (lit "sixsix") s = (Ok (), s') ∧
        hasChunk s' demo_a = true ∧
        hasChunk (restart (H := some_order) good_env 0 s') demo_a = false.
Proof.
  cbn zeta.
  destruct (unlimited_store_forgotten (H := some_order) good_env good_env demo_a (lit "sixsix")
    (persistMetadata (H := some_order) good_env (new_storage (lit "node") 0 ∅)))
    as (s' & E & Hh & Hr & _);
    [apply persist_inv, empty_inv|by apply persist_synced|by_eval|by_eval|by_eval|by_eval|by_eval|].
  exists s'. exact (conj E (conj Hh Hr)).
Defined.

Lemma chunk_name_escapes_witness :
  ∃ s', storeChunk (H := some_order) good_env (lit "../metadata.db") (lit "0 0") (demo_store 0) =
        (Ok (), s') ∧ read_file (lit "node/metadata.db") (disk s') = Some (lit "0 0").
Proof.
  destruct (chunk_name_escapes (H := some_order) good_env good_env (lit "0 0")
    (metadata_text (H := some_order) (new_storage (lit "node") 0 ∅)) (demo_store 0))
    as (_ & s' & E & Er); [by_eval|by_eval|by_eval|by_eval|].
  exists s'. exact (conj E Er).
Defined.
