(* ===== verification/StorageCrash.v ===== *)
(** * What a crash leaves of the storage manager

    The operations of [Storage] as the sequences of the calls by which they change
    the files, so that a process can be killed between two calls, or while a file
    is being written: the file then holds a prefix of its data.  The next process
    starts on what is left. *)

From S2P Require Import Prelude.
From S2P Require Import CxxStd.
From S2P Require Import FileSystem.
From S2P Require Import Storage.
From S2P Require Import StorageLru.
From S2P Require Import StorageProps.

(** ** Changes of the files *)

Inductive effect :=
  | Write (p data : str)    (* an output stream opened, filled and closed *)
  | Rename (p q : str)      (* [fs::rename] *)
  | Remove (p : str).       (* [fs::remove] *)

#[export] Instance effect_eq_dec : EqDecision effect.
Proof. solve_decision. Defined.

Definition perform (e : effect) (fs : FS) : FS :=
  match e with
  | Write p data => <[resolve p := data]> fs
  | Rename p q =>
      match fs !! resolve p with
      | Some data => <[resolve q := data]> (delete (resolve p) fs)
      | None => fs
      end
  | Remove p => delete (resolve p) fs
  end.

Definition perform_all (es : list effect) (fs : FS) : FS :=
  foldl (λ fs e, perform e fs) fs es.

(** The process is killed after [count] effects.  When the next one is the writing of a
    file and [torn] is given, that file was opened, which empties it, and holds so
    many bytes. *)
Fixpoint killed (count : nat) (torn : option nat) (es : list effect) (fs : FS) {struct es} : FS :=
  match es with
  | [] => fs
  | e :: es' =>
      match count with
      | S count' => killed count' torn es' (perform e fs)
      | O =>
          match e, torn with
          | Write p data, Some n => <[resolve p := take n data]> fs
          | _, _ => fs
          end
      end
  end.

(** The disk is full: of each file only as much as there is room for is written, and
    the streams are closed without being asked. *)
Definition cut_short (room : str → nat) (e : effect) : effect :=
  match e with Write p data => Write p (take (room p) data) | _ => e end.

(** ** The effects of the operations *)

Section effects.
Context `{IterOrder}.

Definition persist_effects (env : Env) (s : StorageManager) : list effect :=
  if can_open_out env (metaPath_ s) then [Write (metaPath_ s) (metadata_text s)] else [].

Definition remove_effects (env : Env) (p : str) : list effect :=
  if can_remove env p then [Remove p] else [].

Definition rebuild_effects (env : Env) (s : StorageManager) : list effect :=
  let s := set_counter 0 (set_used 0 (set_meta ∅ s)) in
  if dir_exists env (chunksDir_ s) then
    persist_effects env (foldl (scan_entry env) s (dir_entries (chunksDir_ s) (disk s)))
  else [].

Definition load_effects (env : Env) (s : StorageManager) : list effect :=
  match read_file (metaPath_ s) (disk s) with
  | None => rebuild_effects env s
  | Some text =>
      let inp := istringstream text in
      let (_, inp) := get_u64 0 inp in
      let (_, inp) := get_u64 0 inp in
      if in_fail inp then rebuild_effects env s else []
  end.

Fixpoint enforce_loop_effects (fuel : nat) (env : Env) (s : StorageManager) : list effect :=
  match fuel with
  | O => []
  | S fuel' =>
      if maxBytes_ s <? usedBytes_ s then
        match lru_victim (iterate (meta_ s)) with
        | None => []
        | Some victim =>
            remove_effects env (chunkPath s victim.1) ++
            enforce_loop_effects fuel' env (evict env victim s)
        end
      else []
  end.

Definition enforceLimit_effects (env : Env) (s : StorageManager) : list effect :=
  if maxBytes_ s =? 0 then []
  else enforce_loop_effects (size (meta_ s)) env s ++
       persist_effects env (enforce_loop (size (meta_ s)) env s).

(** The table is updated in memory between the [rename] and the eviction. *)
Definition storeChunk_effects (env : Env) (hash data : str) (s : StorageManager)
    : list effect :=
  if bool_decide (hash = []) then []
  else if can_open_out env (tmpPath s hash) then
    Write (tmpPath s hash) data ::
    if can_rename env (tmpPath s hash) (chunkPath s hash) then
      Rename (tmpPath s hash) (chunkPath s hash) ::
      enforceLimit_effects env (stored hash data s)
    else remove_effects env (tmpPath s hash)
  else [].

Definition loadChunk_effects (env : Env) (hash : str) (s : StorageManager) : list effect :=
  match open_in env (chunkPath s hash) (disk s) with
  | Some (size, _) =>
      if is_ok (new_buffer env size) then persist_effects env (touch hash s) else []
  | None => []
  end.

(** The state in which [deleteChunk] persists the table. *)
Definition deleted (env : Env) (hash : str) (s : StorageManager) : StorageManager :=
  let s := match meta_ s !! hash with
           | Some _ => set_meta (delete hash (meta_ s)) (forget_size hash s)
           | None => s
           end in
  set_disk (remove_file env (chunkPath s hash) (disk s)) s.

Definition deleteChunk_effects (env : Env) (hash : str) (s : StorageManager) : list effect :=
  remove_effects env (chunkPath s hash) ++ persist_effects env (deleted env hash s).

Definition effects_of (env : Env) (op : storage_op) (s : StorageManager) : list effect :=
  match op with
  | StoreOp hash data => storeChunk_effects env hash data s
  | LoadOp hash => loadChunk_effects env hash s
  | HasOp _ => []
  | DeleteOp hash => deleteChunk_effects env hash s
  | LimitOp bytes => enforceLimit_effects env (set_max bytes s)
  | RestartOp => load_effects env (new_storage (baseDir_ s) (maxBytes_ s) (disk s))
  end.

(** ** Crashes *)

(** The process is killed in the middle of an operation; the next one is started with
    the limit [bytes]. *)
Definition crash (env : Env) (op : storage_op) (count : nat) (torn : option nat)
    (env' : Env) (bytes : Z) (s : StorageManager) : StorageManager :=
  restart env' bytes (set_disk (killed count torn (effects_of env op s) (disk s)) s).

(** The operation on a full disk. *)
Definition short_exec (env : Env) (room : str → nat) (op : storage_op) (s : StorageManager)
    : reply * StorageManager :=
  let (r, s') := storage_exec env op s in
  (r, set_disk (perform_all (map (cut_short room) (effects_of env op s)) (disk s)) s').

(** An operation that ends, or one in which the process is killed and started again. *)
Inductive life :=
  | Ends (env : Env) (op : storage_op)
  | Killed (env : Env) (op : storage_op) (count : nat) (torn : option nat) (env' : Env) (bytes : Z).

Definition op_of (l : life) : storage_op :=
  match l with Ends _ op | Killed _ op _ _ _ _ => op end.

Definition live (l : life) (s : StorageManager) : StorageManager :=
  match l with
  | Ends env op => (storage_exec env op s).2
  | Killed env op count torn env' bytes => crash env op count torn env' bytes s
  end.

(** ** The effects are what the operations do *)

Lemma perform_all_app es es' fs :
  perform_all (es ++ es') fs = perform_all es' (perform_all es fs).
Proof. apply foldl_app. Qed.

Lemma remove_performs env p fs : perform_all (remove_effects env p) fs = remove_file env p fs.
Proof. unfold remove_effects, remove_file. by destruct (can_remove env p). Qed.

Lemma persist_performs env s :
  perform_all (persist_effects env s) (disk s) = disk (persistMetadata env s).
Proof.
  unfold persist_effects, persistMetadata, write_file. by destruct (can_open_out _ _).
Qed.

Lemma enforce_loop_performs fuel env s :
  perform_all (enforce_loop_effects fuel env s) (disk s) = disk (enforce_loop fuel env s).
Proof.
  revert s. induction fuel as [|fuel IH]; intros s; [done|].
  cbn [enforce_loop_effects enforce_loop]. destruct (_ <? _); [|done].
  destruct (lru_victim _) as [v|]; [|done].
  by rewrite perform_all_app, remove_performs, <- IH.
Qed.

Lemma enforceLimit_performs env s :
  perform_all (enforceLimit_effects env s) (disk s) = disk (enforceLimit env s).
Proof.
  unfold enforceLimit_effects, enforceLimit. destruct (_ =? 0); [done|].
  by rewrite perform_all_app, enforce_loop_performs, persist_performs.
Qed.

Lemma foldl_scan_disk env l s : disk (foldl (scan_entry env) s l) = disk s.
Proof.
  revert s. induction l as [|[id data] l IH]; intros s; [done|]. cbn [foldl]. rewrite IH.
  unfold scan_entry. by destruct (can_stat _ _).
Qed.

Lemma rebuild_performs env s :
  perform_all (rebuild_effects env s) (disk s) = disk (rebuildMetadataFromDisk env s).
Proof.
  unfold rebuild_effects, rebuildMetadataFromDisk. cbv zeta. destruct (dir_exists _ _); [|done].
  rewrite <- persist_performs. by rewrite foldl_scan_disk.
Qed.

Lemma load_performs env s :
  perform_all (load_effects env s) (disk s) = disk (loadMetadata env s).
Proof.
  unfold load_effects, loadMetadata. change (disk (set_counter _ _)) with (disk s).
  change (metaPath_ (set_counter _ _)) with (metaPath_ s).
  destruct (read_file _ _) as [text|]; [|apply (rebuild_performs env s)].
  destruct (get_u64 0 (istringstream text)) as [counter inp].
  destruct (get_u64 0 inp) as [used inp'].
  destruct (in_fail inp'); [apply (rebuild_performs env s)|done].
Qed.

Lemma storeChunk_performs env hash data s :
  perform_all (storeChunk_effects env hash data s) (disk s) = disk (storeChunk env hash data s).2.
Proof.
  destruct (decide (hash = [])) as [->|Hne]; [done|].
  destruct (decide (io_ok env s hash)) as [Hio|Hbad].
  - rewrite storeChunk_success by done. unfold storeChunk_effects.
    rewrite bool_decide_eq_false_2 by done. destruct Hio as [-> ->].
    unfold perform_all. cbn [foldl perform]. rewrite lookup_insert_eq. unfold record_chunk.
    fold (stored hash data s). cbn [snd]. by rewrite <- enforceLimit_performs.
  - unfold storeChunk_effects, storeChunk. rewrite bool_decide_eq_false_2 by done.
    destruct (forget_size_fields hash s) as (Eb & _ & _ & _ & Ed). m_unfold. cbn beta iota zeta.
    pose proof (chunkPath_base _ _ hash Eb) as Ec. unfold tmpPath. rewrite Ec, Ed.
    fold (tmpPath s hash). unfold write_file.
    destruct (can_open_out env (tmpPath s hash)) eqn:E1; [|cbn [snd]; by rewrite Ed].
    destruct (can_rename env (tmpPath s hash) (chunkPath s hash)) eqn:E2; [by destruct Hbad|].
    unfold rename_file. rewrite lookup_insert_eq, E2. cbn [snd disk set_disk].
    unfold perform_all. cbn [foldl perform]. apply remove_performs.
Qed.

Lemma loadChunk_performs env hash s :
  perform_all (loadChunk_effects env hash s) (disk s) = disk (loadChunk env hash s).2.
Proof.
  unfold loadChunk_effects, loadChunk. m_unfold.
  destruct (open_in _ _ _) as [[size bytes]|]; [|done].
  destruct (new_buffer env size); [|done]. cbn [snd is_ok]. rewrite <- persist_performs.
  unfold touch. by destruct (meta_ s !! hash).
Qed.

Lemma deleted_disk env hash s :
  disk (deleted env hash s) = remove_file env (chunkPath s hash) (disk s).
Proof.
  unfold deleted. destruct (forget_size_fields hash s) as (Eb & _ & _ & _ & Ed).
  destruct (meta_ s !! hash); cbn [disk set_disk set_meta]; [|done].
  rewrite Ed. by rewrite (chunkPath_base (set_meta _ _) s hash Eb).
Qed.

(** The effects of an operation, performed in their order, give the files it leaves. *)
Lemma exec_performs env op s :
  perform_all (effects_of env op s) (disk s) = disk (storage_exec env op s).2.
Proof.
  destruct op as [hash data|hash|hash|hash|bytes|]; cbn [effects_of storage_exec].
  - rewrite storeChunk_performs. by destruct (storeChunk env hash data s).
  - rewrite loadChunk_performs. by destruct (loadChunk env hash s).
  - done.
  - unfold deleteChunk_effects. rewrite perform_all_app, remove_performs, <- deleted_disk.
    apply persist_performs.
  - apply (enforceLimit_performs env (set_max bytes s)).
  - apply (load_performs env (new_storage (baseDir_ s) (maxBytes_ s) (disk s))).
Qed.
End effects.

(** ** Chunk files are whole *)

Section whole.
Context `{IterOrder}.

(** Effects that do not put anything into the file with the key [k]. *)
Definition quiet (k : fs_key) (e : effect) : Prop :=
  match e with
  | Write p _ => resolve p ≠ k
  | Rename _ q => resolve q ≠ k
  | Remove _ => True
  end.

Lemma killed_all es fs : killed (length es) None es fs = perform_all es fs.
Proof. revert fs. induction es as [|e es IH]; intros fs; [done|apply (IH (perform e fs))]. Qed.

Lemma quiet_killed k count torn es fs data :
  Forall (quiet k) es → killed count torn es fs !! k = Some data → fs !! k = Some data.
Proof.
  intros Hq. revert count fs. induction Hq as [|e es He _ IH]; intros count fs; [done|].
  destruct count as [|count]; cbn [killed].
  - destruct e as [p text|p q|p]; [|intros Hk; exact Hk..].
    destruct torn as [n|]; [|intros Hk; exact Hk]. by rewrite lookup_insert_ne.
  - intros Hk%IH. destruct e as [p text|p q|p]; cbn [perform] in Hk.
    + by rewrite lookup_insert_ne in Hk.
    + destruct (fs !! resolve p); [|done]. rewrite lookup_insert_ne in Hk by done.
      by apply lookup_delete_Some in Hk as [_ ?].
    + by apply lookup_delete_Some in Hk as [_ ?].
Qed.

Lemma quiet_remove k env p : Forall (quiet k) (remove_effects env p).
Proof. unfold remove_effects. destruct (can_remove env p); by repeat constructor. Qed.

Lemma quiet_persist k env s :
  resolve (metaPath_ s) ≠ k → Forall (quiet k) (persist_effects env s).
Proof. intros. unfold persist_effects. destruct (can_open_out _ _); by repeat constructor. Qed.

Lemma enforce_loop_fields fuel env s :
  baseDir_ (enforce_loop fuel env s) = baseDir_ s ∧
  maxBytes_ (enforce_loop fuel env s) = maxBytes_ s ∧
  accessCounter_ (enforce_loop fuel env s) = accessCounter_ s.
Proof.
  revert s. induction fuel as [|fuel IH]; intros s; [done|]. cbn [enforce_loop].
  destruct (_ <? _); [|done]. destruct (lru_victim _) as [v|]; [|done].
  by destruct (IH (evict env v s)) as (-> & -> & ->).
Qed.

Lemma enforceLimit_fields env s :
  baseDir_ (enforceLimit env s) = baseDir_ s ∧ maxBytes_ (enforceLimit env s) = maxBytes_ s ∧
  accessCounter_ (enforceLimit env s) = accessCounter_ s.
Proof.
  unfold enforceLimit. destruct (_ =? 0); [done|].
  destruct (persist_fields env (enforce_loop (size (meta_ s)) env s)) as (-> & -> & _ & -> & _).
  apply enforce_loop_fields.
Qed.

Lemma quiet_enforce k env s :
  resolve (metaPath_ s) ≠ k → Forall (quiet k) (enforceLimit_effects env s).
Proof.
  intros Hk. unfold enforceLimit_effects. destruct (_ =? 0); [constructor|].
  apply Forall_app. split.
  - generalize (size (meta_ s)). intros fuel. revert s Hk.
    induction fuel as [|fuel IH]; intros s Hk; [constructor|]. cbn [enforce_loop_effects].
    destruct (_ <? _); [|constructor]. destruct (lru_victim _) as [v|]; [|constructor].
    apply Forall_app. split; [apply quiet_remove|by apply IH].
  - apply quiet_persist. rewrite (metaPath_base _ s); [done|].
    by destruct (enforce_loop_fields (size (meta_ s)) env s) as (-> & _).
Qed.

Lemma foldl_scan_base env l s : baseDir_ (foldl (scan_entry env) s l) = baseDir_ s.
Proof.
  revert s. induction l as [|[id data] l IH]; intros s; [done|]. cbn [foldl]. rewrite IH.
  unfold scan_entry. by destruct (can_stat _ _).
Qed.

Lemma quiet_load k env s :
  resolve (metaPath_ s) ≠ k → Forall (quiet k) (load_effects env s).
Proof.
  intros Hk. assert (Forall (quiet k) (rebuild_effects env s)) as Hr.
  { unfold rebuild_effects. cbv zeta. destruct (dir_exists _ _); [|constructor].
    apply quiet_persist. rewrite (metaPath_base _ s); [done|]. by rewrite foldl_scan_base. }
  unfold load_effects. destruct (read_file _ _); [|done].
  destruct (get_u64 0 _) as [? inp]. destruct (get_u64 0 inp) as [? inp'].
  by destruct (in_fail inp').
Qed.

(** An operation other than a store fills no file but that of the table. *)
Lemma quiet_effects k env op s :
  resolve (metaPath_ s) ≠ k → (∀ hash data, op ≠ StoreOp hash data) →
  Forall (quiet k) (effects_of env op s).
Proof.
  intros Hk Hop. destruct op as [hash data|hash|hash|hash|bytes|]; cbn [effects_of].
  - by destruct (Hop hash data).
  - unfold loadChunk_effects. destruct (open_in _ _ _) as [[size bytes]|]; [|constructor].
    destruct (is_ok _); [|constructor]. apply quiet_persist. rewrite (metaPath_base _ s); [done|].
    unfold touch. by destruct (meta_ s !! hash).
  - constructor.
  - apply Forall_app. split; [apply quiet_remove|]. apply quiet_persist.
    rewrite (metaPath_base _ s); [done|]. unfold deleted.
    destruct (meta_ s !! hash); [apply (forget_size_fields hash s)|done].
  - by apply quiet_enforce.
  - by apply quiet_load.
Qed.

Lemma meta_not_chunk s id : chunk_name id → resolve (metaPath_ s) ≠ resolve (chunkPath s id).
Proof. intros Hid. by apply not_eq_sym, chunkPath_not_metaPath, chunk_name_simple. Qed.

Lemma stored_meta s hash data : metaPath_ (stored hash data s) = metaPath_ s.
Proof. apply metaPath_base, (forget_size_fields hash s). Qed.

(** A store fills its temporary file, and the file of the chunk. *)
Lemma quiet_store k env hash data s :
  resolve (metaPath_ s) ≠ k → resolve (tmpPath s hash) ≠ k → resolve (chunkPath s hash) ≠ k →
  Forall (quiet k) (storeChunk_effects env hash data s).
Proof.
  intros Hm Ht Hc. unfold storeChunk_effects. case_bool_decide; [constructor|].
  destruct (can_open_out _ _); [|constructor]. constructor; [done|].
  destruct (can_rename _ _ _); [|apply quiet_remove]. constructor; [done|].
  apply quiet_enforce. by rewrite stored_meta.
Qed.

(** A store does, by a rename of the temporary file with the whole of the data. *)
Lemma store_killed env hash data count torn s id bytes :
  chunk_name id → simple_name hash →
  killed count torn (storeChunk_effects env hash data s) (disk s) !! resolve (chunkPath s id)
    = Some bytes →
  disk s !! resolve (chunkPath s id) = Some bytes ∨ id = hash ∧ bytes = data.
Proof.
  intros Hid Hh. pose proof (tmpPath_not_chunk s hash id Hh Hid) as Ht.
  unfold storeChunk_effects. case_bool_decide; [by left|].
  destruct (can_open_out _ _); [|by left].
  assert (∀ text, <[resolve (tmpPath s hash) := text]> (disk s) !! resolve (chunkPath s id) =
                  disk s !! resolve (chunkPath s id)) as Hw by (intros; by apply lookup_insert_ne).
  destruct count as [|count]; cbn [killed perform].
  { destruct torn as [n|]; [|by left]. rewrite Hw. by left. }
  destruct (can_rename _ _ _).
  - destruct count as [|count]; cbn [killed perform]; [rewrite Hw; by left|].
    rewrite lookup_insert_eq. intros Hk%quiet_killed; [|apply quiet_enforce; rewrite stored_meta; by apply meta_not_chunk].
    apply lookup_insert_Some in Hk as [[E <-]|[_ Hk]].
    + right. split; [|done]. symmetry. by apply (chunkPath_inj s); [|apply chunk_name_simple|].
    + apply lookup_delete_Some in Hk as [_ Hk]. rewrite Hw in Hk. by left.
  - intros Hk%quiet_killed; [|apply quiet_remove]. rewrite Hw in Hk. by left.
Qed.

(** The names that the stores are called with are names of files. *)
Definition stores_names (op : storage_op) : Prop :=
  match op with StoreOp hash _ => simple_name hash | _ => True end.

#[global] Instance stores_names_dec op : Decision (stores_names op).
Proof. destruct op; apply _. Defined.

Lemma effects_killed env op count torn s id bytes :
  chunk_name id → stores_names op →
  killed count torn (effects_of env op s) (disk s) !! resolve (chunkPath s id) = Some bytes →
  disk s !! resolve (chunkPath s id) = Some bytes ∨ op = StoreOp id bytes.
Proof.
  intros Hid Hop. destruct op as [hash data|hash|hash|hash|limit|];
    [|intros Hk%quiet_killed; [by left|apply quiet_effects; [by apply meta_not_chunk|done]]..].
  by intros [?|[-> ->]]%store_killed; [left|right|..].
Qed.

Lemma exec_base env op s : baseDir_ (storage_exec env op s).2 = baseDir_ s.
Proof.
  destruct op as [hash data|hash|hash|hash|bytes|]; cbn [storage_exec]; [| | | | |].
  - destruct (decide (hash = [])) as [->|Hne]; [done|].
    pose proof (proj1 (forget_size_fields hash s)) as Eb. unfold storeChunk.
    rewrite bool_decide_eq_false_2 by done. m_unfold.
    destruct (write_file _ _ _ _); [|done]. destruct (rename_file _ _ _ _); [|done].
    cbn [snd]. unfold record_chunk. by rewrite (proj1 (enforceLimit_fields _ _)).
  - destruct (loadChunk env hash s) as [r s'] eqn:E. cbn [snd].
    pose proof (loadChunk_state env hash s) as Hl. rewrite E in Hl. cbn [snd] in Hl.
    destruct Hl as [->| ->]; [done|]. rewrite (proj1 (persist_fields _ _)).
    unfold touch. by destruct (meta_ s !! hash).
  - done.
  - cbn [snd]. unfold deleteChunk. rewrite (proj1 (persist_fields _ _)).
    destruct (meta_ s !! hash); [apply (forget_size_fields hash s)|done].
  - apply (enforceLimit_fields env (set_max bytes s)).
  - cbn [snd]. unfold restart, init, loadMetadata. cbv zeta. destruct (read_file _ _).
    + destruct (get_u64 0 _) as [? inp]. destruct (get_u64 0 inp) as [? inp'].
      destruct (in_fail inp'); [|done]. unfold rebuildMetadataFromDisk. cbv zeta.
      destruct (dir_exists _ _); [|done]. by rewrite (proj1 (persist_fields _ _)), foldl_scan_base.
    + unfold rebuildMetadataFromDisk. cbv zeta. destruct (dir_exists _ _); [|done].
      by rewrite (proj1 (persist_fields _ _)), foldl_scan_base.
Qed.

Lemma live_base l s : baseDir_ (live l s) = baseDir_ s.
Proof.
  destruct l as [env op|env op count torn env' bytes]; [apply exec_base|].
  apply (exec_base env' RestartOp (set_max bytes (set_disk _ s))).
Qed.

(** What an operation that ends, or a crash and the start after it, does to a chunk file. *)
Lemma live_chunk l s id bytes :
  chunk_name id → stores_names (op_of l) →
  disk (live l s) !! resolve (chunkPath s id) = Some bytes →
  disk s !! resolve (chunkPath s id) = Some bytes ∨ op_of l = StoreOp id bytes.
Proof.
  intros Hid Hop. destruct l as [env op|env op count torn env' limit]; cbn [live op_of] in *.
  - rewrite <- exec_performs, <- killed_all. by apply effects_killed.
  - unfold crash. set (s1 := set_disk _ s).
    pose proof (exec_performs env' RestartOp (set_max limit s1)) as E. cbn [storage_exec snd] in E.
    change (restart env' (maxBytes_ (set_max limit s1)) (set_max limit s1))
      with (restart env' limit s1) in E. rewrite <- E, <- killed_all.
    intros Hk%quiet_killed; [by apply effects_killed in Hk|]. apply quiet_load. by apply (meta_not_chunk s).
Qed.

Definition lifetime (ls : list life) (s : StorageManager) : StorageManager :=
  foldl (λ s l, live l s) s ls.

Lemma lifetime_base ls s : baseDir_ (lifetime ls s) = baseDir_ s.
Proof.
  revert s. induction ls as [|l ls IH]; intros s; [done|]. cbn [lifetime foldl].
  change (foldl _ ?s ?k) with (lifetime k s). by rewrite IH, live_base.
Qed.

Lemma lifetime_chunk ls s id bytes :
  chunk_name id → Forall (λ l, stores_names (op_of l)) ls →
  disk (lifetime ls s) !! resolve (chunkPath s id) = Some bytes →
  disk s !! resolve (chunkPath s id) = Some bytes ∨ Exists (λ l, op_of l = StoreOp id bytes) ls.
Proof.
  intros Hid Hls. revert s. induction Hls as [|l ls Hl _ IH]; intros s; [by left|].
  cbn [lifetime foldl]. change (foldl _ ?s ?k) with (lifetime k s).
  intros Hk. rewrite <- (chunkPath_base (live l s) s id) in Hk by apply live_base.
  apply IH in Hk as [Hk|Hx]; [|right; by apply Exists_cons_tl].
  rewrite (chunkPath_base _ s) in Hk by apply live_base.
  apply live_chunk in Hk as [?|?]; [by left|right; by apply Exists_cons_hd|done|done].
Qed.

(** The process may be killed at any moment: between two changes of the files, or
    while a file is written, in any operation and as often as one likes, and the system
    calls may fail; the next process starts on what is left.  Whatever [loadChunk]
    returns for a chunk is the whole of what was stored under its name before, or of
    the file that was there at the beginning: never a part of it, nor a mixture. *)
Theorem crashes_never_tear_chunks dir limit fs ls env id bytes
    (Hnames : Forall (λ l, stores_names (op_of l)) ls) (Hid : chunk_name id) :
  let s := lifetime ls (new_storage dir limit fs) in
  open_dir env (chunkPath s id) = None → (loadChunk env id s).1 = Ok bytes →
  read_file (chunkPath (new_storage dir limit fs) id) fs = Some bytes ∨
  Exists (λ l, op_of l = StoreOp id bytes) ls.
Proof.
  cbn zeta. intros Hdir. unfold loadChunk. m_unfold. unfold open_in. rewrite Hdir.
  destruct (read_file _ _) as [data|] eqn:Hf; [|done].
  destruct (new_buffer _ _); [|done]. rewrite fill_all. cbn [fst]. intros [= ->].
  unfold read_file in Hf. rewrite (chunkPath_base _ (new_storage dir limit fs)) in Hf
    by apply lifetime_base. by apply lifetime_chunk in Hf.
Qed.
End whole.

(** ** The table after a crash *)

Section recovery.
Context `{IterOrder}.

(** Effects that leave the file with the key [k] alone. *)
Definition spares (k : fs_key) (e : effect) : Prop :=
  match e with
  | Write p _ | Remove p => resolve p ≠ k
  | Rename p q => resolve p ≠ k ∧ resolve q ≠ k
  end.

Lemma spares_perform k e fs : spares k e → perform e fs !! k = fs !! k.
Proof.
  destruct e as [p data|p q|p]; cbn [spares perform].
  - intros. by apply lookup_insert_ne.
  - intros [Hp Hq]. destruct (fs !! resolve p); [|done].
    by rewrite lookup_insert_ne, lookup_delete_ne.
  - intros. by apply lookup_delete_ne.
Qed.

Lemma spares_killed k count torn es fs :
  Forall (spares k) es → killed count torn es fs !! k = fs !! k.
Proof.
  intros Hs. revert count fs. induction Hs as [|e es He _ IH]; intros count fs; [done|].
  destruct count as [|count]; cbn [killed]; [|by rewrite IH, spares_perform].
  destruct e, torn; try done. by apply lookup_insert_ne.
Qed.

Lemma killed_app count torn es es' fs :
  killed count torn (es ++ es') fs =
  if (count <? length es)%nat then killed count torn es fs
  else killed (count - length es) torn es' (perform_all es fs).
Proof.
  revert count fs. induction es as [|e es IH]; intros count fs; cbn [app length].
  - by rewrite Nat.sub_0_r.
  - destruct count as [|count]; [done|]. cbn [killed Nat.sub]. by rewrite IH.
Qed.

Lemma spares_remove k env p : resolve p ≠ k → Forall (spares k) (remove_effects env p).
Proof. intros. unfold remove_effects. destruct (can_remove env p); by repeat constructor. Qed.

Lemma spares_persist k env s :
  resolve (metaPath_ s) ≠ k → Forall (spares k) (persist_effects env s).
Proof. intros. unfold persist_effects. destruct (can_open_out _ _); by repeat constructor. Qed.

Lemma spares_load k env s :
  resolve (metaPath_ s) ≠ k → Forall (spares k) (load_effects env s).
Proof.
  intros Hk. assert (Forall (spares k) (rebuild_effects env s)) as Hr.
  { unfold rebuild_effects. cbv zeta. destruct (dir_exists _ _); [|constructor].
    apply spares_persist. rewrite (metaPath_base _ s); [done|]. by rewrite foldl_scan_base. }
  unfold load_effects. destruct (read_file _ _); [|done].
  destruct (get_u64 0 _) as [? inp]. destruct (get_u64 0 inp) as [? inp'].
  by destruct (in_fail inp').
Qed.

Lemma enforce_loop_sub fuel env s : meta_ (enforce_loop fuel env s) ⊆ meta_ s.
Proof.
  revert s. induction fuel as [|fuel IH]; intros s; [done|]. cbn [enforce_loop].
  destruct (_ <? _); [|done]. destruct (lru_victim _) as [v|]; [|done].
  etrans; [apply IH|]. apply delete_subseteq.
Qed.

(** The eviction spares the files that are not those of its victims. *)
Lemma spares_enforce_loop k fuel env s :
  (∀ id, is_Some (meta_ s !! id) → meta_ (enforce_loop fuel env s) !! id = None →
         resolve (chunkPath s id) ≠ k) →
  Forall (spares k) (enforce_loop_effects fuel env s).
Proof.
  revert s. induction fuel as [|fuel IH]; intros s Hk; [constructor|].
  cbn [enforce_loop_effects enforce_loop] in *. destruct (_ <? _); [|constructor].
  destruct (lru_victim _) as [[i c]|] eqn:Hv; [|constructor].
  apply lru_victim_spec in Hv as [Hi%elem_of_iterate _]. apply Forall_app. split.
  - apply spares_remove. apply Hk; [by eexists|].
    apply eq_None_not_Some. intros [d Hd].
    pose proof (lookup_weaken _ _ _ _ Hd (enforce_loop_sub _ _ _)) as Hd'.
    cbn [evict meta_ set_meta set_used set_disk fst] in Hd'. by rewrite lookup_delete_eq in Hd'.
  - apply IH. intros id [d Hd] Hn. rewrite (chunkPath_base _ s) by done. apply Hk; [|done].
    cbn [evict meta_ set_meta set_used set_disk fst] in Hd.
    apply lookup_delete_Some in Hd as [_ Hd]. by eexists.
Qed.

Lemma metadata_text_fields s s' :
  usedBytes_ s' = usedBytes_ s → accessCounter_ s' = accessCounter_ s → meta_ s' = meta_ s →
  metadata_text s' = metadata_text s.
Proof. unfold metadata_text. by intros -> -> ->. Qed.

Lemma persist_text env s : metadata_text (persistMetadata env s) = metadata_text s.
Proof.
  destruct (persist_fields env s) as (_ & _ & Eu & Ec & Em). by apply metadata_text_fields.
Qed.

(** The last effect of an operation is to write the table it leaves; the others do not
    touch the file of the table, nor those of the chunks that the operation keeps. *)
Record ends_with_table (env : Env) (op : storage_op) (s s' : StorageManager)
    (es last : list effect) : Prop := {
  et_effects : effects_of env op s = es ++ last;
  et_meta : Forall (spares (resolve (metaPath_ s))) es;
  et_last : last = [] ∨ last = [Write (metaPath_ s) (metadata_text s')];
  et_chunks id : chunk_name id → is_Some (meta_ s !! id) → is_Some (meta_ s' !! id) →
    (∀ data, op ≠ StoreOp id data) → Forall (spares (resolve (chunkPath s id))) es;
}.

Lemma last_persist env s s0 :
  baseDir_ s0 = baseDir_ s →
  persist_effects env s0 = [] ∨
  persist_effects env s0 = [Write (metaPath_ s) (metadata_text (persistMetadata env s0))].
Proof.
  intros Eb. rewrite persist_text. unfold persist_effects. rewrite (metaPath_base _ s) by done.
  destruct (can_open_out _ _); [by right|by left].
Qed.

Lemma path_differs s i j :
  simple_name i → chunk_name j → i ≠ j → resolve (chunkPath s i) ≠ resolve (chunkPath s j).
Proof. intros Hi Hj Hne E. apply Hne, (chunkPath_inj s); auto with dss. Qed.

(** The eviction, started on [s0] by an operation on [s]. *)
Lemma enforce_ends env s s0 :
  baseDir_ s0 = baseDir_ s → map_Forall (λ id _, chunk_name id) (meta_ s0) →
  let s' := enforceLimit env s0 in
  ∃ es last, enforceLimit_effects env s0 = es ++ last ∧
    Forall (spares (resolve (metaPath_ s))) es ∧
    (last = [] ∨ last = [Write (metaPath_ s) (metadata_text s')]) ∧
    ∀ id, chunk_name id → is_Some (meta_ s' !! id) →
          Forall (spares (resolve (chunkPath s id))) es.
Proof.
  intros Eb Hn. cbn zeta. unfold enforceLimit_effects, enforceLimit.
  destruct (maxBytes_ s0 =? 0).
  { exists [], []. split; [done|]. split; [constructor|]. split; [by left|]. constructor. }
  eexists _, _. split; [done|].
  destruct (persist_fields env (enforce_loop (size (meta_ s0)) env s0)) as (_ & _ & _ & _ & Em).
  split; [|split].
  - apply spares_enforce_loop. intros id [c Hc] _. rewrite (metaPath_base _ s0) by done.
    apply chunkPath_not_metaPath, chunk_name_simple, (Hn id c Hc).
  - apply last_persist. by rewrite (proj1 (enforce_loop_fields _ _ _)).
  - intros id Hid Hin. rewrite Em in Hin. apply spares_enforce_loop. intros j [c Hc] Hj.
    rewrite (chunkPath_base _ s) by done.
    apply path_differs; [apply chunk_name_simple, (Hn j c Hc)|done|].
    intros ->. rewrite Hj in Hin. by destruct Hin.
Qed.

Lemma load_effects_synced env s s' :
  storage_inv s → read_file (metaPath_ s') (disk s') = Some (metadata_text s) →
  load_effects env s' = [].
Proof.
  intros Hs E. unfold load_effects. rewrite E. unfold metadata_text.
  pose proof (used_range s Hs). pose proof (inv_counter _ Hs).
  rewrite get_u64_first by (lia || by apply space_no_digit).
  change (space :: to_string (usedBytes_ s) ++ ?k) with ([space] ++ to_string (usedBytes_ s) ++ k).
  by rewrite (get_u64_to_string _ [space] _ (newline :: _))
    by (lia || (by apply space_no_digit) || auto with dss).
Qed.

Lemma table_nothing env op s : effects_of env op s = [] → ends_with_table env op s (storage_exec env op s).2 [] [].
Proof. split; [done|constructor|by left|constructor]. Qed.

Lemma table_persist env op s s0 :
  baseDir_ s0 = baseDir_ s → effects_of env op s = persist_effects env s0 →
  (storage_exec env op s).2 = persistMetadata env s0 →
  ends_with_table env op s (storage_exec env op s).2 [] (persist_effects env s0).
Proof.
  intros Eb Ee Es. split; [done|constructor| |constructor]. rewrite Es. by apply last_persist.
Qed.

Lemma tmp_spares s hash id :
  simple_name hash → chunk_name id →
  resolve (tmpPath s hash) ≠ resolve (metaPath_ s) ∧
  resolve (tmpPath s hash) ≠ resolve (chunkPath s id).
Proof.
  intros Hh Hid. split; [|by apply tmpPath_not_chunk].
  rewrite tmpPath_eq. by apply chunkPath_not_metaPath, simple_name_tmp.
Qed.

Lemma store_ends env s hash data :
  storage_inv s → store_args_ok hash data s →
  ∃ es last, ends_with_table env (StoreOp hash data) s
               (storage_exec env (StoreOp hash data) s).2 es last.
Proof.
  intros Hs Hargs. pose proof (proj1 Hargs) as Hname.
  pose proof (chunk_name_simple _ Hname) as Hsimple.
  pose proof (tmp_spares s hash) as Htmp. assert (hash ≠ []) as Hne by apply Hname.
  destruct (stored_spec hash data s Hs Hargs) as (Hs1 & Em & _ & Eb & _).
  assert (effects_of env (StoreOp hash data) s = storeChunk_effects env hash data s) as Ee by done.
  unfold storeChunk_effects in Ee. rewrite bool_decide_eq_false_2 in Ee by done.
  destruct (decide (io_ok env s hash)) as [Hio|Hbad].
  - destruct (enforce_ends env s (stored hash data s) Eb) as (es & last & E & Hm & Hl & Hc);
      [apply Hs1|].
    assert ((storage_exec env (StoreOp hash data) s).2 =
            enforceLimit env (stored hash data s)) as Es.
    { cbn [storage_exec]. by rewrite storeChunk_success. }
    destruct Hio as [Hopen Hren]. rewrite Hopen, Hren, E in Ee.
    exists (Write (tmpPath s hash) data :: Rename (tmpPath s hash) (chunkPath s hash) :: es), last.
    split; [done| |by rewrite Es|].
    + repeat constructor; [apply (Htmp hash)..| |done]; [done|done|done|done|].
      by apply chunkPath_not_metaPath.
    + rewrite Es. intros id Hid _ Hin Hop.
      assert (hash ≠ id) by (intros ->; by apply (Hop data)).
      repeat constructor; [by apply Htmp|by apply Htmp|by apply path_differs|by apply Hc].
  - exists (effects_of env (StoreOp hash data) s), []. rewrite Ee.
    destruct (can_open_out env (tmpPath s hash)) eqn:Hopen; [|by apply table_nothing].
    destruct (can_rename env (tmpPath s hash) (chunkPath s hash)) eqn:Hren; [by destruct Hbad|].
    split; [by rewrite app_nil_r| |by left|].
    + constructor; [by apply (Htmp hash)|]. apply spares_remove. by apply (Htmp hash).
    + intros id Hid _ _ _. constructor; [by apply Htmp|]. apply spares_remove. by apply Htmp.
Qed.

Lemma op_ends env op s :
  storage_inv s → 0 ≤ maxBytes_ s → no_lost_update env op s →
  ∃ es last, ends_with_table env op s (storage_exec env op s).2 es last.
Proof.
  intros Hs Hmax Hop. destruct op as [hash data|hash|hash|hash|bytes|].
  - apply store_ends; [done|apply Hop].
  - unfold effects_of.
    destruct (open_in env (chunkPath s hash) (disk s)) as [[size bytes]|] eqn:Eo;
      [destruct (new_buffer env size) eqn:Eb|].
    + eexists _, _. apply (table_persist _ _ _ (touch hash s)).
      * unfold touch. by destruct (meta_ s !! hash).
      * cbn [effects_of]. unfold loadChunk_effects. by rewrite Eo, Eb.
      * cbn [storage_exec]. unfold loadChunk. m_unfold. by rewrite Eo, Eb.
    + eexists _, _. apply table_nothing. cbn [effects_of]. unfold loadChunk_effects.
      by rewrite Eo, Eb.
    + eexists _, _. apply table_nothing. cbn [effects_of]. unfold loadChunk_effects. by rewrite Eo.
  - eexists _, _. by apply table_nothing.
  - cbn in Hop. assert (baseDir_ (deleted env hash s) = baseDir_ s) as Eb.
    { unfold deleted. destruct (meta_ s !! hash); [apply (forget_size_fields hash s)|done]. }
    exists (remove_effects env (chunkPath s hash)), (persist_effects env (deleted env hash s)).
    split; [done| |by apply last_persist|].
    + by apply spares_remove, chunkPath_not_metaPath.
    + intros id Hid _ Hin _. apply spares_remove. apply path_differs; [done|done|].
      intros ->. cbn [storage_exec snd] in Hin. unfold deleteChunk in Hin.
      destruct (persist_fields env (deleted env id s)) as (_ & _ & _ & _ & Em).
      change (is_Some (meta_ (persistMetadata env (deleted env id s)) !! id)) in Hin.
      rewrite Em in Hin. unfold deleted in Hin. destruct (meta_ s !! id) eqn:E.
      * cbn [meta_ set_disk set_meta] in Hin. rewrite lookup_delete_eq in Hin. by destruct Hin.
      * cbn [meta_ set_disk] in Hin. rewrite E in Hin. by destruct Hin.
  - destruct (enforce_ends env s (set_max bytes s)) as (es & last & E & Hm & Hl & Hc);
      [done|apply Hs|].
    exists es, last. split; [done|done|done|]. intros id Hid _ Hin _. by apply Hc.
  - eexists _, _. apply table_nothing. cbn [effects_of]. by apply (load_effects_synced _ s).
Qed.

(** The process is killed while the file of the table is being written. *)
Definition table_torn (env : Env) (op : storage_op) (count : nat) (torn : option nat)
    (s : StorageManager) : bool :=
  match effects_of env op s !! count, torn with
  | Some (Write p _), Some _ => bool_decide (resolve p = resolve (metaPath_ s))
  | _, _ => false
  end.

Lemma killed_table env op s count torn :
  storage_inv s → 0 ≤ maxBytes_ s → synced s → no_lost_update env op s →
  table_torn env op count torn s = false →
  let s' := (storage_exec env op s).2 in
  let fs := killed count torn (effects_of env op s) (disk s) in
  (read_file (metaPath_ s) fs = Some (metadata_text s) ∨
   read_file (metaPath_ s) fs = Some (metadata_text s')) ∧
  ∀ id, chunk_name id → is_Some (meta_ s !! id) → is_Some (meta_ s' !! id) →
        (∀ data, op ≠ StoreOp id data) →
        read_file (chunkPath s id) fs = read_file (chunkPath s id) (disk s).
Proof.
  intros Hs Hmax Hsync Hop Htorn. cbn zeta. unfold read_file.
  destruct (op_ends env op s Hs Hmax Hop) as (es & last & [E Hm Hl Hc]).
  unfold table_torn in Htorn. rewrite E in *. rewrite killed_app.
  destruct (Nat.ltb_spec count (length es)) as [Hlt|Hge].
  { rewrite spares_killed by done. split; [by left|]. intros id Hid H1 H2 H3.
    by apply spares_killed, Hc. }
  rewrite lookup_app_r in Htorn by done.
  assert (∀ k, Forall (spares k) es → perform_all es (disk s) !! k = disk s !! k) as Hes.
  { intros k Hk. rewrite <- killed_all. by apply spares_killed. }
  set (n := (count - length es)%nat) in *. split.
  - destruct Hl as [->| ->]; [left; cbn [killed]; by rewrite Hes|].
    destruct n as [|n]; cbn [killed perform lookup list_lookup] in *.
    + destruct torn; [by rewrite bool_decide_eq_true_2 in Htorn|]. left. by rewrite Hes.
    + right. apply lookup_insert_eq.
  - intros id Hid H1 H2 H3. rewrite spares_killed; [by apply Hes, Hc|].
    destruct Hl as [->| ->]; repeat constructor.
    by apply not_eq_sym, chunkPath_not_metaPath, chunk_name_simple.
Qed.

Lemma restart_on_table env b s s0 fs :
  storage_inv s0 → read_file (metaPath_ s) fs = Some (metadata_text s0) →
  restart env b (set_disk fs s) =
  mk_storage (baseDir_ s) b (usedBytes_ s0) (accessCounter_ s0) (meta_ s0) fs.
Proof. intros Hs0 E. by rewrite (restart_from_text env b s0 (set_disk fs s)). Qed.

(** C16. Killed between two changes of the files, or while the file of a chunk is written,
    the storage manager starts again with the table of before the operation or with that
    of after it, and with the byte count of that table; and the chunks that the operation
    would have kept are all there: each is loaded as before. *)
Theorem crash_recovers env op count torn env' limit s
    (Hs : storage_inv s) (Hmax : 0 ≤ maxBytes_ s) (Hsync : synced s)
    (Hop : no_lost_update env op s) (Htorn : table_torn env op count torn s = false) :
  let s' := (storage_exec env op s).2 in
  let r := crash env op count torn env' limit s in
  (meta_ r = meta_ s ∧ accessCounter_ r = accessCounter_ s ∨
   meta_ r = meta_ s' ∧ accessCounter_ r = accessCounter_ s') ∧
  usedBytes_ r = total (meta_ r) ∧ maxBytes_ r = limit ∧
  ∀ id env0, is_Some (meta_ s !! id) → is_Some (meta_ s' !! id) →
    (∀ data, op ≠ StoreOp id data) → (loadChunk env0 id r).1 = (loadChunk env0 id s).1.
Proof.
  cbn zeta. destruct (step_inv env op s Hs Hmax Hop) as [Hs' _].
  destruct (killed_table env op s count torn Hs Hmax Hsync Hop Htorn) as [Ht Hc].
  assert (∃ s0, (s0 = s ∨ s0 = (storage_exec env op s).2) ∧ storage_inv s0 ∧
    crash env op count torn env' limit s =
    mk_storage (baseDir_ s) limit (usedBytes_ s0) (accessCounter_ s0) (meta_ s0)
      (killed count torn (effects_of env op s) (disk s))) as (s0 & H0 & Hs0 & ->).
  { unfold crash. destruct Ht as [Ht|Ht]; [exists s|exists (storage_exec env op s).2];
      (split; [by auto|]); (split; [done|]); by apply restart_on_table. }
  cbn [meta_ accessCounter_ usedBytes_ maxBytes_]. split; [|split; [apply Hs0|split; [done|]]].
  - destruct H0 as [->| ->]; [by left|by right].
  - intros id env0 H1 H2 H3. destruct (H1) as [c Hid].
    pose proof (Hc id (inv_names _ Hs id c Hid) H1 H2 H3) as E.
    unfold loadChunk. m_unfold. unfold open_in. cbn [disk].
    rewrite (chunkPath_base _ s) by done. rewrite E.
    destruct (match read_file _ _ with Some _ => _ | None => _ end) as [[size bytes]|]; [|done].
    by destruct (new_buffer env0 size).
Qed.
End recovery.

(** ** Witnesses *)

(** A chunk that is stored again, the process killed when three bytes were written. *)
Definition demo_lives : list life :=
  [Ends good_env (StoreOp demo_a (lit "sixsix"));
   Killed good_env (StoreOp demo_a (lit "newnew")) 0 (Some 3%nat) good_env 10;
   Killed good_env (StoreOp demo_b (lit "four")) 3 None good_env 10].

Lemma crashes_never_tear_chunks_witness :
  let s := lifetime (H := some_order) demo_lives (new_storage (lit "node") 10 ∅) in
  (loadChunk (H := some_order) good_env demo_a s).1 = Ok (lit "sixsix") ∧
  Exists (λ l, op_of l = StoreOp demo_a (lit "sixsix")) demo_lives.
Proof.
  cbn zeta.
  assert ((loadChunk (H := some_order) good_env demo_a
    (lifetime (H := some_order) demo_lives (new_storage (lit "node") 10 ∅))).1 = Ok (lit "sixsix"))
    as E by by_eval.
  destruct (crashes_never_tear_chunks (H := some_order) (lit "node") 10 ∅ demo_lives good_env
    demo_a (lit "sixsix") ltac:(by_eval) ltac:(by_eval) eq_refl E) as [Hf|Hx]; [done|].
  exact (conj E Hx).
Defined.

Lemma demo_synced bytes : bytes ≠ 0 → synced (H := some_order) (demo_store bytes).
Proof.
  intros Hb. pose proof some_order as Hord. unfold demo_store.
  rewrite storeChunk_success by by_eval. cbn [snd]. unfold record_chunk, enforceLimit.
  match goal with |- context [maxBytes_ ?x =? 0] => change (maxBytes_ x) with bytes end.
  destruct (Z.eqb_spec bytes 0); [done|]. by apply persist_synced.
Qed.

(** Killed when the new chunk is in place and the table is not yet written. *)
Lemma crash_recovers_witness :
  let r := crash (H := some_order) good_env (StoreOp demo_b (lit "four")) 2 None good_env 10
             (demo_store 10) in
  meta_ r = meta_ (demo_store 10) ∧ usedBytes_ r = 6 ∧
  (loadChunk (H := some_order) good_env demo_a r).1 = Ok (lit "sixsix").
Proof.
  cbn zeta.
  destruct (crash_recovers (H := some_order) good_env (StoreOp demo_b (lit "four")) 2 None good_env
    10 (demo_store 10)) as (Hm & Hu & _ & Hl);
    [apply demo_inv; lia|by_eval|by apply demo_synced|split; [by_eval|right; by_eval]|by_eval|].
  set (r := crash _ _ _ _ _ _ _) in *.
  assert (meta_ r = meta_ (demo_store 10)) as Em by by_eval.
  split; [exact Em|]. split.
  - rewrite Hu, Em. by_eval.
  - rewrite (Hl demo_a good_env); [by_eval|by_eval|by_eval|by_eval || done].
Defined.
