(* ===== verification/StorageTorn.v ===== *)
(** * Faults of the table and of the disk

    Two faults that the storage manager does not survive well, with the effects of
    [StorageCrash]: a process that is killed while it writes the file of the table,
    and a disk that is full. *)

From S2P Require Import Prelude.
From S2P Require Import CxxStd.
From S2P Require Import FileSystem.
From S2P Require Import Storage.
From S2P Require Import StorageLru.
From S2P Require Import StorageProps.
From S2P Require Import StorageCrash.

(** ** A torn table *)

Section torn.
Context `{IterOrder}.

Lemma total_list_to_map l :
  NoDup l.*1 → total (list_to_map l) = sum_sizes meta_bytes l.
Proof.
  induction l as [|[i c] l IH]; intros Hnd; [apply total_empty|].
  rewrite fmap_cons in Hnd. apply NoDup_cons in Hnd as [Hi Hnd]. cbn [sum_sizes]. rewrite list_to_map_cons.
  rewrite total_insert_new by (by apply not_elem_of_list_to_map_1). by rewrite IH.
Qed.

(** Bytes that are counted and belong to no entry. *)
Definition lost_bytes (lost : Z) (s : StorageManager) : Prop :=
  sizes_ok (meta_ s) ∧ usedBytes_ s = lost + total (meta_ s).

Lemma lost_enforce lost fuel env s :
  0 ≤ lost → lost_bytes lost s → usedBytes_ s < 2 ^ 64 → (size (meta_ s) ≤ fuel)%nat →
  let s' := enforce_loop fuel env s in
  lost_bytes lost s' ∧ (usedBytes_ s' ≤ maxBytes_ s ∨ usedBytes_ s' = lost ∧ meta_ s' = ∅).
Proof.
  cbn zeta. intros Hl. revert s.
  induction fuel as [|fuel IH]; intros s [Hz Hu] Hr Hf; cbn [enforce_loop].
  { assert (meta_ s = ∅) as E by (apply map_size_empty_inv; lia).
    split; [done|]. right. split; [|done]. rewrite Hu, E, total_empty. lia. }
  destruct (Z.ltb_spec (maxBytes_ s) (usedBytes_ s)) as [Hlt|Hle]; [|by split; [|left]].
  destruct (lru_victim (iterate (meta_ s))) as [[i c]|] eqn:Hv.
  - apply lru_victim_spec in Hv as [Hi%elem_of_iterate _]. cbn [fst snd] in Hi.
    pose proof (total_delete _ i c Hi) as Et. pose proof (Hz i c Hi) as Hc. cbn in Hc.
    pose proof (total_nonneg _ (sizes_ok_delete _ i Hz)).
    destruct (IH (evict env (i, c) s)) as [Hb Hm]; [|..|by split].
    + split; cbn [evict meta_ usedBytes_ set_meta set_used set_disk fst snd].
      * by apply sizes_ok_delete.
      * rewrite u64_id by lia. lia.
    + cbn [evict usedBytes_ set_meta set_used set_disk fst snd]. rewrite u64_id by lia. lia.
    + cbn [evict meta_ set_meta set_used set_disk fst].
      rewrite map_size_delete_Some by eauto. lia.
  - apply lru_victim_none in Hv. apply (f_equal length) in Hv.
    rewrite length_iterate in Hv. apply map_size_empty_inv in Hv.
    split; [done|]. right. split; [|done]. rewrite Hu, Hv, total_empty. lia.
Qed.

Lemma lost_stored lost hash data s :
  0 ≤ lost → lost_bytes lost s → usedBytes_ s + zlen data < 2 ^ 64 →
  lost_bytes lost (stored hash data s) ∧
  usedBytes_ (stored hash data s) ≤ usedBytes_ s + zlen data ∧
  (∃ c, meta_ (stored hash data s) = <[hash := c]> (meta_ s) ∧ csize c = zlen data) ∧
  maxBytes_ (stored hash data s) = maxBytes_ s ∧ baseDir_ (stored hash data s) = baseDir_ s.
Proof.
  intros Hl [Hz Hu] Hr. pose proof (zlen_nonneg data).
  destruct (forget_size_fields hash s) as (Eb & Ex & Ec & Em & _).
  pose proof (total_nonneg _ (sizes_ok_delete _ hash Hz)).
  assert (usedBytes_ (forget_size hash s) = lost + total (delete hash (meta_ s)) ∧
          usedBytes_ (forget_size hash s) ≤ usedBytes_ s) as [Ef Hle].
  { unfold forget_size. destruct (meta_ s !! hash) as [m|] eqn:Hm.
    - pose proof (total_delete _ hash m Hm). pose proof (Hz hash m Hm) as Hc. cbn in Hc.
      cbn [usedBytes_ set_used]. destruct (Z.leb_spec (csize m) (usedBytes_ s)); lia.
    - rewrite delete_id by done. lia. }
  unfold stored, add_entry. cbn [meta_ usedBytes_ maxBytes_ baseDir_ set_used set_meta set_counter set_disk].
  rewrite Em, u64_id by lia. split; [split|].
  - cbn [meta_ set_used set_meta]. by apply map_Forall_insert_2.
  - cbn [usedBytes_ meta_ set_used set_meta]. rewrite total_insert. cbn [csize]. lia.
  - split; [lia|]. split; [|done]. eexists. split; [done|]. done.
Qed.

(** A chunk that does not fit beside the lost bytes is not kept, and nobody is told. *)
Lemma lost_store env lost hash data s :
  env_ok env → chunk_name hash → 0 ≤ lost → 0 < maxBytes_ s → lost_bytes lost s →
  usedBytes_ s + zlen data < 2 ^ 64 → maxBytes_ s < lost + zlen data →
  ∃ s', storeChunk env hash data s = (Ok (), s') ∧ lost_bytes lost s' ∧
    usedBytes_ s' ≤ Z.max lost (maxBytes_ s) ∧ maxBytes_ s' = maxBytes_ s ∧
    meta_ s' !! hash = None ∧ disk s' !! resolve (chunkPath s hash) = None ∧
    dom (meta_ s') ⊆ {[hash]} ∪ dom (meta_ s).
Proof.
  intros He Hname Hl Hmax Hb Hr Hbig. assert (hash ≠ []) by apply Hname.
  destruct (lost_stored lost hash data s Hl Hb Hr) as (Hb1 & Hu1 & (c & Em1 & Hc) & Ex1 & Eb1).
  exists (enforceLimit env (stored hash data s)).
  split; [apply storeChunk_success; [done|]; by destruct He as (? & ? & _)|].
  destruct (enforceLimit_fields env (stored hash data s)) as (Eb2 & Ex2 & _).
  assert (no_orphan (enforceLimit env (stored hash data s)) hash) as Ho.
  { apply no_orphan_enforce; [done|done|]. unfold no_orphan. rewrite Em1.
    by rewrite lookup_insert_eq. }
  unfold no_orphan in Ho. rewrite (chunkPath_base _ s) in Ho by congruence. rewrite Ex2, Ex1.
  revert Ho. unfold enforceLimit. destruct (Z.eqb_spec (maxBytes_ (stored hash data s)) 0); [lia|].
  set (s2 := enforce_loop _ env _).
  destruct (persist_fields env s2) as (_ & _ & Eu & _ & Em). unfold lost_bytes. rewrite Eu, Em.
  intros Ho.
  destruct (lost_enforce lost (size (meta_ (stored hash data s))) env (stored hash data s))
    as [[Hz2 Hu2] Hcase]; [done|done|lia|done|]. fold s2 in Hz2, Hu2, Hcase.
  assert (meta_ s2 ⊆ <[hash := c]> (meta_ s)) as Hsub.
  { rewrite <- Em1. apply enforce_loop_sub. }
  assert (meta_ s2 !! hash = None) as Hn.
  { destruct Hcase as [Hle|[_ ->]]; [|done]. apply eq_None_not_Some. intros [d Hd].
    pose proof (total_member _ hash d Hz2 Hd).
    pose proof (lookup_weaken _ _ _ _ Hd Hsub) as Hd'. rewrite lookup_insert_eq in Hd'.
    injection Hd' as ->. lia. }
  split; [done|]. split; [destruct Hcase as [?|[-> _]]; lia|]. split; [done|].
  split; [done|]. split; [by apply Ho|].
  etrans; [by apply subseteq_dom|]. by rewrite dom_insert.
Qed.

(** Whatever is stored then. *)
Lemma lost_stores env lost stores s :
  env_ok env → 0 ≤ lost → 0 < maxBytes_ s → lost_bytes lost s →
  Forall (λ e, chunk_name e.1 ∧ maxBytes_ s < lost + zlen e.2 ∧
               Z.max (usedBytes_ s) (maxBytes_ s) + zlen e.2 < 2 ^ 64) stores →
  let '(rs, s') := run_all (storage_exec env) (map (λ e, StoreOp e.1 e.2) stores) s in
  Forall (λ r, r = Done) rs ∧
  ∀ id, chunk_name id → id ∈ stores.*1 ∨ meta_ s !! id = None ∧
        disk s !! resolve (chunkPath s id) = None →
    meta_ s' !! id = None ∧ disk s' !! resolve (chunkPath s id) = None.
Proof.
  intros He Hl. revert s. induction stores as [|[hash data] stores IH]; intros s Hmax Hb Hst.
  { cbn. split; [constructor|]. intros id _ [[]%not_elem_of_nil|?]; done. }
  apply Forall_cons in Hst as [(Hname & Hbig & Hr) Hst]. cbn [fst snd] in *.
  assert (lost ≤ usedBytes_ s) as Hlu.
  { destruct Hb as [Hz ->]. pose proof (total_nonneg _ Hz). lia. }
  destruct (lost_store env lost hash data s) as (s1 & E & Hb1 & Hu1 & Ex1 & Hn1 & Hd1 & Hdom);
    [done|done|done|done|done|lia|done|].
  pose proof (exec_base env (StoreOp hash data) s) as Eb.
  assert (∀ id bytes, chunk_name id → disk s1 !! resolve (chunkPath s id) = Some bytes →
            disk s !! resolve (chunkPath s id) = Some bytes ∨ id = hash) as Hkeep.
  { intros id bytes Hid Hf.
    pose proof (live_chunk (Ends env (StoreOp hash data)) s id bytes Hid) as Hlive.
    cbn [live storage_exec op_of stores_names] in Hlive. rewrite E in Hlive.
    destruct Hlive as [?|[= -> _]]; [by apply chunk_name_simple|done|by left|by right]. }
  cbn [map run_all storage_exec fst snd] in *. rewrite E in *. cbn [snd] in Eb.
  specialize (IH s1). rewrite Ex1 in IH. specialize (IH Hmax Hb1).
  destruct (run_all _ _ s1) as [rs s2].
  destruct IH as [Hrs Hgone].
  { eapply Forall_impl; [exact Hst|]. intros e (? & ? & ?). split; [done|]. split; [done|]. lia. }
  split; [by constructor|]. intros id Hid Hin. rewrite <- (chunkPath_base s1 s id) by done.
  apply Hgone; [done|]. rewrite (chunkPath_base s1 s id) by done.
  destruct (decide (id = hash)) as [->|Hne]; [by right|].
  destruct Hin as [[->|Hin]%elem_of_cons|[Hm Hd]]; [done|by left|right]. split.
  - apply not_elem_of_dom. apply not_elem_of_dom in Hm. clear - Hdom Hm Hne. set_solver.
  - apply eq_None_not_Some. intros [bytes Hf]. destruct (Hkeep id bytes Hid Hf); [congruence|done].
Qed.

(** The sizes of the entries that are cut off. *)
Definition cut_bytes (k : nat) (m : gmap str ChunkMeta) : Z :=
  sum_sizes meta_bytes (drop k (iterate m)).

Lemma NoDup_firstn {A B} k (l : list (A * B)) : NoDup l.*1 → NoDup (take k l).*1.
Proof.
  intros Hn. rewrite <- (take_drop k l), fmap_app in Hn. by apply NoDup_app in Hn as [? _].
Qed.

Lemma cut_bytes_total k m : total m = total (list_to_map (take k (iterate m))) + cut_bytes k m.
Proof.
  rewrite <- (list_to_map_iterate m) at 1. pose proof (NoDup_iterate m) as Hn.
  rewrite !total_list_to_map; [|by apply NoDup_firstn|done].
  unfold cut_bytes. by rewrite <- sum_sizes_app, take_drop.
Qed.

(** The bytes of the file up to the [k]-th entry. *)
Definition cut_point (k : nat) (s : StorageManager) : nat :=
  length (to_string (accessCounter_ s) ++ space :: to_string (usedBytes_ s) ++ newline ::
          flat_map entry_text (take k (iterate (meta_ s)))).

Lemma take_cut_point k s :
  take (cut_point k s) (metadata_text s) =
  to_string (accessCounter_ s) ++ space :: to_string (usedBytes_ s) ++ newline ::
  flat_map entry_text (take k (iterate (meta_ s))).
Proof.
  unfold cut_point, metadata_text. rewrite <- (take_drop k (iterate (meta_ s))) at 2.
  rewrite flat_map_app. set (x := to_string (accessCounter_ s)). set (y := to_string (usedBytes_ s)).
  assert (∀ a b : str, x ++ space :: y ++ newline :: a ++ b = (x ++ space :: y ++ newline :: a) ++ b)
    as Hassoc by (intros; by rewrite <- app_assoc; cbn [app]; rewrite <- app_assoc).
  rewrite Hassoc. apply take_app_length.
Qed.

Lemma touch_same hash s :
  storage_inv s → accessCounter_ s < 2 ^ 64 - 1 →
  storage_inv (touch hash s) ∧ usedBytes_ (touch hash s) = usedBytes_ s ∧
  maxBytes_ (touch hash s) = maxBytes_ s ∧ baseDir_ (touch hash s) = baseDir_ s ∧
  disk (touch hash s) = disk s.
Proof.
  intros Hs Hc. split; [by apply touch_inv|]. unfold touch. by destruct (meta_ s !! hash).
Qed.

Lemma run_base env ops s : baseDir_ (run_all (storage_exec env) ops s).2 = baseDir_ s.
Proof.
  revert s. induction ops as [|op ops IH]; intros s; [done|]. cbn [run_all].
  pose proof (exec_base env op s) as Eb. destruct (storage_exec env op s) as [r s1].
  specialize (IH s1). destruct (run_all _ _ s1) as [rs s2]. cbn [snd] in *. congruence.
Qed.

(** The files when the table was cut, and what is read from them. *)
Definition torn_disk (k : nat) (t s : StorageManager) : FS :=
  <[resolve (metaPath_ s) := take (cut_point k t) (metadata_text t)]> (disk s).

Lemma torn_restart env env' hash data s k :
  storage_inv s → accessCounter_ s < 2 ^ 64 - 1 → can_open_out env (metaPath_ s) = true →
  (loadChunk env hash s).1 = Ok data →
  let t := touch hash s in
  crash env (LoadOp hash) 0 (Some (cut_point k t)) env' (maxBytes_ s) s =
  mk_storage (baseDir_ s) (maxBytes_ s) (usedBytes_ s) (accessCounter_ t)
    (list_to_map (take k (iterate (meta_ t)))) (torn_disk k t s).
Proof.
  intros Hs Hcount Hopen Hload. cbn zeta.
  destruct (touch_same hash s Hs Hcount) as (Ht & Eu & _ & Eb & _).
  set (t := touch hash s) in *. set (l := take k (iterate (meta_ t))).
  assert (effects_of env (LoadOp hash) s = [Write (metaPath_ s) (metadata_text t)]) as Ee.
  { revert Hload. cbn [effects_of]. unfold loadChunk_effects, loadChunk. m_unfold.
    destruct (open_in _ _ _) as [[size bytes]|]; [|done].
    destruct (new_buffer env size); [|done]. intros _. cbn [is_ok].
    unfold persist_effects. fold t. rewrite (metaPath_base t s Eb). by rewrite Hopen. }
  unfold crash. rewrite Ee. cbn [killed]. rewrite <- Eu.
  apply (restart_from_entries _ _ _ _ l (set_disk (torn_disk k t s) s));
    [apply Ht|by apply used_range| |apply NoDup_firstn, NoDup_iterate|].
  - apply Forall_take. by apply entries_ok.
  - etrans; [apply lookup_insert_eq|f_equal; apply take_cut_point].
Qed.

Lemma torn_chunk k t s id :
  chunk_name id →
  torn_disk k t s !! resolve (chunkPath s id) = disk s !! resolve (chunkPath s id).
Proof.
  intros Hid. apply lookup_insert_ne, not_eq_sym. by apply chunkPath_not_metaPath, chunk_name_simple.
Qed.

Lemma torn_lost k t s disk0 dir limit counter :
  storage_inv t → usedBytes_ t = usedBytes_ s →
  lost_bytes (cut_bytes k (meta_ t))
    (mk_storage dir limit (usedBytes_ s) counter (list_to_map (take k (iterate (meta_ t)))) disk0) ∧
  0 ≤ cut_bytes k (meta_ t).
Proof.
  intros Ht Eu. assert (∀ e, e ∈ iterate (meta_ t) → 0 ≤ csize e.2) as Hz.
  { intros [i c] Hi%elem_of_iterate. by apply (inv_sizes _ Ht i c). }
  split; [split|].
  - intros i c Hi%elem_of_list_to_map_2. apply (Hz (i, c)).
    by apply (subseteq_take k (iterate (meta_ t))).
  - cbn [usedBytes_ meta_]. rewrite <- Eu, (inv_used _ Ht), (cut_bytes_total k) at 1. lia.
  - apply sum_sizes_nonneg, Forall_drop, Forall_forall. exact Hz.
Qed.

(** C39. Killed while it writes the table at the end of a [loadChunk], after the first line
    and the lines of [k] entries, the storage manager comes back with the byte count of
    all chunks but the entries of those only: the others stay on the disk, counted and
    unknown.  A chunk that does not fit beside them is then evicted by its own store, now
    and in every later one, and each of these stores reports success.  A peer that was
    full is so for good, and keeps nothing. *)
Theorem torn_table_refuses_chunks env env' hash data s k stores
    (Hs : storage_inv s) (Hmax : 0 < maxBytes_ s) (Hcount : accessCounter_ s < 2 ^ 64 - 1)
    (Hopen : can_open_out env (metaPath_ s) = true) (Henv' : env_ok env')
    (Hload : (loadChunk env hash s).1 = Ok data)
    (Hstores : Forall (λ e, chunk_name e.1 ∧
       maxBytes_ s < cut_bytes k (meta_ (touch hash s)) + zlen e.2 ∧
       Z.max (usedBytes_ s) (maxBytes_ s) + zlen e.2 < 2 ^ 64) stores) :
  let s1 := crash env (LoadOp hash) 0 (Some (cut_point k (touch hash s))) env' (maxBytes_ s) s in
  let '(rs, s2) := run_all (storage_exec env') (map (λ e, StoreOp e.1 e.2) stores) s1 in
  usedBytes_ s1 = usedBytes_ s ∧
  total (meta_ s1) = usedBytes_ s - cut_bytes k (meta_ (touch hash s)) ∧
  (∀ id c, meta_ s !! id = Some c → has_file s1 id c) ∧
  Forall (λ r, r = Done) rs ∧
  Forall (λ e, hasChunk s2 e.1 = false ∧ is_ok (loadChunk env' e.1 s2).1 = false) stores.
Proof.
  destruct (touch_same hash s Hs Hcount) as (Ht & Eu & Ex & Eb & Ed). cbn zeta.
  rewrite (torn_restart env env' hash data s k) by done. set (t := touch hash s) in *.
  set (s1 := mk_storage _ _ _ _ _ _).
  destruct (torn_lost k t s (torn_disk k t s) (baseDir_ s) (maxBytes_ s) (accessCounter_ t) Ht Eu)
    as [Hb Hnn]. fold s1 in Hb.
  pose proof (lost_stores env' (cut_bytes k (meta_ t)) stores s1 Henv' Hnn Hmax Hb Hstores) as Hlost.
  pose proof (run_base env' (map (λ e, StoreOp e.1 e.2) stores) s1) as Eb2.
  destruct (run_all _ _ s1) as [rs s2]. destruct Hlost as [Hrs Hgone]. cbn [snd] in Eb2.
  split; [done|]. split; [|split; [|split; [done|]]].
  - destruct Hb as [_ Hu]. change (usedBytes_ s1) with (usedBytes_ s) in Hu. lia.
  - intros id c Hid. destruct (inv_disk _ Hs id c Hid) as (bytes & Hf & Hlen).
    exists bytes. split; [|done]. change (disk s1) with (torn_disk k t s).
    rewrite (chunkPath_base s1 s), torn_chunk; [done| |done]. by apply (inv_names _ Hs id c).
  - rewrite Forall_forall in Hstores |- *. intros e He. destruct (Hstores e He) as (Hname & _).
    destruct (Hgone e.1 Hname) as [Hm Hd]; [left; by apply list_elem_of_fmap_2|].
    split; [unfold hasChunk; by rewrite Hm|]. erewrite loadChunk_missing; [done| |].
    + unfold read_file. by rewrite (chunkPath_base s2 s1).
    + by apply Henv'.
Qed.

Lemma spares_cut room k es : Forall (spares k) es → Forall (spares k) (map (cut_short room) es).
Proof. intros Hes. apply Forall_map. eapply Forall_impl; [exact Hes|]. by intros []. Qed.

(** The file of a chunk that was cut short. *)
Lemma short_file env room hash data s :
  storage_inv s → store_args_ok hash data s → io_ok env s hash →
  is_Some (meta_ (enforceLimit env (stored hash data s)) !! hash) →
  read_file (chunkPath s hash)
    (perform_all (map (cut_short room) (storeChunk_effects env hash data s)) (disk s)) =
  Some (take (room (tmpPath s hash)) data).
Proof.
  intros Hs Hargs Hio Hin. pose proof (proj1 Hargs) as Hname.
  assert (hash ≠ []) by apply Hname.
  destruct (stored_spec hash data s Hs Hargs) as (Hs1 & _ & _ & Eb & _).
  destruct (enforce_ends env s (stored hash data s) Eb) as (es & last & Ee & _ & Hl & Hc);
    [apply Hs1|].
  unfold storeChunk_effects. rewrite bool_decide_eq_false_2 by done. destruct Hio as [-> ->].
  rewrite Ee. unfold read_file, perform_all. cbn [map foldl cut_short perform].
  rewrite lookup_insert_eq, map_app.
  match goal with |- foldl _ ?fs ?k !! _ = _ => change (perform_all k fs !! resolve (chunkPath s hash) = Some (take (room (tmpPath s hash)) data)) end.
  rewrite <- killed_all, spares_killed; [apply lookup_insert_eq|]. apply Forall_app. split.
  - by apply spares_cut, Hc.
  - apply spares_cut. destruct Hl as [->| ->]; repeat constructor.
    by apply not_eq_sym, chunkPath_not_metaPath, chunk_name_simple.
Qed.

(** When the disk is full no failure is seen: a store of which only the first bytes
    reach the disk reports success and is counted with its whole size; the bytes that were
    written are then served as the chunk. *)
Theorem short_write_goes_unnoticed env env' room hash data s
    (Hs : storage_inv s) (Hargs : store_args_ok hash data s) (Hio : io_ok env s hash)
    (Hfits : zlen data ≤ maxBytes_ s) (Hpos : 0 < maxBytes_ s)
    (Hmem : can_alloc env' (zlen (take (room (tmpPath s hash)) data)) = true)
    (Hlen : zlen data < 2 ^ 63) :
  let '(r, s') := short_exec env room (StoreOp hash data) s in
  r = Done ∧ hasChunk s' hash = true ∧ usedBytes_ s' = total (meta_ s') ∧
  csize <$> meta_ s' !! hash = Some (zlen data) ∧
  (loadChunk env' hash s').1 = Ok (take (room (tmpPath s hash)) data).
Proof.
  destruct (storeChunk_spec env hash data s Hs) as (s' & E & Hs' & Htrim & Eb & _ & _ & Hf);
    [lia|done|done|].
  destruct (Z.eqb_spec (maxBytes_ s) 0); [lia|].
  pose proof (new_entry_survives _ _ _ _ _ Hs Hfits Htrim) as [c Hc].
  unfold short_exec. cbn [storage_exec]. rewrite E. cbn [effects_of reply_of].
  set (fs := perform_all _ _). split; [done|]. unfold hasChunk. cbn [meta_ usedBytes_ set_disk].
  rewrite Hc. split; [done|]. split; [apply Hs'|].
  pose proof (lookup_weaken _ _ _ _ Hc (trim_sub _ _ _ Htrim)) as Hc'.
  unfold with_entry in Hc'. rewrite lookup_insert_eq in Hc'. injection Hc' as <-. split; [done|].
  erewrite loadChunk_found; [done| |].
  - change (read_file (chunkPath s' hash) fs = Some (take (room (tmpPath s hash)) data)).
    rewrite (chunkPath_base _ s) by done. apply short_file; [done|done|done|].
    rewrite storeChunk_success in E by (done || apply Hargs). injection E as E.
    unfold record_chunk in E. fold (stored hash data s) in E. rewrite E. by eexists.
  - unfold new_buffer. rewrite Hmem. destruct (Z.ltb_spec (2 ^ 63 - 1)
      (zlen (take (room (tmpPath s hash)) data))); [|done].
    pose proof (length_take data (room (tmpPath s hash))). unfold zlen in *. lia.
Qed.
End torn.

(** ** Witnesses *)

(** A store of 10 bytes that holds 6, killed while it writes the table after a read: a
    chunk of 5 bytes can be stored no more. *)
Lemma torn_table_refuses_chunks_witness :
  let s1 := crash (H := some_order) good_env (LoadOp demo_a) 0
              (Some (cut_point (H := some_order) 0 (touch demo_a (demo_store 10)))) good_env 10
              (demo_store 10) in
  usedBytes_ s1 = 6 ∧ total (meta_ s1) = 0 ∧
  let '(rs, s2) := run_all (storage_exec (H := some_order) good_env)
                     [StoreOp demo_b (lit "fives"); StoreOp demo_b (lit "fives")] s1 in
  rs = [Done; Done] ∧ hasChunk s2 demo_b = false.
Proof.
  cbn zeta.
  pose proof (torn_table_refuses_chunks (H := some_order) good_env good_env demo_a (lit "sixsix")
    (demo_store 10) 0 [(demo_b, lit "fives"); (demo_b, lit "fives")]
    ltac:(apply demo_inv; lia) ltac:(by_eval) ltac:(by_eval) ltac:(by_eval) good_env_ok
    ltac:(by_eval) ltac:(by_eval)) as Ht. cbv beta zeta in Ht.
  change (maxBytes_ (demo_store 10)) with 10 in Ht. cbn [map fst snd] in Ht.
  destruct (run_all _ _ _) as [rs s2] eqn:E. destruct Ht as (Hu & Ht & _ & _ & Hg).
  split; [rewrite Hu; by_eval|]. split; [rewrite Ht; by_eval|]. split.
  - apply (f_equal fst) in E. vm_compute in E. exact (eq_sym E).
  - by apply Forall_cons in Hg as [[Hh _] _].
Defined.

Lemma short_write_goes_unnoticed_witness :
  let '(r, s') := short_exec (H := some_order) good_env (λ _, 2%nat) (StoreOp demo_b (lit "four"))
                    (demo_store 10) in
  r = Done ∧ (loadChunk (H := some_order) good_env demo_b s').1 = Ok (lit "fo").
Proof.
  pose proof (short_write_goes_unnoticed (H := some_order) good_env good_env (λ _, 2%nat) demo_b
    (lit "four") (demo_store 10) ltac:(apply demo_inv; lia) ltac:(by_eval) ltac:(by_eval)
    ltac:(by_eval) ltac:(by_eval) ltac:(by_eval) ltac:(by_eval)) as Hw.
  destruct (short_exec _ _ _ _) as [r s']. destruct Hw as (-> & _ & _ & _ & Hl).
  split; [done|exact Hl].
Defined.
