(* ===== verification/Manifest.v ===== *)
(** * Manifests

    Models [src/core/manifest/manifest.h] and [.cpp]: the record that lists the
    chunks of a file, its text form, the parser and the two file functions.
    Whether a request for memory succeeds, the environment decides. *)

From S2P Require Import Prelude.
From S2P Require Import CxxStd.
From S2P Require Import FileSystem.

Record ManifestEntry := mk_entry { chunkId : str }.

Record Manifest := mk_manifest {
  originalName : str;
  originalSize : Z;
  chunkSize : Z;
  chunks : list ManifestEntry;
  encrypted : bool;
  encAlgo : str;
  keyEncAlgo : str;
  encryptedKeyHex : str;
}.

#[export] Instance ManifestEntry_eq_dec : EqDecision ManifestEntry.
Proof. solve_decision. Defined.
#[export] Instance Manifest_eq_dec : EqDecision Manifest.
Proof. solve_decision. Defined.

(** [label value\n]. *)
Definition field (label value : str) : str := label ++ space :: value ++ [newline].

Definition serializeManifest (m : Manifest) : str :=
  field (lit "filename") (originalName m) ++
  field (lit "size") (to_string (originalSize m)) ++
  field (lit "chunk_size") (to_string (chunkSize m)) ++
  field (lit "chunks") (to_string (zlen (chunks m))) ++
  flat_map (λ e, chunkId e ++ [newline]) (chunks m) ++
  if encrypted m then
    field (lit "encrypted") (lit "1") ++
    field (lit "enc_algo") (encAlgo m) ++
    field (lit "key_enc_algo") (keyEncAlgo m) ++
    field (lit "enc_key") (encryptedKeyHex m)
  else field (lit "encrypted") (lit "0").

Definition malformed (field : str) : exn :=
  RuntimeError (lit "Malformed manifest (" ++ field ++ lit ")").

(** [in >> label >> value] with the test [!in || label != expected]. *)
Definition get_field {A} (get : A → istream → A * istream) (old : A)
    (expected : str) (inp : istream) : result (A * istream) :=
  let (label, inp) := get_word [] inp in
  let (v, inp) := get old inp in
  if in_fail inp || negb (bool_decide (label = expected)) then Throw (malformed expected)
  else Ok (v, inp).

(** [vector::reserve]: [max_size] of a vector of 32-byte strings is 2^58 - 1. *)
Definition reserve (env : Env) (n : Z) : result unit :=
  if 2 ^ 58 - 1 <? n then Throw (LengthError (lit "vector::reserve"))
  else if can_alloc env (32 * n) then Ok () else Throw BadAlloc.

(** The loop over the chunk ids.  A round reads a word or throws, so one more
    round than the text has characters is never needed. *)
Fixpoint read_chunks (fuel : nat) (i chunkCount : Z) (inp : istream)
    (acc : list ManifestEntry) : result (list ManifestEntry * istream) :=
  if i <? chunkCount then
    match fuel with
    | O => Throw (malformed (lit "chunk id"))
    | S fuel' =>
        let (id, inp) := get_word [] inp in
        if in_fail inp then Throw (malformed (lit "chunk id"))
        else read_chunks fuel' (i + 1) chunkCount inp (acc ++ [mk_entry id])
    end
  else Ok (acc, inp).

Definition read_encryption (name : str) (size csize : Z) (chunks : list ManifestEntry)
    (inp : istream) : result Manifest :=
  let plain := mk_manifest name size csize chunks false [] [] [] in
  let (label, inp) := get_word [] inp in
  let (encFlag, inp) := get_int 0 inp in
  if in_fail inp then Ok plain
  else if bool_decide (label = lit "encrypted") && (encFlag =? 1) then
    '(algo, inp) ← get_field get_word [] (lit "enc_algo") inp;
    '(kalgo, inp) ← get_field get_word [] (lit "key_enc_algo") inp;
    '(key, inp) ← get_field get_word [] (lit "enc_key") inp;
    Ok (mk_manifest name size csize chunks true algo kalgo key)
  else Ok plain.

Definition parseManifestText (env : Env) (text : str) : result Manifest :=
  let inp := istringstream text in
  '(name, inp) ← get_field get_word [] (lit "filename") inp;
  '(size, inp) ← get_field get_u64 0 (lit "size") inp;
  '(csize, inp) ← get_field get_u64 0 (lit "chunk_size") inp;
  '(chunkCount, inp) ← get_field get_u64 0 (lit "chunks") inp;
  _ ← reserve env chunkCount;
  '(chunks, inp) ← read_chunks (S (length text)) 0 chunkCount inp [];
  read_encryption name size csize chunks inp.

Definition writeManifest (env : Env) (path : str) (m : Manifest) : M FS unit :=
  fs ← getM;
  match write_file env path (serializeManifest m) fs with
  | None => throwM (RuntimeError (lit "Failed to open manifest for write: " ++ path))
  | Some fs' => putM fs'
  end.

Definition readManifest (env : Env) (path : str) (fs : FS) : result Manifest :=
  match open_in env path fs with
  | None => Throw (RuntimeError (lit "Failed to open manifest for read: " ++ path))
  | Some (_, text) =>
      match parseManifestText env text with
      | Ok m => Ok m
      | Throw e => Throw (RuntimeError (what e ++ lit ": " ++ path))
      end
  end.

(** ** Manifests that have a text *)

Definition no_encryption (m : Manifest) : Prop :=
  encAlgo m = [] ∧ keyEncAlgo m = [] ∧ encryptedKeyHex m = [].

Definition manifest_ok (m : Manifest) : Prop :=
  is_word (originalName m) ∧ 0 ≤ originalSize m < 2 ^ 64 ∧ 0 ≤ chunkSize m < 2 ^ 64 ∧
  Forall (λ e, is_word (chunkId e)) (chunks m) ∧ zlen (chunks m) < 2 ^ 58 ∧
  if encrypted m then is_word (encAlgo m) ∧ is_word (keyEncAlgo m) ∧ is_word (encryptedKeyHex m)
  else no_encryption m.

#[export] Instance manifest_ok_dec m : Decision (manifest_ok m).
Proof. unfold manifest_ok, no_encryption. destruct (encrypted m); apply _. Defined.

(** ** Reading what was printed *)

Lemma get_field_word b expected w k :
  blank b → is_word expected → is_word w →
  get_field get_word [] expected (mk_istream (b ++ field expected w ++ k) false) =
  Ok (w, mk_istream (newline :: k) false).
Proof.
  intros Hb He Hw. unfold get_field, field. rewrite <- !app_assoc.
  rewrite get_word_word; [|done|done|by apply word_end_cons].
  cbn [app]. rewrite <- app_assoc. cbn [app].
  change (space :: w ++ newline :: k) with ([space] ++ w ++ newline :: k).
  rewrite get_word_word; [|auto with dss|done|by apply word_end_cons].
  cbn [in_fail]. by rewrite bool_decide_eq_true_2.
Qed.

Lemma get_field_u64 b expected z k :
  blank b → is_word expected → 0 ≤ z < 2 ^ 64 →
  get_field get_u64 0 expected (mk_istream (b ++ field expected (to_string z) ++ k) false) =
  Ok (z, mk_istream (newline :: k) false).
Proof.
  intros Hb He Hz. unfold get_field, field. rewrite <- !app_assoc.
  rewrite get_word_word; [|done|done|by apply word_end_cons].
  cbn [app]. rewrite <- app_assoc. cbn [app].
  change (space :: ?w ++ newline :: k) with ([space] ++ w ++ newline :: k).
  rewrite get_u64_to_string; [|auto with dss|done|by apply space_no_digit].
  cbn [in_fail]. by rewrite bool_decide_eq_true_2.
Qed.

Lemma read_chunks_text fuel i n l acc k :
  Forall (λ e, is_word (chunkId e)) l → n = i + zlen l → (length l ≤ fuel)%nat →
  read_chunks fuel i n
    (mk_istream (newline :: flat_map (λ e, chunkId e ++ [newline]) l ++ k) false) acc =
  Ok (acc ++ l, mk_istream (newline :: k) false).
Proof.
  intros Hl. revert fuel i acc. induction Hl as [|[id] l Hw Hl IH]; intros fuel i acc Hn Hf.
  - rewrite app_nil_r. replace n with i by (unfold zlen in Hn; cbn in Hn; lia).
    by destruct fuel; cbn [read_chunks]; rewrite Z.ltb_irrefl.
  - cbn [length] in Hf. destruct fuel as [|fuel]; [lia|]. rewrite zlen_cons in Hn.
    pose proof (zlen_nonneg l). cbn [read_chunks]. destruct (Z.ltb_spec i n); [|lia].
    cbn [flat_map chunkId] in *. rewrite <- !app_assoc. cbn [app].
    change (newline :: id ++ ?r) with ([newline] ++ id ++ r).
    rewrite get_word_word; [|auto with dss|done|by apply word_end_cons]. cbn [in_fail].
    rewrite IH by lia. by rewrite <- app_assoc.
Qed.

Lemma get_word_field b expected k w :
  blank b → is_word expected →
  get_word [] (mk_istream (b ++ field expected w ++ k) false) =
  (expected, mk_istream (space :: w ++ newline :: k) false).
Proof.
  intros Hb He. unfold field. rewrite <- !app_assoc. cbn [app].
  rewrite <- app_assoc. cbn [app].
  by apply get_word_word; [..|apply word_end_cons].
Qed.

Lemma read_encryption_text m name size csize chunks :
  (if encrypted m then is_word (encAlgo m) ∧ is_word (keyEncAlgo m) ∧ is_word (encryptedKeyHex m)
   else no_encryption m) →
  read_encryption name size csize chunks
    (mk_istream (newline ::
      if encrypted m then
        field (lit "encrypted") (lit "1") ++ field (lit "enc_algo") (encAlgo m) ++
        field (lit "key_enc_algo") (keyEncAlgo m) ++ field (lit "enc_key") (encryptedKeyHex m)
      else field (lit "encrypted") (lit "0")) false) =
  Ok (mk_manifest name size csize chunks (encrypted m) (encAlgo m) (keyEncAlgo m)
        (encryptedKeyHex m)).
Proof.
  assert (∀ z k, 0 ≤ z ≤ INT_MAX →
    get_int 0 (mk_istream (space :: to_string z ++ newline :: k) false) =
    (z, mk_istream (newline :: k) false)) as Hint.
  { intros z k Hz. apply (get_int_gen_to_string _ _ _ _ [space]); [auto with dss|done|].
    by apply space_no_digit. }
  assert (∀ l : str, newline :: l = [newline] ++ l) as Enl by done.
  intros Henc. unfold read_encryption. destruct (encrypted m).
  - destruct Henc as (H1 & H2 & H3). rewrite Enl, get_word_field by (auto with dss || by_eval).
    change (lit "1") with (to_string 1). rewrite Hint by done.
    cbn [in_fail]. change (bool_decide _ && _) with true. cbn iota.
    rewrite Enl, get_field_word; [m_unfold|auto with dss|by_eval|done].
    rewrite Enl, get_field_word; [m_unfold|auto with dss|by_eval|done].
    rewrite <- (app_nil_r (field (lit "enc_key") _)), Enl.
    by rewrite get_field_word; [|auto with dss|by_eval|done].
  - destruct Henc as (-> & -> & ->).
    rewrite <- (app_nil_r (field _ (lit "0"))), Enl, get_word_field by (auto with dss || by_eval).
    change (lit "0") with (to_string 0). by rewrite Hint.
Qed.

Lemma length_chunk_lines l :
  (length l ≤ length (flat_map (λ e, chunkId e ++ [newline]) l))%nat.
Proof. induction l as [|e l IH]; cbn; [done|]. rewrite !length_app. cbn. lia. Qed.

Lemma parse_serialize env m :
  manifest_ok m → can_alloc env (32 * zlen (chunks m)) = true →
  parseManifestText env (serializeManifest m) = Ok m.
Proof.
  intros (Hname & Hsize & Hcs & Hids & Hn & Henc) Hal.
  assert (∀ l : str, newline :: l = [newline] ++ l) as Enl by done.
  pose proof (zlen_nonneg (chunks m)). unfold parseManifestText.
  assert (length (chunks m) ≤ S (length (serializeManifest m)))%nat as Hf.
  { pose proof (length_chunk_lines (chunks m)). unfold serializeManifest.
    rewrite !length_app. lia. }
  revert Hf. generalize (S (length (serializeManifest m))). intros fuel Hf.
  change (istringstream ?t) with (mk_istream ([] ++ t) false). unfold serializeManifest.
  rewrite get_field_word; [m_unfold|constructor|by_eval|exact Hname].
  rewrite Enl, get_field_u64; [m_unfold|auto with dss|by_eval|exact Hsize].
  rewrite Enl, get_field_u64; [m_unfold|auto with dss|by_eval|exact Hcs].
  rewrite Enl, get_field_u64; [m_unfold|auto with dss|by_eval|lia].
  unfold reserve. destruct (Z.ltb_spec (2 ^ 58 - 1) (zlen (chunks m))); [lia|].
  rewrite Hal, read_chunks_text by (done || lia). m_unfold. cbn [app].
  rewrite read_encryption_text by done. by destruct m.
Qed.

(** ** Manifests that were parsed *)

Lemma get_field_ok {A} (get : A → istream → A * istream) (P : A → Prop) old expected inp v inp' :
  (∀ o st v st', get o st = (v, st') → in_fail st' = false → P v) →
  get_field get old expected inp = Ok (v, inp') → P v.
Proof.
  intros HP. unfold get_field. destruct (get_word [] inp) as [label st].
  destruct (get old st) as [v' st'] eqn:E. destruct (in_fail st') eqn:Hf; [done|].
  destruct (negb _); [done|]. intros [= <- <-]. by eapply HP.
Qed.

Lemma get_field_word_ok old expected inp v inp' :
  get_field get_word old expected inp = Ok (v, inp') → is_word v.
Proof. apply get_field_ok. intros o st w st' E Hf. by apply (get_word_ok o st w st'). Qed.

Lemma get_field_u64_ok old expected inp v inp' :
  get_field get_u64 old expected inp = Ok (v, inp') → 0 ≤ v < 2 ^ 64.
Proof. apply (get_field_ok _ (λ v, 0 ≤ v < 2 ^ 64)). exact get_u64_ok. Qed.

Lemma read_chunks_ok fuel i n inp acc l inp' :
  i ≤ n → read_chunks fuel i n inp acc = Ok (l, inp') →
  Forall (λ e, is_word (chunkId e)) acc →
  Forall (λ e, is_word (chunkId e)) l ∧ zlen l = zlen acc + (n - i).
Proof.
  revert i inp acc. induction fuel as [|fuel IH]; intros i inp acc Hi; cbn [read_chunks];
    destruct (Z.ltb_spec i n); try done.
  - intros [= <- <-]. split; [done|lia].
  - destruct (get_word [] inp) as [id st] eqn:E. destruct (in_fail st) eqn:Hf; [done|].
    intros Hr Hacc. apply IH in Hr; [|lia|].
    + rewrite zlen_app in Hr. unfold zlen in *. cbn [length] in Hr. split; [apply Hr|lia].
    + apply Forall_app. split; [done|]. constructor; [|done]. by apply (get_word_ok [] inp id st).
  - intros [= <- <-]. split; [done|lia].
Qed.

(** The fuel of the loop is never used up: more of it changes nothing. *)
Lemma read_chunks_fuel fuel fuel' i n inp acc :
  (length (in_rest inp) < fuel)%nat → (fuel ≤ fuel')%nat →
  read_chunks fuel i n inp acc = read_chunks fuel' i n inp acc.
Proof.
  revert fuel' i inp acc. induction fuel as [|fuel IH]; intros fuel' i inp acc Hl Hf; [lia|].
  destruct fuel' as [|fuel']; [lia|]. cbn [read_chunks].
  destruct (i <? n); [|done]. destruct (get_word [] inp) as [id st] eqn:E.
  destruct (in_fail st) eqn:Hfail; [done|].
  apply IH; [|lia]. destruct (get_word_ok _ _ _ _ E Hfail) as (_ & _ & ?). lia.
Qed.

Lemma read_encryption_ok name size csize chunks inp m :
  read_encryption name size csize chunks inp = Ok m →
  originalName m = name ∧ originalSize m = size ∧ chunkSize m = csize ∧
  Manifest.chunks m = chunks ∧
  if encrypted m then is_word (encAlgo m) ∧ is_word (keyEncAlgo m) ∧ is_word (encryptedKeyHex m)
  else no_encryption m.
Proof.
  unfold read_encryption. destruct (get_word [] inp) as [label st].
  destruct (get_int 0 st) as [flag st']. destruct (in_fail st'); [by intros [= <-]|].
  destruct (_ && _); [|by intros [= <-]]. m_unfold.
  destruct (get_field get_word [] (lit "enc_algo") st') as [[a st1]|] eqn:E1; [|done].
  destruct (get_field get_word [] (lit "key_enc_algo") st1) as [[b st2]|] eqn:E2; [|done].
  destruct (get_field get_word [] (lit "enc_key") st2) as [[c st3]|] eqn:E3; [|done].
  apply get_field_word_ok in E1, E2, E3. by intros [= <-].
Qed.

Lemma parse_ok env text m :
  parseManifestText env text = Ok m →
  manifest_ok m ∧ can_alloc env (32 * zlen (chunks m)) = true.
Proof.
  unfold parseManifestText. generalize (S (length text)). intros fuel. m_unfold.
  destruct (get_field _ _ _ _) as [[name st1]|] eqn:E1; [|done].
  destruct (get_field _ _ (lit "size") _) as [[size st2]|] eqn:E2; [|done].
  destruct (get_field _ _ (lit "chunk_size") _) as [[csize st3]|] eqn:E3; [|done].
  destruct (get_field _ _ (lit "chunks") _) as [[n st4]|] eqn:E4; [|done].
  unfold reserve. destruct (Z.ltb_spec (2 ^ 58 - 1) n) as [|Hn]; [done|].
  destruct (can_alloc env (32 * n)) eqn:Hal; [|done].
  destruct (read_chunks _ _ _ _ _) as [[l st5]|] eqn:E5; [|done].
  apply get_field_word_ok in E1. apply get_field_u64_ok in E2, E3, E4.
  apply read_chunks_ok in E5 as [Hl Hz]; [|lia|done].
  intros Henc%read_encryption_ok. destruct Henc as (En & Es & Ec & El & Henc).
  unfold manifest_ok. rewrite En, Es, Ec, El.
  assert (zlen l = n) as -> by (rewrite Hz; unfold zlen; cbn; lia).
  split; [|done]. repeat (split; [done || lia|]). done.
Qed.

Lemma parse_throws env text e :
  parseManifestText env text = Throw e →
  (∃ f, e = malformed f) ∨ e = LengthError (lit "vector::reserve") ∨ e = BadAlloc.
Proof.
  assert (∀ A (get : A → istream → A * istream) old f inp e,
    get_field get old f inp = Throw e → e = malformed f) as Hgf.
  { intros A get old f inp e'. unfold get_field. destruct (get_word [] inp) as [label st].
    destruct (get old st). destruct (_ || _); by intros [= <-]. }
  unfold parseManifestText. generalize (S (length text)). intros fuel. m_unfold.
  destruct (get_field _ _ _ _) as [[name st1]|] eqn:E1; [|intros [= <-]; eauto].
  destruct (get_field _ _ (lit "size") _) as [[size st2]|] eqn:E2; [|intros [= <-]; eauto].
  destruct (get_field _ _ (lit "chunk_size") _) as [[csize st3]|] eqn:E3; [|intros [= <-]; eauto].
  destruct (get_field _ _ (lit "chunks") _) as [[n st4]|] eqn:E4; [|intros [= <-]; eauto].
  unfold reserve. destruct (2 ^ 58 - 1 <? n); [intros [= <-]; auto|].
  destruct (can_alloc env (32 * n)); [|intros [= <-]; auto].
  destruct (read_chunks _ _ _ _ _) as [[l st5]|e5] eqn:E5.
  - unfold read_encryption. destruct (get_word [] st5) as [label st].
    destruct (get_int 0 st) as [flag st']. destruct (in_fail st'); [done|].
    destruct (_ && _); [|done]. m_unfold.
    destruct (get_field _ _ (lit "enc_algo") _) as [[a sa]|] eqn:Ea; [|intros [= <-]; eauto].
    destruct (get_field _ _ (lit "key_enc_algo") _) as [[b sb]|] eqn:Eb; [|intros [= <-]; eauto].
    destruct (get_field _ _ (lit "enc_key") _) as [[c sc]|] eqn:Ec; [done|intros [= <-]; eauto].
  - intros [= <-]. left. exists (lit "chunk id"). revert E5. clear.
    generalize 0, st4, (@nil ManifestEntry). induction fuel as [|fuel IH]; intros i st acc;
      cbn [read_chunks]; destruct (i <? n); try done; [by intros [= <-]|].
    destruct (get_word [] st) as [id st']. destruct (in_fail st'); [by intros [= <-]|apply IH].
Qed.

(** ** Theorems *)

(** C20. A manifest whose name and ids are single words is read back from its
    text exactly as it was. *)
Theorem parse_serializeManifest env m
    (Hm : manifest_ok m) (Hal : can_alloc env (32 * zlen (chunks m)) = true) :
  parseManifestText env (serializeManifest m) = Ok m.
Proof. by apply parse_serialize. Qed.

(** C31. Whatever text the parser accepts, the manifest it returns is well formed
    and is read back from its own text: parsing, printing and parsing again gives
    the same manifest. *)
Theorem parsed_manifest_is_stable env text m
    (Hp : parseManifestText env text = Ok m) :
  manifest_ok m ∧ parseManifestText env (serializeManifest m) = Ok m.
Proof. apply parse_ok in Hp as [Hm Hal]. split; [done|by apply parse_serialize]. Qed.

(** A manifest file is written and read back, and [readManifest] never
    throws anything but a [runtime_error] that names the file. *)
Theorem manifest_files env path m fs
    (Hm : manifest_ok m) (Hal : can_alloc env (32 * zlen (chunks m)) = true) :
  (can_open_out env path = true →
   ∃ fs', writeManifest env path m fs = (Ok (), fs') ∧
          readManifest env path fs' = Ok m) ∧
  (can_open_out env path = false → ∃ e, writeManifest env path m fs = (Throw e, fs)) ∧
  ∀ fs e, readManifest env path fs = Throw e →
          ∃ reason, e = RuntimeError (reason ++ path).
Proof.
  split; [|split].
  - intros Ho. unfold writeManifest, write_file. m_unfold. rewrite Ho. eexists. split; [done|].
    unfold readManifest, open_in, read_file. rewrite lookup_insert_eq. by rewrite parse_serialize.
  - intros Ho. unfold writeManifest, write_file. m_unfold. rewrite Ho. by eexists.
  - intros fs' e. unfold readManifest. destruct (open_in env path fs') as [[n t]|].
    + destruct (parseManifestText env t) as [|e']; [done|]. intros [= <-].
      exists (what e' ++ lit ": "). by rewrite <- app_assoc.
    + intros [= <-]. by exists (lit "Failed to open manifest for read: ").
Qed.

(** The parser throws only "Malformed manifest", or the exceptions of the
    request for memory, and the fuel of its loop is never used up. *)
Theorem parse_errors env text :
  (∀ e, parseManifestText env text = Throw e →
        (∃ f, e = malformed f) ∨ e = LengthError (lit "vector::reserve") ∨ e = BadAlloc) ∧
  ∀ fuel i n inp acc, (length (in_rest inp) < fuel)%nat →
    read_chunks fuel i n inp acc = read_chunks (S (length (in_rest inp))) i n inp acc.
Proof.
  split; [apply parse_throws|]. intros. symmetry. apply read_chunks_fuel; lia.
Qed.

(** A name with a blank is printed as it is and cannot be read back: the
    manifest of a file such as [my file.txt] is rejected. *)
Theorem spaced_name_rejected env m a w rest
    (Ha : is_word a) (Hw : is_word w) (Hr : word_end rest) (Hn : w ≠ lit "size")
    (Hname : originalName m = a ++ space :: w ++ rest) :
  parseManifestText env (serializeManifest m) = Throw (malformed (lit "size")).
Proof.
  assert (∃ tl, serializeManifest m = field (lit "filename") (originalName m) ++ tl)
    as [tl E] by (by eexists).
  unfold parseManifestText. rewrite E, Hname. clear E.
  generalize (S (length (field (lit "filename") (a ++ space :: w ++ rest) ++ tl))). intros fuel.
  assert (word_end (rest ++ newline :: tl)) as Hend.
  { destruct rest as [|c rest]; [by apply word_end_cons|]. apply word_end_cons.
    by apply (Hr c rest). }
  change (istringstream ?t) with (mk_istream ([] ++ t) false).
  m_unfold. unfold get_field at 1.
  rewrite get_word_field; [|constructor|by_eval]. rewrite <- !app_assoc. cbn [app].
  rewrite <- !app_assoc.
  change (space :: a ++ ?k) with ([space] ++ a ++ k).
  rewrite get_word_word; [|auto with dss|done|by apply word_end_cons].
  cbn [in_fail]. change (bool_decide _) with true. m_unfold. cbn [orb negb].
  unfold get_field at 1. change (space :: w ++ ?k) with ([space] ++ w ++ k).
  rewrite get_word_word; [|auto with dss|done|done].
  destruct (get_u64 0 _) as [z st]. rewrite (bool_decide_eq_false_2 _ Hn), orb_true_r. done.
Qed.

(** ** Witnesses *)

Definition demo_manifest (name : str) : Manifest :=
  mk_manifest name 5 1024 [mk_entry (lit "2cf24dba")] true (lit "AES-256-GCM")
    (lit "RSA-OAEP-SHA256") (lit "00ff").

Lemma parse_serializeManifest_witness :
  manifest_ok (demo_manifest (lit "a.txt")) ∧
  parseManifestText good_env (serializeManifest (demo_manifest (lit "a.txt"))) =
  Ok (demo_manifest (lit "a.txt")).
Proof.
  assert (manifest_ok (demo_manifest (lit "a.txt"))) as Hm by by_eval.
  split; [exact Hm|].
  exact (parse_serializeManifest good_env (demo_manifest (lit "a.txt")) Hm eq_refl).
Defined.

(** The text has other blanks, and a tail that the parser ignores. *)
Definition loose_text : str :=
  lit "filename a.txt size 5 chunk_size 1024 chunks 1 2cf24dba encrypted 0 tail".

Lemma parsed_manifest_is_stable_witness :
  ∃ m, parseManifestText good_env loose_text = Ok m ∧ manifest_ok m ∧
       parseManifestText good_env (serializeManifest m) = Ok m.
Proof.
  exists (mk_manifest (lit "a.txt") 5 1024 [mk_entry (lit "2cf24dba")] false [] [] []).
  assert (parseManifestText good_env loose_text =
    Ok (mk_manifest (lit "a.txt") 5 1024 [mk_entry (lit "2cf24dba")] false [] [] [])) as E
    by (vm_compute; reflexivity).
  exact (conj E (parsed_manifest_is_stable good_env loose_text _ E)).
Defined.

Lemma manifest_files_witness :
  ∃ fs', writeManifest good_env (lit "a.manifest") (demo_manifest (lit "a.txt")) ∅ =
         (Ok (), fs') ∧
         readManifest good_env (lit "a.manifest") fs' = Ok (demo_manifest (lit "a.txt")).
Proof.
  exact (proj1 (manifest_files good_env (lit "a.manifest")
    (demo_manifest (lit "a.txt")) ∅ ltac:(by_eval) eq_refl) eq_refl).
Defined.

Lemma spaced_name_rejected_witness :
  parseManifestText good_env (serializeManifest (demo_manifest (lit "my file.txt"))) =
  Throw (malformed (lit "size")).
Proof.
  exact (spaced_name_rejected good_env (demo_manifest (lit "my file.txt")) (lit "my")
    (lit "file.txt") [] ltac:(by_eval) ltac:(by_eval) word_end_nil ltac:(by_eval) eq_refl).
Defined.

Lemma parse_errors_witness :
  ∃ f, parseManifestText good_env (lit "filename a.txt size many") = Throw (malformed f).
Proof.
  destruct (proj1 (parse_errors good_env (lit "filename a.txt size many"))
    (malformed (lit "size")) ltac:(vm_compute; reflexivity)) as [[f E]|[E|E]]; [|done|done].
  exists f. rewrite <- E. vm_compute. reflexivity.
Defined.
