(* ===== verification/Chunker.v ===== *)
(** * Cutting a file into chunks

    Models [src/core/chunk/chunker.h] and [.cpp]. *)

From S2P Require Import Prelude.
From S2P Require Import CxxStd.
From S2P Require Import FileSystem.

Record Chunk := mk_chunk { id : str; bytes : str }.

(** The loop: each round reads at most [n] bytes and stops when there are none.
    A round takes at least one byte, so the length of the content is enough fuel. *)
Fixpoint read_loop (fuel n : nat) (rest : str) (chunks : list Chunk) : list Chunk :=
  match fuel with
  | O => chunks
  | S fuel' =>
      let got := take n rest in
      if bool_decide (got = []) then chunks
      else read_loop fuel' n (drop n rest) (chunks ++ [mk_chunk [] got])
  end.

Definition chunkFile (env : Env) (filePath : str) (chunkSize : Z) (fs : FS)
    : result (list Chunk) :=
  if chunkSize =? 0 then Throw (InvalidArgument (lit "chunkSize must be > 0"))
  else match open_in env filePath fs with
       | None => Throw (RuntimeError (lit "Failed to open file for chunking: " ++ filePath))
       | Some (_, content) =>
           _ ← new_buffer env chunkSize;
           Ok (read_loop (S (length content)) (Z.to_nat chunkSize) content [])
       end.

(** The blocks of [n] bytes of a text, the last one shorter. *)
Definition blocks_of (n : nat) (content : str) (chunks : list Chunk) : Prop :=
  flat_map bytes chunks = content ∧
  Forall (λ c, id c = [] ∧ bytes c ≠ []) chunks ∧
  ∀ i c, chunks !! i = Some c →
    length (bytes c) = Nat.min n (length content - i * n).

Lemma read_loop_acc fuel n rest acc :
  read_loop fuel n rest acc = acc ++ read_loop fuel n rest [].
Proof.
  revert rest acc. induction fuel as [|fuel IH]; intros rest acc; cbn [read_loop].
  - by rewrite app_nil_r.
  - case_bool_decide; [by rewrite app_nil_r|]. rewrite IH, (IH _ ([] ++ _)).
    by rewrite <- app_assoc.
Qed.

Lemma read_loop_blocks fuel n content :
  (0 < n)%nat → (length content < fuel)%nat → blocks_of n content (read_loop fuel n content []).
Proof.
  intros Hn. revert content. induction fuel as [|fuel IH]; intros content Hf; [lia|].
  cbn [read_loop]. case_bool_decide as Hg.
  - assert (content = []) as ->.
    { destruct content as [|c content], n as [|n]; done || lia. }
    by split.
  - assert (content ≠ []) as Hc by (intros ->; by rewrite take_nil in Hg).
    assert (0 < length content)%nat by (destruct content; [done|cbn; lia]).
    rewrite read_loop_acc. cbn [app].
    destruct (IH (drop n content)) as (Hcat & Hne & Hlen); [rewrite length_drop; lia|].
    split; [|split].
    + cbn [flat_map bytes]. by rewrite Hcat, take_drop.
    + by constructor.
    + intros [|i] c; cbn [lookup list_lookup].
      * intros [= <-]. cbn [bytes]. rewrite length_take. lia.
      * intros Hi. rewrite (Hlen i c Hi), length_drop. lia.
Qed.

Lemma read_loop_count fuel n content :
  (0 < n)%nat → (length content < fuel)%nat →
  let k := length (read_loop fuel n content []) in
  (length content ≤ k * n < length content + n)%nat.
Proof.
  intros Hn. cbn zeta. revert content. induction fuel as [|fuel IH]; intros content Hf; [lia|].
  cbn [read_loop]. case_bool_decide as Hg.
  - destruct content as [|c content], n as [|n]; cbn in *; done || lia.
  - assert (0 < length content)%nat by (destruct content; [by rewrite take_nil in Hg|cbn; lia]).
    rewrite read_loop_acc, length_app. cbn [length app].
    specialize (IH (drop n content)). rewrite length_drop in IH.
    specialize (IH ltac:(lia)). revert IH. generalize (length (read_loop fuel n (drop n content) [])).
    intros k Hk. assert (k * n < n → k = 0)%nat by nia. destruct (decide (n ≤ length content)%nat); nia.
Qed.

Lemma chunkFile_ok env filePath chunkSize fs content :
  read_file filePath fs = Some content → 0 < chunkSize → new_buffer env chunkSize = Ok () →
  ∃ chunks, chunkFile env filePath chunkSize fs = Ok chunks ∧
            blocks_of (Z.to_nat chunkSize) content chunks.
Proof.
  intros Hf Hs Hm. unfold chunkFile, open_in. destruct (Z.eqb_spec chunkSize 0) as [|_]; [lia|].
  rewrite Hf, Hm. m_unfold. eexists. split; [done|]. apply read_loop_blocks; lia.
Qed.

(** No more blocks than bytes. *)
Lemma blocks_of_length n content chunks :
  blocks_of n content chunks → (length chunks ≤ length content)%nat.
Proof.
  intros (<- & Hne & _). induction Hne as [|c l [_ Hc] _ IH]; [done|].
  cbn [flat_map length]. rewrite length_app. destruct (bytes c); [done|cbn; lia].
Qed.

(** C36. A file is cut into its consecutive blocks: their concatenation is the
    file, every block but the last has the chunk size and none is empty, and
    there are as many as it takes (none for an empty file). *)
Theorem chunkFile_blocks env filePath chunkSize fs content
    (Hfile : read_file filePath fs = Some content) (Hsize : 0 < chunkSize)
    (Hmem : new_buffer env chunkSize = Ok ()) :
  ∃ chunks, chunkFile env filePath chunkSize fs = Ok chunks ∧
    flat_map bytes chunks = content ∧
    Forall (λ c, id c = [] ∧ bytes c ≠ []) chunks ∧
    (∀ i c, chunks !! i = Some c →
       zlen (bytes c) = Z.min chunkSize (zlen content - Z.of_nat i * chunkSize)) ∧
    zlen content ≤ zlen chunks * chunkSize < zlen content + chunkSize.
Proof.
  unfold chunkFile, open_in. destruct (Z.eqb_spec chunkSize 0) as [|_]; [lia|].
  rewrite Hfile, Hmem. m_unfold. eexists. split; [done|].
  destruct (Z_of_nat_complete chunkSize) as [n ->]; [lia|]. rewrite Nat2Z.id in *.
  destruct (read_loop_blocks (S (length content)) n content) as (Hcat & Hne & Hlen); [lia|lia|].
  pose proof (read_loop_count (S (length content)) n content ltac:(lia) ltac:(lia)) as Hcount.
  cbn zeta in Hcount.
  split; [done|]. split; [done|]. split; [|unfold zlen; nia].
  intros i c Hi. specialize (Hlen i c Hi).
  rewrite Forall_lookup in Hne. destruct (Hne i c Hi) as [_ Hb].
  assert (0 < length (bytes c))%nat by (destruct (bytes c); [done|cbn; lia]).
  unfold zlen. nia.
Qed.

Lemma chunkFile_blocks_witness :
  ∃ chunks, chunkFile good_env (lit "f") 4 (<[resolve (lit "f") := lit "ten bytes."]> ∅) =
            Ok chunks ∧ flat_map bytes chunks = lit "ten bytes." ∧ zlen chunks = 3.
Proof.
  destruct (chunkFile_blocks good_env (lit "f") 4 (<[resolve (lit "f") := lit "ten bytes."]> ∅)
    (lit "ten bytes.")) as (chunks & E & Hc & _ & _ & Hn); [by_eval|done|done|].
  exists chunks. split; [exact E|]. split; [exact Hc|].
  assert (zlen (lit "ten bytes.") = 10) as Hten by (vm_compute; reflexivity).
  rewrite Hten in Hn. lia.
Defined.
