(* ===== verification/Tcp.v ===== *)
(** * Sockets

    Models [src/core/net/tcp.h] and [.cpp].  A connection is what will be
    received, in the segments in which the network delivers it, how it ends, and
    what was sent so far; how much each [send] accepts is part of the connection
    too.  A [send] to a connection that the other side has given up raises SIGPIPE,
    which the program neither handles nor turns off.  Address resolution and [connect] are parameters ([Net]). *)

From S2P Require Import Prelude.
From S2P Require Import CxxStd.

(** What [recv] reports when nothing is left: 0, or -1 with a value of [errno]. *)
Inductive ending := PeerClosed | RecvFailed (errno : Z).

(** As on Linux. *)
Definition EAGAIN : Z := 11.
Definition EWOULDBLOCK : Z := 11.

Definition EPIPE : Z := 32.

Definition is_timeout_errno (errno : Z) : bool := (errno =? EAGAIN) || (errno =? EWOULDBLOCK).

Record Conn := mk_conn {
  segments : list str;
  conn_end : ending;
  sends : list Z;         (* the next [send] calls: how many bytes the kernel accepts,
                             or its error, negated; then all is accepted *)
  sent : str;
  closes : nat;           (* how often [::close] was called on the descriptor *)
  strerror : str;         (* the text of [errno] *)
  signalled : bool;          (* a [send] has raised SIGPIPE *)
}.

Definition set_segments (l : list str) (c : Conn) : Conn :=
  mk_conn l (conn_end c) (sends c) (sent c) (closes c) (strerror c) (signalled c).
Definition set_sent (l : list Z) (s : str) (c : Conn) : Conn :=
  mk_conn (segments c) (conn_end c) l s (closes c) (strerror c) (signalled c).

(** [::close(fd)]. *)
Definition close (c : Conn) : Conn :=
  mk_conn (segments c) (conn_end c) (sends c) (sent c) (S (closes c)) (strerror c) (signalled c).

(** SIGPIPE ends the process; what the model computes after it does not happen. *)
Definition sigpipe (c : Conn) : Conn :=
  mk_conn (segments c) (conn_end c) (sends c) (sent c) (closes c) (strerror c) true.

(** The bytes still to come, however they are segmented. *)
Definition stream (c : Conn) : str := concat (segments c).

Inductive received := Bytes (b : str) | Nothing (e : ending).

Fixpoint recv_segments (n : nat) (l : list str) : option (str * list str) :=
  match l with
  | [] => None
  | [] :: l' => recv_segments n l'
  | s :: l' =>
      if (length s <=? n)%nat then Some (s, l') else Some (take n s, drop n s :: l')
  end.

(** [::recv(fd, buf, n, 0)]. *)
Definition recv (n : Z) (c : Conn) : received * Conn :=
  match recv_segments (Z.to_nat n) (segments c) with
  | Some (b, l) => (Bytes b, set_segments l c)
  | None => (Nothing (conn_end c), set_segments [] c)
  end.

(** [::send(fd, buf, len, 0)]: the number of bytes accepted, or at most 0.  A broken
    connection stays broken. *)
Definition send (buf : str) (c : Conn) : Z * Conn :=
  match sends c with
  | [] => (zlen buf, set_sent [] (sent c ++ buf) c)
  | n :: l =>
      if n =? - EPIPE then (n, sigpipe c)
      else if n <=? 0 then (n, set_sent l (sent c) c)
      else let n := Z.min n (zlen buf) in
           (n, set_sent l (sent c ++ take (Z.to_nat n) buf) c)
  end.

(** The loop of [send_all_nothrow]; each round sends at least one byte. *)
Fixpoint send_loop (fuel : nat) (buf : str) (c : Conn) : bool * Conn :=
  match fuel with
  | O => (true, c)
  | S fuel' =>
      if 0 <? zlen buf then
        let (n, c) := send buf c in
        if n <=? 0 then (false, c) else send_loop fuel' (drop (Z.to_nat n) buf) c
      else (true, c)
  end.

Definition send_all_nothrow (buf : str) (c : Conn) : bool * Conn :=
  send_loop (length buf) buf c.

Definition sys_err (what : str) (c : Conn) : exn := RuntimeError (what ++ lit ": " ++ strerror c).

Definition send_all_or_throw (buf : str) : M Conn unit := λ c,
  let (ok, c) := send_all_nothrow buf c in
  if ok then (Ok (), c) else (Throw (sys_err (lit "send") c), c).

(** The loop of [recv_all_text]; each round receives at least one byte. *)
Fixpoint recv_all_loop (fuel : nat) (out : str) : M Conn str := λ c,
  match fuel with
  | O => (Ok out, c)
  | S fuel' =>
      match recv 4096 c with
      | (Nothing PeerClosed, c) => (Ok out, c)
      | (Nothing (RecvFailed errno), c) =>
          if is_timeout_errno errno then (Ok out, c) else (Throw (sys_err (lit "recv") c), c)
      | (Bytes b, c) => recv_all_loop fuel' (out ++ b) c
      end
  end.

Definition recv_all_text : M Conn str := λ c, recv_all_loop (S (length (stream c))) [] c.

(** The loop of [recv_line], one byte at a time. *)
Fixpoint recv_line_loop (fuel : nat) (out_line : str) (c : Conn) : bool * str * Conn :=
  match fuel with
  | O => (false, out_line, c)
  | S fuel' =>
      match recv 1 c with
      | (Bytes (ch :: _), c) =>
          if Ascii.eqb ch newline then (true, out_line, c)
          else
            let out_line := if Ascii.eqb ch carriage_return then out_line
                            else out_line ++ [ch] in
            if 8192 <? zlen out_line then (false, out_line, c)
            else recv_line_loop fuel' out_line c
      | (_, c) => (false, out_line, c)
      end
  end.

Definition recv_line (c : Conn) : bool * str * Conn :=
  recv_line_loop (S (length (stream c))) [] c.

(** The loops that receive a payload of a known size: [piece remaining] is the
    length that each [recv] asks for. *)
Fixpoint recv_payload_loop (fuel : nat) (piece : Z → Z) (remaining : Z) (data : str) (c : Conn)
    : str * Z * Conn :=
  match fuel with
  | O => (data, remaining, c)
  | S fuel' =>
      if 0 <? remaining then
        match recv (piece remaining) c with
        | (Bytes b, c) => recv_payload_loop fuel' piece (remaining - zlen b) (data ++ b) c
        | (Nothing _, c) => (data, remaining, c)
        end
      else (data, remaining, c)
  end.

Definition recv_payload (piece : Z → Z) (size : Z) (c : Conn) : str * Z * Conn :=
  recv_payload_loop (S (length (stream c))) piece size [] c.

(** ** Connecting *)

(** Name resolution and [connect]; ports are 16 bits wide. *)
Record Net := mk_net {
  socket_ok : bool;
  inet_pton : str → option Z;
  getaddrinfo : str → option Z;
  connect : Z → Z → option Conn;
  net_error : str;
}.

Definition fill_sockaddr_in_v4 (net : Net) (host : str) (port : Z) : option (Z * Z) :=
  match inet_pton net host with
  | Some addr => Some (addr, u16 port)
  | None =>
      match getaddrinfo net host with
      | None => None
      | Some addr => Some (addr, u16 port)
      end
  end.

Definition connect_tcp_fatal_or_throw (net : Net) (ip : str) (port : Z) : result Conn :=
  if negb (socket_ok net) then Throw (RuntimeError (lit "socket: " ++ net_error net))
  else match fill_sockaddr_in_v4 net ip port with
       | None => Throw (RuntimeError (lit "Could not resolve host: " ++ ip))
       | Some (addr, p) =>
           match connect net addr p with
           | None => Throw (RuntimeError (lit "connect: " ++ net_error net))
           | Some c => Ok c
           end
       end.

(** ** Timeouts *)

Record timeval := mk_timeval { tv_sec : Z; tv_usec : Z }.

Inductive timeout_option := SO_RCVTIMEO | SO_SNDTIMEO.

(** The two options of a socket. *)
Record Timeouts := mk_timeouts { recv_timeout : timeval; send_timeout : timeval }.

Definition set_timeout (o : timeout_option) (tv : timeval) (t : Timeouts) : Timeouts :=
  match o with
  | SO_RCVTIMEO => mk_timeouts tv (send_timeout t)
  | SO_SNDTIMEO => mk_timeouts (recv_timeout t) tv
  end.

(** A socket that was just made waits forever. *)
Definition no_timeouts : Timeouts := mk_timeouts (mk_timeval 0 0) (mk_timeval 0 0).

(** The division and the remainder of C++ truncate. *)
Definition timeval_of (ms : Z) : timeval := mk_timeval (Z.quot ms 1000) (Z.rem ms 1000 * 1000).

(** [setsockopt o tv] says whether the call succeeds. *)
Definition set_timeouts (setsockopt : timeout_option → timeval → bool) (recv_ms send_ms : Z)
    (t : Timeouts) : bool * Timeouts :=
  let tv := timeval_of recv_ms in
  if negb (setsockopt SO_RCVTIMEO tv) then (false, t)
  else
    let t := set_timeout SO_RCVTIMEO tv t in
    let tv := timeval_of send_ms in
    if negb (setsockopt SO_SNDTIMEO tv) then (false, t)
    else (true, set_timeout SO_SNDTIMEO tv t).

(** [None] is the return value -1; the result of [set_timeouts] is ignored. *)
Definition connect_tcp_try (net : Net) (setsockopt : timeout_option → timeval → bool) (ip : str)
    (port timeout_ms : Z) : option (Conn * Timeouts) :=
  if negb (socket_ok net) then None
  else
    let (_, t) := set_timeouts setsockopt timeout_ms timeout_ms no_timeouts in
    match fill_sockaddr_in_v4 net ip port with
    | None => None
    | Some (addr, p) => c ← connect net addr p; Some (c, t)
    end.

(** ** Receiving *)

Lemma recv_segments_spec n l :
  (0 < n)%nat →
  match recv_segments n l with
  | Some (b, l') => b ≠ [] ∧ (length b ≤ n)%nat ∧ concat l = b ++ concat l'
  | None => concat l = []
  end.
Proof.
  intros Hn. induction l as [|[|ch s] l IH]; cbn [recv_segments]; [done|exact IH|].
  destruct (Nat.leb_spec (length (ch :: s)) n) as [Hle|Hlt]; [done|].
  split; [by destruct n; [lia|]|]. split; [rewrite length_take; lia|].
  cbn [concat]. rewrite app_assoc, take_drop. done.
Qed.

Lemma recv_spec n c :
  0 < n →
  match recv n c with
  | (Bytes b, c') => b ≠ [] ∧ zlen b ≤ n ∧ stream c = b ++ stream c' ∧
      c' = set_segments (segments c') c
  | (Nothing e, c') => stream c = [] ∧ e = conn_end c ∧ c' = set_segments [] c
  end.
Proof.
  intros Hn. unfold recv, stream.
  pose proof (recv_segments_spec (Z.to_nat n) (segments c) ltac:(lia)) as Hr.
  destruct (recv_segments _ _) as [[b l]|]; [|done].
  destruct Hr as (Hb & Hl & Hc). split; [done|]. split; [unfold zlen; lia|]. by destruct c.
Qed.

Lemma set_segments_twice l k c : set_segments l (set_segments k c) = set_segments l c.
Proof. done. Qed.

(** The line at the head of a stream. *)
Fixpoint line_of (out : str) (s : str) : bool * str * str :=
  match s with
  | [] => (false, out, [])
  | ch :: s' =>
      if Ascii.eqb ch newline then (true, out, s')
      else
        let out := if Ascii.eqb ch carriage_return then out else out ++ [ch] in
        if 8192 <? zlen out then (false, out, s') else line_of out s'
  end.

Lemma recv_line_loop_stream fuel out c :
  (length (stream c) < fuel)%nat →
  ∃ c', recv_line_loop fuel out c = ((line_of out (stream c)).1, c') ∧
        stream c' = (line_of out (stream c)).2 ∧ c' = set_segments (segments c') c.
Proof.
  revert out c. induction fuel as [|fuel IH]; intros out c Hf; [lia|].
  cbn [recv_line_loop]. pose proof (recv_spec 1 c ltac:(lia)) as Hr.
  destruct (recv 1 c) as [[b|e] c'].
  - destruct Hr as (Hb & Hl & Hs & Hc). destruct b as [|ch [|??]]; [done| |unfold zlen in Hl; cbn in Hl; lia].
    cbn [app] in Hs. rewrite Hs in *. cbn [line_of length] in *.
    destruct (Ascii.eqb ch newline); [by exists c'|].
    set (out' := if Ascii.eqb ch carriage_return then out else out ++ [ch]).
    destruct (8192 <? zlen out'); [by exists c'|].
    destruct (IH out' c' ltac:(lia)) as (c2 & E & Es & Ec). exists c2.
    rewrite E, Es. split; [done|]. split; [done|]. by rewrite Ec, Hc.
  - destruct Hr as (Hs & -> & ->). rewrite Hs. by eexists.
Qed.

Lemma recv_line_stream c :
  ∃ c', recv_line c = ((line_of [] (stream c)).1, c') ∧
        stream c' = (line_of [] (stream c)).2 ∧ c' = set_segments (segments c') c.
Proof. apply recv_line_loop_stream. lia. Qed.

(** The length of the line is bounded, the bytes that are read for it are not:
    carriage returns are dropped before the length is looked at, so after any number
    of them the loop is where it was, and it goes on as long as the other side sends
    them. *)
Lemma recv_line_swallows n fuel out c s :
  stream c = replicate n carriage_return ++ s → zlen out ≤ 8192 →
  ∃ c', recv_line_loop (n + fuel) out c = recv_line_loop fuel out c' ∧ stream c' = s ∧
        c' = set_segments (segments c') c.
Proof.
  intros Hs Hout. revert c Hs. induction n as [|n IH]; intros c Hs.
  { exists c. split; [done|]. split; [done|]. by destruct c. }
  cbn [Nat.add recv_line_loop]. pose proof (recv_spec 1 c ltac:(lia)) as Hr. rewrite Hs in Hr.
  destruct (recv 1 c) as [[b|e] c']; [|by destruct Hr].
  destruct Hr as (Hb & Hl & Es & Hc).
  destruct b as [|ch [|??]]; [done| |unfold zlen in Hl; cbn in Hl; lia].
  cbn [replicate app] in Es. injection Es as <- Es.
  assert (Ascii.eqb carriage_return newline = false) as -> by reflexivity.
  rewrite Ascii.eqb_refl. destruct (Z.ltb_spec 8192 (zlen out)); [lia|].
  destruct (IH c' (eq_sym Es)) as (c2 & E & E2 & Ec). exists c2. split; [done|]. split; [done|].
  by rewrite Ec, Hc.
Qed.

Definition no_newline (l : str) : Prop := Forall (λ ch, Ascii.eqb ch newline = false) l.

Definition drop_cr (l : str) : str := filter (λ ch, ch ≠ carriage_return) l.

Lemma line_of_line out l s :
  no_newline l → zlen out + zlen (drop_cr l) ≤ 8192 →
  line_of out (l ++ newline :: s) = (true, out ++ drop_cr l, s).
Proof.
  intros Hl. revert out. induction Hl as [|ch l Hc Hl IH]; intros out Hz; cbn [app line_of].
  - by rewrite Ascii.eqb_refl, app_nil_r.
  - rewrite Hc. unfold drop_cr in *. rewrite filter_cons in *.
    destruct (Ascii.eqb_spec ch carriage_return) as [->|Hne].
    + rewrite decide_False in * by (by intros []). destruct (Z.ltb_spec 8192 (zlen out)) as [Hlt|].
      { pose proof (zlen_nonneg (filter (λ ch, ch ≠ carriage_return) l)). lia. }
      by apply IH.
    + rewrite decide_True in * by done. rewrite zlen_cons in Hz.
      pose proof (zlen_nonneg (filter (λ ch, ch ≠ carriage_return) l)).
      assert (zlen (out ++ [ch]) = zlen out + 1) as E by (rewrite zlen_app; done).
      destruct (Z.ltb_spec 8192 (zlen (out ++ [ch]))); [lia|].
      rewrite IH by lia. by rewrite <- app_assoc.
Qed.

(** Text of one line that [recv_line] leaves as it is. *)
Definition plain (l : str) : Prop :=
  Forall (λ ch, Ascii.eqb ch newline = false ∧ ch ≠ carriage_return) l.

#[export] Instance plain_dec l : Decision (plain l).
Proof. unfold plain. apply _. Defined.

Lemma plain_no_newline l : plain l → no_newline l.
Proof. intros Hl. eapply Forall_impl; [exact Hl|]. by intros ? []. Qed.

Lemma plain_drop_cr l : plain l → drop_cr l = l.
Proof.
  unfold drop_cr. induction 1 as [|ch l [_ Hc] _ IH]; [done|].
  rewrite filter_cons, IH. by rewrite decide_True.
Qed.

Lemma plain_app l k : plain l → plain k → plain (l ++ k).
Proof. intros. by apply Forall_app. Qed.

Lemma plain_word w : is_word w → plain w.
Proof.
  intros [_ Hw]. eapply Forall_impl; [exact Hw|]. intros ch Hc. cbn in Hc. split.
  - destruct (Ascii.eqb_spec ch newline) as [->|]; [done|done].
  - by intros ->.
Qed.

Lemma plain_to_string z : 0 ≤ z → plain (to_string z).
Proof. intros. by apply plain_word, to_string_word. Qed.

#[export] Hint Resolve plain_no_newline plain_app plain_word plain_to_string zlen_nonneg : dss.

Lemma recv_line_plain c l s :
  stream c = l ++ newline :: s → plain l → zlen l ≤ 8192 →
  ∃ c', recv_line c = (true, l, c') ∧ stream c' = s ∧ c' = set_segments (segments c') c.
Proof.
  intros Hs Hl Hz. destruct (recv_line_stream c) as (c' & E & Es & Ec).
  rewrite Hs, line_of_line in E, Es by (rewrite ?plain_drop_cr; auto with dss).
  rewrite plain_drop_cr in E by done. by exists c'.
Qed.

(** A line is received whatever the segments. *)
Lemma recv_line_ok c l s :
  stream c = l ++ newline :: s → no_newline l → zlen (drop_cr l) ≤ 8192 →
  ∃ c', recv_line c = (true, drop_cr l, c') ∧ stream c' = s ∧ c' = set_segments (segments c') c.
Proof.
  intros Hs Hl Hz. destruct (recv_line_stream c) as (c' & E & Es & Ec).
  rewrite Hs, line_of_line in E, Es by done. by exists c'.
Qed.

Lemma recv_payload_loop_spec fuel piece size data c :
  (∀ r, 0 < r → 0 < piece r ≤ r) → (length (stream c) < fuel)%nat → 0 ≤ size →
  ∃ c', recv_payload_loop fuel piece size data c =
        (data ++ take (Z.to_nat size) (stream c), Z.max 0 (size - zlen (stream c)), c') ∧
        stream c' = drop (Z.to_nat size) (stream c) ∧ c' = set_segments (segments c') c.
Proof.
  intros Hp. revert size data c. induction fuel as [|fuel IH]; intros size data c Hf Hz; [lia|].
  cbn [recv_payload_loop]. destruct (Z.ltb_spec 0 size) as [Hpos|].
  2: { assert (size = 0) as -> by lia. pose proof (zlen_nonneg (stream c)).
       exists c. rewrite take_0, app_nil_r. split; [f_equal; f_equal; lia|]. by destruct c. }
  pose proof (recv_spec (piece size) c (proj1 (Hp size Hpos))) as Hr.
  destruct (recv (piece size) c) as [[b|e] c'].
  - destruct Hr as (Hb & Hl & Hs & Hc). pose proof (Hp size Hpos).
    assert (0 < zlen b) by (destruct b; [done|]; rewrite zlen_cons; pose proof (zlen_nonneg b); lia).
    rewrite Hs in Hf. rewrite length_app in Hf. unfold zlen in *.
    destruct (IH (size - Z.of_nat (length b)) (data ++ b) c') as (c2 & E & Es & Ec); [lia|lia|].
    exists c2. rewrite E, Es, Hs, <- app_assoc, length_app.
    rewrite take_app_ge, drop_app_ge by lia.
    replace (Z.to_nat (size - Z.of_nat (length b))) with (Z.to_nat size - length b)%nat by lia.
    split; [f_equal; f_equal; lia|]. split; [done|]. by rewrite Ec, Hc.
  - destruct Hr as (Hs & _ & ->). rewrite Hs. eexists.
    rewrite take_nil, app_nil_r, drop_nil. change (zlen []) with 0.
    split; [f_equal; f_equal; lia|done].
Qed.

Lemma recv_payload_spec piece size c :
  (∀ r, 0 < r → 0 < piece r ≤ r) → 0 ≤ size →
  ∃ c', recv_payload piece size c =
        (take (Z.to_nat size) (stream c), Z.max 0 (size - zlen (stream c)), c') ∧
        stream c' = drop (Z.to_nat size) (stream c) ∧ c' = set_segments (segments c') c.
Proof. intros. apply (recv_payload_loop_spec _ _ _ []); [done|lia|done]. Qed.

(** Whatever was asked for, receiving only takes segments away. *)
Lemma recv_frame n c : ∃ l, (recv n c).2 = set_segments l c.
Proof.
  unfold recv. destruct (recv_segments _ _) as [[b l]|]; cbn [snd]; by eexists.
Qed.

Lemma recv_payload_frame piece size c : ∃ l, (recv_payload piece size c).2 = set_segments l c.
Proof.
  unfold recv_payload. generalize (S (length (stream c))) as fuel, (@nil ascii) as data.
  intros fuel. revert size c. induction fuel as [|fuel IH]; intros size c data;
    cbn [recv_payload_loop]; [exists (segments c); by destruct c|].
  destruct (0 <? size); [|exists (segments c); by destruct c].
  destruct (recv_frame (piece size) c) as [l E].
  destruct (recv (piece size) c) as [[b|e] c']; cbn [snd] in E; subst c'; [|by exists l].
  destruct (IH (size - zlen b) (set_segments l c) (data ++ b)) as [l' ->]. by exists l'.
Qed.

(** The endings after which [recv_all_text] throws. *)
Definition breaks (e : ending) : bool :=
  match e with PeerClosed => false | RecvFailed errno => negb (is_timeout_errno errno) end.

Lemma recv_all_loop_spec fuel out c :
  (length (stream c) < fuel)%nat →
  recv_all_loop fuel out c =
  (if breaks (conn_end c) then Throw (sys_err (lit "recv") c) else Ok (out ++ stream c),
   set_segments [] c).
Proof.
  revert out c. induction fuel as [|fuel IH]; intros out c Hf; [lia|].
  cbn [recv_all_loop]. pose proof (recv_spec 4096 c ltac:(lia)) as Hr.
  destruct (recv 4096 c) as [[b|e] c'].
  - destruct Hr as (Hb & Hl & Hs & Hc). rewrite Hs in *. rewrite length_app in Hf.
    rewrite IH by (destruct b; [done|]; cbn in *; lia). rewrite <- app_assoc.
    by rewrite Hc.
  - destruct Hr as (Hs & -> & ->). rewrite Hs, app_nil_r.
    destruct (conn_end c) as [|errno]; [done|]. cbn [breaks]. by destruct (is_timeout_errno errno).
Qed.

Lemma recv_all_text_spec c :
  recv_all_text c =
  (if breaks (conn_end c) then Throw (sys_err (lit "recv") c) else Ok (stream c), set_segments [] c).
Proof. unfold recv_all_text. rewrite recv_all_loop_spec by lia. done. Qed.

(** ** Sending *)

(** What sending does to a connection besides the bytes: later sends that are left,
    and a signal if one of them is EPIPE. *)
Definition sending (c : Conn) (text : str) (c' : Conn) : Prop :=
  sent c' = sent c ++ text ∧ segments c' = segments c ∧ conn_end c' = conn_end c ∧
  closes c' = closes c ∧ sends c' ⊆ sends c ∧
  ((- EPIPE)%Z ∉ sends c → signalled c' = signalled c).

Lemma sending_refl c : sending c [] c.
Proof. unfold sending. rewrite app_nil_r. by repeat split. Qed.

Lemma sending_trans c t c1 t' c2 : sending c t c1 → sending c1 t' c2 → sending c (t ++ t') c2.
Proof.
  intros (E1 & S1 & F1 & C1 & L1 & K1) (E2 & S2 & F2 & C2 & L2 & K2).
  split; [by rewrite E2, E1, <- app_assoc|]. do 3 (split; [congruence|]).
  split; [by etrans|]. intros Hp. rewrite K2; [by apply K1|]. intros Hin. by apply Hp, L1.
Qed.

(** One [send] of a buffer that is not empty. *)
Lemma send_spec buf c :
  buf ≠ [] →
  ∃ k, sending c (take k buf) (send buf c).2 ∧
    ((send buf c).1 ≤ 0 ∧ k = 0%nat ∨
     (send buf c).1 = Z.of_nat k ∧ (0 < k ≤ length buf)%nat) ∧
    (sends c = [] → send buf c = (zlen buf, set_sent [] (sent c ++ buf) c)).
Proof.
  intros Hb. assert (0 < length buf)%nat by (destruct buf; [done|cbn; lia]).
  unfold send. destruct (sends c) as [|n l] eqn:Hs.
  - exists (length buf). rewrite firstn_all. unfold sending. rewrite Hs.
    split; [by repeat split|]. split; [|done]. right. split; [done|lia].
  - destruct (Z.eqb_spec n (- EPIPE)) as [->|Hne].
    { exists O. unfold sending. cbn [take fst snd sent segments conn_end closes sends signalled sigpipe].
      rewrite app_nil_r, Hs. repeat split; try done; [|by left].
      intros Hn. by destruct Hn; left. }
    destruct (Z.leb_spec n 0) as [Hle|Hgt].
    + exists O. unfold sending. cbn [take fst snd sent segments conn_end closes sends signalled set_sent].
      rewrite app_nil_r, Hs. repeat split; try done; [|by left]. by apply list_subseteq_cons.
    + exists (Z.to_nat (Z.min n (zlen buf))). unfold zlen, sending. rewrite Hs.
      cbn [fst snd sent segments conn_end closes sends signalled set_sent].
      split; [repeat split; try done; by apply list_subseteq_cons|]. split; [|done].
      right. split; lia.
Qed.

Lemma send_loop_spec fuel buf c :
  (length buf ≤ fuel)%nat →
  ∃ k c', send_loop fuel buf c = (bool_decide (length buf ≤ k)%nat, c') ∧
    sending c (take k buf) c' ∧
    (sends c = [] → c' = set_sent [] (sent c ++ buf) c ∧ (length buf ≤ k)%nat).
Proof.
  revert buf c. induction fuel as [|fuel IH]; intros buf c Hf.
  { destruct buf; [|cbn in Hf; lia]. exists O, c. cbn. split; [done|].
    split; [apply sending_refl|]. intros Hs. rewrite app_nil_r, <- Hs. by destruct c. }
  cbn [send_loop]. destruct (Z.ltb_spec 0 (zlen buf)) as [Hpos|].
  2: { assert (buf = []) as -> by (apply zlen_nil; pose proof (zlen_nonneg buf); lia).
       exists O, c. cbn. split; [done|]. split; [apply sending_refl|].
       intros Hs. rewrite app_nil_r, <- Hs. by destruct c. }
  destruct (send_spec buf c) as (k & Hk & Hn & Hclean); [by intros ->|].
  destruct (send buf c) as [n c1]. cbn [fst snd] in *.
  assert (0 < length buf)%nat by (unfold zlen in Hpos; lia).
  destruct (Z.leb_spec n 0) as [Hle|Hgt].
  - destruct Hn as [[_ ->]|[-> Hn]]; [|lia]. exists O, c1. split; [|split; [done|]].
    + f_equal. symmetry. apply bool_decide_eq_false_2. lia.
    + intros Hs. specialize (Hclean Hs). injection Hclean as -> _. lia.
  - destruct Hn as [[? _]|[-> Hn]]; [lia|]. rewrite Nat2Z.id.
    destruct (IH (drop k buf) c1) as (k' & c2 & -> & H2 & Hc2); [rewrite length_drop; lia|].
    exists (k + k')%nat, c2. rewrite length_drop.
    split; [f_equal; apply bool_decide_ext; lia|]. split.
    + rewrite <- take_take_drop. by eapply sending_trans.
    + intros Hs. specialize (Hclean Hs). injection Hclean as Hkz ->.
      destruct Hc2 as [-> Hle]; [done|].
      rewrite length_drop in Hle. unfold zlen in Hkz. split; [|lia].
      rewrite drop_ge by lia. by rewrite app_nil_r.
Qed.

(** All or a proper prefix of the buffer is sent, and the result says which. *)
Lemma send_all_spec buf c :
  ∃ k c', send_all_nothrow buf c = (bool_decide (length buf ≤ k)%nat, c') ∧
    sending c (take k buf) c' ∧
    (sends c = [] → c' = set_sent [] (sent c ++ buf) c ∧ (length buf ≤ k)%nat).
Proof. by apply send_loop_spec. Qed.

(** A connection that raises no signal. *)
Definition quiet (c : Conn) : Prop := (- EPIPE ∉ sends c) ∧ signalled c = false.

#[export] Instance quiet_dec c : Decision (quiet c).
Proof. unfold quiet. apply _. Defined.

Lemma quiet_send buf c : quiet c → quiet (send_all_nothrow buf c).2.
Proof.
  intros [Hp Hk]. destruct (send_all_spec buf c) as (k & c' & -> & (_ & _ & _ & _ & Hl & Hk') & _).
  split; [intros Hin; by apply Hp, Hl|]. cbn [snd]. by rewrite Hk'.
Qed.

(** On a connection whose sends never fail short. *)
Lemma send_all_clean buf c :
  sends c = [] → send_all_nothrow buf c = (true, set_sent [] (sent c ++ buf) c).
Proof.
  intros Hs. destruct (send_all_spec buf c) as (k & c' & -> & _ & Hk). destruct (Hk Hs) as [-> Hle].
  by rewrite bool_decide_eq_true_2.
Qed.

(** A send that takes the whole buffer. *)
Lemma send_all_whole n l buf c :
  buf ≠ [] → zlen buf ≤ n → sends c = n :: l →
  send_all_nothrow buf c = (true, set_sent l (sent c ++ buf) c).
Proof.
  intros Hb Hn Hs. unfold send_all_nothrow. destruct buf as [|ch buf]; [done|].
  pose proof (zlen_nonneg buf). cbn [send_loop length]. unfold send. rewrite Hs.
  rewrite zlen_cons in *. destruct (Z.ltb_spec 0 (1 + zlen buf)); [|lia].
  destruct (Z.eqb_spec n (- EPIPE)) as [->|_]; [unfold EPIPE in *; lia|].
  destruct (Z.leb_spec n 0); [lia|]. rewrite Z.min_r by lia.
  destruct (Z.leb_spec (1 + zlen buf) 0); [lia|].
  assert (Z.to_nat (1 + zlen buf) = length (ch :: buf)) as -> by (unfold zlen; cbn; lia).
  rewrite firstn_all, drop_all. by destruct (length buf).
Qed.

(** ** Theorems *)

Lemma line_of_too_long out l s :
  no_newline l → zlen out ≤ 8192 < zlen out + zlen (drop_cr l) →
  (line_of out (l ++ s)).1.1 = false.
Proof.
  intros Hl. revert out. induction Hl as [|ch l Hc Hl IH]; intros out Hz.
  { unfold zlen in Hz. cbn in Hz. lia. }
  cbn [app line_of]. rewrite Hc. unfold drop_cr in *. rewrite filter_cons in Hz.
  destruct (Ascii.eqb_spec ch carriage_return) as [->|Hne].
  - rewrite decide_False in Hz by (by intros []).
    destruct (Z.ltb_spec 8192 (zlen out)); [done|]. by apply IH.
  - rewrite decide_True in Hz by done. rewrite zlen_cons in Hz.
    assert (zlen (out ++ [ch]) = zlen out + 1) as E by (rewrite zlen_app; done).
    destruct (Z.ltb_spec 8192 (zlen (out ++ [ch]))); [done|]. apply IH. lia.
Qed.

Lemma line_of_unfinished out l : no_newline l → (line_of out l).1.1 = false.
Proof.
  intros Hl. revert out. induction Hl as [|ch l Hc Hl IH]; intros out; [done|].
  cbn [line_of]. rewrite Hc. destruct (8192 <? _); [done|]. apply IH.
Qed.

(** C34. [recv_line] returns the next line of the stream without its carriage
    returns and leaves the rest, however the bytes arrive in segments; it fails
    on a line of more than 8192 bytes and on one that is not finished. *)
Theorem recv_line_reads_line c l (Hl : no_newline l) :
  (∀ s, stream c = l ++ newline :: s → zlen (drop_cr l) ≤ 8192 →
     ∃ c', recv_line c = (true, drop_cr l, c') ∧ stream c' = s ∧ sent c' = sent c) ∧
  (∀ s, stream c = l ++ s → 8192 < zlen (drop_cr l) → (recv_line c).1.1 = false) ∧
  (stream c = l → (recv_line c).1.1 = false).
Proof.
  split; [|split].
  - intros s Hs Hz. destruct (recv_line_ok c l s Hs Hl Hz) as (c' & E & Es & Ec).
    exists c'. split; [done|]. split; [done|]. by rewrite Ec.
  - intros s Hs Hz. destruct (recv_line_stream c) as (c' & -> & _). rewrite Hs. cbn [fst].
    by apply line_of_too_long.
  - intros Hs. destruct (recv_line_stream c) as (c' & -> & _). rewrite Hs. cbn [fst].
    by apply line_of_unfinished.
Qed.

(** C35. Whatever the sizes of the partial sends and receives, a buffer is sent
    whole or the call fails after a proper prefix, and the receiving loops deliver
    exactly the bytes that were asked for, or all there are up to the end or a
    timeout; another error makes the text throw. *)
Theorem transfers_are_exact buf c (piece : Z → Z) size d
    (Hp : ∀ r, 0 < r → 0 < piece r ≤ r) (Hz : 0 ≤ size) :
  (∃ c', send_all_nothrow buf c = (true, c') ∧ sent c' = sent c ++ buf ∨
     ∃ k, send_all_nothrow buf c = (false, c') ∧ (k < length buf)%nat ∧
          sent c' = sent c ++ take k buf) ∧
  (∃ d', recv_payload piece size d =
     (take (Z.to_nat size) (stream d), Z.max 0 (size - zlen (stream d)), d') ∧
     stream d' = drop (Z.to_nat size) (stream d)) ∧
  (recv_all_text d).1 =
    (if breaks (conn_end d) then Throw (sys_err (lit "recv") d) else Ok (stream d)).
Proof.
  split; [|split].
  - destruct (send_all_spec buf c) as (k & c' & -> & [Es _] & _). exists c'. case_bool_decide as Hk.
    + left. split; [done|]. by rewrite Es, take_ge.
    + right. exists k. split; [done|]. split; [lia|done].
  - destruct (recv_payload_spec piece size d Hp Hz) as (d' & E & Es & _). by exists d'.
  - by rewrite recv_all_text_spec.
Qed.

(** A number of milliseconds from 0 on is passed to the kernel exactly, as a valid
    [timeval]; a negative one never is. *)
Lemma timeval_of_spec ms :
  let tv := timeval_of ms in
  tv_sec tv * 1000000 + tv_usec tv = ms * 1000 ∧
  (0 ≤ ms → 0 ≤ tv_sec tv ∧ 0 ≤ tv_usec tv < 1000000) ∧
  (ms < 0 → tv_sec tv < 0 ∨ tv_usec tv < 0).
Proof.
  cbn [timeval_of tv_sec tv_usec]. pose proof (Z.quot_rem' ms 1000) as E.
  split; [lia|]. split; intros H0; Z.to_euclidean_division_equations; lia.
Qed.

(** The two ways to connect succeed together, on the same connection; where the
    kernel takes valid times, the socket of [connect_tcp_try] has the timeouts that
    were asked for. *)
Theorem connect_variants_agree net setsockopt ip port ms
    (Hms : 0 ≤ ms)
    (Hkernel : ∀ o tv, 0 ≤ tv_sec tv → 0 ≤ tv_usec tv < 1000000 → setsockopt o tv = true) :
  match connect_tcp_fatal_or_throw net ip port with
  | Ok c => connect_tcp_try net setsockopt ip port ms =
            Some (c, mk_timeouts (timeval_of ms) (timeval_of ms))
  | Throw _ => connect_tcp_try net setsockopt ip port ms = None
  end.
Proof.
  destruct (timeval_of_spec ms) as (_ & Hv & _). destruct (Hv Hms) as [Hs Hu].
  unfold connect_tcp_fatal_or_throw, connect_tcp_try, set_timeouts.
  rewrite !Hkernel by done. destruct (socket_ok net); [|done]. cbn [negb].
  destruct (fill_sockaddr_in_v4 net ip port) as [[addr p]|]; [|done].
  by destruct (connect net addr p).
Qed.

(** Two segmentations of one reply. *)
Definition demo_conn : Conn :=
  mk_conn [lit "OK"; []; lit " 3" ++ [carriage_return]; newline :: lit "ab"; lit "cd"]
    PeerClosed [2; 1] [] 0 (lit "Success") false.

Lemma recv_line_reads_line_witness :
  ∃ c', recv_line demo_conn = (true, lit "OK 3", c') ∧ stream c' = lit "abcd".
Proof.
  destruct (proj1 (recv_line_reads_line demo_conn (lit "OK 3" ++ [carriage_return])
    ltac:(by_eval)) (lit "abcd") eq_refl ltac:(by_eval)) as (c' & E & Es & _).
  exists c'. exact (conj E Es).
Defined.

Lemma transfers_are_exact_witness :
  ∃ d', recv_payload (λ r, Z.min r 2) 11 demo_conn =
        (lit "OK 3" ++ [carriage_return; newline] ++ lit "abcd", 1, d').
Proof.
  destruct (transfers_are_exact (lit "hello") demo_conn (λ r, Z.min r 2) 11 demo_conn
    ltac:(intros; lia) ltac:(lia)) as (_ & (d' & E & _) & _).
  exists d'. exact E.
Defined.

Lemma connect_variants_agree_witness :
  let net := mk_net true (λ _, Some 2130706433) (λ _, None) (λ _ _, Some demo_conn) [] in
  connect_tcp_try net (λ _ tv, bool_decide (0 ≤ tv_usec tv < 1000000)) (lit "127.0.0.1") 80 8000 =
  Some (demo_conn, mk_timeouts (mk_timeval 8 0) (mk_timeval 8 0)).
Proof.
  exact (connect_variants_agree
    (mk_net true (λ _, Some 2130706433) (λ _, None) (λ _ _, Some demo_conn) [])
    (λ _ tv, bool_decide (0 ≤ tv_usec tv < 1000000)) (lit "127.0.0.1") 80 8000 ltac:(lia)
    (λ _ tv _ Hu, bool_decide_eq_true_2 _ Hu)).
Defined.
