(* ===== verification/PeerService.v ===== *)
(** * The peer's request handler

    Models the accept loop of [src/core/peer/peer_service.cpp]: one connection is
    served at a time, its first line names a command, and every command reads or
    changes the storage manager or a manifest file.  An exception that a handler
    does not catch ends the loop; the signal that a reply to a vanished client raises
    ends the process. *)

From S2P Require Import Prelude.
From S2P Require Import CxxStd.
From S2P Require Import FileSystem.
From S2P Require Import Storage.
From S2P Require Import Tcp.

Section service.
Context `{IterOrder}.

(** [send_all_nothrow], its result ignored. *)
Definition reply (text : str) (c : Conn) : Conn := (send_all_nothrow text c).2.

Definition OK_line : str := lit "OK" ++ [newline].
Definition ERR_line : str := lit "ERR" ++ [newline].
Definition ok_size (n : Z) : str := lit "OK " ++ to_string n ++ [newline].

(** The payload loop receives at most 4096 bytes at a time. *)
Definition piece4096 (remaining : Z) : Z := Z.min remaining 4096.

Definition manifestPath (s : StorageManager) (manifestId : str) : str :=
  join (manifestsDir_ s) manifestId.

(** The [try] block that stores a chunk. *)
Definition store_and_reply (env : Env) (hash data : str) (c : Conn) : M StorageManager Conn := λ s,
  match storeChunk env hash data s with
  | (Ok _, s) => (Ok (reply OK_line c), s)
  | (Throw _, s) => (Ok (reply ERR_line c), s)
  end.

Definition put_chunk (env : Env) (iss : istream) (c : Conn) : M StorageManager Conn :=
  let (hash, iss) := get_word [] iss in
  let (size, iss) := get_u64 0 iss in
  liftR (new_buffer env size) ;;
  let '(data, remaining, c) := recv_payload piece4096 size c in
  if remaining =? 0 then store_and_reply env hash data c
  else mret (reply ERR_line c).

Definition get_chunk (env : Env) (iss : istream) (c : Conn) : M StorageManager Conn :=
  let (hash, iss) := get_word [] iss in λ s,
  match loadChunk env hash s with
  | (Ok data, s) =>
      let c := reply (ok_size (zlen data)) c in
      (Ok (if bool_decide (data = []) then c else reply data c), s)
  | (Throw _, s) => (Ok (reply ERR_line c), s)
  end.

Definition has_chunk (iss : istream) (c : Conn) : M StorageManager Conn :=
  let (hash, iss) := get_word [] iss in
  s ← getM;
  mret (reply (if hasChunk s hash then OK_line else ERR_line) c).

Definition put_manifest (env : Env) (iss : istream) (c : Conn) : M StorageManager Conn :=
  let (manifestId, iss) := get_word [] iss in
  let (size, iss) := get_u64 0 iss in
  liftR (new_buffer env size) ;;
  let '(data, remaining, c) := recv_payload piece4096 size c in
  if remaining =? 0 then
    s ← getM;
    match write_file env (manifestPath s manifestId) data (disk s) with
    | Some fs => putM (set_disk fs s) ;; mret (reply OK_line c)
    | None => mret (reply ERR_line c)
    end
  else mret (reply ERR_line c).

Definition get_manifest (env : Env) (iss : istream) (c : Conn) : M StorageManager Conn :=
  let (manifestId, iss) := get_word [] iss in
  s ← getM;
  match open_in env (manifestPath s manifestId) (disk s) with
  | None => mret (reply ERR_line c)
  | Some (msize, bytes) =>
      liftR (new_buffer env msize) ;;
      let c := reply (ok_size msize) c in
      mret (if 0 <? msize then reply (fill msize bytes) c else c)
  end.

Definition has_manifest (env : Env) (iss : istream) (c : Conn) : M StorageManager Conn :=
  let (manifestId, iss) := get_word [] iss in
  s ← getM;
  mret (reply (match open_in env (manifestPath s manifestId) (disk s) with
               | Some _ => OK_line | None => ERR_line end) c).

Definition dispatch (env : Env) (line : str) (c : Conn) : M StorageManager Conn :=
  let (cmd, iss) := get_word [] (istringstream line) in
  if bool_decide (cmd = lit "PUT_CHUNK") then put_chunk env iss c
  else if bool_decide (cmd = lit "GET_CHUNK") then get_chunk env iss c
  else if bool_decide (cmd = lit "HAS_CHUNK") then has_chunk iss c
  else if bool_decide (cmd = lit "PUT_MANIFEST") then put_manifest env iss c
  else if bool_decide (cmd = lit "GET_MANIFEST") then get_manifest env iss c
  else if bool_decide (cmd = lit "HAS_MANIFEST") then has_manifest env iss c
  else mret c.

(** One round of the loop after [accept]. *)
Definition serve (env : Env) (c : Conn) : M StorageManager Conn :=
  let '(ok, line, c) := recv_line c in
  if negb ok then mret (close c)
  else c ← dispatch env line c; mret (close c).

(** How the loop went: it still runs, an exception left it, or a signal ended the
    process ([PeerCrash] says what a process that is killed leaves behind). *)
Inductive loop_end :=
  | Running (s : StorageManager)
  | Left (e : exn) (s : StorageManager)
  | Signalled.

(** The connections that are accepted while the service runs, each with the
    environment of its round: the connections as they are left, and how it went. *)
Fixpoint run_loop (rounds : list (Env * Conn)) (s : StorageManager) : list Conn * loop_end :=
  match rounds with
  | [] => ([], Running s)
  | (env, c) :: rounds' =>
      match serve env c s with
      | (Ok c', s') =>
          if signalled c' then ([c'], Signalled)
          else let (done, r) := run_loop rounds' s' in (c' :: done, r)
      | (Throw e, s') => ([], Left e s')
      end
  end.

(** ** The protocol *)

Inductive request :=
  | PutChunk (hash data : str)
  | GetChunk (hash : str)
  | HasChunk (hash : str)
  | PutManifest (manifestId text : str)
  | GetManifest (manifestId : str)
  | HasManifest (manifestId : str).

Definition header (r : request) : str :=
  match r with
  | PutChunk h d => lit "PUT_CHUNK " ++ h ++ lit " " ++ to_string (zlen d)
  | GetChunk h => lit "GET_CHUNK " ++ h
  | HasChunk h => lit "HAS_CHUNK " ++ h
  | PutManifest m t => lit "PUT_MANIFEST " ++ m ++ lit " " ++ to_string (zlen t)
  | GetManifest m => lit "GET_MANIFEST " ++ m
  | HasManifest m => lit "HAS_MANIFEST " ++ m
  end.

Definition payload (r : request) : str :=
  match r with PutChunk _ d | PutManifest _ d => d | _ => [] end.

Definition request_name (r : request) : str :=
  match r with
  | PutChunk n _ | GetChunk n | HasChunk n | PutManifest n _ | GetManifest n | HasManifest n => n
  end.

(** What a request does to the peer's state, and the text of the answer. *)
Definition answer (env : Env) (r : request) (s : StorageManager) : str * StorageManager :=
  match r with
  | PutChunk h d =>
      match storeChunk env h d s with
      | (Ok _, s) => (OK_line, s)
      | (Throw _, s) => (ERR_line, s)
      end
  | GetChunk h =>
      match loadChunk env h s with
      | (Ok d, s) => (ok_size (zlen d) ++ d, s)
      | (Throw _, s) => (ERR_line, s)
      end
  | HasChunk h => (if hasChunk s h then OK_line else ERR_line, s)
  | PutManifest m t =>
      match write_file env (manifestPath s m) t (disk s) with
      | Some fs => (OK_line, set_disk fs s)
      | None => (ERR_line, s)
      end
  | GetManifest m =>
      (match read_file (manifestPath s m) (disk s) with
       | Some t => ok_size (zlen t) ++ t
       | None => ERR_line
       end, s)
  | HasManifest m =>
      (match read_file (manifestPath s m) (disk s) with
       | Some _ => OK_line | None => ERR_line end, s)
  end.

(** A request that fits the line and the memory of the peer, on names that are
    no directories. *)
Definition request_ok (env : Env) (s : StorageManager) (r : request) : Prop :=
  is_word (request_name r) ∧ zlen (header r) ≤ 8192 ∧
  new_buffer env (zlen (payload r)) = Ok () ∧
  match r with
  | GetManifest m | HasManifest m =>
      open_dir env (manifestPath s m) = None ∧
      ∀ t, read_file (manifestPath s m) (disk s) = Some t → new_buffer env (zlen t) = Ok ()
  | _ => True
  end.

(** ** The files of the peer *)

Lemma resolve_manifestPath s j :
  simple_name j →
  resolve (manifestPath s j) = ((base_key s).1, j :: lit "manifests" :: (base_key s).2).
Proof.
  intros Hj. unfold manifestPath, manifestsDir_. rewrite resolve_join by done.
  by rewrite resolve_dir_join by by_eval.
Qed.

Lemma chunk_not_manifest s i j :
  simple_name i → simple_name j → resolve (chunkPath s i) ≠ resolve (manifestPath s j).
Proof.
  intros Hi Hj. rewrite resolve_chunkPath, resolve_manifestPath by done. intros E.
  by apply (f_equal (λ k, k.2 !! 1%nat)) in E.
Qed.

Lemma manifest_not_meta s j :
  simple_name j → resolve (manifestPath s j) ≠ resolve (metaPath_ s).
Proof.
  intros Hj. rewrite resolve_manifestPath, resolve_metaPath by done. intros [= _ E].
  apply (f_equal length) in E. cbn in E. lia.
Qed.

Lemma manifestPath_inj s i j :
  simple_name i → simple_name j → resolve (manifestPath s i) = resolve (manifestPath s j) → i = j.
Proof. apply resolve_join_inj. Qed.

(** ** The handlers on well-formed requests *)

Lemma reply_clean text c : sends c = [] → reply text c = set_sent [] (sent c ++ text) c.
Proof. intros. unfold reply. by rewrite send_all_clean. Qed.

Lemma header_plain r : is_word (request_name r) → plain (header r).
Proof.
  intros Hw. destruct r; cbn [header request_name] in *;
    repeat apply plain_app; by (apply plain_to_string, zlen_nonneg) || (by apply plain_word) || by_eval.
Qed.

Lemma new_buffer_small env n : new_buffer env n = Ok () → n < 2 ^ 63.
Proof. unfold new_buffer. destruct (Z.ltb_spec (2 ^ 63 - 1) n); [done|lia]. Qed.

Lemma piece4096_ok r : 0 < r → 0 < piece4096 r ≤ r.
Proof. unfold piece4096. lia. Qed.

(** The payload of a request is what the loop receives. *)
Lemma recv_request_payload c d rest :
  stream c = d ++ rest →
  ∃ c', recv_payload piece4096 (zlen d) c = (d, 0, c') ∧ stream c' = rest ∧
        c' = set_segments (segments c') c.
Proof.
  intros Hs. destruct (recv_payload_spec piece4096 (zlen d) c piece4096_ok (zlen_nonneg d))
    as (c' & E & Es & Ec).
  exists c'. rewrite Hs in E, Es. unfold zlen in E, Es. rewrite Nat2Z.id in E, Es.
  rewrite take_app_length in E. rewrite drop_app_length in Es.
  split; [|done]. unfold zlen. rewrite E, length_app. f_equal. f_equal. lia.
Qed.

Lemma get_command cmd k :
  is_word cmd → get_word [] (istringstream (cmd ++ space :: k)) = (cmd, mk_istream (space :: k) false).
Proof. intros. apply get_word_first; [done|]. by apply word_end_cons. Qed.

Lemma get_last_word w :
  is_word w → get_word [] (mk_istream (space :: w) false) = (w, mk_istream [] false).
Proof.
  intros. pose proof (get_word_next [] w [] ltac:(done) word_end_nil) as E.
  by rewrite app_nil_r in E.
Qed.

Lemma get_last_size n :
  0 ≤ n < 2 ^ 64 → get_u64 0 (mk_istream (space :: to_string n) false) = (n, mk_istream [] false).
Proof.
  intros. pose proof (get_u64_next 0 n [] ltac:(done) (no_digit_nil 10)) as E.
  by rewrite app_nil_r in E.
Qed.

(** The argument words of the two requests with a payload. *)
Lemma get_name_size h n :
  is_word h → 0 ≤ n < 2 ^ 64 →
  get_word [] (mk_istream (space :: h ++ lit " " ++ to_string n) false) =
  (h, mk_istream (space :: to_string n) false) ∧
  get_u64 0 (mk_istream (space :: to_string n) false) = (n, mk_istream [] false).
Proof.
  intros Hh Hn. split; [|by apply get_last_size].
  apply get_word_next; [done|]. by apply word_end_cons.
Qed.

(** Decides the chain of command tests. *)
Ltac pick_command :=
  repeat (rewrite bool_decide_eq_false_2 by by_eval);
  rewrite bool_decide_eq_true_2 by done.

(** The finished exchange: the text that was sent on [c]. *)
Definition answered (c c' : Conn) (text : str) : Prop :=
  sent c' = sent c ++ text ∧ sends c' = [] ∧ closes c' = closes c ∧ signalled c' = signalled c.

Lemma answered_reply c text : sends c = [] → answered c (reply text c) text.
Proof. intros Hs. by rewrite reply_clean. Qed.

Lemma answered_reply_two c t1 t2 :
  sends c = [] → answered c (reply t2 (reply t1 c)) (t1 ++ t2).
Proof.
  intros Hs. rewrite (reply_clean t1), reply_clean by done. unfold answered.
  cbn [sent sends closes set_sent]. by rewrite <- app_assoc.
Qed.

Lemma answered_received l c c' text : answered (set_segments l c) c' text → answered c c' text.
Proof. done. Qed.

Lemma dispatch_put_chunk env h d c rest s :
  sends c = [] → stream c = d ++ rest → request_ok env s (PutChunk h d) →
  ∃ c', dispatch env (header (PutChunk h d)) c s = (Ok c', (answer env (PutChunk h d) s).2) ∧
        answered c c' (answer env (PutChunk h d) s).1.
Proof.
  intros Hc Hs (Hh & _ & Hb & _). cbn [header request_name payload] in *.
  pose proof (new_buffer_small _ _ Hb). pose proof (zlen_nonneg d).
  unfold dispatch. change (lit "PUT_CHUNK " ++ ?k) with (lit "PUT_CHUNK" ++ space :: k).
  rewrite get_command by by_eval. pick_command. unfold put_chunk.
  destruct (get_name_size h (zlen d) Hh) as [-> ->]; [lia|]. rewrite Hb. m_unfold.
  destruct (recv_request_payload c d rest Hs) as (c1 & -> & _ & ->).
  rewrite Z.eqb_refl. unfold store_and_reply. cbn [answer].
  destruct (storeChunk env h d s) as [[[]|e] s']; eexists; (split; [done|];
    eapply answered_received; by apply answered_reply).
Qed.

Lemma dispatch_put_manifest env m t c rest s :
  sends c = [] → stream c = t ++ rest → request_ok env s (PutManifest m t) →
  ∃ c', dispatch env (header (PutManifest m t)) c s =
        (Ok c', (answer env (PutManifest m t) s).2) ∧
        answered c c' (answer env (PutManifest m t) s).1.
Proof.
  intros Hc Hs (Hh & _ & Hb & _). cbn [header request_name payload] in *.
  pose proof (new_buffer_small _ _ Hb). pose proof (zlen_nonneg t).
  unfold dispatch. change (lit "PUT_MANIFEST " ++ ?k) with (lit "PUT_MANIFEST" ++ space :: k).
  rewrite get_command by by_eval. pick_command. unfold put_manifest.
  destruct (get_name_size m (zlen t) Hh) as [-> ->]; [lia|]. rewrite Hb. m_unfold.
  destruct (recv_request_payload c t rest Hs) as (c1 & -> & _ & ->).
  rewrite Z.eqb_refl. cbn [answer].
  destruct (write_file _ _ _ _); eexists; (split; [done|];
    eapply answered_received; by apply answered_reply).
Qed.

Lemma dispatch_answers env r c rest s :
  sends c = [] → stream c = payload r ++ rest → request_ok env s r →
  ∃ c', dispatch env (header r) c s = (Ok c', (answer env r s).2) ∧
        answered c c' (answer env r s).1.
Proof.
  intros Hc Hs Hr.
  destruct r as [h d|h|h|m t|m|m].
  - by apply dispatch_put_chunk with rest.
  - destruct Hr as (Hh & _). cbn [header request_name] in *. unfold dispatch.
    change (lit "GET_CHUNK " ++ ?k) with (lit "GET_CHUNK" ++ space :: k).
    rewrite get_command by by_eval. pick_command. unfold get_chunk.
    rewrite get_last_word by done. cbn [answer].
    destruct (loadChunk env h s) as [[d|e] s']; [|eexists; split; [done|by apply answered_reply]].
    case_bool_decide as Hd; eexists; (split; [done|]).
    + subst d. rewrite app_nil_r. by apply answered_reply.
    + by apply answered_reply_two.
  - destruct Hr as (Hh & _). cbn [header request_name] in *. unfold dispatch.
    change (lit "HAS_CHUNK " ++ ?k) with (lit "HAS_CHUNK" ++ space :: k).
    rewrite get_command by by_eval. pick_command. unfold has_chunk.
    rewrite get_last_word by done. eexists. split; [done|by apply answered_reply].
  - by apply dispatch_put_manifest with rest.
  - destruct Hr as (Hh & _ & _ & Hdir & Hb). cbn [header request_name] in *. unfold dispatch.
    change (lit "GET_MANIFEST " ++ ?k) with (lit "GET_MANIFEST" ++ space :: k).
    rewrite get_command by by_eval. pick_command. unfold get_manifest.
    rewrite get_last_word by done. m_unfold. unfold open_in. rewrite Hdir. cbn [answer fst snd].
    destruct (read_file _ _) as [t|]; [|eexists; split; [done|by apply answered_reply]].
    rewrite (Hb t eq_refl), fill_all. destruct (Z.ltb_spec 0 (zlen t)) as [|Hz]; eexists;
      (split; [done|]).
    + by apply answered_reply_two.
    + assert (t = []) as -> by (apply zlen_nil; pose proof (zlen_nonneg t); lia).
      rewrite app_nil_r. by apply answered_reply.
  - destruct Hr as (Hh & _ & _ & Hdir & _). cbn [header request_name] in *. unfold dispatch.
    change (lit "HAS_MANIFEST " ++ ?k) with (lit "HAS_MANIFEST" ++ space :: k).
    rewrite get_command by by_eval. pick_command. unfold has_manifest.
    rewrite get_last_word by done. m_unfold. unfold open_in. rewrite Hdir. cbn [answer fst snd].
    destruct (read_file _ _); eexists; (split; [done|by apply answered_reply]).
Qed.

Lemma header_short r :
  zlen (payload r) < 2 ^ 64 → zlen (header r) ≤ zlen (request_name r) + 80.
Proof.
  intros Hp. pose proof (to_string_length (zlen (payload r))) as Ht.
  pose proof (zlen_nonneg (payload r)).
  destruct r; cbn [header request_name payload] in *; rewrite !zlen_app; unfold zlen in *;
    cbn [length lit list_ascii_of_string]; lia.
Qed.

(** Names of up to 8000 bytes fit the line. *)
Lemma chunk_request_ok env s r :
  is_word (request_name r) → zlen (request_name r) ≤ 8000 →
  new_buffer env (zlen (payload r)) = Ok () →
  match r with GetManifest _ | HasManifest _ => False | _ => True end →
  request_ok env s r.
Proof.
  intros Hw Hl Hb Hr. pose proof (new_buffer_small _ _ Hb).
  pose proof (header_short r ltac:(lia)).
  split; [done|]. split; [lia|]. split; [done|]. by destruct r.
Qed.

Lemma serve_spec env r c rest s :
  sends c = [] → stream c = header r ++ newline :: payload r ++ rest → request_ok env s r →
  ∃ c', serve env c s = (Ok c', (answer env r s).2) ∧
        sent c' = sent c ++ (answer env r s).1 ∧ closes c' = S (closes c) ∧ signalled c' = signalled c.
Proof.
  intros Hc Hs Hr. pose proof Hr as (Hname & Hlen & _). unfold serve.
  destruct (recv_line_plain c (header r) _ Hs (header_plain r Hname) Hlen) as (c1 & -> & Hs1 & Ec).
  cbn [negb]. destruct (dispatch_answers env r c1 rest s) as (c2 & E & Et & _ & El & Ek);
    [by rewrite Ec|done|done|].
  m_unfold. rewrite E. eexists. split; [done|]. cbn [sent closes close signalled].
  rewrite Et, El, Ek, Ec. done.
Qed.

(** ** Theorems *)

(** C17. However the bytes of a request arrive, the peer does to its state what
    the request asks and sends back the text of the answer, once, before it
    closes the connection; no signal is raised. *)
Theorem serve_answers env r c rest s
    (Hc : sends c = []) (Hs : stream c = header r ++ newline :: payload r ++ rest)
    (Hr : request_ok env s r) :
  ∃ c', serve env c s = (Ok c', (answer env r s).2) ∧
        sent c' = sent c ++ (answer env r s).1 ∧ closes c' = S (closes c) ∧ signalled c' = signalled c.
Proof. by apply serve_spec with rest. Qed.

Definition commands : list str :=
  [lit "PUT_CHUNK"; lit "GET_CHUNK"; lit "HAS_CHUNK"; lit "PUT_MANIFEST"; lit "GET_MANIFEST";
   lit "HAS_MANIFEST"].

Lemma dispatch_unknown env cmd k c s :
  is_word cmd → word_end k → cmd ∉ commands → dispatch env (cmd ++ k) c s = (Ok c, s).
Proof.
  intros Hw Hk Hn. unfold dispatch. rewrite get_word_first by done.
  assert (∀ x, x ∈ commands → bool_decide (cmd = x) = false) as Hx.
  { intros x Hx. apply bool_decide_eq_false_2. by intros ->. }
  by rewrite !Hx by (unfold commands; set_solver).
Qed.

Lemma recv_short_payload c d n :
  stream c = d → zlen d < n →
  ∃ c', recv_payload piece4096 n c = (d, n - zlen d, c') ∧ c' = set_segments (segments c') c.
Proof.
  intros Hs Hn. pose proof (zlen_nonneg d).
  destruct (recv_payload_spec piece4096 n c piece4096_ok) as (c' & E & _ & Ec); [lia|].
  exists c'. rewrite Hs in E. rewrite take_ge in E by (unfold zlen in *; lia).
  split; [|done]. rewrite E. f_equal. f_equal. lia.
Qed.

(** A request that is not one leaves the state of the peer alone: a line that
    is not finished or too long is dropped, an unknown command is closed without
    an answer, and a chunk or manifest whose payload ends early is refused. *)
Theorem serve_refuses env c s (Hc : sends c = []) :
  ((recv_line c).1.1 = false →
   ∃ c', serve env c s = (Ok c', s) ∧ sent c' = sent c ∧ closes c' = S (closes c)) ∧
  (∀ cmd k rest, is_word cmd → word_end k → plain k → zlen (cmd ++ k) ≤ 8192 →
   cmd ∉ commands → stream c = (cmd ++ k) ++ newline :: rest →
   ∃ c', serve env c s = (Ok c', s) ∧ sent c' = sent c ∧ closes c' = S (closes c)) ∧
  (∀ cmd h n d, cmd = lit "PUT_CHUNK" ∨ cmd = lit "PUT_MANIFEST" → is_word h →
   new_buffer env n = Ok () → zlen d < n →
   zlen (cmd ++ space :: h ++ lit " " ++ to_string n) ≤ 8192 →
   stream c = (cmd ++ space :: h ++ lit " " ++ to_string n) ++ newline :: d →
   ∃ c', serve env c s = (Ok c', s) ∧ sent c' = sent c ++ ERR_line).
Proof.
  unfold serve. split; [|split].
  - intros Hf. destruct (recv_line_stream c) as (c1 & E & _ & Ec).
    rewrite E in Hf |- *. destruct (line_of [] (stream c)).1 as [ok line]. cbn in Hf. subst ok.
    eexists. split; [done|]. by rewrite Ec.
  - intros cmd k rest Hw Hk Hp Hz Hn Hs.
    destruct (recv_line_plain c _ _ Hs) as (c1 & -> & _ & Ec); [auto with dss|done|].
    cbn [negb]. m_unfold. rewrite dispatch_unknown by done. eexists. split; [done|]. by rewrite Ec.
  - intros cmd h n d Hcmd Hh Hb Hd Hz Hs. pose proof (zlen_nonneg d).
    pose proof (new_buffer_small _ _ Hb).
    assert (plain (cmd ++ space :: h ++ lit " " ++ to_string n)) as Hp.
    { apply plain_app; [by destruct Hcmd as [->| ->]; by_eval|]. constructor; [done|].
      apply plain_app; [by apply plain_word|]. apply plain_app; [by_eval|].
      apply plain_to_string. lia. }
    destruct (recv_line_plain c _ _ Hs Hp Hz) as (c1 & -> & Hs1 & Ec).
    destruct (recv_short_payload c1 d n Hs1 Hd) as (c2 & E & Ec2).
    destruct (get_name_size h n Hh ltac:(lia)) as [E1 E2].
    assert (is_word cmd) by (destruct Hcmd as [->| ->]; by_eval).
    cbn [negb]. unfold dispatch. rewrite get_command by done.
    assert ((n - zlen d =? 0) = false) as Hne by (apply Z.eqb_neq; lia).
    assert (reply ERR_line c2 = set_sent [] (sent c ++ ERR_line) c2) as Er
      by (rewrite reply_clean; rewrite Ec2, Ec; done).
    destruct Hcmd as [->| ->]; pick_command; [unfold put_chunk|unfold put_manifest];
      m_unfold; rewrite E1, E2, Hb, E, Hne, Er; eexists; done.
Qed.

(** C37. The size of a payload is a number of the requester's choice, and the
    exception of the failed allocation is caught nowhere: a request with size -1
    ends the accept loop, and no later connection is served. *)
Theorem hostile_size_ends_service env c s h rest rounds
    (Hh : is_word h) (Hlen : zlen h ≤ 8000)
    (Hs : stream c = (lit "PUT_CHUNK" ++ space :: h ++ lit " -1") ++ newline :: rest) :
  run_loop ((env, c) :: rounds) s =
  ([], Left (LengthError (lit "cannot create std::vector larger than max_size()")) s).
Proof.
  cbn [run_loop]. unfold serve.
  assert (plain (lit "PUT_CHUNK" ++ space :: h ++ lit " -1")) as Hp.
  { apply plain_app; [by_eval|]. constructor; [done|].
    apply plain_app; [by apply plain_word|by_eval]. }
  destruct (recv_line_plain c _ _ Hs Hp) as (c1 & -> & _ & _).
  { rewrite zlen_app, zlen_cons, zlen_app. unfold zlen in *. cbn. lia. }
  cbn [negb]. unfold dispatch. rewrite get_command by by_eval. pick_command. unfold put_chunk.
  change (space :: h ++ lit " -1") with (space :: h ++ space :: lit "-1").
  rewrite get_word_next by (done || by apply word_end_cons).
  assert (get_u64 0 (mk_istream (space :: lit "-1") false) = (2 ^ 64 - 1, mk_istream [] false))
    as -> by (vm_compute; reflexivity).
  m_unfold. unfold new_buffer. by destruct (Z.ltb_spec (2 ^ 63 - 1) (2 ^ 64 - 1)); [|lia].
Qed.

(** A round whose connection is never broken raises no signal, whatever it asks. *)
Lemma quiet_reply text c : quiet c → quiet (reply text c).
Proof. apply quiet_send. Qed.

Lemma quiet_dispatch env line c s c' s' :
  quiet c → dispatch env line c s = (Ok c', s') → quiet c'.
Proof.
  intros Hq. unfold dispatch. destruct (get_word [] (istringstream line)) as [cmd iss].
  assert (∀ size, quiet (recv_payload piece4096 size c).2) as Hp.
  { intros size. by destruct (recv_payload_frame piece4096 size c) as [l ->]. }
  unfold put_chunk, store_and_reply, get_chunk, has_chunk, put_manifest, get_manifest, has_manifest.
  m_unfold.
  repeat case_match; simplify_eq; intros; simplify_eq; rewrite ?surjective_pairing; try done;
    repeat apply quiet_reply; try done;
    match goal with E : recv_payload _ ?n _ = _ |- _ => specialize (Hp n); by rewrite E in Hp end.
Qed.

Lemma quiet_serve env c s c' s' : quiet c → serve env c s = (Ok c', s') → quiet c'.
Proof.
  intros Hq. unfold serve. destruct (recv_line_stream c) as (c1 & -> & _ & Ec).
  assert (quiet c1) as Hq1 by (by rewrite Ec).
  destruct (line_of [] (stream c)) as [[ok line] rest]. cbn [fst].
  destruct ok; cbn [negb]; m_unfold; [|by intros [= <- _]].
  destruct (dispatch env line c1 s) as [[c2|e] s2] eqn:E; [|done].
  intros [= <- _]. by apply (quiet_dispatch _ _ _ _ _ _ Hq1 E).
Qed.

(** Only a reader that goes away while it is answered makes the process end by a
    signal: without one the loop runs on, or an exception leaves it. *)
Theorem signal_needs_vanished_client rounds s
    (Hq : Forall (λ round, quiet round.2) rounds) :
  (run_loop rounds s).2 ≠ Signalled.
Proof.
  revert s. induction Hq as [|[env c] rounds Hc _ IH]; intros s; [done|]. cbn [run_loop].
  destruct (serve env c s) as [[c'|e] s'] eqn:E; [|done].
  destruct (quiet_serve _ _ _ _ _ Hc E) as [_ ->].
  specialize (IH s'). by destruct (run_loop rounds s').
Qed.

(** SIGPIPE is neither handled nor turned off: a reader that closes the connection
    between the two sends of GET_CHUNK ends the whole peer, and no later connection is
    served. *)
Theorem vanished_reader_kills_peer env c s h ch d s' n l rest rounds
    (Hh : is_word h) (Hlen : zlen h ≤ 8000)
    (Hs : stream c = header (GetChunk h) ++ newline :: rest)
    (Hload : loadChunk env h s = (Ok (ch :: d), s'))
    (Hn : zlen (ok_size (zlen (ch :: d))) ≤ n) (Hsends : sends c = n :: - EPIPE :: l) :
  ∃ c', run_loop ((env, c) :: rounds) s = ([c'], Signalled) ∧
        sent c' = sent c ++ ok_size (zlen (ch :: d)).
Proof.
  cbn [run_loop]. unfold serve.
  destruct (recv_line_plain c _ _ Hs) as (c1 & -> & _ & Ec).
  { by apply (header_plain (GetChunk h)). }
  { cbn [header]. rewrite zlen_app. unfold zlen in *. cbn. lia. }
  assert (sends c1 = n :: - EPIPE :: l ∧ sent c1 = sent c) as [Hs1 Et1] by (by rewrite Ec).
  cbn [negb header]. unfold dispatch.
  change (lit "GET_CHUNK " ++ h) with (lit "GET_CHUNK" ++ space :: h).
  rewrite get_command by by_eval. pick_command. unfold get_chunk. rewrite get_last_word by done.
  m_unfold. rewrite Hload. rewrite bool_decide_eq_false_2 by done.
  set (text := ok_size (zlen (ch :: d))) in *.
  assert (reply text c1 = set_sent (- EPIPE :: l) (sent c1 ++ text) c1) as ->.
  { unfold reply. by rewrite (send_all_whole n (- EPIPE :: l)). }
  assert (reply (ch :: d) (set_sent (- EPIPE :: l) (sent c1 ++ text) c1) =
          sigpipe (set_sent (- EPIPE :: l) (sent c1 ++ text) c1)) as -> by done.
  eexists. split; [done|]. cbn [sent sigpipe set_sent close]. by rewrite Et1.
Qed.

(** A size that is not a number counts as 0: the request is answered with
    OK, and the chunk, whatever it was, is now empty. *)
Theorem malformed_size_empties_chunk env c s h ch w rest
    (Hc : sends c = []) (Hh : is_word h) (Hw : is_word (ch :: w))
    (Hch : digit_in 10 ch = None ∧ ch ≠ "-"%char ∧ ch ≠ "+"%char)
    (Hlen : zlen h + zlen w ≤ 8000) (Hmem : new_buffer env 0 = Ok ())
    (Hs : stream c = (lit "PUT_CHUNK" ++ space :: h ++ lit " " ++ ch :: w) ++ newline :: rest) :
  ∃ c', serve env c s = (Ok c', (storeChunk env h [] s).2) ∧
        sent c' = sent c ++ (if is_ok (storeChunk env h [] s).1 then OK_line else ERR_line).
Proof.
  unfold serve. destruct Hch as (Hd & Hm & Hp).
  assert (plain (lit "PUT_CHUNK" ++ space :: h ++ lit " " ++ ch :: w)) as Hpl.
  { apply plain_app; [by_eval|]. constructor; [done|].
    apply plain_app; [by apply plain_word|]. apply plain_app; [by_eval|by apply plain_word]. }
  destruct (recv_line_plain c _ _ Hs Hpl) as (c1 & -> & Hs1 & Ec).
  { rewrite zlen_app, zlen_cons, !zlen_app, zlen_cons. unfold zlen in *. cbn. lia. }
  cbn [negb]. unfold dispatch. rewrite get_command by by_eval. pick_command. unfold put_chunk.
  rewrite get_word_next by (done || by apply word_end_cons).
  assert (∃ k, get_u64 0 (mk_istream (lit " " ++ ch :: w) false) = (0, mk_istream k true))
    as [k ->].
  { destruct Hw as [_ Hw]. apply Forall_cons in Hw as [Hw _]. unfold not_space in Hw.
    exists (ch :: w). unfold get_u64, get_int_gen. cbn [in_fail in_rest app lit].
    change (lit " " ++ ch :: w) with (space :: ch :: w). cbn [drop_while].
    change (is_space space) with true. destruct (is_space ch); [done|]. cbn [read_sign].
    destruct (Ascii.eqb_spec ch "-"); [done|]. destruct (Ascii.eqb_spec ch "+"); [done|].
    cbn [span_digits]. by rewrite Hd. }
  m_unfold. rewrite Hmem.
  destruct (recv_request_payload c1 [] _ Hs1) as (c2 & E & _ & Ec2).
  change (zlen []) with 0 in E. rewrite E. change (0 =? 0) with true. cbn iota.
  unfold store_and_reply.
  assert (∀ t, reply t c2 = set_sent [] (sent c ++ t) c2) as Er
    by (intros; rewrite reply_clean; rewrite Ec2, Ec; done).
  destruct (storeChunk env h [] s) as [[[]|e] s']; rewrite Er; eexists; done.
Qed.
End service.

(** ** Witnesses *)

Definition incoming (text : str) : Conn :=
  mk_conn [take 5 text; drop 5 text] PeerClosed [] [] 0 (lit "Success") false.

Definition demo_state : StorageManager := new_storage (lit "node") 0 ∅.

Lemma incoming_stream text : stream (incoming text) = text.
Proof. unfold stream, incoming. cbn [segments concat]. by rewrite app_nil_r, take_drop. Qed.

Lemma serve_answers_witness :
  ∃ c', serve (H := some_order) good_env
          (incoming (lit "PUT_CHUNK ab12 5" ++ newline :: lit "hello")) demo_state =
        (Ok c', (answer (H := some_order) good_env (PutChunk (lit "ab12") (lit "hello"))
                   demo_state).2) ∧ sent c' = OK_line ∧ closes c' = 1%nat.
Proof.
  destruct (serve_answers (H := some_order) good_env (PutChunk (lit "ab12") (lit "hello"))
    (incoming (lit "PUT_CHUNK ab12 5" ++ newline :: lit "hello")) [] demo_state)
    as (c' & E & Es & Ec & _); [done|by_eval| |].
  { split; [by_eval|]. split; [by_eval|]. split; [by_eval|done]. }
  exists c'. split; [exact E|]. split; [|exact Ec]. rewrite Es. vm_compute. reflexivity.
Defined.

Lemma serve_refuses_witness :
  ∃ c', serve (H := some_order) good_env
          (incoming (lit "PUT_CHUNK ab12 5" ++ newline :: lit "hel")) demo_state =
        (Ok c', demo_state) ∧ sent c' = ERR_line.
Proof.
  destruct (proj2 (proj2 (serve_refuses (H := some_order) good_env
    (incoming (lit "PUT_CHUNK ab12 5" ++ newline :: lit "hel")) demo_state eq_refl))
    (lit "PUT_CHUNK") (lit "ab12") 5 (lit "hel") (or_introl eq_refl) ltac:(by_eval) eq_refl
    ltac:(by_eval) ltac:(by_eval) ltac:(by_eval)) as (c' & E & Es).
  exists c'. exact (conj E Es).
Defined.

Lemma hostile_size_ends_service_witness :
  run_loop (H := some_order)
    [(good_env, incoming (lit "PUT_CHUNK x -1" ++ [newline]));
     (good_env, incoming (lit "HAS_CHUNK x" ++ [newline]))] demo_state =
  ([], Left (LengthError (lit "cannot create std::vector larger than max_size()")) demo_state).
Proof.
  exact (hostile_size_ends_service (H := some_order) good_env
    (incoming (lit "PUT_CHUNK x -1" ++ [newline])) demo_state (lit "x") [] _
    ltac:(by_eval) ltac:(by_eval) ltac:(by_eval)).
Defined.

Lemma signal_needs_vanished_client_witness :
  (run_loop (H := some_order) [(good_env, incoming (lit "GET_CHUNK x" ++ [newline]))] demo_state).2
  ≠ Signalled.
Proof.
  apply (signal_needs_vanished_client (H := some_order)). constructor; [by_eval|done].
Defined.

(** A peer with one chunk; its reader takes the size and goes. *)
Definition one_chunk_state : StorageManager :=
  (storeChunk (H := some_order) good_env (lit "ab12") (lit "hello") demo_state).2.

Definition vanishing (text : str) : Conn :=
  mk_conn [text] PeerClosed [100; - EPIPE] [] 0 (lit "Broken pipe") false.

Lemma vanished_reader_kills_peer_witness :
  ∃ c', run_loop (H := some_order)
      [(good_env, vanishing (lit "GET_CHUNK ab12" ++ [newline]));
       (good_env, incoming (lit "HAS_CHUNK ab12" ++ [newline]))] one_chunk_state =
    ([c'], Signalled) ∧ sent c' = lit "OK 5" ++ [newline].
Proof.
  exact (vanished_reader_kills_peer (H := some_order) good_env
    (vanishing (lit "GET_CHUNK ab12" ++ [newline])) one_chunk_state (lit "ab12") "h"%char
    (lit "ello") (loadChunk (H := some_order) good_env (lit "ab12") one_chunk_state).2 100 [] []
    [(good_env, incoming (lit "HAS_CHUNK ab12" ++ [newline]))]
    ltac:(by_eval) ltac:(by_eval) eq_refl ltac:(vm_compute; reflexivity) ltac:(by_eval) eq_refl).
Defined.

Lemma malformed_size_empties_chunk_witness :
  ∃ c', serve (H := some_order) good_env
          (incoming (lit "PUT_CHUNK ab12 five" ++ [newline])) demo_state =
        (Ok c', (storeChunk (H := some_order) good_env (lit "ab12") [] demo_state).2) ∧
        sent c' = OK_line.
Proof.
  destruct (malformed_size_empties_chunk (H := some_order) good_env
    (incoming (lit "PUT_CHUNK ab12 five" ++ [newline])) demo_state (lit "ab12") "f"%char
    (lit "ive") []) as (c' & E & Es);
    [by_eval|by_eval|by_eval|by_eval|by_eval|by_eval|by_eval|].
  exists c'. split; [exact E|]. rewrite Es. vm_compute. reflexivity.
Defined.
