(* ===== verification/PeerCrash.v ===== *)
(** * A peer that is killed and started again

    What one connection asks of the peer, whatever bytes it carries, and what becomes
    of the chunks and the manifests of a peer process that is killed in the middle of
    a request and started again on its files. *)

From S2P Require Import Prelude.
From S2P Require Import CxxStd.
From S2P Require Import FileSystem.
From S2P Require Import Storage.
From S2P Require Import StorageLru.
From S2P Require Import StorageProps.
From S2P Require Import StorageCrash.
From S2P Require Import Tcp.
From S2P Require Import PeerService.

Section requested.
Context `{IterOrder}.

(** ** What a connection asks for *)

(** A name, a size for which there is memory, and a payload that arrives in full. *)
Definition with_payload (env : Env) (iss : istream) (c : Conn) (ask : str → str → request)
    : option request :=
  let (name, iss) := get_word [] iss in
  let (size, _) := get_u64 0 iss in
  if is_ok (new_buffer env size) then
    let '(data, remaining, _) := recv_payload piece4096 size c in
    if remaining =? 0 then Some (ask name data) else None
  else None.

(** A line that is not read to its end, an unknown command and a payload that is cut ask
    for nothing. *)
Definition requested (env : Env) (c : Conn) : option request :=
  let '(ok, line, c) := recv_line c in
  if negb ok then None
  else
    let (cmd, iss) := get_word [] (istringstream line) in
    let name := (get_word [] iss).1 in
    if bool_decide (cmd = lit "PUT_CHUNK") then with_payload env iss c PutChunk
    else if bool_decide (cmd = lit "GET_CHUNK") then Some (GetChunk name)
    else if bool_decide (cmd = lit "HAS_CHUNK") then Some (HasChunk name)
    else if bool_decide (cmd = lit "PUT_MANIFEST") then with_payload env iss c PutManifest
    else if bool_decide (cmd = lit "GET_MANIFEST") then Some (GetManifest name)
    else if bool_decide (cmd = lit "HAS_MANIFEST") then Some (HasManifest name)
    else None.

Lemma put_chunk_state env iss c s :
  (put_chunk env iss c s).2 =
  match with_payload env iss c PutChunk with Some r => (answer env r s).2 | None => s end.
Proof.
  unfold put_chunk, with_payload. destruct (get_word [] iss) as [name iss1].
  destruct (get_u64 0 iss1) as [size iss2]. m_unfold.
  destruct (new_buffer env size); [|done]. cbn [is_ok].
  destruct (recv_payload piece4096 size c) as [[data remaining] c1].
  destruct (remaining =? 0); [|done]. unfold store_and_reply. cbn [answer].
  by destruct (storeChunk env name data s) as [[] ?].
Qed.

Lemma put_manifest_state env iss c s :
  (put_manifest env iss c s).2 =
  match with_payload env iss c PutManifest with Some r => (answer env r s).2 | None => s end.
Proof.
  unfold put_manifest, with_payload. destruct (get_word [] iss) as [name iss1].
  destruct (get_u64 0 iss1) as [size iss2]. m_unfold.
  destruct (new_buffer env size); [|done]. cbn [is_ok].
  destruct (recv_payload piece4096 size c) as [[data remaining] c1].
  destruct (remaining =? 0); [|done]. cbn [answer]. by destruct (write_file _ _ _ _).
Qed.

Lemma get_chunk_state env iss c s :
  (get_chunk env iss c s).2 = (answer env (GetChunk (get_word [] iss).1) s).2.
Proof.
  unfold get_chunk. destruct (get_word [] iss) as [name iss1]. cbn [answer fst].
  by destruct (loadChunk env name s) as [[] ?].
Qed.

(** A round of the service on any connection changes the state as the request says that
    the connection carries, and not at all when it carries none. *)
Lemma serve_state env c s :
  (serve env c s).2 =
  match requested env c with Some r => (answer env r s).2 | None => s end.
Proof.
  unfold serve, requested. destruct (recv_line c) as [[ok line] c1].
  destruct ok; [|done]. cbn [negb]. unfold dispatch.
  destruct (get_word [] (istringstream line)) as [cmd iss].
  assert (∀ m : M StorageManager Conn, ((c ← m; mret (close c)) s).2 = (m s).2) as Hm.
  { intros m. m_unfold. by destruct (m s) as [[] ?]. }
  rewrite Hm. case_bool_decide; [apply put_chunk_state|].
  case_bool_decide; [apply get_chunk_state|].
  case_bool_decide; [unfold has_chunk; by destruct (get_word [] iss)|].
  case_bool_decide; [apply put_manifest_state|]. case_bool_decide.
  { unfold get_manifest. destruct (get_word [] iss) as [name iss1]. m_unfold.
    destruct (open_in _ _ _) as [[n bytes]|]; [|done]. by destruct (new_buffer env n). }
  case_bool_decide; [|done]. unfold has_manifest. by destruct (get_word [] iss).
Qed.

(** The answer to GET_CHUNK. *)
Lemma serve_get env c s id :
  sends c = [] → requested env c = Some (GetChunk id) →
  ∃ c', (serve env c s).1 = Ok c' ∧ sent c' = sent c ++ (answer env (GetChunk id) s).1.
Proof.
  intros Hc. destruct (recv_line_stream c) as (c1 & E & _ & Ec).
  unfold serve, requested. rewrite E. destruct (line_of [] (stream c)).1 as [ok line].
  destruct ok; [|done]. cbn [negb]. unfold dispatch.
  destruct (get_word [] (istringstream line)) as [cmd iss].
  assert (∀ n, with_payload env iss c1 n = Some (GetChunk id) → (∀ x y, n x y ≠ GetChunk id) → False)
    as Hno.
  { unfold with_payload. intros n Hn Hne. destruct (get_word [] iss) as [name iss1].
    destruct (get_u64 0 iss1) as [size iss2]. destruct (is_ok _); [|done].
    destruct (recv_payload _ _ _) as [[data remaining] c2]. destruct (remaining =? 0); [|done].
    injection Hn as Hn. by apply (Hne name data). }
  case_bool_decide; [intros Hn; by destruct (Hno _ Hn)|]. case_bool_decide.
  - intros [= <-]. unfold get_chunk. destruct (get_word [] iss) as [name iss1]. m_unfold.
    assert (sends c1 = []) as Hc1 by by rewrite Ec. cbn [answer fst].
    destruct (loadChunk env name s) as [[data|e] s'].
    + eexists. split; [done|]. cbn [sent close fst]. case_bool_decide as Hd.
      * rewrite reply_clean by done. cbn [sent set_sent]. subst data. by rewrite app_nil_r, Ec.
      * rewrite (reply_clean (ok_size _)), reply_clean by done. cbn [sent set_sent].
        by rewrite <- app_assoc, Ec.
    + eexists. split; [done|]. cbn [sent close fst]. rewrite reply_clean by done.
      cbn [sent set_sent]. by rewrite Ec.
  - do 2 (case_bool_decide; [intros Hn; first [done|by destruct (Hno _ Hn)]|]).
    do 2 (case_bool_decide; [done|]). done.
Qed.

(** ** Crashes *)

Definition request_effects (env : Env) (r : request) (s : StorageManager) : list effect :=
  match r with
  | PutChunk h d => effects_of env (StoreOp h d) s
  | GetChunk h => effects_of env (LoadOp h) s
  | PutManifest m t =>
      if can_open_out env (manifestPath s m) then [Write (manifestPath s m) t] else []
  | HasChunk _ | GetManifest _ | HasManifest _ => []
  end.

Definition round_effects (env : Env) (c : Conn) (s : StorageManager) : list effect :=
  match requested env c with Some r => request_effects env r s | None => [] end.

(** A round that ends, or one in which the process is killed and started again. *)
Inductive peer_life :=
  | Served (env : Env) (c : Conn)
  | KilledIn (env : Env) (c : Conn) (count : nat) (torn : option nat) (env' : Env) (limit : Z).

Definition peer_live (l : peer_life) (s : StorageManager) : StorageManager :=
  match l with
  | Served env c => (serve env c s).2
  | KilledIn env c count torn env' limit =>
      restart env' limit (set_disk (killed count torn (round_effects env c s) (disk s)) s)
  end.

Definition asked (l : peer_life) : option request :=
  match l with Served env c | KilledIn env c _ _ _ _ => requested env c end.

Lemma answer_performs env r s :
  perform_all (request_effects env r s) (disk s) = disk (answer env r s).2.
Proof.
  destruct r as [h d|h|h|m t|m|m]; cbn [request_effects answer]; try done.
  - rewrite exec_performs. cbn [storage_exec]. by destruct (storeChunk env h d s) as [[] ?].
  - rewrite exec_performs. cbn [storage_exec]. by destruct (loadChunk env h s) as [[] ?].
  - unfold write_file. by destruct (can_open_out _ _).
Qed.

Lemma serve_performs env c s :
  perform_all (round_effects env c s) (disk s) = disk (serve env c s).2.
Proof.
  rewrite serve_state. unfold round_effects. destruct (requested env c); [|done].
  apply answer_performs.
Qed.

Lemma answer_base env r s : baseDir_ (answer env r s).2 = baseDir_ s.
Proof.
  destruct r as [h d|h|h|m t|m|m]; cbn [answer]; try done.
  - pose proof (exec_base env (StoreOp h d) s) as E. cbn [storage_exec] in E.
    by destruct (storeChunk env h d s) as [[] ?].
  - pose proof (exec_base env (LoadOp h) s) as E. cbn [storage_exec] in E.
    by destruct (loadChunk env h s) as [[] ?].
  - by destruct (write_file _ _ _ _).
Qed.

Lemma peer_live_base l s : baseDir_ (peer_live l s) = baseDir_ s.
Proof.
  destruct l as [env c|env c count torn env' limit]; cbn [peer_live].
  - rewrite serve_state. destruct (requested env c); [apply answer_base|done].
  - apply (exec_base env' RestartOp (set_max limit (set_disk _ s))).
Qed.

Definition peer_lifetime (ls : list peer_life) (s : StorageManager) : StorageManager :=
  foldl (λ s l, peer_live l s) s ls.

Lemma peer_lifetime_base ls s : baseDir_ (peer_lifetime ls s) = baseDir_ s.
Proof.
  revert s. induction ls as [|l ls IH]; intros s; [done|]. cbn [peer_lifetime foldl].
  change (foldl _ ?s ?k) with (peer_lifetime k s). by rewrite IH, peer_live_base.
Qed.

(** What is put is put under names of files. *)
Definition puts_names (l : peer_life) : Prop :=
  match asked l with
  | Some (PutChunk n _ | PutManifest n _) => simple_name n
  | _ => True
  end.

#[global] Instance puts_names_dec l : Decision (puts_names l).
Proof. unfold puts_names. destruct (asked l) as [[]|]; apply _. Defined.

(** The bytes that a request puts into the file with the key [k] of a peer in [dir], and
    what may be left of them. *)
Section kept.
Context (k : str → fs_key) (put : request → option str) (part : str → str → Prop).
Hypothesis k_meta : ∀ s, resolve (metaPath_ s) ≠ k (baseDir_ s).
Hypothesis puts : ∀ l env r count torn s bytes,
  asked l = Some r → puts_names l →
  killed count torn (request_effects env r s) (disk s) !! k (baseDir_ s) = Some bytes →
  disk s !! k (baseDir_ s) = Some bytes ∨ ∃ text, put r = Some text ∧ part bytes text.

Definition put_by (l : peer_life) : option str := r ← asked l; put r.

Lemma peer_live_keeps l s bytes :
  puts_names l → disk (peer_live l s) !! k (baseDir_ s) = Some bytes →
  disk s !! k (baseDir_ s) = Some bytes ∨ ∃ text, put_by l = Some text ∧ part bytes text.
Proof.
  intros Hl. unfold put_by. destruct l as [env c|env c count torn env' limit]; cbn [peer_live].
  - rewrite <- serve_performs, <- killed_all. unfold round_effects.
    destruct (requested env c) as [r|] eqn:Er; [|by left]. intros Hk.
    eapply (puts (Served env c)) in Hk; [|done|done]. cbn [asked]. by rewrite Er.
  - set (s1 := set_disk _ s). intros Hk.
    pose proof (exec_performs env' RestartOp (set_max limit s1)) as E. cbn [storage_exec snd] in E.
    change (restart env' (maxBytes_ (set_max limit s1)) (set_max limit s1))
      with (restart env' limit s1) in E. rewrite <- E, <- killed_all in Hk.
    apply quiet_killed in Hk; [|apply quiet_load, (k_meta s1)]. revert Hk. unfold s1.
    cbn [disk set_max set_disk]. unfold round_effects.
    destruct (requested env c) as [r|] eqn:Er; [|by left]. intros Hk.
    eapply (puts (KilledIn env c count torn env' limit)) in Hk; [|done|done].
    cbn [asked]. by rewrite Er.
Qed.

Lemma peer_lifetime_keeps ls s bytes :
  Forall puts_names ls → disk (peer_lifetime ls s) !! k (baseDir_ s) = Some bytes →
  disk s !! k (baseDir_ s) = Some bytes ∨
  Exists (λ l, ∃ text, put_by l = Some text ∧ part bytes text) ls.
Proof.
  intros Hls. revert s. induction Hls as [|l ls Hl _ IH]; intros s; [by left|].
  cbn [peer_lifetime foldl]. change (foldl _ ?s ?k) with (peer_lifetime k s).
  intros Hk. rewrite <- (peer_live_base l s) in Hk.
  apply IH in Hk as [Hk|Hx]; [|right; by apply Exists_cons_tl].
  rewrite peer_live_base in Hk.
  apply peer_live_keeps in Hk as [?|?]; [by left|right; by apply Exists_cons_hd|done].
Qed.
End kept.

Definition chunk_key (id dir : str) : fs_key := resolve (join (join dir (lit "chunks")) id).
Definition manifest_key (id dir : str) : fs_key := resolve (join (join dir (lit "manifests")) id).

Definition chunk_put (id : str) (r : request) : option str :=
  match r with PutChunk h d => if bool_decide (h = id) then Some d else None | _ => None end.
Definition manifest_put (id : str) (r : request) : option str :=
  match r with PutManifest m t => if bool_decide (m = id) then Some t else None | _ => None end.

Lemma chunk_puts id l env r count torn s bytes :
  chunk_name id → asked l = Some r → puts_names l →
  killed count torn (request_effects env r s) (disk s) !! chunk_key id (baseDir_ s) = Some bytes →
  disk s !! chunk_key id (baseDir_ s) = Some bytes ∨
  ∃ text, chunk_put id r = Some text ∧ bytes = text.
Proof.
  intros Hid Hr Hl. unfold puts_names in Hl. rewrite Hr in Hl.
  change (chunk_key id (baseDir_ s)) with (resolve (chunkPath s id)).
  destruct r as [h d|h|h|m t|m|m]; cbn [request_effects]; try by left.
  - intros [?|[= -> ->]]%effects_killed; [by left| |done|done]. right. exists bytes.
    cbn [chunk_put]. by rewrite bool_decide_eq_true_2.
  - intros Hk%effects_killed; [|done|done]. by destruct Hk; [left|].
  - intros Hk%quiet_killed; [by left|]. destruct (can_open_out _ _); repeat constructor.
    apply not_eq_sym, chunk_not_manifest; [by apply chunk_name_simple|done].
Qed.

Lemma manifest_puts id l env r count torn s bytes :
  simple_name id → asked l = Some r → puts_names l →
  killed count torn (request_effects env r s) (disk s) !! manifest_key id (baseDir_ s) = Some bytes →
  disk s !! manifest_key id (baseDir_ s) = Some bytes ∨
  ∃ text, manifest_put id r = Some text ∧ bytes `prefix_of` text.
Proof.
  intros Hid Hr Hl. unfold puts_names in Hl. rewrite Hr in Hl.
  change (manifest_key id (baseDir_ s)) with (resolve (manifestPath s id)).
  assert (resolve (metaPath_ s) ≠ resolve (manifestPath s id)) as Hm
    by by apply not_eq_sym, manifest_not_meta.
  destruct r as [h d|h|h|m t|m|m]; cbn [request_effects]; try by left.
  - intros Hk%quiet_killed; [by left|]. apply quiet_store; [done| |by apply chunk_not_manifest].
    rewrite tmpPath_eq. apply chunk_not_manifest; [by apply simple_name_tmp|done].
  - intros Hk%quiet_killed; [by left|]. by apply quiet_effects.
  - destruct (can_open_out _ _); [|by left]. cbn [manifest_put].
    destruct (decide (m = id)) as [->|Hne].
    + rewrite bool_decide_eq_true_2 by done. destruct count as [|count]; cbn [killed perform].
      * destruct torn as [n|]; [|by left]. rewrite lookup_insert_eq. intros [= <-]. right.
        eexists. split; [done|]. apply prefix_take.
      * rewrite lookup_insert_eq. intros [= <-]. right. by eexists.
    + intros Hk%quiet_killed; [by left|]. repeat constructor.
      intros E. by apply manifestPath_inj in E.
Qed.

(** C15. A peer process that is killed at any moments, while it serves whatever
    connections, and started again on what is left of its files: when it then answers
    GET_CHUNK with a chunk, these are all the bytes of one that was sent to it in full
    under this name by PUT_CHUNK, or of a file it had at the beginning. *)
Theorem restarted_peer_serves_whole_chunks dir limit fs ls env c id
    (Hnames : Forall puts_names ls) (Hid : chunk_name id) (Hc : sends c = [])
    (Hreq : requested env c = Some (GetChunk id)) :
  let s := peer_lifetime ls (new_storage dir limit fs) in
  open_dir env (chunkPath s id) = None →
  ∃ c', (serve env c s).1 = Ok c' ∧
    (sent c' = sent c ++ ERR_line ∨
     ∃ bytes, sent c' = sent c ++ ok_size (zlen bytes) ++ bytes ∧
       (read_file (chunkPath (new_storage dir limit fs) id) fs = Some bytes ∨
        Exists (λ l, asked l = Some (PutChunk id bytes)) ls)).
Proof.
  cbn zeta. intros Hdir. set (s0 := new_storage dir limit fs) in *.
  set (s := peer_lifetime ls s0) in *.
  destruct (serve_get env c s id Hc Hreq) as (c' & E & Es). exists c'. split; [done|].
  rewrite Es. cbn [answer]. unfold loadChunk. m_unfold. unfold open_in. rewrite Hdir.
  destruct (read_file _ _) as [data|] eqn:Hf; [|by left].
  destruct (new_buffer _ _); [|by left]. right. exists data. rewrite fill_all. split; [done|].
  change (disk s !! chunk_key id (baseDir_ s) = Some data) in Hf.
  unfold s in Hf. rewrite peer_lifetime_base in Hf.
  apply (peer_lifetime_keeps (chunk_key id) (chunk_put id) eq) in Hf
    as [Hf|Hx]; [by left| |intros; by apply (meta_not_chunk _ id)|intros; by eapply chunk_puts|done].
  right. eapply Exists_impl; [exact Hx|]. intros l (text & Hp & <-). unfold put_by in Hp.
  destruct (asked l) as [[h d|h|h|m t|m|m]|]; try done. cbn in Hp.
  case_bool_decide; [|done]. injection Hp as <-. by subst h.
Qed.

(** What GET_MANIFEST reads is the beginning of a manifest that was put, or of a file that
    was there. *)
Theorem restarted_peer_reads_manifest_prefix dir limit fs ls id bytes
    (Hnames : Forall puts_names ls) (Hid : simple_name id) :
  let s := peer_lifetime ls (new_storage dir limit fs) in
  read_file (manifestPath s id) (disk s) = Some bytes →
  read_file (manifestPath (new_storage dir limit fs) id) fs = Some bytes ∨
  Exists (λ l, ∃ text, asked l = Some (PutManifest id text) ∧ bytes `prefix_of` text) ls.
Proof.
  cbn zeta. set (s0 := new_storage dir limit fs). set (s := peer_lifetime ls s0). intros Hf.
  change (disk s !! manifest_key id (baseDir_ s) = Some bytes) in Hf.
  unfold s in Hf. rewrite peer_lifetime_base in Hf.
  apply (peer_lifetime_keeps (manifest_key id) (manifest_put id) prefix) in Hf
    as [Hf|Hx]; [by left| |intros; by apply not_eq_sym, manifest_not_meta|intros; by eapply manifest_puts|done].
  right. eapply Exists_impl; [exact Hx|]. intros l (text & Hp & Hpre). exists text.
  split; [|done]. unfold put_by in Hp.
  destruct (asked l) as [[h d|h|h|m t|m|m]|]; try done. cbn in Hp.
  case_bool_decide; [|done]. injection Hp as <-. by subst m.
Qed.

(** ** Requests that only read *)

Definition reads_request (r : request) : bool :=
  match r with PutChunk _ _ | PutManifest _ _ => false | _ => true end.

(** No line of the life of a peer that asks for a change. *)
Definition only_reads (l : peer_life) : Prop :=
  match asked l with Some r => reads_request r = true | None => True end.

#[global] Instance only_reads_dec l : Decision (only_reads l).
Proof. unfold only_reads. destruct (asked l); apply _. Defined.

Lemma read_spares k env r s :
  reads_request r = true → resolve (metaPath_ s) ≠ k → Forall (spares k) (request_effects env r s).
Proof.
  intros Hr Hk. destruct r as [h d|h|h|m t|m|m]; try done; cbn [request_effects]; try constructor.
  cbn [effects_of]. unfold loadChunk_effects. destruct (open_in _ _ _) as [[size bytes]|]; [|constructor].
  destruct (is_ok _); [|constructor]. apply spares_persist. rewrite (metaPath_base _ s); [done|].
  unfold touch. by destruct (meta_ s !! h).
Qed.

(** The life of a peer that is only read changes no file but that of its table, whenever
    it is killed. *)
Lemma peer_live_spares k l s :
  only_reads l → resolve (metaPath_ s) ≠ k → disk (peer_live l s) !! k = disk s !! k.
Proof.
  intros Hl Hk.
  assert (∀ env c, asked l = requested env c → Forall (spares k) (round_effects env c s)) as Hr.
  { intros env c E. unfold round_effects. unfold only_reads in Hl. rewrite E in Hl.
    destruct (requested env c); [by apply read_spares|constructor]. }
  destruct l as [env c|env c count torn env' limit]; cbn [peer_live].
  - rewrite <- serve_performs, <- killed_all. by apply spares_killed, Hr.
  - set (s1 := set_disk _ s).
    pose proof (exec_performs env' RestartOp (set_max limit s1)) as E. cbn [storage_exec snd] in E.
    change (restart env' (maxBytes_ (set_max limit s1)) (set_max limit s1))
      with (restart env' limit s1) in E. rewrite <- E, <- killed_all.
    rewrite spares_killed by by apply spares_load. by apply spares_killed, Hr.
Qed.

Lemma peer_lifetime_spares k ls s :
  Forall only_reads ls → resolve (metaPath_ s) ≠ k →
  disk (peer_lifetime ls s) !! k = disk s !! k.
Proof.
  intros Hls. revert s. induction Hls as [|l ls Hl _ IH]; intros s Hk; [done|].
  cbn [peer_lifetime foldl]. change (foldl _ ?s ?k) with (peer_lifetime k s).
  rewrite IH; [by apply peer_live_spares|]. by rewrite (metaPath_base _ s) by apply peer_live_base.
Qed.
End requested.

(** ** Witnesses *)

(** A chunk is put; the process is killed while it is put again; it is asked for. *)
Definition put_request (text : str) : Conn :=
  incoming (lit "PUT_CHUNK ab12 5" ++ newline :: text).

Definition demo_peer_lives : list peer_life :=
  [Served good_env (put_request (lit "hello"));
   KilledIn good_env (put_request (lit "HELLO")) 0 (Some 2%nat) good_env 100].

Lemma restarted_peer_serves_whole_chunks_witness :
  let s := peer_lifetime (H := some_order) demo_peer_lives (new_storage (lit "node") 100 ∅) in
  let c := incoming (lit "GET_CHUNK ab12" ++ [newline]) in
  ∃ c', (serve (H := some_order) good_env c s).1 = Ok c' ∧
    sent c' = ok_size 5 ++ lit "hello" ∧
    Exists (λ l, asked l = Some (PutChunk (lit "ab12") (lit "hello")))
      demo_peer_lives.
Proof.
  cbn zeta.
  destruct (restarted_peer_serves_whole_chunks (H := some_order) (lit "node") 100 ∅
    demo_peer_lives good_env (incoming (lit "GET_CHUNK ab12" ++ [newline])) (lit "ab12")
    ltac:(by_eval) ltac:(by_eval) eq_refl ltac:(vm_compute; reflexivity) eq_refl) as (c' & E & Hs).
  assert (sent c' = ok_size 5 ++ lit "hello") as Es.
  { assert (sent <$> (serve (H := some_order) good_env
      (incoming (lit "GET_CHUNK ab12" ++ [newline]))
      (peer_lifetime (H := some_order) demo_peer_lives (new_storage (lit "node") 100 ∅))).1 =
      Ok (ok_size 5 ++ lit "hello")) as Ev by (vm_compute; reflexivity).
    rewrite E in Ev. by injection Ev. }
  exists c'. split; [exact E|]. split; [exact Es|].
  destruct Hs as [Hs|(bytes & Hb & Hw)].
  - rewrite Es in Hs. discriminate Hs.
  - rewrite Es in Hb. destruct Hw as [Hw|Hw]; [discriminate Hw|].
    apply Exists_cons_hd. vm_compute. reflexivity.
Defined.

Lemma restarted_peer_reads_manifest_prefix_witness :
  let s := peer_lifetime (H := some_order)
    [KilledIn good_env (incoming (lit "PUT_MANIFEST m1 5" ++ newline :: lit "hello")) 0 (Some 2%nat)
       good_env 100] (new_storage (lit "node") 100 ∅) in
  read_file (manifestPath s (lit "m1")) (disk s) = Some (lit "he") ∧
  lit "he" `prefix_of` lit "hello".
Proof.
  cbn zeta. set (ls := [KilledIn _ _ _ _ _ _]).
  assert (read_file (manifestPath (peer_lifetime (H := some_order) ls (new_storage (lit "node") 100 ∅))
    (lit "m1")) (disk (peer_lifetime (H := some_order) ls (new_storage (lit "node") 100 ∅))) =
    Some (lit "he")) as E by by_eval.
  split; [exact E|].
  destruct (restarted_peer_reads_manifest_prefix (H := some_order) (lit "node") 100 ∅ ls
    (lit "m1") (lit "he") ltac:(by_eval) ltac:(by_eval) E) as [Hf|Hx]; [discriminate Hf|].
  destruct (proj1 (Exists_exists _ _) Hx) as (l & Hl & text & Ht & Hp).
  apply list_elem_of_singleton in Hl. subst l.
  assert (asked (KilledIn good_env
    (incoming (lit "PUT_MANIFEST m1 5" ++ newline :: lit "hello")) 0 (Some 2%nat) good_env 100) =
    Some (PutManifest (lit "m1") (lit "hello"))) as Ea by (vm_compute; reflexivity).
  rewrite Ea in Ht. injection Ht as <-. exact Hp.
Defined.
