(* ===== verification/PeerClient.v ===== *)
(** * The peer client

    Models [src/core/peer/peer_client.cpp]: the six calls, each over a fresh
    connection.  A call is written as a session on the connection, with the calls
    of [close] that its error paths make; [session] is the [try] block and its
    handler. *)

From S2P Require Import Prelude.
From S2P Require Import CxxStd.
From S2P Require Import FileSystem.
From S2P Require Import PeerEndpoint.
From S2P Require Import Storage.
From S2P Require Import Tcp.
From S2P Require Import PeerService.

Definition close_now : M Conn unit := modifyM close.

(** [try { body } catch (...) { ::close(sock); throw; }]. *)
Definition session {A} (body : M Conn A) : M Conn A := λ c,
  match body c with
  | (Ok a, c) => (Ok a, c)
  | (Throw e, c) => (Throw e, close c)
  end.

(** [try { body } catch (...) { ::close(sock); return false; }]. *)
Definition session_bool (body : M Conn bool) : M Conn bool := λ c,
  match body c with
  | (Ok b, c) => (Ok b, c)
  | (Throw e, c) => (Ok false, close c)
  end.

(** [recv_line] as a call that returns its result and its line. *)
Definition recv_lineM : M Conn (bool * str) := λ c,
  let '(ok, line, c) := recv_line c in (Ok (ok, line), c).

Definition recv_payloadM (piece : Z → Z) (size : Z) : M Conn (str * Z) := λ c,
  let '(data, remaining, c) := recv_payload piece size c in (Ok (data, remaining), c).

(** A payload is sent when there is one. *)
Definition send_data (data : str) : M Conn unit :=
  if bool_decide (data = []) then mret () else send_all_or_throw data.

(** The requests that send a payload and read a status. *)
Definition put_session (head data : str) (failure : exn) : M Conn unit :=
  session (
    send_all_or_throw head ;;
    send_data data ;;
    resp ← recv_all_text;
    close_now ;;
    if starts_with (lit "OK") resp then mret () else throwM failure).

Definition putChunk_session (chunkId data : str) : M Conn unit :=
  put_session (lit "PUT_CHUNK " ++ chunkId ++ lit " " ++ to_string (zlen data) ++ [newline]) data
    (RuntimeError (lit "Peer PUT_CHUNK failed for " ++ chunkId)).

Definition putManifest_session (manifestId text : str) : M Conn unit :=
  put_session (lit "PUT_MANIFEST " ++ manifestId ++ lit " " ++ to_string (zlen text) ++ [newline])
    text (RuntimeError (lit "Peer PUT_MANIFEST failed for " ++ manifestId)).

(** The requests that read a header and a payload of the announced size. *)
Definition get_session (env : Env) (head cmd : str) : M Conn str :=
  session (
    send_all_or_throw head ;;
    '(ok, line) ← recv_lineM;
    if negb ok then
      close_now ;; throwM (RuntimeError (lit "Failed to read " ++ cmd ++ lit " header"))
    else
      let (status, iss) := get_word [] (istringstream line) in
      let (size, iss) := get_u64 0 iss in
      if negb (bool_decide (status = lit "OK")) then
        close_now ;; throwM (RuntimeError (lit "Peer returned non-OK for " ++ cmd))
      else
        liftR (new_buffer env size) ;;
        '(out, remaining) ← recv_payloadM (λ r, r) size;
        close_now ;;
        if remaining =? 0 then mret out
        else throwM (RuntimeError (lit "Incomplete " ++ cmd ++ lit " payload"))).

Definition getChunk_session (env : Env) (chunkId : str) : M Conn str :=
  get_session env (lit "GET_CHUNK " ++ chunkId ++ [newline]) (lit "GET_CHUNK").

Definition getManifest_session (env : Env) (manifestId : str) : M Conn str :=
  get_session env (lit "GET_MANIFEST " ++ manifestId ++ [newline]) (lit "GET_MANIFEST").

(** The requests that read one status line. *)
Definition has_session (head : str) : M Conn bool :=
  session_bool (
    send_all_or_throw head ;;
    '(ok, line) ← recv_lineM;
    close_now ;;
    mret (ok && starts_with (lit "OK") line)).

Definition hasChunk_session (chunkId : str) : M Conn bool :=
  has_session (lit "HAS_CHUNK " ++ chunkId ++ [newline]).

Definition hasManifest_session (manifestId : str) : M Conn bool :=
  has_session (lit "HAS_MANIFEST " ++ manifestId ++ [newline]).

(** The public calls: connect, then the session, in a process that no signal ends. *)
Definition over {A} (net : Net) (peer : PeerEndpoint) (body : M Conn A) : result A :=
  c ← connect_tcp_fatal_or_throw net (ip peer) (port peer);
  (body c).1.

Definition putChunk (net : Net) (peer : PeerEndpoint) (chunkId data : str) : result unit :=
  over net peer (putChunk_session chunkId data).
Definition getChunk (env : Env) (net : Net) (peer : PeerEndpoint) (chunkId : str) : result str :=
  over net peer (getChunk_session env chunkId).
Definition hasChunk (net : Net) (peer : PeerEndpoint) (chunkId : str) : result bool :=
  over net peer (hasChunk_session chunkId).
Definition putManifest (net : Net) (peer : PeerEndpoint) (manifestId text : str) : result unit :=
  over net peer (putManifest_session manifestId text).
Definition getManifest (env : Env) (net : Net) (peer : PeerEndpoint) (manifestId : str)
    : result str :=
  over net peer (getManifest_session env manifestId).
Definition hasManifest (net : Net) (peer : PeerEndpoint) (manifestId : str) : result bool :=
  over net peer (hasManifest_session manifestId).

(** ** What a session sends and makes of the answer *)

Lemma send_all_or_throw_clean buf c :
  sends c = [] → send_all_or_throw buf c = (Ok (), set_sent [] (sent c ++ buf) c).
Proof. intros. unfold send_all_or_throw. by rewrite send_all_clean. Qed.

(** The session part of a request, as text. *)
Definition wire (r : request) : str := header r ++ newline :: payload r.

Lemma send_data_clean data c :
  sends c = [] → send_data data c = (Ok (), set_sent [] (sent c ++ data) c).
Proof.
  intros Hc. unfold send_data. case_bool_decide as Hd; [|by apply send_all_or_throw_clean].
  subst data. rewrite app_nil_r, <- Hc. by destruct c.
Qed.

Lemma put_session_spec head data failure c :
  sends c = [] → breaks (conn_end c) = false →
  ∃ c', put_session head data failure c =
        (if starts_with (lit "OK") (stream c) then Ok () else Throw failure, c') ∧
        sent c' = sent c ++ head ++ data ∧
        closes c' = (closes c + if starts_with (lit "OK") (stream c) then 1 else 2)%nat.
Proof.
  intros Hc He. unfold put_session, session, close_now. m_unfold.
  rewrite send_all_or_throw_clean, send_data_clean, recv_all_text_spec by done.
  change (stream (set_sent _ _ _)) with (stream c). cbn [conn_end set_sent sent]. rewrite He.
  destruct (starts_with (lit "OK") (stream c)); eexists; (split; [done|]);
    cbn [sent closes close set_segments set_sent]; rewrite <- app_assoc; (split; [done|lia]).
Qed.

Lemma has_session_spec head c :
  sends c = [] →
  ∃ c', has_session head c =
        (Ok ((recv_line c).1.1 && starts_with (lit "OK") (recv_line c).1.2), c') ∧
        sent c' = sent c ++ head ∧ closes c' = S (closes c).
Proof.
  intros Hc. unfold has_session, session_bool, recv_lineM, close_now. m_unfold.
  rewrite send_all_or_throw_clean by done.
  destruct (recv_line_stream (set_sent [] (sent c ++ head) c)) as (c1 & E & _ & Ec).
  destruct (recv_line_stream c) as (c2 & E2 & _). rewrite E, E2.
  change (stream (set_sent [] (sent c ++ head) c)) with (stream c).
  destruct (line_of [] (stream c)) as [[ok line] rest]. cbn [fst snd].
  eexists. split; [done|]. by rewrite Ec.
Qed.

Lemma id_piece_ok r : 0 < r → 0 < (λ r : Z, r) r ≤ r.
Proof. cbn. lia. Qed.

(** A complete answer with a payload. *)
Lemma get_session_ok env head cmd d rest c :
  sends c = [] → new_buffer env (zlen d) = Ok () → stream c = ok_size (zlen d) ++ d ++ rest →
  ∃ c', get_session env head cmd c = (Ok d, c') ∧ sent c' = sent c ++ head ∧
        closes c' = S (closes c).
Proof.
  intros Hc Hb Hs. unfold get_session, session, recv_lineM, recv_payloadM, close_now. m_unfold.
  rewrite send_all_or_throw_clean by done.
  pose proof (new_buffer_small _ _ Hb). pose proof (zlen_nonneg d).
  assert (stream (set_sent [] (sent c ++ head) c) =
          (lit "OK" ++ space :: to_string (zlen d)) ++ newline :: d ++ rest) as Hs'.
  { change (stream (set_sent [] (sent c ++ head) c)) with (stream c). rewrite Hs.
    unfold ok_size. rewrite <- !app_assoc. done. }
  assert (plain (lit "OK" ++ space :: to_string (zlen d))) as Hp.
  { apply plain_app; [by_eval|]. constructor; [done|]. by apply plain_to_string. }
  destruct (recv_line_plain _ _ _ Hs' Hp) as (c1 & -> & Hs1 & Ec).
  { rewrite zlen_app, zlen_cons. pose proof (to_string_length (zlen d) ltac:(lia)).
    unfold zlen at 1. cbn [length lit list_ascii_of_string]. lia. }
  cbn [negb]. rewrite get_command by by_eval. rewrite get_last_size by lia.
  rewrite bool_decide_eq_true_2 by done. cbn [negb]. rewrite Hb.
  destruct (recv_payload_spec (λ r, r) (zlen d) c1 id_piece_ok ltac:(done)) as (c2 & E & _ & Ec2).
  rewrite Hs1 in E. unfold zlen in E at 2. rewrite Nat2Z.id, take_app_length in E.
  rewrite E. rewrite zlen_app.
  destruct (Z.eqb_spec (Z.max 0 (zlen d - (zlen d + zlen rest))) 0) as [_|Hne].
  - eexists. split; [done|]. cbn [sent closes close]. by rewrite Ec2, Ec.
  - pose proof (zlen_nonneg rest). lia.
Qed.

(** An answer that is not OK. *)
Lemma get_session_err env head cmd c :
  sends c = [] → stream c = ERR_line →
  ∃ c', get_session env head cmd c =
        (Throw (RuntimeError (lit "Peer returned non-OK for " ++ cmd)), c') ∧
        sent c' = sent c ++ head ∧ closes c' = S (S (closes c)).
Proof.
  intros Hc Hs. unfold get_session, session, recv_lineM, close_now. m_unfold.
  rewrite send_all_or_throw_clean by done.
  destruct (recv_line_plain (set_sent [] (sent c ++ head) c) (lit "ERR") []) as (c1 & -> & _ & Ec);
    [exact Hs|by_eval|by_eval|].
  cbn [negb].
  assert (get_word [] (istringstream (lit "ERR")) = (lit "ERR", mk_istream [] false)) as ->
    by (vm_compute; reflexivity).
  destruct (get_u64 0 (mk_istream [] false)) as [n st].
  rewrite bool_decide_eq_false_2 by by_eval. cbn [negb]. eexists. split; [done|].
  cbn [sent closes close]. by rewrite Ec.
Qed.

(** ** A client and a peer *)

(** A fresh connection that will deliver [l] and then close. *)
Definition fresh (l : list str) : Conn := mk_conn l PeerClosed [] [] 0 [] false.

(** The bytes that a session sends before it reads. *)
Definition requested {A} (body : M Conn A) : str := sent (body (fresh [])).2.

Section talk.
Context `{IterOrder}.

(** A session against a peer: the network cuts the request and the answer into
    segments of its choice.  A peer that dies closes the connection. *)
Definition talk {A} (env : Env) (seg seg' : str → list str) (body : M Conn A)
    : M StorageManager A := λ s,
  match serve env (fresh (seg (requested body))) s with
  | (Ok c, s) => ((body (fresh (seg' (sent c)))).1, s)
  | (Throw _, s) => ((body (fresh [])).1, s)
  end.

Definition segments_of (seg : str → list str) : Prop := ∀ t, concat (seg t) = t.

Lemma talk_answer {A} env seg seg' (body : M Conn A) r s :
  segments_of seg → segments_of seg' → requested body = wire r → request_ok env s r →
  ∃ c, stream c = (answer env r s).1 ∧ sends c = [] ∧ conn_end c = PeerClosed ∧
       talk env seg seg' body s = ((body c).1, (answer env r s).2).
Proof.
  intros H1 H2 Hw Hr. exists (fresh (seg' (answer env r s).1)).
  unfold stream. cbn [segments fresh]. rewrite H2. do 3 (split; [done|]). unfold talk.
  destruct (serve_spec env r (fresh (seg (requested body))) [] s) as (c' & -> & Es & _);
    [done| |done|].
  { unfold stream. cbn [segments fresh]. rewrite H1, Hw, app_nil_r. done. }
  cbn [sent fresh app] in Es. by do 5 f_equal.
Qed.

Lemma requested_put h d failure : requested (put_session h d failure) = h ++ d.
Proof.
  unfold requested.
  destruct (put_session_spec h d failure (fresh [])) as (c' & -> & Es & _); [done|done|].
  cbn [snd]. by rewrite Es.
Qed.

Lemma requested_get env head cmd : requested (get_session env head cmd) = head.
Proof.
  unfold requested, get_session, session, recv_lineM, close_now. m_unfold.
  rewrite send_all_or_throw_clean by done. done.
Qed.

Lemma requested_has head : requested (has_session head) = head.
Proof.
  unfold requested. destruct (has_session_spec head (fresh [])) as (c' & -> & Es & _); [done|].
  cbn [snd]. by rewrite Es.
Qed.

Lemma status_ok k : starts_with (lit "OK") (OK_line ++ k) = true.
Proof. done. Qed.

(** The status line of a has-request. *)
Lemma has_answer c b :
  stream c = (if b : bool then OK_line else ERR_line) →
  (recv_line c).1.1 && starts_with (lit "OK") (recv_line c).1.2 = b.
Proof.
  intros Hs. destruct (recv_line_stream c) as (c' & -> & _). rewrite Hs. by destruct b.
Qed.

Lemma talk_put_chunk env seg seg' h d s :
  segments_of seg → segments_of seg' → request_ok env s (PutChunk h d) →
  talk env seg seg' (putChunk_session h d) s =
  (match (storeChunk env h d s).1 with
   | Ok _ => Ok ()
   | Throw _ => Throw (RuntimeError (lit "Peer PUT_CHUNK failed for " ++ h))
   end, (storeChunk env h d s).2).
Proof.
  intros H1 H2 Hr.
  destruct (talk_answer env seg seg' (putChunk_session h d) (PutChunk h d) s H1 H2)
    as (c & Hs & Hc & He & ->); [|done|].
  { unfold putChunk_session. rewrite requested_put. unfold wire. cbn [header payload].
    rewrite <- !app_assoc. done. }
  unfold putChunk_session.
  match goal with |- context [put_session ?x ?y ?z c] =>
    destruct (put_session_spec x y z c Hc) as (c' & -> & _); [by rewrite He|] end.
  rewrite Hs. cbn [answer]. by destruct (storeChunk env h d s) as [[[]|e] s'].
Qed.

Lemma talk_get_chunk env cenv seg seg' h s :
  segments_of seg → segments_of seg' → request_ok env s (GetChunk h) →
  (∀ d, (loadChunk env h s).1 = Ok d → new_buffer cenv (zlen d) = Ok ()) →
  talk env seg seg' (getChunk_session cenv h) s =
  (match (loadChunk env h s).1 with
   | Ok d => Ok d
   | Throw _ => Throw (RuntimeError (lit "Peer returned non-OK for GET_CHUNK"))
   end, (loadChunk env h s).2).
Proof.
  intros H1 H2 Hr Hb.
  destruct (talk_answer env seg seg' (getChunk_session cenv h) (GetChunk h) s H1 H2)
    as (c & Hs & Hc & He & ->); [|done|].
  { unfold getChunk_session. rewrite requested_get. unfold wire. cbn [header payload].
    rewrite <- !app_assoc. done. }
  unfold getChunk_session. cbn [answer] in Hs |- *.
  destruct (loadChunk env h s) as [[d|e] s']; cbn [fst snd] in *.
  - rewrite <- (app_nil_r d) in Hs.
    match goal with |- context [get_session ?x ?y ?z c] =>
      destruct (get_session_ok x y z d [] c Hc (Hb d eq_refl)) as (c' & -> & _); [|done] end.
    rewrite Hs. by rewrite !app_nil_r.
  - match goal with |- context [get_session ?x ?y ?z c] =>
      by destruct (get_session_err x y z c Hc Hs) as (c' & -> & _) end.
Qed.

Lemma talk_has_chunk env seg seg' h s :
  segments_of seg → segments_of seg' → request_ok env s (HasChunk h) →
  talk env seg seg' (hasChunk_session h) s = (Ok (Storage.hasChunk s h), s).
Proof.
  intros H1 H2 Hr.
  destruct (talk_answer env seg seg' (hasChunk_session h) (HasChunk h) s H1 H2)
    as (c & Hs & Hc & He & ->); [|done|].
  { unfold hasChunk_session. rewrite requested_has. unfold wire. cbn [header payload].
    rewrite <- !app_assoc. done. }
  unfold hasChunk_session. cbn [answer fst snd] in *.
  match goal with |- context [has_session ?x c] =>
    destruct (has_session_spec x c Hc) as (c' & -> & _) end.
  by rewrite (has_answer c _ Hs).
Qed.

Lemma talk_put_manifest env seg seg' m t s :
  segments_of seg → segments_of seg' → request_ok env s (PutManifest m t) →
  talk env seg seg' (putManifest_session m t) s =
  match write_file env (manifestPath s m) t (disk s) with
  | Some fs => (Ok (), set_disk fs s)
  | None => (Throw (RuntimeError (lit "Peer PUT_MANIFEST failed for " ++ m)), s)
  end.
Proof.
  intros H1 H2 Hr.
  destruct (talk_answer env seg seg' (putManifest_session m t) (PutManifest m t) s H1 H2)
    as (c & Hs & Hc & He & ->); [|done|].
  { unfold putManifest_session. rewrite requested_put. unfold wire. cbn [header payload].
    rewrite <- !app_assoc. done. }
  unfold putManifest_session.
  match goal with |- context [put_session ?x ?y ?z c] =>
    destruct (put_session_spec x y z c Hc) as (c' & -> & _); [by rewrite He|] end.
  rewrite Hs. cbn [answer]. by destruct (write_file _ _ _ _).
Qed.

Lemma talk_get_manifest env cenv seg seg' m s :
  segments_of seg → segments_of seg' → request_ok env s (GetManifest m) →
  (∀ t, read_file (manifestPath s m) (disk s) = Some t → new_buffer cenv (zlen t) = Ok ()) →
  talk env seg seg' (getManifest_session cenv m) s =
  (match read_file (manifestPath s m) (disk s) with
   | Some t => Ok t
   | None => Throw (RuntimeError (lit "Peer returned non-OK for GET_MANIFEST"))
   end, s).
Proof.
  intros H1 H2 Hr Hb.
  destruct (talk_answer env seg seg' (getManifest_session cenv m) (GetManifest m) s H1 H2)
    as (c & Hs & Hc & He & ->); [|done|].
  { unfold getManifest_session. rewrite requested_get. unfold wire. cbn [header payload].
    rewrite <- !app_assoc. done. }
  unfold getManifest_session. cbn [answer fst snd] in Hs |- *.
  destruct (read_file (manifestPath s m) (disk s)) as [t|].
  - rewrite <- (app_nil_r t) in Hs.
    match goal with |- context [get_session ?x ?y ?z c] =>
      destruct (get_session_ok x y z t [] c Hc (Hb t eq_refl)) as (c' & -> & _); [|done] end.
    rewrite Hs. by rewrite !app_nil_r.
  - match goal with |- context [get_session ?x ?y ?z c] =>
      by destruct (get_session_err x y z c Hc Hs) as (c' & -> & _) end.
Qed.

Lemma talk_has_manifest env seg seg' m s :
  segments_of seg → segments_of seg' → request_ok env s (HasManifest m) →
  talk env seg seg' (hasManifest_session m) s =
  (Ok (bool_decide (is_Some (read_file (manifestPath s m) (disk s)))), s).
Proof.
  intros H1 H2 Hr.
  destruct (talk_answer env seg seg' (hasManifest_session m) (HasManifest m) s H1 H2)
    as (c & Hs & Hc & He & ->); [|done|].
  { unfold hasManifest_session. rewrite requested_has. unfold wire. cbn [header payload].
    rewrite <- !app_assoc. done. }
  unfold hasManifest_session. cbn [answer fst snd] in *.
  match goal with |- context [has_session ?x c] =>
    destruct (has_session_spec x c Hc) as (c' & -> & _) end.
  rewrite (has_answer c (bool_decide (is_Some (read_file (manifestPath s m) (disk s))))); [done|].
  rewrite Hs. by destruct (read_file _ _).
Qed.

(** ** Theorems *)

(** C30. Over any segmentation of the bytes, the client's calls for chunks are the
    operations of the peer's storage manager: they change its state as the
    operation does, return what it returns, and throw when it throws. *)
Theorem remote_chunk_calls env cenv seg seg' s
    (H1 : segments_of seg) (H2 : segments_of seg') :
  (∀ h d, request_ok env s (PutChunk h d) →
     talk env seg seg' (putChunk_session h d) s =
     (match (storeChunk env h d s).1 with
      | Ok _ => Ok ()
      | Throw _ => Throw (RuntimeError (lit "Peer PUT_CHUNK failed for " ++ h))
      end, (storeChunk env h d s).2)) ∧
  (∀ h, request_ok env s (GetChunk h) →
     (∀ d, (loadChunk env h s).1 = Ok d → new_buffer cenv (zlen d) = Ok ()) →
     talk env seg seg' (getChunk_session cenv h) s =
     (match (loadChunk env h s).1 with
      | Ok d => Ok d
      | Throw _ => Throw (RuntimeError (lit "Peer returned non-OK for GET_CHUNK"))
      end, (loadChunk env h s).2)) ∧
  (∀ h, request_ok env s (HasChunk h) →
     talk env seg seg' (hasChunk_session h) s = (Ok (Storage.hasChunk s h), s)).
Proof.
  split; [|split]; intros; [by apply talk_put_chunk|by apply talk_get_chunk|
    by apply talk_has_chunk].
Qed.

(** A chunk that a peer accepted and that fits its limit is what the next
    download of its id returns, byte for byte. *)
Theorem remote_put_then_get env env' cenv seg seg' h d s
    (H1 : segments_of seg) (H2 : segments_of seg')
    (Hs : storage_inv s) (Hm : 0 ≤ maxBytes_ s) (Hargs : store_args_ok h d s)
    (Hio : io_ok env s h) (Hfit : maxBytes_ s = 0 ∨ zlen d ≤ maxBytes_ s)
    (Hlen : zlen h ≤ 8000) (Hmem : new_buffer env (zlen d) = Ok ())
    (Hmem' : new_buffer env' (zlen d) = Ok () ∧ new_buffer env' 0 = Ok ())
    (Hcmem : new_buffer cenv (zlen d) = Ok ()) :
  ∃ s', talk env seg seg' (putChunk_session h d) s = (Ok (), s') ∧
    (talk env' seg seg' (getChunk_session cenv h) s').1 = Ok d ∧
    talk env' seg seg' (hasChunk_session h) s' = (Ok true, s').
Proof.
  destruct (storeChunk_spec env h d s Hs Hm Hargs Hio) as (s' & E & _ & Htrim & Eb & _ & _ & Hd).
  assert (is_Some (meta_ s' !! h)) as Hhas.
  { destruct (Z.eqb_spec (maxBytes_ s) 0) as [|Hne].
    - rewrite Htrim. unfold with_entry. rewrite lookup_insert_eq. by eexists.
    - apply (new_entry_survives _ _ _ _ _ Hs) in Htrim; [done|]. by destruct Hfit. }
  assert (is_word h) as Hw by apply Hargs.
  exists s'. rewrite talk_put_chunk; [|done|done|].
  2: { by apply chunk_request_ok. }
  rewrite E. split; [done|].
  assert ((loadChunk env' h s').1 = Ok d) as El.
  { erewrite loadChunk_found; [done| |apply Hmem']. rewrite (chunkPath_base s' s) by done.
    rewrite Hd by done. by rewrite bool_decide_eq_true_2. }
  split.
  - rewrite talk_get_chunk; [by rewrite El|done|done| |].
    + apply chunk_request_ok; [done|done|apply Hmem'|done].
    + intros d' Ed. rewrite El in Ed. by injection Ed as <-.
  - rewrite talk_has_chunk; [|done|done|].
    + unfold Storage.hasChunk. by rewrite bool_decide_eq_true_2.
    + apply chunk_request_ok; [done|done|apply Hmem'|done].
Qed.

(** A manifest that a peer wrote is what its clients read back, and writing it
    leaves the chunk table alone; a peer that cannot open the file makes the
    upload throw. *)
Theorem remote_manifest_calls env env' cenv seg seg' m t s
    (H1 : segments_of seg) (H2 : segments_of seg')
    (Hm : is_word m) (Hlen : zlen m ≤ 8000)
    (Hmem : new_buffer env (zlen t) = Ok ())
    (Hmem' : new_buffer env' (zlen t) = Ok () ∧ new_buffer env' 0 = Ok ())
    (Hcmem : new_buffer cenv (zlen t) = Ok ())
    (Hdir : open_dir env' (manifestPath s m) = None) :
  (can_open_out env (manifestPath s m) = true →
   ∃ s', talk env seg seg' (putManifest_session m t) s = (Ok (), s') ∧
     meta_ s' = meta_ s ∧ usedBytes_ s' = usedBytes_ s ∧
     talk env' seg seg' (getManifest_session cenv m) s' = (Ok t, s') ∧
     talk env' seg seg' (hasManifest_session m) s' = (Ok true, s')) ∧
  (can_open_out env (manifestPath s m) = false →
   talk env seg seg' (putManifest_session m t) s =
   (Throw (RuntimeError (lit "Peer PUT_MANIFEST failed for " ++ m)), s)).
Proof.
  assert (request_ok env s (PutManifest m t)) as Hr by (by apply chunk_request_ok).
  unfold manifestPath in *. split; intros Ho;
    (rewrite talk_put_manifest by done; unfold write_file, manifestPath; rewrite Ho); [|done].
  eexists. split; [done|]. split; [done|]. split; [done|].
  set (s' := set_disk _ s).
  assert (read_file (manifestPath s' m) (disk s') = Some t) as Hread by apply lookup_insert_eq.
  pose proof (header_short (GetManifest m)) as L1. pose proof (header_short (HasManifest m)) as L2.
  cbn [payload request_name] in L1, L2. change (zlen []) with 0 in L1, L2.
  assert (∀ r, r = GetManifest m ∨ r = HasManifest m → request_ok env' s' r) as Hok.
  { intros r Hr'. split; [by destruct Hr' as [->| ->]|].
    split; [destruct Hr' as [->| ->]; lia|]. split; [by destruct Hr' as [->| ->]; apply Hmem'|].
    destruct Hr' as [->| ->]; (split; [done|]); intros t' Ht'; rewrite Hread in Ht';
      injection Ht' as <-; apply Hmem'. }
  split.
  - rewrite talk_get_manifest; [by rewrite Hread|done|done|by apply Hok; left|].
    intros t' Ht'. rewrite Hread in Ht'. by injection Ht' as <-.
  - rewrite talk_has_manifest; [by rewrite Hread|done|done|by apply Hok; right].
Qed.
End talk.

(** A peer that goes away between the line and the payload of PUT_CHUNK ends the process
    of its client, which so does not get to its other peers: the signal comes before the
    exception that the code would handle. *)
Theorem vanished_peer_kills_client chunkId ch d c n l
    (Hn : zlen (header (PutChunk chunkId (ch :: d))) + 1 ≤ n) (Hs : sends c = n :: - EPIPE :: l) :
  let c' := (putChunk_session chunkId (ch :: d) c).2 in
  signalled c' = true ∧
  sent c' = sent c ++ header (PutChunk chunkId (ch :: d)) ++ [newline].
Proof.
  cbn zeta. unfold putChunk_session, put_session, session. m_unfold.
  set (head := lit "PUT_CHUNK " ++ _).
  assert (head = header (PutChunk chunkId (ch :: d)) ++ [newline]) as Eh.
  { unfold head. cbn [header]. by rewrite <- !app_assoc. }
  assert (send_all_or_throw head c = (Ok (), set_sent (- EPIPE :: l) (sent c ++ head) c)) as ->.
  { unfold send_all_or_throw. rewrite (send_all_whole n (- EPIPE :: l)); [done| |..|done].
    - rewrite Eh. by destruct (header _).
    - rewrite Eh, zlen_app. exact Hn. }
  unfold send_data. rewrite bool_decide_eq_false_2 by done.
  unfold send_all_or_throw, send_all_nothrow. cbn [length send_loop]. unfold send.
  cbn [sends set_sent]. rewrite zlen_cons. pose proof (zlen_nonneg d).
  destruct (Z.ltb_spec 0 (1 + zlen d)); [|lia]. change (- EPIPE =? - EPIPE) with true.
  cbn [fst snd]. change (- EPIPE <=? 0) with true. unfold close, sigpipe. cbn [snd signalled sent]. by rewrite <- Eh.
Qed.

(** A call that succeeds closes its descriptor once; a download or an upload
    that the peer refuses closes it a second time on the way out, when the number
    may already belong to another connection of the process. *)
Theorem refused_call_closes_twice env c h d
    (Hc : sends c = []) (He : conn_end c = PeerClosed) (Hcl : closes c = 0%nat) :
  (stream c = OK_line → closes (putChunk_session h d c).2 = 1%nat) ∧
  (stream c = ERR_line →
   closes (putChunk_session h d c).2 = 2%nat ∧ closes (getChunk_session env h c).2 = 2%nat) ∧
  closes (hasChunk_session h c).2 = 1%nat.
Proof.
  unfold putChunk_session, getChunk_session, hasChunk_session.
  match goal with |- context [put_session ?x ?y ?z c] =>
    destruct (put_session_spec x y z c Hc) as (c1 & -> & _ & E1); [by rewrite He|] end.
  match goal with |- context [has_session ?x c] =>
    destruct (has_session_spec x c Hc) as (c2 & -> & _ & E2) end.
  cbn [snd]. rewrite E1, E2, Hcl. split; [by intros ->|]. split; [|done].
  intros Hs. split; [by rewrite Hs|].
  match goal with |- context [get_session ?x ?y ?z c] =>
    destruct (get_session_err x y z c Hc Hs) as (c3 & -> & _ & E3) end.
  cbn [snd]. by rewrite E3, Hcl.
Qed.

(** ** Witnesses *)

(** In one segment, and byte by byte. *)
Definition whole (t : str) : list str := [t].
Definition bytewise (t : str) : list str := map (λ ch, [ch]) t.

Lemma whole_segments : segments_of whole.
Proof. intros t. apply app_nil_r. Qed.

Lemma bytewise_segments : segments_of bytewise.
Proof.
  intros t. unfold bytewise. induction t as [|ch t IH]; [done|]. cbn [map concat app]. by rewrite IH.
Qed.

Lemma vanished_peer_kills_client_witness :
  signalled (putChunk_session (lit "ab12") (lit "hello")
    (mk_conn [] PeerClosed [100; - EPIPE] [] 0 (lit "Broken pipe") false)).2 = true.
Proof.
  exact (proj1 (vanished_peer_kills_client (lit "ab12") "h"%char (lit "ello")
    (mk_conn [] PeerClosed [100; - EPIPE] [] 0 (lit "Broken pipe") false) 100 []
    ltac:(by_eval) eq_refl)).
Defined.

Lemma remote_chunk_calls_witness :
  talk (H := some_order) good_env bytewise whole (hasChunk_session (lit "ab12")) demo_state =
  (Ok false, demo_state).
Proof.
  exact (proj2 (proj2 (remote_chunk_calls (H := some_order) good_env good_env bytewise whole
    demo_state bytewise_segments whole_segments)) (lit "ab12")
    (chunk_request_ok good_env demo_state (HasChunk (lit "ab12")) ltac:(by_eval) ltac:(by_eval)
      ltac:(by_eval) I)).
Defined.

Lemma remote_put_then_get_witness :
  ∃ s', talk (H := some_order) good_env whole bytewise
          (putChunk_session (lit "ab12") (lit "hello")) demo_state = (Ok (), s') ∧
        (talk (H := some_order) good_env whole bytewise
          (getChunk_session good_env (lit "ab12")) s').1 = Ok (lit "hello").
Proof.
  destruct (remote_put_then_get (H := some_order) good_env good_env good_env whole bytewise
    (lit "ab12") (lit "hello") demo_state whole_segments bytewise_segments)
    as (s' & E & E' & _); [apply empty_inv|by_eval|by_eval|by_eval|left; by_eval|by_eval|by_eval|
    by_eval|by_eval|].
  exists s'. exact (conj E E').
Defined.

Lemma remote_manifest_calls_witness :
  ∃ s', talk (H := some_order) good_env whole bytewise
          (putManifest_session (lit "m1") (lit "text")) demo_state = (Ok (), s') ∧
        talk (H := some_order) good_env whole bytewise
          (getManifest_session good_env (lit "m1")) s' = (Ok (lit "text"), s').
Proof.
  destruct (proj1 (remote_manifest_calls (H := some_order) good_env good_env good_env whole bytewise
    (lit "m1") (lit "text") demo_state whole_segments bytewise_segments ltac:(by_eval)
    ltac:(by_eval) ltac:(by_eval) ltac:(by_eval) ltac:(by_eval) eq_refl) eq_refl)
    as (s' & E & _ & _ & E' & _).
  exists s'. exact (conj E E').
Defined.

Lemma refused_call_closes_twice_witness :
  closes (getChunk_session good_env (lit "ab12") (fresh (bytewise ERR_line))).2 = 2%nat.
Proof.
  exact (proj2 (proj1 (proj2 (refused_call_closes_twice good_env (fresh (bytewise ERR_line))
    (lit "ab12") (lit "hello") eq_refl eq_refl eq_refl)) ltac:(by_eval))).
Defined.
