(* ===== verification/PeerLifecycle.v ===== *)
(** * Starting and stopping the peer's thread

    Models the members [start], [stop], the destructor and the control flow of
    [runLoop] of [src/core/peer/peer_service.cpp] as two threads that interleave:
    the owner, which calls the members, and the worker, which runs the loop.  The
    handlers of the connections are in [PeerService]; here the handler of a round
    receives or sends as often as the other side of the connection makes it, and
    then returns or throws. *)

From S2P Require Import Prelude.
From S2P Require Import CxxStd.
From S2P Require Import Tcp.

(** Where the worker is in [runLoop]. *)
Inductive worker_pc :=
  | NotStarted
  | AtSocket          (* before [::socket] *)
  | AtPublish         (* before [listenFd_ = listen_fd] *)
  | AtBind            (* before [bind] and [listen] *)
  | AtLoop            (* before [while (running_.load())] *)
  | AtAccept          (* in [accept] *)
  | AtHandler         (* serving a connection *)
  | AtExit            (* after the loop *)
  | Finished.

(** Where the owner is: outside, or in [stop]. *)
Inductive owner_pc := Outside | AtShutdown | AtJoin.

Record Service := mk_service {
  running_ : bool;
  listenFd_ : bool;       (* [listenFd_ >= 0] *)
  joinable : bool;        (* [worker_] holds a thread *)
  worker : worker_pc;
  owner : owner_pc;
  listening : bool;       (* the worker's socket is open *)
  terminated : bool;      (* [std::terminate] was called *)
}.

#[export] Instance worker_pc_eq_dec : EqDecision worker_pc.
Proof. solve_decision. Defined.
#[export] Instance owner_pc_eq_dec : EqDecision owner_pc.
Proof. solve_decision. Defined.
#[export] Instance Service_eq_dec : EqDecision Service.
Proof. solve_decision. Defined.

Definition new_service : Service := mk_service false false false NotStarted Outside false false.

(** Assigning to a [std::thread] that still holds a thread calls
    [std::terminate]. *)
Definition start (s : Service) : Service :=
  if running_ s then s
  else if joinable s then
    mk_service true (listenFd_ s) true (worker s) Outside (listening s) true
  else mk_service true (listenFd_ s) true AtSocket Outside (listening s) (terminated s).

(** [stop] up to the shutdown of the socket. *)
Definition stop_begin (s : Service) : Service :=
  if running_ s
  then mk_service false (listenFd_ s) (joinable s) (worker s) AtShutdown (listening s) (terminated s)
  else s.

Definition stop_shutdown (s : Service) : Service :=
  mk_service (running_ s) false (joinable s) (worker s) AtJoin
    (if listenFd_ s then false else listening s) (terminated s).

Definition stop_join (s : Service) : Service :=
  mk_service (running_ s) (listenFd_ s) false (worker s) Outside (listening s) (terminated s).

(** The destructor of a [std::thread] that still holds a thread calls
    [std::terminate]. *)
Definition destroy (s : Service) : Service :=
  mk_service (running_ s) (listenFd_ s) (joinable s) (worker s) Outside (listening s)
    (terminated s || joinable s).

(** The events of a worker step: whether the system call or the handler of the
    step succeeds, or the handler receives or sends once [More] and goes on. *)
Inductive event := Good | Bad | More.

#[export] Instance event_eq_dec : EqDecision event.
Proof. solve_decision. Defined.

(** An exception leaves [runLoop]; the lambda of [start] clears the flag. *)
Definition worker_dies (close_socket : bool) (s : Service) : Service :=
  mk_service false (if close_socket then false else listenFd_ s) (joinable s) Finished (owner s)
    (if close_socket then false else listening s) (terminated s).

Definition at_worker (w : worker_pc) (s : Service) : Service :=
  mk_service (running_ s) (listenFd_ s) (joinable s) w (owner s) (listening s) (terminated s).

(** One step of the worker; [None] when it cannot move: it has no thread, is
    finished, or waits in [accept] for a connection.  Nothing bounds how often a
    handler receives: [recv_line] does not count the carriage returns it drops, and a
    payload may be as long as its header says. *)
Definition worker_step (e : event) (s : Service) : option Service :=
  match worker s, e with
  | NotStarted, _ | Finished, _ => None
  | AtHandler, More => Some s
  | _, More => None
  | AtSocket, Good =>
      Some (mk_service (running_ s) (listenFd_ s) (joinable s) AtPublish (owner s) true (terminated s))
  | AtSocket, Bad => Some (worker_dies false s)
  | AtPublish, _ =>
      Some (mk_service (running_ s) true (joinable s) AtBind (owner s) (listening s) (terminated s))
  | AtBind, Good => if listening s then Some (at_worker AtLoop s) else Some (worker_dies true s)
  | AtBind, Bad => Some (worker_dies true s)
  | AtLoop, _ => Some (at_worker (if running_ s then AtAccept else AtExit) s)
  | AtAccept, Good => if listening s then Some (at_worker AtHandler s) else None
  | AtAccept, Bad => Some (at_worker (if running_ s then AtLoop else AtExit) s)
  | AtHandler, Good => Some (at_worker AtLoop s)
  | AtHandler, Bad => Some (worker_dies false s)
  | AtExit, _ =>
      Some (mk_service false false (joinable s) Finished (owner s)
              (if listenFd_ s then false else listening s) (terminated s))
  end.

(** A run of the worker alone, each step of it possible. *)
Fixpoint worker_run (evs : list event) (s : Service) {struct evs} : option Service :=
  match evs with
  | [] => Some s
  | e :: evs => s' ← worker_step e s; worker_run evs s'
  end.

(** The steps but those in which a handler goes on. *)
Definition moves (evs : list event) : nat := length (filter (λ e, e ≠ More) evs).

(** The worker can do something else than to go on in a handler. *)
Definition can_move (s : Service) : Prop := ∃ e, e ≠ More ∧ is_Some (worker_step e s).

(** A terminated process makes no step. *)
Inductive step : Service → Service → Prop :=
  | step_worker e s s' : terminated s = false → worker_step e s = Some s' → step s s'
  | step_start s : terminated s = false → owner s = Outside → step s (start s)
  | step_stop s : terminated s = false → owner s = Outside → step s (stop_begin s)
  | step_shutdown s : terminated s = false → owner s = AtShutdown → step s (stop_shutdown s)
  | step_join s : terminated s = false → owner s = AtJoin →
      worker s = Finished ∨ joinable s = false → step s (stop_join s).

Definition reachable : Service → Prop := rtc step new_service.

(** A bound on the moves that the worker still makes once it was told to stop. *)
Definition remaining (s : Service) : nat :=
  match worker s with
  | AtSocket => 6 | AtPublish => 5 | AtBind => 4 | AtAccept => 3 | AtHandler => 3 | AtLoop => 2
  | AtExit => 1 | NotStarted | Finished => 0
  end.

(** The worker has published its socket. *)
Definition published (w : worker_pc) : bool :=
  match w with AtBind | AtLoop | AtAccept | AtHandler => true | _ => false end.

(** What holds in every reachable state of a process that is alive. *)
Record service_inv (s : Service) : Prop := {
  inv_owner : owner s ≠ Outside → running_ s = false;
  inv_published : published (worker s) = true →
    listenFd_ s = true ∨ owner s = AtJoin;
  inv_accept : worker s = AtAccept → owner s = AtJoin → listening s = false;
  inv_outside : owner s = Outside → running_ s = false →
    worker s = NotStarted ∨ worker s = Finished;
  inv_joinable : joinable s = false → worker s = NotStarted ∨ worker s = Finished;
  inv_started : joinable s = true → worker s ≠ NotStarted;
}.

(** The loop is told to end before the owner waits for it. *)
Lemma stop_begin_stops s : running_ (stop_begin s) = false.
Proof. unfold stop_begin. by destruct (running_ s) eqn:E. Qed.

Lemma new_service_inv : service_inv new_service.
Proof. split; cbn; naive_solver. Qed.

Lemma worker_step_inv e s s' :
  service_inv s → worker_step e s = Some s' → service_inv s'.
Proof.
  intros [Ho Hp Ha Hout Hj Hst] Hstep. destruct s as [r fd j w o l t].
  unfold worker_step in Hstep. cbn [worker running_ listenFd_ joinable owner listening terminated] in *.
  destruct w, e; try done;
    repeat match type of Hstep with context [if ?b then _ else _] => destruct b eqn:? end;
    simplify_eq; split; cbn in *; naive_solver.
Qed.

Lemma service_step_inv s s' : service_inv s → step s s' → terminated s' = true ∨ service_inv s'.
Proof.
  intros Hs Hstep. destruct Hstep as [e s s' _ Hw|s Ht Ho|s Ht Ho|s Ht Ho|s Ht Ho Hw].
  - right. by eapply worker_step_inv.
  - unfold start. destruct (running_ s); [by right|]. destruct (joinable s); [by left|].
    right. destruct s, Hs. split; cbn in *; naive_solver.
  - right. unfold stop_begin. destruct (running_ s) eqn:Hr; [|done].
    destruct s, Hs. split; cbn in *; naive_solver.
  - right. destruct s, Hs. split; cbn in *; naive_solver.
  - right. destruct s, Hs. split; cbn in *; naive_solver.
Qed.

Lemma steps_inv s s' :
  rtc step s s' → service_inv s → terminated s' = true ∨ service_inv s'.
Proof.
  induction 1 as [s|s s1 s' Hstep Hr IH]; intros Hs; [by right|].
  destruct (service_step_inv _ _ Hs Hstep) as [Ht|Hs1]; [|by apply IH].
  left. destruct Hr as [|s1 s2 s' Hstep' _]; [done|]. destruct Hstep'; congruence.
Qed.

Lemma moves_cons e evs : moves (e :: evs) = ((if decide (e = More) then 0 else 1) + moves evs)%nat.
Proof.
  unfold moves. case_decide as E; [subst; by rewrite filter_cons_False by tauto|].
  by rewrite filter_cons_True.
Qed.

(** A handler that goes on leaves the service as it is. *)
Lemma more_step s s' : worker_step More s = Some s' → s' = s ∧ worker s = AtHandler.
Proof. unfold worker_step. destruct (worker s) eqn:E; try done. by intros [= <-]. Qed.

Lemma worker_move_joining e s s' :
  e ≠ More → service_inv s → owner s = AtJoin → worker_step e s = Some s' →
  owner s' = AtJoin ∧ (remaining s' < remaining s)%nat.
Proof.
  intros He Hs Ho Hw. pose proof (inv_owner s Hs) as Hrun. rewrite Ho in Hrun.
  assert (running_ s = false) as Hr by (by apply Hrun).
  pose proof (inv_accept s Hs) as Hacc.
  destruct s as [r fd j w o l t]. cbn in *. subst r o.
  unfold worker_step in Hw. cbn in Hw.
  destruct w, e; try done;
    repeat match type of Hw with context [if ?b then _ else _] => destruct b eqn:? end;
    simplify_eq; cbn; (split; [done|lia]) || naive_solver.
Qed.

(** The worker that was told to stop is done, or can move. *)
Lemma joining_can_move s : worker s = Finished ∨ worker s = NotStarted ∨ can_move s.
Proof.
  destruct (worker s) eqn:Hw; auto; right; right; exists Bad; (split; [done|]);
    unfold worker_step; rewrite Hw; by eexists.
Qed.

Lemma worker_run_joining evs s s' :
  service_inv s → owner s = AtJoin → worker_run evs s = Some s' →
  service_inv s' ∧ owner s' = AtJoin ∧ terminated s' = terminated s ∧
  (moves evs + remaining s' ≤ remaining s)%nat.
Proof.
  revert s. induction evs as [|e evs IH]; intros s Hs Ho; [by intros [= <-]|].
  cbn [worker_run]. destruct (worker_step e s) as [s1|] eqn:E; [|done]. intros Hrun.
  assert (service_inv s1) as Hs1 by (by eapply worker_step_inv).
  assert (terminated s1 = terminated s) as <-.
  { clear -E. destruct s as [r fd j w o l t]. unfold worker_step in E. cbn in *.
    destruct w, e; try done; repeat case_match; by simplify_eq. }
  rewrite moves_cons. case_decide as He.
  - subst. apply more_step in E as [-> _]. by apply IH.
  - destruct (worker_move_joining e s s1 He Hs Ho E) as [Ho1 Hlt].
    destruct (IH s1 Hs1 Ho1 Hrun) as (? & ? & ? & ?). split_and!; done || lia.
Qed.

Lemma remaining_bound s : (remaining s ≤ 6)%nat.
Proof. unfold remaining. destruct (worker s); lia. Qed.

(** A run in which no system call and no handler of the worker fails: only an
    [accept] on the closed socket does. *)
Inductive good_step : Service → Service → Prop :=
  | good_worker s s' : worker_step Good s = Some s' → good_step s s'
  | good_more s s' : worker_step More s = Some s' → good_step s s'
  | good_closed s s' : worker s = AtAccept → listening s = false →
      worker_step Bad s = Some s' → good_step s s'
  | good_start s : owner s = Outside → good_step s (start s)
  | good_stop s : owner s = Outside → good_step s (stop_begin s)
  | good_shutdown s : owner s = AtShutdown → good_step s (stop_shutdown s)
  | good_join s : owner s = AtJoin → worker s = Finished ∨ joinable s = false →
      good_step s (stop_join s).

(** A thread object is left behind only while the service runs or stops. *)
Definition tidy (s : Service) : Prop :=
  service_inv s ∧ terminated s = false ∧
  (owner s = Outside → running_ s = false → joinable s = false) ∧
  (owner s = Outside → worker s = AtPublish ∨ published (worker s) = true → listening s = true) ∧
  (owner s = Outside → worker s ≠ AtExit).

Lemma good_step_tidy s s' : tidy s → good_step s s' → tidy s'.
Proof.
  intros (Hs & Ht & Hj & Hl & Hx) Hstep.
  assert (service_inv s') as Hs'.
  { destruct Hstep as [s s' Hw|s s' Hw|s s' _ _ Hw|s Ho|s Ho|s Ho|s Ho Hw];
      [by eapply worker_step_inv|by eapply worker_step_inv|by eapply worker_step_inv|..].
    - assert (step s (start s)) as Hst by (by apply step_start).
      destruct (service_step_inv _ _ Hs Hst) as [Hterm|]; [|done]. exfalso. revert Hterm.
      unfold start. destruct (running_ s) eqn:Hr; [by rewrite Ht|].
      rewrite Hj by done. cbn. by rewrite Ht.
    - destruct (service_step_inv _ _ Hs (step_stop s Ht Ho)) as [Hterm|]; [|done]. exfalso. revert Hterm.
      unfold stop_begin. destruct (running_ s); cbn; by rewrite Ht.
    - destruct (service_step_inv _ _ Hs (step_shutdown s Ht Ho)) as [Hterm|]; [|done].
      cbn in Hterm. congruence.
    - destruct (service_step_inv _ _ Hs (step_join s Ht Ho Hw)) as [Hterm|]; [|done].
      cbn in Hterm. congruence. }
  split; [done|]. clear Hs'. destruct Hs as [Iown Ipub Iacc Iout Ijoin Ist].
  destruct Hstep as [s s' Hw|s s' Hw|s s' Hpc Hcl Hw|s Ho|s Ho|s Ho|s Ho Hw].
  - destruct s as [r fd j w o l t]. unfold worker_step in Hw. cbn in *.
    destruct w; try done;
      repeat match type of Hw with context [if ?b then _ else _] => destruct b eqn:? end;
      simplify_eq; cbn in *; naive_solver.
  - by apply more_step in Hw as [-> _].
  - destruct s as [r fd j w o l t]. unfold worker_step in Hw. cbn in *. subst.
    cbn in Hw. destruct r; simplify_eq; cbn in *; naive_solver.
  - unfold start. destruct (running_ s) eqn:Hr; [naive_solver|]. rewrite Hj by done.
    destruct s; cbn in *; naive_solver.
  - unfold stop_begin. destruct (running_ s) eqn:Hr; [|naive_solver]. destruct s; cbn in *; naive_solver.
  - destruct s; cbn in *; naive_solver.
  - destruct s; cbn in *; destruct Hw as [-> | ->]; naive_solver.
Qed.

(** ** Theorems *)


(** A handler that goes on keeps [stop] waiting: only the listening socket was closed,
    the thread is not joined while the handler is served, and nothing bounds how
    long that is.  A client brings it about with carriage returns: after any number
    of them [recv_line] is where it was. *)
Theorem handler_blocks_stop s n
    (Hj : joinable s = true) (Ho : owner s = AtJoin) (Hw : worker s = AtHandler) :
  worker_run (replicate n More) s = Some s ∧ ¬ step s (stop_join s) ∧
  ∀ fuel c rest, stream c = replicate n carriage_return ++ rest →
    ∃ c', recv_line_loop (n + fuel) [] c = recv_line_loop fuel [] c' ∧ stream c' = rest.
Proof.
  split; [|split].
  - induction n as [|n IH]; [done|]. cbn [replicate worker_run]. unfold worker_step.
    by rewrite Hw.
  - intros Hstep. remember (stop_join s) as s' eqn:E.
    assert (owner s' = Outside ∧ joinable s' = false) as [Eo Ej] by by subst.
    destruct Hstep as [e s s' _ H|s _ H|s _ H|s _ H|s _ _ [H|H]]; try congruence.
    destruct s as [r fd j w o l t]. unfold worker_step in H. cbn in *. subst.
    destruct e; by simplify_eq.
  - intros fuel c rest Hs. destruct (recv_line_swallows n fuel [] c rest Hs) as (c' & ? & ? & _);
      [by cbn|]. by exists c'.
Qed.

(** C25. As long as no system call and no handler of the worker fails, starting
    and stopping never calls [std::terminate], in any order and interleaving, and
    neither does the destructor once [stop] has returned. *)
Theorem clean_lifecycle s (Hr : rtc good_step new_service s) :
  terminated s = false ∧
  (owner s = Outside → running_ s = false → terminated (destroy s) = false).
Proof.
  assert (tidy s) as (_ & Ht & Hj & _).
  { assert (tidy new_service) as H0 by (split; [apply new_service_inv|cbn; naive_solver]).
    revert H0.
    induction Hr as [s|s s1 s' Hstep _ IH]; [done|]. intros Htidy.
    by apply IH, (good_step_tidy s). }
  split; [done|]. intros Ho Hrun. cbn. by rewrite Ht, Hj.
Qed.

Lemma after_failure s :
  joinable s = true → running_ s = false → owner s = Outside →
  terminated (start s) = true ∧ terminated (destroy s) = true ∧ stop_begin s = s.
Proof.
  intros Hj Hr Ho. unfold start, stop_begin. rewrite Hr, Hj. cbn.
  by rewrite Hj, orb_true_r.
Qed.

(** When the worker fails by itself (the port is taken, or a handler throws)
    its thread object stays behind: [stop] does nothing then, and both the next
    [start] and the destructor call [std::terminate].  A failed handler also
    leaves the listening socket open. *)
Theorem failed_worker_terminates s s'
    (Hs : owner s = Outside ∧ joinable s = true)
    (Hw : worker_step Bad s = Some s')
    (Hpc : worker s ∈ [AtSocket; AtBind; AtHandler]) :
  running_ s' = false ∧ stop_begin s' = s' ∧
  terminated (start s') = true ∧ terminated (destroy s') = true ∧
  (worker s = AtHandler → listening s' = listening s ∧ listenFd_ s' = listenFd_ s).
Proof.
  destruct Hs as [Ho Hj].
  assert (running_ s' = false ∧ joinable s' = true ∧ owner s' = Outside ∧
    (worker s = AtHandler → listening s' = listening s ∧ listenFd_ s' = listenFd_ s))
    as (Hr' & Hj' & Ho' & Hl).
  { unfold worker_step in Hw. rewrite !elem_of_cons, elem_of_nil in Hpc.
    destruct Hpc as [E|[E|[E|[]]]]; rewrite E in Hw; injection Hw as <-;
      (split; [done|]); (split; [done|]); (split; [done|]); by rewrite E. }
  destruct (after_failure s' Hj' Hr' Ho') as (? & ? & ?). done.
Qed.

(** ** Witnesses *)

Definition try_step (e : event) (s : Service) : Service := default s (worker_step e s).

(** A connection is served when the owner calls [stop]; its handler goes on twice, then
    it fails and takes the worker down. *)
Definition stopping_busy : Service :=
  stop_shutdown (stop_begin (try_step Good (try_step Good (try_step Good (try_step Good
    (try_step Good (start new_service))))))).

Lemma stopping_busy_reachable : reachable stopping_busy.
Proof.
  eapply rtc_l; [by apply step_start|].
  do 5 (eapply rtc_l; [by apply (step_worker Good)|]).
  eapply rtc_l; [by apply step_stop|].
  eapply rtc_l; [by apply step_shutdown|]. apply rtc_refl.
Qed.


Lemma handler_blocks_stop_witness :
  worker_run (replicate 3 More) stopping_busy = Some stopping_busy ∧
  ¬ step stopping_busy (stop_join stopping_busy).
Proof.
  destruct (handler_blocks_stop stopping_busy 3 eq_refl eq_refl eq_refl) as (H1 & H2 & _).
  exact (conj H1 H2).
Defined.

Lemma clean_lifecycle_witness : terminated (start (start new_service)) = false.
Proof.
  assert (rtc good_step new_service (start (start new_service))) as Hr.
  { eapply rtc_l; [by apply good_start|]. eapply rtc_l; [by apply good_start|]. apply rtc_refl. }
  exact (proj1 (clean_lifecycle _ Hr)).
Defined.

(** The port is taken. *)
Definition before_bind : Service := try_step Good (try_step Good (start new_service)).

Lemma failed_worker_terminates_witness :
  worker before_bind = AtBind ∧ terminated (destroy (try_step Bad before_bind)) = true.
Proof.
  split; [done|].
  destruct (failed_worker_terminates before_bind (try_step Bad before_bind) (conj eq_refl eq_refl)
    eq_refl ltac:(by_eval)) as (_ & _ & _ & Hd & _).
  exact Hd.
Defined.
