(* ===== verification/Hybrid.v ===== *)
(** * Hybrid encryption

    Models [src/core/crypto/hybrid.cpp]: the nonce of each chunk, the layout of an
    encrypted chunk, and the wrapping of the file key.  AES-256-GCM, RSA-OAEP, the
    PEM reader and the random generator are OpenSSL's: parameters, with the laws
    that OpenSSL documents. *)

From S2P Require Import Prelude.
From S2P Require Import CxxStd.
From S2P Require Import Hex.
From S2P Require Import FileSystem.

Record FileEncryptionParams := mk_params { key : list Z; iv : list Z }.
Record EncryptedKey := mk_ek { alg : str; blob : list Z }.

#[export] Instance FileEncryptionParams_eq_dec : EqDecision FileEncryptionParams.
Proof. solve_decision. Defined.

(** ** OpenSSL *)

(** The sequences of EVP calls for one message: the exception is the one of the
    call that fails. *)
Class AesGcm := {
  evp_seal : list Z → list Z → str → result (str * str);
  evp_open : list Z → list Z → str → str → result str;
  seal_length k n p c t : evp_seal k n p = Ok (c, t) → length c = length p ∧ length t = 16%nat;
  open_seal k n p c t : evp_seal k n p = Ok (c, t) → evp_open k n c t = Ok p;
}.

(** Keys in PEM files, and encryption with them; [rsa_pair] relates the public to
    its private key. *)
Class Rsa := {
  public_key : Type;
  private_key : Type;
  pem_public : str → option public_key;
  pem_private : str → option private_key;
  rsa_encrypt : public_key → list Z → result (list Z);
  rsa_decrypt : private_key → list Z → result (list Z);
  rsa_pair : public_key → private_key → Prop;
  rsa_bytes pk m c : rsa_encrypt pk m = Ok c → Forall is_byte c;
  rsa_inverse pk sk m c : rsa_pair pk sk → rsa_encrypt pk m = Ok c → rsa_decrypt sk c = Ok m;
}.

(** ** The nonce of a chunk *)

Definition byte_of (ctr shift : Z) : Z := u8 (Z.land (Z.shiftr ctr shift) 255).

Definition derive_chunk_iv (baseIv : list Z) (idx : Z) : result (list Z) :=
  if negb (length baseIv =? 12)%nat then Throw (RuntimeError (lit "base IV must be 12 bytes"))
  else
    let ctr := u32 (Z.land idx 4294967295) in
    Ok (<[8%nat := byte_of ctr 24]> (<[9%nat := byte_of ctr 16]>
         (<[10%nat := byte_of ctr 8]> (<[11%nat := byte_of ctr 0]> baseIv)))).

(** [RAND_bytes] twice: [None] when it fails. *)
Definition generate_file_key (rand : option (list Z * list Z)) : result FileEncryptionParams :=
  match rand with
  | Some (k, n) => Ok (mk_params k n)
  | None => Throw (RuntimeError (lit "RAND_bytes failed"))
  end.

Section hybrid.
Context {HA : AesGcm} {HR : Rsa}.

(** The length that is passed to EVP is a 32-bit [int]. *)
Definition aes_gcm_encrypt (plaintext : str) (key baseIv : list Z) (chunkIndex : Z) : result str :=
  iv ← derive_chunk_iv baseIv chunkIndex;
  let n := i32 (zlen plaintext) in
  if n <? 0 then Throw (RuntimeError (lit "OpenSSL error in EVP_EncryptUpdate"))
  else
    '(ctext, tag) ← evp_seal key iv (take (Z.to_nat n) plaintext);
    Ok (ctext ++ tag).

Definition aes_gcm_decrypt (ciphertext : str) (key baseIv : list Z) (chunkIndex : Z) : result str :=
  if zlen ciphertext <? 16 then Throw (RuntimeError (lit "ciphertext too short"))
  else
    iv ← derive_chunk_iv baseIv chunkIndex;
    let tagPos := (length ciphertext - 16)%nat in
    let ctextLen := i32 (Z.of_nat tagPos) in
    if ctextLen <? 0 then Throw (LengthError (lit "vector::_M_default_append"))
    else evp_open key iv (take (Z.to_nat ctextLen) ciphertext) (drop tagPos ciphertext).

Definition encrypt_file_key_rsa (params : FileEncryptionParams) (publicKeyPemPath : str)
    (fs : FS) : result EncryptedKey :=
  match read_file publicKeyPemPath fs with
  | None => Throw (RuntimeError (lit "Failed to open RSA public key: " ++ publicKeyPemPath))
  | Some pem =>
      match pem_public pem with
      | None => Throw (RuntimeError (lit "Failed to read RSA public key"))
      | Some pkey =>
          out ← rsa_encrypt pkey (key params ++ iv params);
          Ok (mk_ek (lit "RSA") out)
      end
  end.

Definition decrypt_file_key_rsa (ek : EncryptedKey) (privateKeyPemPath : str) (fs : FS)
    : result FileEncryptionParams :=
  match read_file privateKeyPemPath fs with
  | None => Throw (RuntimeError (lit "Failed to open RSA private key: " ++ privateKeyPemPath))
  | Some pem =>
      match pem_private pem with
      | None => Throw (RuntimeError (lit "Failed to read RSA private key"))
      | Some pkey =>
          out ← rsa_decrypt pkey (blob ek);
          if zlen out <? 44 then Throw (RuntimeError (lit "Decrypted key blob too short"))
          else Ok (mk_params (take 32 out) (take 12 (drop 32 out)))
      end
  end.
End hybrid.

(** ** The counter *)

Lemma i32_small z : 0 ≤ z < 2 ^ 31 → i32 z = z.
Proof. intros. unfold i32. rewrite Z.mod_small by lia. lia. Qed.

Lemma byte_of_div ctr shift :
  0 ≤ ctr → 0 ≤ shift → byte_of ctr shift = (ctr / 2 ^ shift) mod 256.
Proof.
  intros Hc Hs. unfold byte_of. change 255 with (Z.ones 8).
  rewrite Z.land_ones, Z.shiftr_div_pow2 by lia. change (2 ^ 8) with 256.
  apply u8_id. apply Z.mod_pos_bound. lia.
Qed.

(** The four counter bytes are those of the index modulo 2^32. *)
Lemma derive_chunk_iv_ok base idx :
  length base = 12%nat → 0 ≤ idx →
  derive_chunk_iv base idx =
  Ok (take 8 base ++ map (byte_of (idx mod 2 ^ 32)) [24; 16; 8; 0]).
Proof.
  intros Hb Hi. unfold derive_chunk_iv. rewrite Hb. cbn [Nat.eqb negb].
  change 4294967295 with (Z.ones 32). rewrite Z.land_ones by lia.
  unfold u32. rewrite Z.mod_mod by lia.
  do 12 (destruct base as [|? base]; [done|]). by destruct base.
Qed.

Lemma counter_bytes c :
  0 ≤ c < 2 ^ 32 →
  c = byte_of c 24 * 2 ^ 24 + byte_of c 16 * 2 ^ 16 + byte_of c 8 * 2 ^ 8 + byte_of c 0.
Proof.
  intros Hc. rewrite !byte_of_div by lia. change (2 ^ 0) with 1. rewrite Z.div_1_r.
  assert (∀ x, 0 ≤ x → x = 256 * (x / 256) + x mod 256) as Hd
    by (intros; apply Z.div_mod; lia).
  replace (2 ^ 16) with (2 ^ 8 * 256) by done. replace (2 ^ 24) with (2 ^ 8 * 256 * 256) by done.
  change (2 ^ 8) with 256. rewrite <- !Z.div_div by lia.
  assert (0 ≤ c / 256 / 256 / 256 < 256).
  { rewrite !Z.div_div by lia. split; [apply Z.div_pos; lia|]. apply Z.div_lt_upper_bound; lia. }
  rewrite (Z.mod_small (c / 256 / 256 / 256)) by done.
  pose proof (Hd c ltac:(lia)) as D1.
  pose proof (Hd (c / 256) ltac:(apply Z.div_pos; lia)) as D2.
  pose proof (Hd (c / 256 / 256) ltac:(apply Z.div_pos; [apply Z.div_pos|]; lia)) as D3.
  lia.
Qed.

(** Each chunk of a file has its own nonce: two indices give the same one
    exactly when they agree modulo 2^32, and the first eight bytes are those of
    the file. *)
Theorem chunk_nonces_distinct base i j
    (Hb : length base = 12%nat) (Hi : 0 ≤ i) (Hj : 0 ≤ j) :
  ∃ n m, derive_chunk_iv base i = Ok n ∧ derive_chunk_iv base j = Ok m ∧
    length n = 12%nat ∧ take 8 n = take 8 base ∧
    (n = m ↔ i mod 2 ^ 32 = j mod 2 ^ 32).
Proof.
  rewrite !derive_chunk_iv_ok by done. eexists _, _. split; [done|]. split; [done|].
  assert (length (take 8 base) = 8%nat) as H8 by (rewrite length_take; lia).
  split; [by rewrite length_app, H8|]. split.
  { rewrite take_app_le by lia. by rewrite take_take. }
  split; [|by intros ->]. intros E. apply app_inv_head in E.
  cbn [map] in E. injection E as E1 E2 E3 E4.
  pose proof (Z.mod_pos_bound i (2 ^ 32) ltac:(lia)) as Bi.
  pose proof (Z.mod_pos_bound j (2 ^ 32) ltac:(lia)) as Bj.
  rewrite (counter_bytes _ Bi), (counter_bytes _ Bj), E1, E2, E3, E4. done.
Qed.

Section roundtrips.
Context {HA : AesGcm} {HR : Rsa}.

Lemma decrypt_encrypt p k n i c :
  zlen p < 2 ^ 31 - 16 → aes_gcm_encrypt p k n i = Ok c → aes_gcm_decrypt c k n i = Ok p.
Proof.
  intros Hp. unfold aes_gcm_encrypt, aes_gcm_decrypt. m_unfold.
  pose proof (zlen_nonneg p). rewrite i32_small by lia.
  destruct (derive_chunk_iv n i) as [nonce|]; [|done].
  destruct (Z.ltb_spec (zlen p) 0); [lia|].
  rewrite take_ge by (unfold zlen; lia).
  destruct (evp_seal k nonce p) as [[ct tag]|] eqn:Es; [|done]. intros [= <-].
  destruct (seal_length _ _ _ _ _ Es) as [Hc Ht].
  assert (zlen (ct ++ tag) = zlen p + 16) as Hz by (unfold zlen; rewrite length_app; lia).
  rewrite Hz. destruct (Z.ltb_spec (zlen p + 16) 16); [lia|].
  replace (length (ct ++ tag) - 16)%nat with (length ct) by (rewrite length_app; lia).
  rewrite i32_small by (rewrite Hc; unfold zlen in *; lia).
  destruct (Z.ltb_spec (Z.of_nat (length ct)) 0); [lia|].
  rewrite Nat2Z.id, take_app_length, drop_app_length. by apply open_seal.
Qed.

Lemma sealed_length p k n i x :
  zlen p < 2 ^ 31 - 16 → aes_gcm_encrypt p k n i = Ok x → zlen x = zlen p + 16.
Proof.
  intros Hb. unfold aes_gcm_encrypt. m_unfold. pose proof (zlen_nonneg p).
  rewrite i32_small by lia. destruct (derive_chunk_iv n i) as [nonce|]; [|done].
  destruct (Z.ltb_spec (zlen p) 0); [lia|]. rewrite take_ge by (unfold zlen; lia).
  destruct (evp_seal k nonce p) as [[ct tag]|] eqn:Es; [|done]. intros [= <-].
  destruct (seal_length _ _ _ _ _ Es). unfold zlen. rewrite length_app. lia.
Qed.

(** An encrypted chunk is the cipher text followed by the 16 bytes of the
    tag, and decrypting it with the same key, nonce and index gives the chunk. *)
Theorem aes_gcm_roundtrip p k n i c
    (Hp : zlen p < 2 ^ 31 - 16) (He : aes_gcm_encrypt p k n i = Ok c) :
  zlen c = zlen p + 16 ∧ aes_gcm_decrypt c k n i = Ok p.
Proof.
  split; [by eapply sealed_length|by apply decrypt_encrypt].
Qed.

Lemma unwrap_wrap params pub priv pk sk ek fs fs' :
  length (key params) = 32%nat → length (iv params) = 12%nat →
  pem_public <$> read_file pub fs = Some (Some pk) →
  pem_private <$> read_file priv fs' = Some (Some sk) → rsa_pair pk sk →
  encrypt_file_key_rsa params pub fs = Ok ek →
  Forall is_byte (blob ek) ∧ decrypt_file_key_rsa ek priv fs' = Ok params.
Proof.
  intros Hk Hn Hpub Hpriv Hpair. unfold encrypt_file_key_rsa, decrypt_file_key_rsa.
  destruct (read_file pub fs) as [pem|]; [|done]. injection Hpub as Hpub.
  destruct (read_file priv fs') as [pem'|]; [|done]. injection Hpriv as Hpriv.
  rewrite Hpub, Hpriv. m_unfold.
  destruct (rsa_encrypt pk _) as [out|] eqn:E; [|done]. intros [= <-]. cbn [blob].
  split; [by eapply rsa_bytes|]. rewrite (rsa_inverse _ _ _ _ Hpair E).
  assert (zlen (key params ++ iv params) = 44) as -> by (unfold zlen; rewrite length_app; lia).
  destruct (Z.ltb_spec 44 44); [lia|].
  rewrite take_app_le, drop_app_ge, take_ge by lia.
  replace (32 - length (key params))%nat with O by lia. rewrite drop_0, take_ge by lia.
  by destruct params.
Qed.

Lemma from_hex_to_hex l : Forall is_byte l → from_hex (to_hex l) = Ok l.
Proof. unfold from_hex, to_hex. rewrite even_length_hex. apply hex_bytes_loop_inverse. Qed.

(** The file key survives its way through the manifest: wrapped with the
    public key, printed in hexadecimal, read and unwrapped with the matching
    private key, it is the same key and nonce. *)
Theorem file_key_roundtrip params pub priv pk sk ek fs
    (Hk : length (key params) = 32%nat) (Hn : length (iv params) = 12%nat)
    (Hpub : pem_public <$> read_file pub fs = Some (Some pk))
    (Hpriv : pem_private <$> read_file priv fs = Some (Some sk)) (Hpair : rsa_pair pk sk)
    (Hek : encrypt_file_key_rsa params pub fs = Ok ek) :
  ∃ b, from_hex (to_hex (blob ek)) = Ok b ∧ b = blob ek ∧
       decrypt_file_key_rsa (mk_ek (alg ek) b) priv fs = Ok params.
Proof.
  destruct (unwrap_wrap params pub priv pk sk ek fs fs) as [Hb Hd]; try done.
  exists (blob ek). split; [by apply from_hex_to_hex|]. split; [done|by destruct ek].
Qed.
End roundtrips.

(** ** Concrete parameters for the witnesses

    A cipher that leaves the text as it is and a tag that spells the nonce, so
    that a message opens under its own nonce only; and key files that hold a fixed
    text.  They have the laws of the classes and no secrecy. *)

Definition toy_tag (n : list Z) : str := take 16 (map char_of n ++ replicate 16 "000"%char).

Definition toy_open (n : list Z) (c t : str) : result str :=
  if bool_decide (t = toy_tag n) then Ok c
  else Throw (RuntimeError (lit "AES-GCM tag verification failed")).

Lemma toy_tag_length n : length (toy_tag n) = 16%nat.
Proof. unfold toy_tag. rewrite length_take, length_app, length_replicate. lia. Qed.

Definition toy_aes : AesGcm.
Proof.
  refine {| evp_seal _ n p := Ok (p, toy_tag n); evp_open _ n c t := toy_open n c t |}.
  - intros k n p c t [= <- <-]. split; [done|apply toy_tag_length].
  - intros k n p c t [= <- <-]. unfold toy_open. by rewrite bool_decide_eq_true_2.
Defined.

Definition toy_rsa_encrypt (m : list Z) : result (list Z) :=
  if bool_decide (Forall is_byte m) then Ok m else Throw (RuntimeError (lit "EVP_PKEY_encrypt")).

Definition toy_rsa : Rsa.
Proof.
  refine {| public_key := unit; private_key := unit;
            pem_public t := if bool_decide (t = lit "PUBLIC") then Some () else None;
            pem_private t := if bool_decide (t = lit "PRIVATE") then Some () else None;
            rsa_encrypt _ m := toy_rsa_encrypt m; rsa_decrypt _ c := Ok c;
            rsa_pair _ _ := True |}.
  - intros _ m c. unfold toy_rsa_encrypt. case_bool_decide; [by intros [= <-]|done].
  - intros _ _ m c _. unfold toy_rsa_encrypt. by case_bool_decide; [intros [= <-]|].
Defined.

Definition toy_params : FileEncryptionParams := mk_params (seqZ 0 32) (seqZ 100 12).

Definition key_files : FS :=
  <[resolve (lit "pub.pem") := lit "PUBLIC"]> (<[resolve (lit "key.pem") := lit "PRIVATE"]> ∅).

Lemma chunk_nonces_distinct_witness :
  ∃ n m, derive_chunk_iv (seqZ 100 12) 7 = Ok n ∧ derive_chunk_iv (seqZ 100 12) 8 = Ok m ∧ n ≠ m.
Proof.
  destruct (chunk_nonces_distinct (seqZ 100 12) 7 8 eq_refl ltac:(lia) ltac:(lia))
    as (n & m & En & Em & _ & _ & Hnm).
  exists n, m. split; [exact En|]. split; [exact Em|].
  intros E. apply Hnm in E. vm_compute in E. discriminate E.
Defined.

Lemma aes_gcm_roundtrip_witness :
  ∃ c, aes_gcm_encrypt (HA := toy_aes) (lit "chunk") (seqZ 0 32) (seqZ 100 12) 3 = Ok c ∧
       aes_gcm_decrypt (HA := toy_aes) c (seqZ 0 32) (seqZ 100 12) 3 = Ok (lit "chunk").
Proof.
  eexists. split; [vm_compute; reflexivity|].
  exact (proj2 (aes_gcm_roundtrip (HA := toy_aes) (lit "chunk") (seqZ 0 32) (seqZ 100 12) 3 _
    ltac:(by_eval) ltac:(vm_compute; reflexivity))).
Defined.

Lemma file_key_roundtrip_witness :
  ∃ ek b, encrypt_file_key_rsa (HR := toy_rsa) toy_params (lit "pub.pem") key_files = Ok ek ∧
    from_hex (to_hex (blob ek)) = Ok b ∧
    decrypt_file_key_rsa (HR := toy_rsa) (mk_ek (alg ek) b) (lit "key.pem") key_files =
    Ok toy_params.
Proof.
  assert (encrypt_file_key_rsa (HR := toy_rsa) toy_params (lit "pub.pem") key_files =
          Ok (mk_ek (lit "RSA") (seqZ 0 32 ++ seqZ 100 12))) as E by (vm_compute; reflexivity).
  destruct (file_key_roundtrip (HR := toy_rsa) toy_params (lit "pub.pem") (lit "key.pem") () ()
    (mk_ek (lit "RSA") (seqZ 0 32 ++ seqZ 100 12)) key_files eq_refl eq_refl
    ltac:(vm_compute; reflexivity) ltac:(vm_compute; reflexivity) I E) as (b & E1 & _ & E2).
  eexists _, b. exact (conj E (conj E1 E2)).
Defined.
