(* ===== verification/DssClient.v ===== *)
(** * The client

    Models [src/core/dss/dss_client.cpp]: upload of a file as chunks and a
    manifest, and download with a check of every digest.  The peers are an
    interface, [PeerApi], for which nothing is assumed here: a peer may answer
    anything, change its mind, or throw. *)

From S2P Require Import Prelude.
From S2P Require Import CxxStd.
From S2P Require Import Hex.
From S2P Require Import PeerEndpoint.
From S2P Require Import KademliaId.
From S2P Require Import DhtNode.
From S2P Require Import FileSystem.
From S2P Require Import Manifest.
From S2P Require Import Chunker.
From S2P Require Import Hybrid.

(** The static functions of [PeerClient], over the state [W] of the network.  A call
    returns or throws: the theorems are about operations whose calls end.  The client
    sets no timeouts on its connections, so a call to a peer that accepts and then
    neither answers nor closes does not end; the command line hangs in it, and what
    that does to the graphical client is [HangJob] of [Desktop]. *)
Class PeerApi (W : Type) := {
  putChunk : PeerEndpoint → str → str → M W unit;
  getChunk : PeerEndpoint → str → M W str;
  hasChunk : PeerEndpoint → str → M W bool;
  putManifest : PeerEndpoint → str → str → M W unit;
  getManifest : PeerEndpoint → str → M W str;
}.

Record ClientConfig := mk_config {
  peers : list PeerEndpoint;
  cfg_chunkSize : Z;
  desiredReplicas : Z;
  rsaPublicKeyPath : str;
  rsaPrivateKeyPath : str;
  localManifestDir : str;
}.

Record Progress := mk_progress { done_ : Z; total_ : Z; message : str }.

Record PutFileResult := mk_put { shareUri : str; localManifestPath : str }.

(** The state of the network, the local files, and what was reported. *)
Record World (W : Type) := mk_world { net : W; files : FS; reported : list Progress }.
Arguments mk_world {W}.
Arguments net {W}.
Arguments files {W}.
Arguments reported {W}.

Definition on_net {W A : Type} (m : M W A) : M (World W) A := λ w,
  let (r, n) := m (net w) in (r, mk_world n (files w) (reported w)).
Definition on_files {W A : Type} (m : M FS A) : M (World W) A := λ w,
  let (r, f) := m (files w) in (r, mk_world (net w) f (reported w)).

(** [if (onProgress) onProgress(...)]. *)
Definition report {W : Type} (wanted : bool) (p : Progress) : M (World W) unit :=
  modifyM (λ w, if wanted then mk_world (net w) (files w) (reported w ++ [p]) else w).

(** [try { m } catch (...) {}]. *)
Definition attempt {S A : Type} (m : M S A) : M S (option A) := λ s,
  match m s with
  | (Ok a, s) => (Ok (Some a), s)
  | (Throw _, s) => (Ok None, s)
  end.

Definition share_prefix : str := lit "dss://file/".

Definition normalize_manifest_id (manifestRef : str) : str :=
  if starts_with share_prefix manifestRef then drop (length share_prefix) manifestRef
  else manifestRef.

Definition looks_like_local_manifest_path (env : Env) (manifestRef : str) (fs : FS) : bool :=
  bool_decide (is_Some (read_file manifestRef fs)) || dir_exists env manifestRef.

(** [path.filename()]: what follows the last slash. *)
Definition path_filename (p : str) : str := List.last (split_slash p) [].

(** [operator/] and [fs::absolute] on paths. *)
Definition path_append (dir name : str) : str :=
  if bool_decide (dir = []) || bool_decide (last dir = Some "/"%char) then dir ++ name
  else join dir name.
Definition absolute (cwd p : str) : str := if is_absolute p then p else path_append cwd p.

Section client.
Context {W : Type} {HP : PeerApi W} {HS : Sha256} {HA : AesGcm} {HR : Rsa}.

Definition no_peers : exn := RuntimeError (lit "No peers configured for DHT").

(** ** Upload *)

Definition clamp_replicas (cfg : ClientConfig) : Z :=
  let replicas := if desiredReplicas cfg <=? 0 then 1 else desiredReplicas cfg in
  let n := i32 (zlen (peers cfg)) in
  if n <? replicas then n else replicas.

(** The deduplication loop: how many targets have the chunk, and which do not. *)
Fixpoint count_holders (targets : list PeerEndpoint) (cid : str) (already : Z)
    (missing : list PeerEndpoint) : M W (Z * list PeerEndpoint) :=
  match targets with
  | [] => mret (already, missing)
  | p :: targets' =>
      has ← hasChunk p cid;
      if has : bool then count_holders targets' cid (already + 1) missing
      else count_holders targets' cid already (missing ++ [p])
  end.

Fixpoint put_missing (missing : list PeerEndpoint) (cid data : str) (needed : Z) : M W unit :=
  match missing with
  | [] => mret ()
  | p :: missing' =>
      putChunk p cid data ;;
      if needed - 1 <=? 0 then mret () else put_missing missing' cid data (needed - 1)
  end.

Definition upload_plain (targets : list PeerEndpoint) (cid data : str) (replicas : Z) : M W unit :=
  '(already, missing) ← count_holders targets cid 0 [];
  let needed := replicas - already in
  if 0 <? needed then put_missing missing cid data needed else mret ().

(** One chunk: its id is the digest of the plain text, encrypted or not. *)
Definition upload_chunk (d : DhtNode) (params : option FileEncryptionParams) (replicas : Z)
    (chunkIndex : Z) (c : Chunk) : M W ManifestEntry :=
  let cid := sha256_hex (bytes c) in
  toSend ← liftR (match params with
                  | Some p => aes_gcm_encrypt (bytes c) (key p) (iv p) chunkIndex
                  | None => Ok (bytes c)
                  end);
  targets ← liftR (store d cid replicas);
  match params with
  | None => upload_plain targets cid toSend replicas
  | Some _ => forM targets (λ p, putChunk p cid toSend)
  end ;;
  mret (mk_entry cid).

Fixpoint upload_loop (wanted : bool) (d : DhtNode) (params : option FileEncryptionParams)
    (replicas total chunkIndex : Z) (l : list Chunk) : M (World W) (list ManifestEntry) :=
  match l with
  | [] => mret []
  | c :: l' =>
      e ← on_net (upload_chunk d params replicas chunkIndex c);
      report wanted (mk_progress (i32 (chunkIndex + 1)) total (lit "Uploading chunks")) ;;
      es ← upload_loop wanted d params replicas total (chunkIndex + 1) l';
      mret (e :: es)
  end.

(** The key of the file and the encryption fields of the manifest. *)
Definition new_file_key (cfg : ClientConfig) (rand : option (list Z * list Z)) (fs : FS)
    : result (option (FileEncryptionParams * EncryptedKey)) :=
  if bool_decide (rsaPublicKeyPath cfg = []) then Ok None
  else
    params ← generate_file_key rand;
    ek ← encrypt_file_key_rsa params (rsaPublicKeyPath cfg) fs;
    Ok (Some (params, ek)).

Definition build_manifest (name : str) (size : Z) (cfg : ClientConfig)
    (enc : option (FileEncryptionParams * EncryptedKey)) (entries : list ManifestEntry) : Manifest :=
  match enc with
  | Some (_, ek) =>
      mk_manifest name size (cfg_chunkSize cfg) entries true (lit "AES-256-GCM") (alg ek)
        (to_hex (blob ek))
  | None => mk_manifest name size (cfg_chunkSize cfg) entries false [] [] []
  end.

Definition manifest_key (manifestId : str) : str := lit "manifest:" ++ manifestId.

Definition manifest_dir (cfg : ClientConfig) (cwd : str) : str :=
  absolute cwd (if bool_decide (localManifestDir cfg = []) then lit "manifests"
                else localManifestDir cfg).

(** The copy of the manifest next to the user. *)
Definition save_manifest (env : Env) (cwd : str) (cfg : ClientConfig) (m : Manifest)
    : M (World W) str :=
  let dir := manifest_dir cfg cwd in
  if negb (dir_exists env dir) then
    throwM (RuntimeError (lit "Cannot create manifest directory: " ++ dir ++ lit " (" ++
                          ec_message env ++ lit ")"))
  else
    let path := path_append dir (originalName m ++ lit ".manifest.txt") in
    on_files (writeManifest env path m) ;;
    mret path.

Definition file_size (path : str) (fs : FS) : result Z :=
  match read_file path fs with
  | Some data => Ok (zlen data)
  | None => Throw (FilesystemError (lit "filesystem error: cannot get file size"))
  end.

Definition putFile (env : Env) (cwd : str) (rand : option (list Z * list Z)) (cfg : ClientConfig)
    (filePath : str) (wanted : bool) : M (World W) PutFileResult :=
  if bool_decide (peers cfg = []) then throwM no_peers
  else
    d ← liftR (new_dht (peers cfg));
    w ← getM;
    size ← liftR (file_size filePath (files w));
    enc ← liftR (new_file_key cfg rand (files w));
    chunks ← liftR (chunkFile env filePath (cfg_chunkSize cfg) (files w));
    let replicas := clamp_replicas cfg in
    entries ← upload_loop wanted d (fst <$> enc) replicas (i32 (zlen chunks)) 0 chunks;
    let m := build_manifest (path_filename filePath) size cfg enc entries in
    let text := serializeManifest m in
    let manifestHash := sha256_hex text in
    targets ← liftR (store d (manifest_key manifestHash) replicas);
    on_net (forM targets (λ p, putManifest p manifestHash text)) ;;
    path ← save_manifest env cwd cfg m;
    mret (mk_put (share_prefix ++ manifestHash) path).

(** ** Download *)

(** The peers that are not candidates yet, in their order. *)
Fixpoint add_other_peers (ps candidates : list PeerEndpoint) : list PeerEndpoint :=
  match ps with
  | [] => candidates
  | p :: ps' =>
      if existsb (λ c, bool_decide (ip c = ip p) && (port c =? port p)) candidates
      then add_other_peers ps' candidates
      else add_other_peers ps' (candidates ++ [p])
  end.

Definition candidates_for (d : DhtNode) (cfg : ClientConfig) (k : str)
    : result (list PeerEndpoint) :=
  let replicas := if desiredReplicas cfg <=? 0 then 1 else desiredReplicas cfg in
  found ← findValue d k replicas;
  Ok (add_other_peers (peers cfg) found).

(** The first candidate whose answer passes [accept]; exceptions are skipped. *)
Fixpoint first_good {A} (candidates : list PeerEndpoint) (ask : PeerEndpoint → M W str)
    (accept : str → result (option A)) : M W (option A) :=
  match candidates with
  | [] => mret None
  | p :: candidates' =>
      r ← attempt (text ← ask p; liftR (accept text));
      match r with
      | Some (Some a) => mret (Some a)
      | _ => first_good candidates' ask accept
      end
  end.

Definition accept_manifest (env : Env) (manifestId text : str) : result (option Manifest) :=
  if bool_decide (sha256_hex text = manifestId) then Some <$> parseManifestText env text
  else Ok None.

Definition accept_chunk (params : option FileEncryptionParams) (chunkIndex : Z) (cid text : str)
    : result (option str) :=
  plain ← match params with
          | Some p => aes_gcm_decrypt text (key p) (iv p) chunkIndex
          | None => Ok text
          end;
  Ok (if bool_decide (sha256_hex plain = cid) then Some plain else None).

Definition fetch_manifest (env : Env) (cfg : ClientConfig) (d : DhtNode) (manifestPath : str)
    : M (World W) Manifest :=
  w ← getM;
  if looks_like_local_manifest_path env manifestPath (files w) then
    liftR (readManifest env manifestPath (files w))
  else
    let manifestId := normalize_manifest_id manifestPath in
    candidates ← liftR (candidates_for d cfg (manifest_key manifestId));
    found ← on_net (first_good candidates (λ p, getManifest p manifestId)
                      (accept_manifest env manifestId));
    match found with
    | Some m => mret m
    | None => throwM (RuntimeError (lit "Failed to retrieve manifest " ++ manifestId))
    end.

Definition file_key (cfg : ClientConfig) (m : Manifest) (fs : FS)
    : result (option FileEncryptionParams) :=
  if encrypted m && negb (bool_decide (encryptedKeyHex m = [])) then
    if bool_decide (rsaPrivateKeyPath cfg = []) then
      Throw (RuntimeError (lit "Manifest is encrypted but no RSA private key configured"))
    else
      blob ← from_hex (encryptedKeyHex m);
      params ← decrypt_file_key_rsa (mk_ek (keyEncAlgo m) blob) (rsaPrivateKeyPath cfg) fs;
      Ok (Some params)
  else Ok None.

(** [out.write]: the output stream stays open over the loop. *)
Definition append_out (path data : str) : M FS unit :=
  modifyM (λ fs, <[resolve path := default [] (read_file path fs) ++ data]> fs).

Fixpoint download_loop (wanted : bool) (d : DhtNode) (cfg : ClientConfig)
    (params : option FileEncryptionParams) (outPath : str) (total chunkIndex : Z)
    (l : list ManifestEntry) : M (World W) unit :=
  match l with
  | [] => mret ()
  | e :: l' =>
      candidates ← liftR (candidates_for d cfg (chunkId e));
      found ← on_net (first_good candidates (λ p, getChunk p (chunkId e))
                        (accept_chunk params chunkIndex (chunkId e)));
      match found with
      | None => throwM (RuntimeError (lit "Failed to retrieve chunk " ++ chunkId e))
      | Some plain =>
          on_files (append_out outPath plain) ;;
          report wanted (mk_progress (i32 (chunkIndex + 1)) total (lit "Downloading chunks")) ;;
          download_loop wanted d cfg params outPath total (chunkIndex + 1) l'
      end
  end.

Definition open_output (env : Env) (outPath : str) : M FS unit :=
  fs ← getM;
  match write_file env outPath [] fs with
  | None => throwM (RuntimeError (lit "Cannot open output file: " ++ outPath))
  | Some fs' => putM fs'
  end.

Definition getFile (env : Env) (cfg : ClientConfig) (manifestPath outPath : str) (wanted : bool)
    : M (World W) unit :=
  if bool_decide (peers cfg = []) then throwM no_peers
  else
    d ← liftR (new_dht (peers cfg));
    m ← fetch_manifest env cfg d manifestPath;
    w ← getM;
    params ← liftR (file_key cfg m (files w));
    on_files (open_output env outPath) ;;
    download_loop wanted d cfg params outPath (i32 (zlen (chunks m))) 0 (chunks m).

Definition repair (batch : Z) : M (World W) unit :=
  throwM (RuntimeError (lit "Repair is not supported without a tracker/DHT index yet")).
End client.
