(* ===== verification/DssClientProps.v ===== *)
(** * What a client gets

    Theorems about [DssClient]: a download that returns wrote a file whose blocks
    have the digests of the manifest, whatever the peers did; one peer that
    answers is enough for each block; and on a network that keeps what it is
    given an uploaded file is downloaded again. *)

From S2P Require Import Prelude.
From S2P Require Import CxxStd.
From S2P Require Import Hex.
From S2P Require Import PeerEndpoint.
From S2P Require Import KademliaId.
From S2P Require Import RoutingTable.
From S2P Require Import DhtNode.
From S2P Require Import FileSystem.
From S2P Require Import Manifest.
From S2P Require Import Chunker.
From S2P Require Import Hybrid.
From S2P Require Import DssClient.

(** ** A network that keeps what it is given *)

(** Names and states for which the promises hold, and what is held at a peer.  Reading
    may change a peer, but not what it holds. *)
Class PeerReads (W : Type) {HP : PeerApi W} := {
  good_name : str → Prop;
  valid : W → Prop;
  held : W → PeerEndpoint → str → option str;
  held_manifest : W → PeerEndpoint → str → option str;
  get_chunk_law p j w d : valid w → good_name j → held w p j = Some d →
    (getChunk p j w).1 = Ok d;
  get_chunk_missing p j w : valid w → good_name j → held w p j = None →
    is_ok (getChunk p j w).1 = false;
  get_chunk_keeps p j w : valid w → good_name j → let w' := (getChunk p j w).2 in
    valid w' ∧ (∀ q k, held w' q k = held w q k) ∧
    ∀ q k, held_manifest w' q k = held_manifest w q k;
  get_manifest_law p j w t : valid w → good_name j → held_manifest w p j = Some t →
    (getManifest p j w).1 = Ok t;
  get_manifest_missing p j w : valid w → good_name j → held_manifest w p j = None →
    is_ok (getManifest p j w).1 = false;
  get_manifest_keeps p j w : valid w → good_name j → let w' := (getManifest p j w).2 in
    valid w' ∧ (∀ q k, held w' q k = held w q k) ∧
    ∀ q k, held_manifest w' q k = held_manifest w q k;
}.

(** Peers that keep what they are given; data is below 2^62 bytes.  [room w p n] says
    that [n] more bytes of chunks fit at [p]; a chunk that is put takes its length from
    the room of its peer, and manifests take nothing. *)
Class PeerLaws (W : Type) {HP : PeerApi W} := {
  #[global] laws_reads :: PeerReads W;
  member : PeerEndpoint → Prop;
  has_chunk_law p j w : valid w → member p → good_name j →
    hasChunk p j w = (Ok (bool_decide (is_Some (held w p j))), w);
  room : W → PeerEndpoint → Z → Prop;
  room_weaken w p m n : room w p n → 0 ≤ m ≤ n → room w p m;
  put_chunk_law p j d w : valid w → member p → good_name j → zlen d < 2 ^ 62 →
    room w p (zlen d) →
    ∃ w', putChunk p j d w = (Ok (), w') ∧ valid w' ∧
      (∀ q k, held w' q k = if decide (q = p ∧ k = j) then Some d else held w q k) ∧
      (∀ q k, held_manifest w' q k = held_manifest w q k) ∧
      ∀ q n, 0 ≤ n → room w q (n + if decide (q = p) then zlen d else 0) → room w' q n;
  put_manifest_law p j t w : valid w → member p → good_name j → zlen t < 2 ^ 62 →
    ∃ w', putManifest p j t w = (Ok (), w') ∧ valid w' ∧
      (∀ q k, held_manifest w' q k =
              if decide (q = p ∧ k = j) then Some t else held_manifest w q k) ∧
      (∀ q k, held w' q k = held w q k);
}.

(** Where a download took its manifest from. *)
Definition manifest_source `{Sha256} (env : Env) (ref : str) (fs : FS) (m : Manifest) : Prop :=
  if looks_like_local_manifest_path env ref fs then readManifest env ref fs = Ok m
  else ∃ text, sha256_hex text = normalize_manifest_id ref ∧ parseManifestText env text = Ok m.

(** Blocks with the digests that a manifest lists. *)
Definition blocks_match `{Sha256} (l : list ManifestEntry) (blocks : list str) : Prop :=
  Forall2 (λ e b, sha256_hex b = chunkId e) l blocks.

(** The digest tells the texts of a list from each other and from all texts of [others].
    Where a theorem needs SHA-256 not to collide it says so of the texts that meet in
    the run: there are always two texts somewhere with the same 32 bytes. *)
Definition told_apart `{Sha256} (others : str → Prop) (texts : list str) : Prop :=
  ∀ a b, others a ∨ a ∈ texts → b ∈ texts → SHA256 a = SHA256 b → a = b.

(** What is to be checked for finitely many texts. *)
Lemma told_apart_list `{Sha256} (others : str → Prop) l texts :
  (∀ t, others t → t ∈ l) →
  Forall (λ b, Forall (λ a, SHA256 a = SHA256 b → a = b) (l ++ texts)) texts →
  told_apart others texts.
Proof.
  intros Ho Hl a b Ha Hb. rewrite Forall_forall in Hl. specialize (Hl b Hb).
  rewrite Forall_forall in Hl. apply Hl. apply elem_of_app. destruct Ha; auto.
Qed.

(** The manifest entries of a list of blocks. *)
Definition entries_of `{Sha256} (blocks : list str) : list ManifestEntry :=
  map (λ b, mk_entry (sha256_hex b)) blocks.

Section client_lemmas.
Context {W : Type} {HP : PeerApi W} {HS : Sha256} {HA : AesGcm} {HR : Rsa}.

Lemma bind_ok {S A B} (m : M S A) (f : A → M S B) s b s' :
  (m ≫= f) s = (Ok b, s') → ∃ a s1, m s = (Ok a, s1) ∧ f a s1 = (Ok b, s').
Proof. unfold mbind, M_bind. destruct (m s) as [[a|e] s1]; [eauto|done]. Qed.

Lemma on_net_ok {A} (m : M W A) w a w' :
  on_net m w = (Ok a, w') →
  ∃ n, m (net w) = (Ok a, n) ∧ w' = mk_world n (files w) (reported w).
Proof. unfold on_net. destruct (m (net w)) as [r n]. intros [= -> <-]. by exists n. Qed.

Lemma on_files_ok {A} (m : M FS A) (w w' : World W) a :
  on_files m w = (Ok a, w') →
  ∃ f, m (files w) = (Ok a, f) ∧ w' = mk_world (net w) f (reported w).
Proof. unfold on_files. destruct (m (files w)) as [r f]. intros [= -> <-]. by exists f. Qed.

Lemma liftR_ok {S A} (r : result A) (s s' : S) a : liftR r s = (Ok a, s') → r = Ok a ∧ s' = s.
Proof. by intros [= -> ->]. Qed.

(** Asking the candidates never throws, and what it returns was accepted. *)
Lemma first_good_total {A} cs (ask : PeerEndpoint → M W str) (accept : str → result (option A)) w :
  ∃ r w', first_good cs ask accept w = (Ok r, w').
Proof.
  revert w. induction cs as [|p cs IH]; intros w; [by eexists _, _|].
  cbn [first_good]. unfold attempt at 1. m_unfold.
  destruct (ask p w) as [[text|e] w1]; [|apply IH].
  destruct (accept text) as [[a|]|e]; [by eexists _, _|apply IH|apply IH].
Qed.

(** What is found was an answer of some peer, in a state that asking leads to. *)
Lemma first_good_accepted {A} (Inv : W → Prop) cs (ask : PeerEndpoint → M W str)
    (accept : str → result (option A)) r w w' :
  (∀ p n, Inv n → Inv (ask p n).2) → Inv w → first_good cs ask accept w = (Ok r, w') →
  Inv w' ∧
  ∀ a, r = Some a → ∃ p n text, Inv n ∧ (ask p n).1 = Ok text ∧ accept text = Ok (Some a).
Proof.
  intros Hkeep. revert w. induction cs as [|p cs IH]; intros w Hw; cbn [first_good].
  { intros [= <- <-]. by split. }
  unfold attempt at 1. m_unfold. pose proof (Hkeep p w Hw) as Hw1.
  destruct (ask p w) as [[text|e] w1] eqn:Ea; cbn [snd] in Hw1; [|by apply IH].
  destruct (accept text) as [[b|]|e] eqn:E; [|by apply IH|by apply IH].
  intros [= <- <-]. split; [done|]. intros a [= <-]. exists p, w, text. by rewrite Ea.
Qed.

(** What a client makes of an answer to a request for the chunk [i]. *)
Definition opened (params : option FileEncryptionParams) (i : Z) (wire : str) : result str :=
  match params with Some p => aes_gcm_decrypt wire (key p) (iv p) i | None => Ok wire end.

Lemma accept_chunk_digest params i cid text b :
  accept_chunk params i cid text = Ok (Some b) → opened params i text = Ok b ∧ sha256_hex b = cid.
Proof.
  unfold accept_chunk, opened. m_unfold.
  destruct (match params with Some _ => _ | None => _ end) as [plain|]; [|done].
  case_bool_decide as E; [|done]. by intros [= <-].
Qed.

Lemma accept_chunk_opened params i text b :
  opened params i text = Ok b → accept_chunk params i (sha256_hex b) text = Ok (Some b).
Proof.
  unfold accept_chunk, opened. m_unfold. intros ->. by rewrite bool_decide_eq_true_2.
Qed.

Lemma accept_manifest_digest env id text m :
  accept_manifest env id text = Ok (Some m) →
  sha256_hex text = id ∧ parseManifestText env text = Ok m.
Proof.
  unfold accept_manifest. case_bool_decide as E; [|done].
  destruct (parseManifestText env text); [|done]. cbn. by intros [= <-].
Qed.

(** A block that some peer's answer was opened to, with the digest that was asked for. *)
Definition got (Inv : W → Prop) (params : option FileEncryptionParams) (i : Z) (e : ManifestEntry)
    (b : str) : Prop :=
  ∃ p n wire, Inv n ∧ (getChunk p (chunkId e) n).1 = Ok wire ∧ opened params i wire = Ok b ∧
    sha256_hex b = chunkId e.

Lemma download_loop_ok (Inv : W → Prop) wanted d cfg params out total i l w w' old :
  (∀ p e n, e ∈ l → Inv n → Inv (getChunk p (chunkId e) n).2) → Inv (net w) →
  download_loop wanted d cfg params out total i l w = (Ok (), w') →
  read_file out (files w) = Some old →
  ∃ blocks, length blocks = length l ∧
    (∀ k e b, l !! k = Some e → blocks !! k = Some b → got Inv params (i + Z.of_nat k) e b) ∧
    read_file out (files w') = Some (old ++ concat blocks).
Proof.
  revert i w old. induction l as [|e l IH]; intros i w old Hkeep Hw Hd Hout; cbn [download_loop] in Hd.
  - injection Hd as <-. exists []. rewrite app_nil_r. split; [done|]. by split; [intros [|k] ??|].
  - apply bind_ok in Hd as (cs & w1 & Hcs & Hd). apply liftR_ok in Hcs as [_ ->].
    apply bind_ok in Hd as (found & w2 & Hf & Hd). apply on_net_ok in Hf as (n & Hf & ->).
    apply (first_good_accepted Inv) in Hf as [Hn Hf]; [|intros; apply Hkeep; [by left|done]|done].
    destruct found as [plain|]; [|done].
    destruct (Hf plain eq_refl) as (p & n' & text & Hn' & Hask & [Hop Hdig]%accept_chunk_digest).
    apply bind_ok in Hd as ([] & w3 & Ho & Hd). apply on_files_ok in Ho as (f & Ho & ->).
    apply bind_ok in Hd as ([] & w4 & Hr & Hd).
    assert (read_file out (files w4) = Some (old ++ plain) ∧ net w4 = n) as [Hout' Hnet].
    { unfold report, modifyM in Hr. injection Hr as <-. unfold append_out, modifyM in Ho.
      injection Ho as <-. cbn [files net] in *.
      destruct wanted; cbn [files net]; unfold read_file in *; rewrite Hout, lookup_insert_eq; done. }
    destruct (IH (i + 1) w4 (old ++ plain)) as (blocks & Hlen & Hm & Hfile);
      [intros; apply Hkeep; [by right|done]|by rewrite Hnet|done|done|].
    exists (plain :: blocks). split; [cbn; by rewrite Hlen|]. split.
    + intros [|k] e' b; cbn [lookup list_lookup].
      * intros [= <-] [= <-]. rewrite Z.add_0_r. by exists p, n', text.
      * intros He Hb. replace (i + Z.of_nat (S k)) with (i + 1 + Z.of_nat k) by lia. by apply Hm.
    + rewrite Hfile. cbn [concat]. by rewrite app_assoc.
Qed.

Lemma open_output_ok env out (w w' : World W) :
  on_files (open_output env out) w = (Ok (), w') →
  read_file out (files w') = Some [] ∧ net w' = net w.
Proof.
  intros Ho. apply on_files_ok in Ho as (f & Ho & ->). revert Ho.
  unfold open_output, write_file. m_unfold. destruct (can_open_out env out); [|done].
  intros [= <-]. split; [|done]. apply lookup_insert_eq.
Qed.

(** Where the manifest came from, with the peer that gave it. *)
Definition manifest_from (Inv : W → Prop) (env : Env) (ref : str) (fs : FS) (m : Manifest) : Prop :=
  if looks_like_local_manifest_path env ref fs then readManifest env ref fs = Ok m
  else ∃ p n text, Inv n ∧ (getManifest p (normalize_manifest_id ref) n).1 = Ok text ∧
         sha256_hex text = normalize_manifest_id ref ∧ parseManifestText env text = Ok m.

Lemma fetch_manifest_ok (Inv : W → Prop) env cfg d ref w w' m :
  (∀ p n, Inv n → Inv (getManifest p (normalize_manifest_id ref) n).2) → Inv (net w) →
  fetch_manifest env cfg d ref w = (Ok m, w') →
  manifest_from Inv env ref (files w) m ∧ files w' = files w ∧ Inv (net w').
Proof.
  unfold fetch_manifest, manifest_from. intros Hkeep Hw Hf.
  apply bind_ok in Hf as (w0 & w1 & Hw0 & Hf). injection Hw0 as <- <-.
  destruct (looks_like_local_manifest_path env ref (files w)).
  - by apply liftR_ok in Hf as [? ->].
  - apply bind_ok in Hf as (cs & w2 & Hcs & Hf). apply liftR_ok in Hcs as [_ ->].
    apply bind_ok in Hf as (found & w3 & Hg & Hf). apply on_net_ok in Hg as (n & Hg & ->).
    apply (first_good_accepted Inv) in Hg as [Hn Hg]; [|done|done].
    destruct found as [m'|]; [|done]. injection Hf as <- <-.
    destruct (Hg m' eq_refl) as (p & n' & text & Hn' & Hask & [Ht Hp]%accept_manifest_digest).
    split; [|done]. by exists p, n', text.
Qed.

(** The manifest, the key and the blocks of a download that returns. *)
Lemma getFile_steps (Inv : W → Prop) env cfg ref out wanted w w' :
  (∀ p n, Inv n → Inv (getManifest p (normalize_manifest_id ref) n).2) → Inv (net w) →
  getFile env cfg ref out wanted w = (Ok (), w') →
  ∃ m params d w3, manifest_from Inv env ref (files w) m ∧ file_key cfg m (files w) = Ok params ∧
    Inv (net w3) ∧ read_file out (files w3) = Some [] ∧
    download_loop wanted d cfg params out (i32 (zlen (chunks m))) 0 (chunks m) w3 = (Ok (), w').
Proof.
  intros Hkeep Hw. unfold getFile. case_bool_decide; [done|]. intros Hg.
  apply bind_ok in Hg as (d & w1 & Hd & Hg). apply liftR_ok in Hd as [_ ->].
  apply bind_ok in Hg as (m & w2 & Hm & Hg).
  apply (fetch_manifest_ok Inv) in Hm as (Hm & Ef & Hn); [|done|done].
  apply bind_ok in Hg as (w3 & w4 & Hw3 & Hg). injection Hw3 as <- <-.
  apply bind_ok in Hg as (params & w5 & Hk & Hg). apply liftR_ok in Hk as [Hk ->].
  apply bind_ok in Hg as ([] & w6 & Ho & Hg). apply open_output_ok in Ho as [Ho En].
  rewrite Ef in Hk. exists m, params, d, w6. by rewrite En.
Qed.

Lemma getFile_ok env cfg ref out wanted w w' :
  getFile env cfg ref out wanted w = (Ok (), w') →
  ∃ m blocks, manifest_source env ref (files w) m ∧ blocks_match (chunks m) blocks ∧
    read_file out (files w') = Some (concat blocks).
Proof.
  intros Hg. apply (getFile_steps (λ _, True)) in Hg as (m & params & d & w3 & Hm & _ & _ & Ho & Hg);
    [|done|done].
  destruct (download_loop_ok (λ _, True) _ _ _ _ _ _ _ _ _ _ _ ltac:(done) ltac:(done) Hg Ho)
    as (blocks & Hlen & Hb & Hf).
  exists m, blocks. split; [|split; [|done]].
  - unfold manifest_from, manifest_source in *.
    destruct (looks_like_local_manifest_path _ _ _); [done|].
    destruct Hm as (p & n & text & _ & _ & Ht & Hp). by exists text.
  - apply Forall2_same_length_lookup_2; [done|]. intros k e b He Hk.
    by destruct (Hb k e b He Hk) as (p & n & wire & _ & _ & _ & Hdig).
Qed.

(** ** Answers that are not what they seem

    In no state of [Inv] does a peer answer the request for the manifest, or for a
    block, with something else of the same digest: a second text of a digest that is
    named here. *)
Definition no_forgery (Inv : W → Prop) (params : option FileEncryptionParams) (m : Manifest)
    (blocks : list str) : Prop :=
  (∀ p n text, Inv n → (getManifest p (sha256_hex (serializeManifest m)) n).1 = Ok text →
     SHA256 text = SHA256 (serializeManifest m) → text = serializeManifest m) ∧
  (∀ p n k b wire b', Inv n → blocks !! k = Some b → (getChunk p (sha256_hex b) n).1 = Ok wire →
     opened params (Z.of_nat k) wire = Ok b' → SHA256 b' = SHA256 b → b' = b).

(** The requests of the download of a manifest and its blocks stay in [Inv]. *)
Definition keeps (Inv : W → Prop) (m : Manifest) : Prop :=
  (∀ p n, Inv n → Inv (getManifest p (sha256_hex (serializeManifest m)) n).2) ∧
  (∀ p e n, e ∈ chunks m → Inv n → Inv (getChunk p (chunkId e) n).2).

(** A network after requests of that kind, to any peers. *)
Definition asked (m : Manifest) : relation W := λ n n', ∃ p,
  n' = (getManifest p (sha256_hex (serializeManifest m)) n).2 ∨
  ∃ e, e ∈ chunks m ∧ n' = (getChunk p (chunkId e) n).2.

Lemma asked_keeps m n : keeps (rtc (asked m) n) m.
Proof.
  split.
  - intros p n' Hn. eapply rtc_r; [exact Hn|]. exists p. by left.
  - intros p e n' He Hn. eapply rtc_r; [exact Hn|]. exists p. right. by exists e.
Qed.

Lemma share_id j : normalize_manifest_id (share_prefix ++ j) = j.
Proof. unfold normalize_manifest_id. by rewrite starts_with_app, drop_app_length. Qed.

(** A download by share link that returns wrote the blocks of that manifest. *)
Lemma getFile_by_link (Inv : W → Prop) env cfg m blocks out wanted params w w' :
  manifest_ok m → can_alloc env (32 * zlen (chunks m)) = true → chunks m = entries_of blocks →
  looks_like_local_manifest_path env (share_prefix ++ sha256_hex (serializeManifest m)) (files w) =
    false →
  file_key cfg m (files w) = Ok params →
  keeps Inv m → Inv (net w) → no_forgery Inv params m blocks →
  getFile env cfg (share_prefix ++ sha256_hex (serializeManifest m)) out wanted w = (Ok (), w') →
  read_file out (files w') = Some (concat blocks).
Proof.
  intros Hm Hal Hids Hlocal Hkey [Hk1 Hk2] Hw [Hf1 Hf2] Hok.
  apply (getFile_steps Inv) in Hok as (m' & params' & d & w3 & Hsrc & Hkey' & Hw3 & Ho & Hd);
    [|by rewrite share_id|done].
  unfold manifest_from in Hsrc. rewrite Hlocal, share_id in Hsrc.
  destruct Hsrc as (p & n & text & Hn & Hask & Ht%sha256_hex_inj & Hp).
  apply Hf1 in Hask; [|done|done]. subst text. rewrite parse_serialize in Hp by done.
  injection Hp as <-. rewrite Hkey in Hkey'. injection Hkey' as <-.
  destruct (download_loop_ok Inv _ _ _ _ _ _ _ _ _ _ _ Hk2 Hw3 Hd Ho) as (bs & Hlen & Hbs & Hfile).
  rewrite Hfile. f_equal. cbn [app]. f_equal. apply list_eq_same_length with (length bs);
    [by rewrite Hlen, Hids; unfold entries_of; rewrite length_map|done|].
  intros k b' b Hk Hb' Hb.
  destruct (Hbs k (mk_entry (sha256_hex b)) b') as (q & n' & wire & Hn' & Hq & Hop & Hdig); [|done|].
  { rewrite Hids. unfold entries_of. rewrite list_lookup_fmap. by rewrite Hb. }
  apply sha256_hex_inj in Hdig. by apply (Hf2 q n' k b wire).
Qed.
End client_lemmas.

(** ** Finding an answer *)

Section available.
Context {W : Type} {HP : PeerApi W} {HS : Sha256} {HA : AesGcm} {HR : Rsa}.

Lemma first_good_found {A} (Inv : W → Prop) cs (ask : PeerEndpoint → M W str)
    (accept : str → result (option A)) p w :
  (∀ q n, Inv n → Inv (ask q n).2) → p ∈ cs →
  (∀ n, Inv n → ∃ text a, (ask p n).1 = Ok text ∧ accept text = Ok (Some a)) → Inv w →
  ∃ a w', first_good cs ask accept w = (Ok (Some a), w') ∧ Inv w'.
Proof.
  intros Hkeep Hp Hgood. revert w. induction cs as [|q cs IH]; intros w Hw; [by apply not_elem_of_nil in Hp|].
  cbn [first_good]. unfold attempt at 1. m_unfold. pose proof (Hkeep q w Hw) as Hw1.
  destruct (decide (p = q)) as [->|Hne].
  - destruct (Hgood w Hw) as (text & a & Hask & Hacc).
    destruct (ask q w) as [r w1]. cbn in Hask, Hw1. subst r. rewrite Hacc. by exists a, w1.
  - assert (p ∈ cs) as Hp' by set_solver.
    destruct (ask q w) as [[text|e] w1]; cbn in Hw1; [|by apply IH].
    destruct (accept text) as [[a|]|e]; [by exists a, w1|by apply IH|by apply IH].
Qed.

Lemma elem_of_add_other_peers ps cs p :
  p ∈ ps ∨ p ∈ cs → p ∈ add_other_peers ps cs.
Proof.
  revert cs. induction ps as [|q ps IH]; intros cs Hp; cbn [add_other_peers];
    [by destruct Hp as [?%not_elem_of_nil|]|].
  destruct (existsb _ cs) eqn:E; apply IH.
  - destruct Hp as [[->|?]%elem_of_cons|?]; [right|by left|by right].
    apply existsb_exists in E as (c & Hc & E). apply andb_true_iff in E as [E1 E2].
    apply bool_decide_eq_true_1 in E1. apply Z.eqb_eq in E2.
    destruct c, q; cbn in *; subst. by apply list_elem_of_In.
  - destruct Hp as [[->|?]%elem_of_cons|?]; [right; set_solver|by left|right; set_solver].
Qed.

Lemma candidates_for_ok d cfg k :
  new_dht (peers cfg) = Ok d →
  ∃ cs, candidates_for d cfg k = Ok cs ∧ ∀ p, p ∈ peers cfg → p ∈ cs.
Proof.
  intros Hd. unfold candidates_for.
  destruct (findValue_total d (peers cfg) k
    (if desiredReplicas cfg <=? 0 then 1 else desiredReplicas cfg) Hd) as [ts E].
  m_unfold. rewrite E. eexists. split; [done|]. intros. apply elem_of_add_other_peers. by left.
Qed.

(** Some configured peer always answers with something acceptable. *)
Definition answers (Inv : W → Prop) (cfg : ClientConfig) (ask : PeerEndpoint → M W str)
    {A} (accept : str → result (option A)) : Prop :=
  ∃ p, p ∈ peers cfg ∧ ∀ n, Inv n → ∃ text a, (ask p n).1 = Ok text ∧ accept text = Ok (Some a).

Lemma download_loop_available (Inv : W → Prop) wanted d cfg params out total l i w :
  new_dht (peers cfg) = Ok d →
  (∀ p e n, e ∈ l → Inv n → Inv (getChunk p (chunkId e) n).2) → Inv (net w) →
  (∀ k e, l !! k = Some e →
     answers Inv cfg (λ p, getChunk p (chunkId e))
       (accept_chunk params (i + Z.of_nat k) (chunkId e))) →
  ∃ w', download_loop wanted d cfg params out total i l w = (Ok (), w').
Proof.
  intros Hd. revert i w. induction l as [|e l IH]; intros i w Hkeep Hw Hl; [by eexists|].
  cbn [download_loop]. destruct (candidates_for_ok d cfg (chunkId e) Hd) as (cs & Hcs & Hps).
  destruct (Hl O e eq_refl) as (p & Hp & Hgood). rewrite Z.add_0_r in Hgood.
  destruct (first_good_found Inv cs (λ p, getChunk p (chunkId e))
    (accept_chunk params i (chunkId e)) p (net w)) as (a & n & E & Hn);
    [intros; apply Hkeep; [by left|done]|by apply Hps|done|done|].
  unfold mbind, M_bind, liftR. rewrite Hcs. unfold on_net. rewrite E.
  unfold on_files, append_out, report, modifyM.
  apply IH; [intros; apply Hkeep; [by right|done]|by destruct wanted|]. intros k e' Hk. replace (i + 1 + Z.of_nat k) with
    (i + Z.of_nat (S k)) by lia. by apply Hl.
Qed.

(** A download by share link from peers of which some always have what is asked for
    and none has a forgery. *)
Lemma getFile_available (Inv : W → Prop) env cfg m blocks out wanted w params :
  let uri := share_prefix ++ sha256_hex (serializeManifest m) in
  peers cfg ≠ [] → Inv (net w) → keeps Inv m → no_forgery Inv params m blocks →
  looks_like_local_manifest_path env uri (files w) = false →
  manifest_ok m → can_alloc env (32 * zlen (chunks m)) = true → chunks m = entries_of blocks →
  file_key cfg m (files w) = Ok params → can_open_out env out = true →
  (∃ p, p ∈ peers cfg ∧ ∀ n, Inv n →
     (getManifest p (sha256_hex (serializeManifest m)) n).1 = Ok (serializeManifest m)) →
  (∀ k b, blocks !! k = Some b → ∃ p, p ∈ peers cfg ∧ ∀ n, Inv n →
     ∃ wire, (getChunk p (sha256_hex b) n).1 = Ok wire ∧ opened params (Z.of_nat k) wire = Ok b) →
  ∃ w', getFile env cfg uri out wanted w = (Ok (), w') ∧ read_file out (files w') = Some (concat blocks).
Proof.
  intros uri Hne Hw Hkeep Hforge Hloc Hm Hal Hids Hkey Hout (p & Hp & Hpm) Hch.
  assert (∃ w', getFile env cfg uri out wanted w = (Ok (), w')) as [w' E].
  2: { exists w'. split; [done|]. by eapply (getFile_by_link Inv). }
  pose proof Hkeep as [Hk1 Hk2]. pose proof Hforge as [Hf1 _].
  unfold getFile. rewrite bool_decide_eq_false_2 by done.
  assert (∃ d, new_dht (peers cfg) = Ok d) as [d Hd] by (eexists; apply new_dht_ok).
  unfold fetch_manifest. rewrite Hd. m_unfold. rewrite Hloc. unfold uri. rewrite share_id.
  set (id := sha256_hex (serializeManifest m)) in *.
  destruct (candidates_for_ok d cfg (manifest_key id) Hd) as (cs & Hcs & Hps). rewrite Hcs.
  assert (parseManifestText env (serializeManifest m) = Ok m) as Hparse by (by apply parse_serialize).
  destruct (first_good_found Inv cs (λ p, getManifest p id) (accept_manifest env id) p (net w))
    as (m' & n & E & Hn); [done|by apply Hps| |done|].
  { intros n Hn. exists (serializeManifest m), m. split; [by apply Hpm|].
    unfold accept_manifest. rewrite bool_decide_eq_true_2 by done. by rewrite Hparse. }
  unfold on_net at 1. rewrite E.
  apply (first_good_accepted Inv) in E as [_ E]; [|done|done].
  destruct (E m' eq_refl) as (q & n' & text & Hn' & Hask & [Ht Hp']%accept_manifest_digest).
  apply sha256_hex_inj in Ht. apply Hf1 in Hask; [|done|done]. subst text.
  rewrite Hparse in Hp'. injection Hp' as <-. cbn [files]. rewrite Hkey.
  unfold on_files at 1, open_output, write_file. m_unfold. rewrite Hout. cbn [net files].
  eapply (download_loop_available Inv); [done|exact Hk2|done|].
  intros k e Hk. rewrite Hids in Hk. apply list_lookup_fmap_Some in Hk as (b & -> & Hb).
  destruct (Hch k b Hb) as (r & Hr & Hgood). exists r. split; [done|]. intros n1 Hn1.
  destruct (Hgood n1 Hn1) as (wire & Hwire & Hop). exists wire, b. split; [done|].
  by apply accept_chunk_opened.
Qed.
End available.

(** ** Downloading from peers that answer *)

Section reading.
Context {W : Type} {HP : PeerApi W} {HL : PeerReads W} {HS : Sha256} {HA : AesGcm} {HR : Rsa}.

(** Every chunk is held under its digest. *)
Definition consistent (w : W) : Prop := ∀ p j d, held w p j = Some d → sha256_hex d = j.

(** States that hold the same as a given one; reading stays among them. *)
Definition holds_as (w n : W) : Prop :=
  valid n ∧ (∀ q k, held n q k = held w q k) ∧ ∀ q k, held_manifest n q k = held_manifest w q k.

Lemma holds_as_get_chunk w n p j :
  good_name j → holds_as w n → holds_as w (getChunk p j n).2.
Proof.
  intros Hj (Hv & Hh & Hm). destruct (get_chunk_keeps p j n Hv Hj) as (Hv' & Hh' & Hm').
  split; [done|]. split; intros; [by rewrite Hh', Hh|by rewrite Hm', Hm].
Qed.

Lemma holds_as_get_manifest w n p j :
  good_name j → holds_as w n → holds_as w (getManifest p j n).2.
Proof.
  intros Hj (Hv & Hh & Hm). destruct (get_manifest_keeps p j n Hv Hj) as (Hv' & Hh' & Hm').
  split; [done|]. split; intros; [by rewrite Hh', Hh|by rewrite Hm', Hm].
Qed.

(** What the peers hold. *)
Definition known (w : W) (t : str) : Prop :=
  ∃ p j, held w p j = Some t ∨ held_manifest w p j = Some t.

(** What is answered is held. *)
Lemma answered_manifest w n p j t :
  good_name j → holds_as w n → (getManifest p j n).1 = Ok t → held_manifest w p j = Some t.
Proof.
  intros Hj (Hv & _ & Hm) E. rewrite <- Hm. destruct (held_manifest n p j) as [t'|] eqn:Ht.
  - rewrite (get_manifest_law p j n t') in E by done. by injection E as <-.
  - apply get_manifest_missing in Ht; [|done|done]. by rewrite E in Ht.
Qed.

Lemma answered_chunk w n p j d :
  good_name j → holds_as w n → (getChunk p j n).1 = Ok d → held w p j = Some d.
Proof.
  intros Hj (Hv & Hh & _) E. rewrite <- Hh. destruct (held n p j) as [d'|] eqn:Hd.
  - rewrite (get_chunk_law p j n d') in E by done. by injection E as <-.
  - apply get_chunk_missing in Hd; [|done|done]. by rewrite E in Hd.
Qed.

Lemma holds_as_keeps w m :
  (∀ b, good_name (sha256_hex b)) → (∃ blocks, chunks m = entries_of blocks) → keeps (holds_as w) m.
Proof.
  intros Hgood [blocks Hids]. split.
  - intros p n. apply holds_as_get_manifest, Hgood.
  - intros p e n He. rewrite Hids in He. apply list_elem_of_fmap in He as (b & -> & _).
    apply holds_as_get_chunk, Hgood.
Qed.

(** The texts that a download opens what is held to. *)
Definition opens_to (params : option FileEncryptionParams) (w : W) (t : str) : Prop :=
  known w t ∨ ∃ x i, known w x ∧ opened params i x = Ok t.

(** Peers that hold nothing with the digest of another text that is asked for. *)
Lemma held_no_forgery w params m blocks :
  (∀ b, good_name (sha256_hex b)) →
  told_apart (opens_to params w) (serializeManifest m :: blocks) →
  no_forgery (holds_as w) params m blocks.
Proof.
  intros Hgood Hd. split.
  - intros p n text Hn Hask Ht. apply (answered_manifest w) in Hask; [|apply Hgood|done].
    apply Hd; [|by left|done]. left. left. exists p, (sha256_hex (serializeManifest m)). by right.
  - intros p n k b wire b' Hn Hb Hask Hop Ht. apply (answered_chunk w) in Hask; [|apply Hgood|done].
    apply Hd; [|right; by apply list_elem_of_lookup_2 with k|done]. left. right.
    exists wire, (Z.of_nat k). split; [|done]. exists p, (sha256_hex b). by left.
Qed.

(** Peers that hold the blocks and the manifest answer every time. *)
Lemma stored_is_read env cfg m blocks out wanted w :
  (∀ b, good_name (sha256_hex b)) → manifest_ok m → chunks m = entries_of blocks →
  encrypted m = false → (∀ n, can_alloc env n = true) → can_open_out env out = true →
  looks_like_local_manifest_path env (share_prefix ++ sha256_hex (serializeManifest m)) (files w) =
    false →
  valid (net w) → consistent (net w) → told_apart (known (net w)) (serializeManifest m :: blocks) →
  (∀ b, b ∈ blocks → ∃ p, p ∈ peers cfg ∧ is_Some (held (net w) p (sha256_hex b))) →
  (∃ p, p ∈ peers cfg ∧
     held_manifest (net w) p (sha256_hex (serializeManifest m)) = Some (serializeManifest m)) →
  ∃ w', getFile env cfg (share_prefix ++ sha256_hex (serializeManifest m)) out wanted w =
        (Ok (), w') ∧ read_file out (files w') = Some (concat blocks).
Proof.
  intros Hgood Hm Hids Hplain Hmem Hout Hlocal Hval Hcons Hdig Hheld (p & Hp & Hpm).
  apply (getFile_available (holds_as (net w)) env cfg m blocks out wanted w None); try done.
  - intros E. by rewrite E, elem_of_nil in Hp.
  - apply holds_as_keeps; [done|by exists blocks].
  - apply held_no_forgery; [done|]. intros a b [[Ha|(x & i & Hx & [= ->])]|Ha] Hb; apply Hdig; auto.
  - unfold file_key. by rewrite Hplain.
  - exists p. split; [done|]. intros n (Hn & _ & Hmn). apply get_manifest_law; [done|apply Hgood|].
    by rewrite Hmn.
  - intros k b Hb. assert (b ∈ blocks) as Hin by (by apply list_elem_of_lookup_2 with k).
    destruct (Hheld b Hin) as (q & Hq & [x Hx]). exists q. split; [done|].
    intros n (Hn & Hh & _). exists x. split; [apply get_chunk_law; [done|apply Hgood|by rewrite Hh]|].
    cbn [opened]. f_equal. apply Hdig; [|by right|].
    + left. exists q, (sha256_hex b). by left.
    + by apply sha256_hex_inj, (Hcons q).
Qed.
End reading.

(** ** Uploading to such a network *)

Section upload.
Context {W : Type} {HP : PeerApi W} {HL : PeerLaws W} {HS : Sha256} {HA : AesGcm} {HR : Rsa}.

Hypothesis good_digests : ∀ b, good_name (sha256_hex b).

(** What an upload of the plain text [d] may do to the chunks. *)
Record grows (d : str) (w w' : W) : Prop := {
  grows_valid : valid w → valid w';
  grows_held q k : is_Some (held w q k) → is_Some (held w' q k);
  grows_new q k x : held w' q k = Some x → held w q k = Some x ∨ x = d;
  grows_consistent : consistent w → consistent w';
  grows_manifests q k : held_manifest w' q k = held_manifest w q k;
}.

(** At most [size] bytes were taken from each of some peers. *)
Definition spent (ts : list PeerEndpoint) (size : Z) (w w' : W) : Prop :=
  ∀ q n, 0 ≤ n → room w q (n + if decide (q ∈ ts) then size else 0) → room w' q n.

Lemma spent_nil size w : spent [] size w w.
Proof. intros q n _. by rewrite decide_False, Z.add_0_r by apply not_elem_of_nil. Qed.

Lemma spent_cons p ts size w w1 w2 :
  0 ≤ size → p ∉ ts →
  (∀ q n, 0 ≤ n → room w q (n + if decide (q = p) then size else 0) → room w1 q n) →
  spent ts size w1 w2 → spent (p :: ts) size w w2.
Proof.
  intros Hs Hp H1 H2 q n Hn Hr. apply H2; [done|]. apply H1; [destruct (decide (q ∈ ts)); lia|].
  destruct (decide (q = p)) as [->|Hne].
  - rewrite decide_True in Hr by by left. rewrite decide_False by done.
    by replace (n + 0 + size) with (n + size) by lia.
  - rewrite Z.add_0_r. revert Hr. destruct (decide (q ∈ p :: ts)) as [Hq|Hq].
    + apply elem_of_cons in Hq as [?|Hq]; [done|]. by rewrite decide_True.
    + by rewrite decide_False by (intros ?; apply Hq; by right).
Qed.

Lemma spent_all ts size w w' q n :
  spent ts size w w' → 0 ≤ size → 0 ≤ n → room w q (n + size) → room w' q n.
Proof.
  intros Hsp Hs Hn Hr. apply Hsp; [done|]. eapply room_weaken; [exact Hr|]. case_decide; lia.
Qed.

Lemma grows_refl d w : grows d w w.
Proof. split; auto. Qed.

Lemma grows_trans d w1 w2 w3 : grows d w1 w2 → grows d w2 w3 → grows d w1 w3.
Proof.
  intros [A0 A1 A2 A3 A4] [B0 B1 B2 B3 B4]. split; [auto|auto| |auto|].
  - intros q k x [Hx|]%B2; [by apply (A2 q k)|by right].
  - intros. by rewrite B4, A4.
Qed.

Lemma put_chunk_grows p d w :
  valid w → member p → zlen d < 2 ^ 62 → room w p (zlen d) →
  ∃ w', putChunk p (sha256_hex d) d w = (Ok (), w') ∧ grows d w w' ∧
        is_Some (held w' p (sha256_hex d)) ∧
        ∀ q n, 0 ≤ n → room w q (n + if decide (q = p) then zlen d else 0) → room w' q n.
Proof.
  intros Hv Hp Hd Hr.
  destruct (put_chunk_law p (sha256_hex d) d w) as (w' & E & Hv' & Hh & Hm & Hs); [done..|].
  exists w'. split; [done|]. split; [split|split; [|done]].
  - done.
  - intros q k. rewrite Hh. by case_decide.
  - intros q k x. rewrite Hh. case_decide; [intros [= <-]; by right|by left].
  - intros Hc q k x. rewrite Hh. case_decide as Hqk; [|apply Hc].
    destruct Hqk as [-> ->]. by intros [= <-].
  - done.
  - rewrite Hh. by rewrite decide_True.
Qed.

Lemma count_holders_law ts j a ms w :
  valid w → good_name j → (∀ p, p ∈ ts → member p) →
  ∃ k ms', count_holders ts j a ms w = (Ok (a + k, ms ++ ms'), w) ∧
    k + zlen ms' = zlen ts ∧ 0 ≤ k ∧ ms' `sublist_of` ts ∧
    ∀ p, p ∈ ts → p ∈ ms' ∨ is_Some (held w p j).
Proof.
  intros Hv Hj. revert a ms. induction ts as [|p ts IH]; intros a ms Hts; cbn [count_holders].
  - exists 0, []. rewrite app_nil_r, Z.add_0_r. do 4 (split; [done|]).
    by intros ? ?%not_elem_of_nil.
  - m_unfold. rewrite has_chunk_law by (done || (apply Hts; by left)). case_bool_decide as Hh.
    + destruct (IH (a + 1) ms) as (k & ms' & E & Hk & Hpos & Hsub & Hp);
        [intros; apply Hts; by right|]. exists (k + 1), ms'.
      rewrite E, zlen_cons. split; [do 2 f_equal; f_equal; lia|]. split; [lia|]. split; [lia|].
      split; [by constructor|].
      intros q [->|?]%elem_of_cons; [by right|by apply Hp].
    + destruct (IH a (ms ++ [p])) as (k & ms' & E & Hk & Hpos & Hsub & Hp);
        [intros; apply Hts; by right|]. exists k, (p :: ms').
      rewrite E, !zlen_cons, <- app_assoc. split; [done|]. split; [lia|]. split; [lia|].
      split; [by constructor|].
      intros q [->|Hq]%elem_of_cons; [left; set_solver|]. destruct (Hp q Hq); [left; set_solver|by right].
Qed.

Lemma put_missing_all ms d needed w :
  zlen ms ≤ needed → valid w → zlen d < 2 ^ 62 → (∀ p, p ∈ ms → member p) → NoDup ms →
  (∀ p, p ∈ ms → room w p (zlen d)) →
  ∃ w', put_missing ms (sha256_hex d) d needed w = (Ok (), w') ∧ grows d w w' ∧
        (∀ p, p ∈ ms → is_Some (held w' p (sha256_hex d))) ∧ spent ms (zlen d) w w'.
Proof.
  pose proof (zlen_nonneg d) as Hd0.
  revert needed w. induction ms as [|p ms IH]; intros needed w Hn Hv Hd Hms Hnd Hr; cbn [put_missing].
  - exists w. split; [done|]. split; [apply grows_refl|]. split; [by intros ? ?%not_elem_of_nil|].
    apply spent_nil.
  - rewrite zlen_cons in Hn. pose proof (zlen_nonneg ms). apply NoDup_cons in Hnd as [Hp Hnd].
    destruct (put_chunk_grows p d w Hv) as (w1 & E1 & Hg1 & Hheld & Hs1);
      [apply Hms; by left|done|apply Hr; by left|].
    m_unfold. rewrite E1.
    destruct (Z.leb_spec (needed - 1) 0) as [Hle|Hgt].
    + assert (ms = []) as -> by (apply zlen_nil; lia). exists w1. split; [done|]. split; [done|].
      split; [intros q Hq%list_elem_of_singleton; by subst|].
      eapply spent_cons; [done|done|exact Hs1|apply spent_nil].
    + destruct (IH (needed - 1) w1) as (w2 & E2 & Hg2 & Hin & Hs2);
        [lia|by apply Hg1|done|intros; apply Hms; by right|done| |].
      { intros q Hq. apply Hs1; [done|]. rewrite decide_False, Z.add_0_r by (by intros ->).
        apply Hr. by right. }
      exists w2. split; [done|]. split; [by eapply grows_trans|].
      split; [|by eapply spent_cons].
      intros q [->|Hq]%elem_of_cons; [by apply Hg2|by apply Hin].
Qed.

(** After the upload of a chunk, every target has it. *)
Lemma upload_plain_law ts d replicas w :
  zlen ts ≤ replicas → valid w → zlen d < 2 ^ 62 → (∀ p, p ∈ ts → member p) → NoDup ts →
  (∀ p, p ∈ ts → room w p (zlen d)) →
  ∃ w', upload_plain ts (sha256_hex d) d replicas w = (Ok (), w') ∧ grows d w w' ∧
        (∀ p, p ∈ ts → is_Some (held w' p (sha256_hex d))) ∧
        ∀ q n, 0 ≤ n → room w q (n + zlen d) → room w' q n.
Proof.
  intros Hr Hv Hd Hts Hnd Hroom. unfold upload_plain. pose proof (zlen_nonneg d).
  destruct (count_holders_law ts (sha256_hex d) 0 [] w) as (k & ms & E & Hk & Hpos & Hsub & Hp);
    [done..|].
  m_unfold. rewrite E. cbn [app]. pose proof (zlen_nonneg ms).
  assert (∀ q, q ∈ ms → q ∈ ts) as Hin
    by (intros q Hq; by apply (elem_of_submseteq ms ts), sublist_submseteq).
  destruct (Z.ltb_spec 0 (replicas - (0 + k))) as [Hlt|Hge].
  - destruct (put_missing_all ms d (replicas - (0 + k)) w) as (w' & E' & Hg & Hms & Hs);
      [lia|done|done|by auto|by eapply sublist_NoDup|by auto|].
    exists w'. split; [done|]. split; [done|]. split; [|intros; by eapply spent_all].
    intros p Hpt. destruct (Hp p Hpt); [by apply Hms|by apply Hg].
  - assert (ms = []) as -> by (apply zlen_nil; lia). exists w. split; [done|].
    split; [apply grows_refl|]. split.
    + intros p Hpt. destruct (Hp p Hpt) as [?%not_elem_of_nil|]; done.
    + intros q n Hn Hq. eapply room_weaken; [exact Hq|lia].
Qed.

(** The peers of a configuration that has a place for every key. *)
Definition has_place (cfg : ClientConfig) : Prop := nodes (peers_table (peers cfg)) ≠ [].

Lemma upload_loop_law wanted cfg d replicas total i l w :
  new_dht (peers cfg) = Ok d → has_place cfg → 1 ≤ replicas → valid (net w) →
  (∀ p, p ∈ peers cfg → member p) → Forall (λ c, zlen (bytes c) < 2 ^ 62) l →
  (∀ p, p ∈ peers cfg → room (net w) p (zlen (concat (map bytes l)))) →
  ∃ w', upload_loop wanted d None replicas total i l w =
        (Ok (entries_of (map bytes l)), w') ∧ files w' = files w ∧ valid (net w') ∧
    (consistent (net w) → consistent (net w')) ∧
    (∀ q k, held_manifest (net w') q k = held_manifest (net w) q k) ∧
    (∀ q k, is_Some (held (net w) q k) → is_Some (held (net w') q k)) ∧
    (∀ q k x, held (net w') q k = Some x → held (net w) q k = Some x ∨ x ∈ map bytes l) ∧
    ∀ c, c ∈ l → ∃ p, p ∈ peers cfg ∧ is_Some (held (net w') p (sha256_hex (bytes c))).
Proof.
  intros Hd Hpl Hr Hv Hmem Hl. revert i w Hv.
  induction Hl as [|c l Hc Hl IH]; intros i w Hv Hroom; cbn [upload_loop].
  - exists w. repeat (split; [done|]). split; [by left|]. by intros ? ?%not_elem_of_nil.
  - destruct (store_some_targets d (peers cfg) (sha256_hex (bytes c)) replicas Hd Hpl)
      as (ts & Ets & Hne & Hlen & Hnd & Hts).
    cbn [map concat] in Hroom. rewrite zlen_app in Hroom. pose proof (zlen_nonneg (bytes c)).
    pose proof (zlen_nonneg (concat (map bytes l))).
    destruct (upload_plain_law ts (bytes c) replicas (net w)) as (n1 & E1 & Hg & Hheld & Hsp);
      [unfold zlen; lia|done|done|by auto|done| |].
    { intros p Hp. eapply room_weaken; [by apply Hroom, Hts|lia]. }
    assert (on_net (upload_chunk d None replicas i c) w =
            (Ok (mk_entry (sha256_hex (bytes c))), mk_world n1 (files w) (reported w))) as Eu.
    { unfold on_net, upload_chunk. m_unfold. rewrite Ets, E1. done. }
    unfold mbind at 1, M_bind at 1. rewrite Eu. unfold mbind at 1, M_bind at 1, report, modifyM.
    set (w1 := if wanted then _ else _).
    assert (net w1 = n1 ∧ files w1 = files w) as [En Ef] by (by subst w1; destruct wanted).
    destruct (IH (i + 1) w1) as (w' & E & Efi & Hv' & Hcs & Hm & Hmono & Hnew & Hin);
      [rewrite En; by apply Hg| |].
    { intros p Hp. rewrite En. apply Hsp; [done|]. rewrite Z.add_comm. by apply Hroom. }
    unfold mbind, M_bind. rewrite E. exists w'. split; [done|]. rewrite En, Ef in *.
    split; [done|]. split; [done|]. split; [intros Hw; by apply Hcs, Hg|]. split.
    { intros q k. rewrite Hm. apply Hg. }
    split; [intros q k Hqk; by apply Hmono, Hg|]. cbn [map]. split.
    { intros q k x [Hx|Hx]%Hnew; [|right; by right]. apply (grows_new _ _ _ Hg) in Hx as [Hx| ->];
        [by left|right; by left]. }
    intros x [->|Hx]%elem_of_cons; [|by apply Hin].
    destruct ts as [|p ts]; [done|]. exists p. split; [apply Hts; set_solver|].
    apply Hmono, Hheld. set_solver.
Qed.

(** The manifests go to all of their targets. *)
Lemma put_manifests_law ts j t w :
  valid w → good_name j → zlen t < 2 ^ 62 → (∀ p, p ∈ ts → member p) →
  ∃ w', forM ts (λ p, putManifest p j t) w = (Ok (), w') ∧ valid w' ∧
    (∀ q k, held w' q k = held w q k) ∧
    (∀ q k x, held_manifest w' q k = Some x → held_manifest w q k = Some x ∨ x = t) ∧
    ∀ p, p ∈ ts → held_manifest w' p j = Some t.
Proof.
  intros Hv Hj Ht Hmem.
  assert (∀ ts w, valid w → (∀ p, p ∈ ts → member p) →
    ∃ w', forM ts (λ p, putManifest p j t) w = (Ok (), w') ∧ valid w' ∧
    (∀ q k, held w' q k = held w q k) ∧
    (∀ q k x, held_manifest w' q k = Some x → held_manifest w q k = Some x ∨ x = t) ∧
    (∀ q, held_manifest w q j = Some t → held_manifest w' q j = Some t) ∧
    ∀ p, p ∈ ts → held_manifest w' p j = Some t) as Hf.
  { clear ts w Hv Hmem. intros ts. induction ts as [|p ts IH]; intros w Hv Hmem; cbn [forM].
    - exists w. repeat (split; [done|]). split; [by left|]. split; [done|].
      by intros ? ?%not_elem_of_nil.
    - destruct (put_manifest_law p j t w) as (w1 & E1 & Hv1 & Hm & Hh);
        [done|apply Hmem; by left|done|done|].
      destruct (IH w1 Hv1) as (w2 & E2 & Hv2 & Hh2 & Hn2 & Hkeep & Hts); [intros; apply Hmem; by right|].
      exists w2. unfold mbind, M_bind. rewrite E1. split; [done|]. split; [done|].
      split; [intros; by rewrite Hh2, Hh|]. split; [|split].
      + intros q k x [Hx| ->]%Hn2; [|by right]. revert Hx. rewrite Hm.
        case_decide; [intros [= ->]; by right|by left].
      + intros q Hq. apply Hkeep. rewrite Hm. by case_decide.
      + intros q [->|Hq]%elem_of_cons; [|by apply Hts]. apply Hkeep. rewrite Hm. by rewrite decide_True. }
  destruct (Hf ts w Hv Hmem) as (w' & E & Hv' & Hh & Hn & _ & Hts). by exists w'.
Qed.
End upload.

(** ** Upload, then download *)

Lemma path_append_absolute dir n : is_absolute dir = true → is_absolute (path_append dir n) = true.
Proof.
  intros Hd. unfold path_append, join. unfold is_absolute in *.
  destruct dir as [|ch dir]; [done|]. destruct (_ || _); exact Hd.
Qed.

Lemma absolute_absolute cwd p : is_absolute cwd = true → is_absolute (absolute cwd p) = true.
Proof.
  intros Hc. unfold absolute. destruct (is_absolute p) eqn:E; [done|by apply path_append_absolute].
Qed.

Section end_to_end.
Context {W : Type} {HP : PeerApi W} {HL : PeerLaws W} {HS : Sha256} {HA : AesGcm} {HR : Rsa}.

(** What an upload sends in the clear: its manifest and its blocks. *)
Definition upload_texts (env : Env) (cfg : ClientConfig)
    (enc : option (FileEncryptionParams * EncryptedKey)) (filePath content : str) (fs : FS)
    : list str :=
  match chunkFile env filePath (cfg_chunkSize cfg) fs with
  | Ok cks =>
      serializeManifest (build_manifest (path_filename filePath) (zlen content) cfg enc
                           (entries_of (map bytes cks))) :: map bytes cks
  | Throw _ => []
  end.

(** A plain upload in an environment that can store what it must; none of the texts that
    it sends has the digest of another of them, or of a text that a peer holds. *)
Record upload_setup (env : Env) (cwd : str) (cfg : ClientConfig) (filePath content : str)
    (w : World W) : Prop := {
  up_plain : rsaPublicKeyPath cfg = [];
  up_place : has_place cfg;
  up_count : zlen (peers cfg) < 2 ^ 31;
  up_names b : good_name (sha256_hex b);
  up_members p : p ∈ peers cfg → member p;
  up_valid : valid (net w);
  up_consistent : consistent (net w);
  up_file : read_file filePath (files w) = Some content;
  up_name : is_word (path_filename filePath) ∧ zlen (path_filename filePath) < 2 ^ 30;
  up_size : zlen content < 2 ^ 50;
  up_chunk : 0 < cfg_chunkSize cfg < 2 ^ 63;
  up_memory n : can_alloc env n = true;
  up_write path : can_open_out env path = true;
  up_dir : dir_exists env (manifest_dir cfg cwd) = true;
  up_cwd : is_absolute cwd = true;
  up_link j : dir_exists env (share_prefix ++ j) = false ∧
              read_file (share_prefix ++ j) (files w) = None;
  up_room p : p ∈ peers cfg → room (net w) p (zlen content);
  up_digests : told_apart (known (net w)) (upload_texts env cfg None filePath content (files w));
}.

Lemma clamp_replicas_pos cfg :
  peers cfg ≠ [] → zlen (peers cfg) < 2 ^ 31 → 1 ≤ clamp_replicas cfg.
Proof.
  intros Hne Hn. unfold clamp_replicas.
  assert (1 ≤ zlen (peers cfg)).
  { destruct (peers cfg); [done|]. rewrite zlen_cons. pose proof (zlen_nonneg l). lia. }
  rewrite i32_small by lia. destruct (Z.leb_spec (desiredReplicas cfg) 0);
    destruct (_ <? _); lia.
Qed.

(** The encryption fields are words, and not huge. *)
Definition words_ok (enc : option (FileEncryptionParams * EncryptedKey)) : Prop :=
  match enc with
  | Some (_, ek) => is_word (alg ek) ∧ is_word (to_hex (blob ek)) ∧
                    zlen (alg ek) < 2 ^ 30 ∧ zlen (to_hex (blob ek)) < 2 ^ 32
  | None => True
  end.

Lemma built_manifest_ok name size cfg enc blocks :
  is_word name → 0 ≤ size < 2 ^ 64 → 0 < cfg_chunkSize cfg < 2 ^ 63 → zlen blocks < 2 ^ 58 →
  words_ok enc → manifest_ok (build_manifest name size cfg enc (entries_of blocks)).
Proof.
  intros Hn Hs Hc Hb He.
  assert (Forall (λ e, is_word (chunkId e)) (entries_of blocks) ∧ zlen (entries_of blocks) < 2 ^ 58)
    as [Hids Hlen].
  { split; [|by unfold zlen, entries_of; rewrite length_map].
    apply Forall_map, Forall_true. intros b. apply sha256_hex_word. }
  destruct enc as [[params ek]|]; repeat (split; [done || (cbn; lia)|]); [|done].
  destruct He as (? & ? & _). repeat (split; [by_eval || done|]). done.
Qed.

Lemma plain_manifest_ok name size cfg blocks :
  is_word name → 0 ≤ size < 2 ^ 64 → 0 < cfg_chunkSize cfg < 2 ^ 63 → zlen blocks < 2 ^ 58 →
  manifest_ok (build_manifest name size cfg None (entries_of blocks)).
Proof. intros. by apply built_manifest_ok. Qed.

Lemma entries_length blocks :
  zlen (flat_map (λ e, chunkId e ++ [newline]) (entries_of blocks)) = 65 * zlen blocks.
Proof.
  unfold entries_of. induction blocks as [|b l IH]; [done|]. cbn [map flat_map chunkId].
  destruct (sha256_hex_word b) as [_ El].
  assert (zlen (sha256_hex b) = 64) as E by (unfold zlen; by rewrite El).
  rewrite !zlen_app, IH, E, !zlen_cons. change (zlen []) with 0. lia.
Qed.

(** Every chunk of a file of moderate size, and its manifest, is small. *)
Lemma built_manifest_small name size cfg enc blocks :
  zlen name < 2 ^ 30 → 0 ≤ size < 2 ^ 64 → 0 < cfg_chunkSize cfg < 2 ^ 63 → zlen blocks < 2 ^ 50 →
  words_ok enc →
  zlen (serializeManifest (build_manifest name size cfg enc (entries_of blocks))) < 2 ^ 62.
Proof.
  intros Hn Hs Hc Hb He.
  pose proof (entries_length blocks) as E.
  assert (zlen (entries_of blocks) = zlen blocks) as En by (unfold zlen, entries_of; by rewrite length_map).
  pose proof (zlen_nonneg blocks).
  pose proof (to_string_length size Hs). pose proof (to_string_length (cfg_chunkSize cfg) ltac:(lia)).
  assert (zlen (to_string (zlen blocks)) ≤ 64) by (apply to_string_length; lia).
  unfold serializeManifest, field.
  destruct enc as [[params ek]|]; [destruct He as (_ & _ & ? & ?)|];
    cbn [build_manifest encrypted originalName originalSize chunkSize chunks encAlgo keyEncAlgo
         encryptedKeyHex];
    rewrite En, !zlen_app, E, ?zlen_cons, ?zlen_app, ?zlen_cons;
    repeat match goal with |- context [zlen (lit ?s)] =>
      let n := eval vm_compute in (zlen (lit s)) in change (zlen (lit s)) with n end;
    change (zlen []) with 0; lia.
Qed.

Lemma plain_manifest_small name size cfg blocks :
  zlen name < 2 ^ 30 → 0 ≤ size < 2 ^ 64 → 0 < cfg_chunkSize cfg < 2 ^ 63 → zlen blocks < 2 ^ 50 →
  zlen (serializeManifest (build_manifest name size cfg None (entries_of blocks))) < 2 ^ 62.
Proof. intros. by apply built_manifest_small. Qed.

Lemma blocks_small n content cks :
  blocks_of n content cks → zlen content < 2 ^ 50 → Forall (λ c, zlen (bytes c) < 2 ^ 62) cks.
Proof.
  intros (_ & _ & Hl) Hz. apply Forall_lookup. intros i c Hi. specialize (Hl i c Hi).
  unfold zlen in *. lia.
Qed.

Lemma has_place_peers cfg : has_place cfg → peers cfg ≠ [].
Proof. unfold has_place. by destruct (peers cfg). Qed.

(** The run of an upload, from the runs of its parts. *)
Lemma putFile_result env cwd rand cfg filePath wanted w d content enc cks entries w1 ts n2 :
  let m := build_manifest (path_filename filePath) (zlen content) cfg enc entries in
  let path := path_append (manifest_dir cfg cwd) (originalName m ++ lit ".manifest.txt") in
  peers cfg ≠ [] → new_dht (peers cfg) = Ok d → read_file filePath (files w) = Some content →
  new_file_key cfg rand (files w) = Ok enc →
  chunkFile env filePath (cfg_chunkSize cfg) (files w) = Ok cks →
  upload_loop wanted d (fst <$> enc) (clamp_replicas cfg) (i32 (zlen cks)) 0 cks w =
    (Ok entries, w1) →
  store d (manifest_key (sha256_hex (serializeManifest m))) (clamp_replicas cfg) = Ok ts →
  forM ts (λ p, putManifest p (sha256_hex (serializeManifest m)) (serializeManifest m)) (net w1) =
    (Ok (), n2) →
  dir_exists env (manifest_dir cfg cwd) = true → can_open_out env path = true →
  putFile env cwd rand cfg filePath wanted w =
  (Ok (mk_put (share_prefix ++ sha256_hex (serializeManifest m)) path),
   mk_world n2 (<[resolve path := serializeManifest m]> (files w1)) (reported w1)).
Proof.
  intros m path Hne Hd Hfile Henc Ecks E1 Ets E2 Hdir Hwr.
  unfold putFile, file_size. rewrite bool_decide_eq_false_2 by done.
  unfold mbind, M_bind, liftR, getM. rewrite Hd, Hfile, Henc, Ecks, E1. fold m.
  rewrite Ets. unfold on_net. rewrite E2. unfold save_manifest. rewrite Hdir. cbn [negb].
  unfold mbind, M_bind, on_files, writeManifest, write_file, getM, putM, mret, M_ret. cbn [files].
  fold path. by rewrite Hwr.
Qed.

Lemma uploaded_manifest_ok env cwd cfg filePath blocks w :
  upload_setup env cwd cfg filePath (concat blocks) w → zlen blocks < 2 ^ 50 →
  manifest_ok (build_manifest (path_filename filePath) (zlen (concat blocks)) cfg None
                 (entries_of blocks)).
Proof.
  intros [_ _ _ _ _ _ _ _ [Hname _] Hsize Hcs _ _ _ _ _ _ _] Hb.
  pose proof (zlen_nonneg (concat blocks)). apply plain_manifest_ok; [done|lia|done|lia].
Qed.

(** What an upload leaves in the network. *)
Lemma putFile_stores env cwd rand cfg filePath content wanted w :
  upload_setup env cwd cfg filePath content w →
  ∃ blocks res w1,
    concat blocks = content ∧ zlen blocks < 2 ^ 50 ∧
    putFile env cwd rand cfg filePath wanted w = (Ok res, w1) ∧
    let m := build_manifest (path_filename filePath) (zlen content) cfg None (entries_of blocks) in
    shareUri res = share_prefix ++ sha256_hex (serializeManifest m) ∧
    read_file (localManifestPath res) (files w1) = Some (serializeManifest m) ∧
    (∀ j, read_file (share_prefix ++ j) (files w1) = None) ∧
    valid (net w1) ∧ consistent (net w1) ∧
    (∀ b, b ∈ blocks → ∃ p, p ∈ peers cfg ∧ is_Some (held (net w1) p (sha256_hex b))) ∧
    told_apart (known (net w1)) (serializeManifest m :: blocks) ∧
    ∃ p, p ∈ peers cfg ∧
         held_manifest (net w1) p (sha256_hex (serializeManifest m)) = Some (serializeManifest m).
Proof.
  intros [Hplain Hpl Hcnt Hgood Hmembers Hval Hcons Hfile Hname Hsize Hcs Hmem Hwr Hdir Hcwd Hlink
    Hroom Hdig].
  pose proof (has_place_peers _ Hpl) as Hne.
  destruct (chunkFile_ok env filePath (cfg_chunkSize cfg) (files w) content Hfile)
    as (cks & Ecks & Hblk); [lia| |].
  { unfold new_buffer. destruct (Z.ltb_spec (2 ^ 63 - 1) (cfg_chunkSize cfg)); [lia|by rewrite Hmem]. }
  exists (map bytes cks). pose proof (blocks_of_length _ _ _ Hblk) as Hlen.
  assert (concat (map bytes cks) = content) as Hcat
    by (rewrite <- flat_map_concat_map; apply Hblk).
  assert (∃ d, new_dht (peers cfg) = Ok d) as [d Hd] by (eexists; apply new_dht_ok).
  destruct (upload_loop_law Hgood wanted cfg d (clamp_replicas cfg) (i32 (zlen cks)) 0 cks w Hd Hpl
    (clamp_replicas_pos cfg Hne Hcnt) Hval Hmembers (blocks_small _ _ _ Hblk Hsize)
    ltac:(by rewrite Hcat))
    as (w1 & E1 & Ef1 & Hv1 & Hc1 & Hman1 & _ & Hnew & Hin).
  unfold upload_texts in Hdig. rewrite Ecks in Hdig.
  assert (zlen (map bytes cks) < 2 ^ 50) as Hcount by (unfold zlen in *; rewrite length_map; lia).
  pose proof (zlen_nonneg content).
  set (m := build_manifest _ _ _ _ _) in *.
  assert (zlen (serializeManifest m) < 2 ^ 62) as Hsmall
    by (apply plain_manifest_small; [apply Hname|lia|done|done]).
  destruct (store_some_targets d (peers cfg) (manifest_key (sha256_hex (serializeManifest m)))
    (clamp_replicas cfg) Hd Hpl) as (ts & Ets & Htne & _ & _ & Hts).
  destruct (put_manifests_law ts (sha256_hex (serializeManifest m)) (serializeManifest m) (net w1))
    as (n2 & E2 & Hv2 & Hh2 & Hn2 & Hm2); [done|apply Hgood|done|by auto|].
  set (path := path_append (manifest_dir cfg cwd) (originalName m ++ lit ".manifest.txt")).
  exists (mk_put (share_prefix ++ sha256_hex (serializeManifest m)) path),
    (mk_world n2 (<[resolve path := serializeManifest m]> (files w)) (reported w1)).
  split; [done|]. split; [done|]. split.
  { rewrite <- Ef1. apply (putFile_result env cwd rand cfg filePath wanted w d content None cks _ w1 ts n2);
      [done..| |done|done|done|done|done|apply Hwr].
    unfold new_file_key. by rewrite bool_decide_eq_true_2. }
  cbn zeta. fold m. cbn [shareUri localManifestPath files net]. split; [done|].
  split; [apply lookup_insert_eq|]. split.
  { intros j. unfold read_file. rewrite lookup_insert_ne; [by apply Hlink|].
    intros E. apply (f_equal fst) in E. cbn [resolve fst] in E. unfold path in E.
    rewrite path_append_absolute in E by (by apply absolute_absolute). done. }
  split; [done|]. split; [intros p j x; rewrite Hh2; by apply Hc1|]. split.
  - intros b (c & -> & Hc)%list_elem_of_fmap. destruct (Hin c Hc) as (p & Hp & Hheld).
    exists p. by rewrite Hh2.
  - split.
    + intros a b Ha Hb. apply Hdig; [|done]. destruct Ha as [(p & j & Ha)|Ha]; [|by right].
      destruct Ha as [Ha|[Ha| ->]%Hn2]; [rewrite Hh2 in Ha; apply Hnew in Ha as [Ha|Ha]| |].
      * left. exists p, j. by left.
      * right. by right.
      * left. exists p, j. right. by rewrite <- Hman1.
      * right. by left.
    + destruct ts as [|p ts]; [done|]. exists p. split; [apply Hts; set_solver|].
      apply Hm2. set_solver.
Qed.
End end_to_end.

Section client_props.
Context {W : Type} {HP : PeerApi W} {HS : Sha256} {HA : AesGcm} {HR : Rsa}.

(** Whatever the peers answer, a download that returns wrote exactly the
    blocks of its manifest: block by block their digests are the chunk ids, and
    the manifest is the local file, or a text whose digest is the id asked for. *)
Theorem download_is_verified env cfg ref out wanted w w'
    (Hok : getFile env cfg ref out wanted w = (Ok (), w')) :
  ∃ m blocks, manifest_source env ref (files w) m ∧ blocks_match (chunks m) blocks ∧
    read_file out (files w') = Some (concat blocks).
Proof. by eapply getFile_ok. Qed.

(** C7. A download by share link that returns wrote the very file whose manifest
    the link names, as long as no peer answers the requests for that manifest and its
    blocks, in whatever state they lead to, with another text that has the digest of
    the manifest or of the block that is asked for. *)
Theorem download_is_original env cfg m blocks out wanted w w' params
    (Hm : manifest_ok m) (Hal : can_alloc env (32 * zlen (chunks m)) = true)
    (Hids : chunks m = entries_of blocks)
    (Hlocal : looks_like_local_manifest_path env
                (share_prefix ++ sha256_hex (serializeManifest m)) (files w) = false)
    (Hkey : file_key cfg m (files w) = Ok params)
    (Hforge : no_forgery (rtc (asked m) (net w)) params m blocks)
    (Hok : getFile env cfg (share_prefix ++ sha256_hex (serializeManifest m)) out wanted w =
           (Ok (), w')) :
  read_file out (files w') = Some (concat blocks).
Proof.
  apply (getFile_by_link (rtc (asked m) (net w)) env cfg m _ _ wanted params w); try done.
  apply asked_keeps.
Qed.
End client_props.

Section end_to_end_props.
Context {W : Type} {HP : PeerApi W} {HL : PeerLaws W} {HS : Sha256} {HA : AesGcm} {HR : Rsa}.

(** A download by a client that knows at least the peers of the uploader. *)
Lemma upload_download_ok env cwd rand cfg cfg' filePath content out up down w :
  upload_setup env cwd cfg filePath content w → peers cfg ⊆ peers cfg' →
  ∃ res w1, putFile env cwd rand cfg filePath up w = (Ok res, w1) ∧
    ∃ w2, getFile env cfg' (shareUri res) out down w1 = (Ok (), w2) ∧
          read_file out (files w2) = Some content.
Proof.
  intros Hset Hsub. destruct (putFile_stores env cwd rand cfg filePath content up w Hset)
    as (blocks & res & w1 & <- & Hblk & E & Huri & _ & Hnone & Hval & Hcons & Hheld & Hdig & p & Hp & Hman).
  exists res, w1. split; [done|]. rewrite Huri. apply stored_is_read; try done.
  - apply Hset.
  - by apply (uploaded_manifest_ok env cwd cfg filePath blocks w).
  - apply Hset.
  - apply Hset.
  - unfold looks_like_local_manifest_path. rewrite Hnone. apply (up_link _ _ _ _ _ _ Hset).
  - intros b Hb. destruct (Hheld b Hb) as (q & Hq & Hx). exists q. split; [by apply Hsub|done].
  - exists p. split; [by apply Hsub|done].
Qed.

(** The manifest that an upload leaves with the client. *)
Lemma upload_local_manifest env cwd rand cfg filePath content wanted w :
  upload_setup env cwd cfg filePath content w →
  ∃ res w1 m, putFile env cwd rand cfg filePath wanted w = (Ok res, w1) ∧
    shareUri res = share_prefix ++ sha256_hex (serializeManifest m) ∧
    is_Some (read_file (localManifestPath res) (files w1)) ∧
    readManifest env (localManifestPath res) (files w1) = Ok m ∧
    originalName m = path_filename filePath ∧ originalSize m = zlen content.
Proof.
  intros Hset. destruct (putFile_stores env cwd rand cfg filePath content wanted w Hset)
    as (blocks & res & w1 & <- & Hblk & E & Huri & Hfile & _).
  eexists res, w1, _. split; [done|]. split; [done|]. split; [by eexists|].
  split; [|by split].
  destruct Hset as [_ _ _ _ _ _ _ _ [Hname _] Hsize Hcs Hmem _ _ _ _ _ _].
  pose proof (zlen_nonneg (concat blocks)).
  unfold readManifest, open_in. rewrite Hfile.
  rewrite parse_serialize; [|apply plain_manifest_ok; (done || lia)|apply Hmem]. done.
Qed.

(** On a network that keeps what it is given, a file that was uploaded in the
    clear is downloaded byte for byte by every client that has the share link and
    knows at least the peers of the uploader, whatever else its configuration says. *)
Theorem upload_then_download env cwd rand cfg cfg' filePath content out up down w
    (Hset : upload_setup env cwd cfg filePath content w) (Hpeers : peers cfg ⊆ peers cfg') :
  ∃ res w1, putFile env cwd rand cfg filePath up w = (Ok res, w1) ∧
    ∃ w2, getFile env cfg' (shareUri res) out down w1 = (Ok (), w2) ∧
          read_file out (files w2) = Some content.
Proof. by apply (upload_download_ok env cwd rand cfg cfg'). Qed.

(** C13. One configured peer that answers is enough, for the manifest and for each
    chunk, whatever the other peers answer and whenever they throw, as long as each call
    ends and no answer is another text with the digest that is asked for: the download
    returns and its file is the one that was uploaded. *)
Theorem one_good_peer_suffices (Inv : W → Prop) env cfg m blocks out wanted w params
    (Hne : peers cfg ≠ []) (Hw : Inv (net w)) (Hkeep : keeps Inv m)
    (Hforge : no_forgery Inv params m blocks)
    (Hlocal : looks_like_local_manifest_path env
                (share_prefix ++ sha256_hex (serializeManifest m)) (files w) = false)
    (Hm : manifest_ok m) (Hal : can_alloc env (32 * zlen (chunks m)) = true)
    (Hids : chunks m = entries_of blocks)
    (Hkey : file_key cfg m (files w) = Ok params) (Hout : can_open_out env out = true)
    (Hman : ∃ p, p ∈ peers cfg ∧ ∀ n, Inv n →
       (getManifest p (sha256_hex (serializeManifest m)) n).1 = Ok (serializeManifest m))
    (Hchunks : ∀ k b, blocks !! k = Some b →
       ∃ p, p ∈ peers cfg ∧ ∀ n, Inv n → ∃ wire, (getChunk p (sha256_hex b) n).1 = Ok wire ∧
         opened params (Z.of_nat k) wire = Ok b) :
  ∃ w', getFile env cfg (share_prefix ++ sha256_hex (serializeManifest m)) out wanted w =
        (Ok (), w') ∧ read_file out (files w') = Some (concat blocks).
Proof. by apply (getFile_available Inv env cfg m blocks out wanted w params). Qed.
End end_to_end_props.

(** ** Encrypted blocks that repeat *)

Section repeats.
Context {W : Type} {HP : PeerApi W} {HL : PeerLaws W} {HS : Sha256} {HA : AesGcm} {HR : Rsa}.

Lemma put_all_law ts j x w :
  valid w → good_name j → zlen x < 2 ^ 62 → (∀ p, p ∈ ts → member p) → NoDup ts →
  (∀ p, p ∈ ts → room w p (zlen x)) →
  ∃ w', forM ts (λ p, putChunk p j x) w = (Ok (), w') ∧ valid w' ∧
    (∀ q k, k ≠ j → held w' q k = held w q k) ∧
    (∀ q, held w' q j = if decide (q ∈ ts) then Some x else held w q j) ∧
    (∀ q k, held_manifest w' q k = held_manifest w q k) ∧ spent ts (zlen x) w w'.
Proof.
  intros Hv Hj Hx. revert w Hv.
  induction ts as [|p ts IH]; intros w Hv Hmem Hnd Hroom; cbn [forM].
  - exists w. repeat (split; [done|]). apply spent_nil.
  - apply NoDup_cons in Hnd as [Hp Hnd].
    destruct (put_chunk_law p j x w) as (w1 & E1 & Hv1 & Hh & Hm1 & Hs1);
      [done|apply Hmem; by left|done|done|apply Hroom; by left|].
    destruct (IH w1 Hv1) as (w2 & E2 & Hv2 & Ho2 & Hh2 & Hm2 & Hs2);
      [intros; apply Hmem; by right|done| |].
    { intros q Hq. apply Hs1; [apply zlen_nonneg|]. rewrite decide_False, Z.add_0_r by (by intros ->).
      apply Hroom. by right. }
    exists w2. unfold mbind, M_bind. rewrite E1. split; [done|]. split; [done|].
    split; [intros q k Hk; rewrite Ho2, Hh by done; rewrite decide_False; [done|by intros []]|].
    split; [|split; [intros; by rewrite Hm2, Hm1|eapply spent_cons; [apply zlen_nonneg|done..]]].
    intros q. rewrite Hh2, Hh.
    destruct (decide (q ∈ ts)) as [Hq|Hq]; [by rewrite decide_True by set_solver|].
    destruct (decide (q = p)) as [->|Hne].
    + rewrite decide_True by done. by rewrite decide_True by set_solver.
    + rewrite decide_False by naive_solver. by rewrite decide_False by set_solver.
Qed.

Lemma first_good_none {A} (Inv : W → Prop) cs (ask : PeerEndpoint → M W str)
    (accept : str → result (option A)) w :
  (∀ p n, Inv n → Inv (ask p n).2) →
  (∀ p n text a, Inv n → (ask p n).1 = Ok text → accept text ≠ Ok (Some a)) →
  Inv w → ∃ w', first_good cs ask accept w = (Ok None, w').
Proof.
  intros Hk Hno. revert w. induction cs as [|p cs IH]; intros w Hw; [by eexists|].
  cbn [first_good]. unfold attempt at 1. m_unfold. specialize (Hk p w Hw). specialize (Hno p w).
  destruct (ask p w) as [[text|e] w1]; cbn in Hk; [|by apply IH].
  destruct (accept text) as [[a|]|e] eqn:E; [|by apply IH|by apply IH].
  by destruct (Hno text a Hw eq_refl).
Qed.

(** Encrypted chunks are stored under the digest of the plain text: when a
    file has the same block twice, the second upload replaces the first, which
    was made under another nonce, and the file cannot be downloaded from any
    peer. *)
Theorem repeated_block_is_lost cfg d params b c0 c1 e replicas wanted wanted' out w
    (Hd : new_dht (peers cfg) = Ok d) (Hv : valid (net w))
    (Hmem : ∀ p, p ∈ peers cfg → member p) (Hname : good_name (sha256_hex b))
    (Hsmall : zlen c0 < 2 ^ 62 ∧ zlen c1 < 2 ^ 62)
    (Hroom : ∀ p, p ∈ peers cfg → room (net w) p (zlen c0 + zlen c1))
    (Hfresh : ∀ q, held (net w) q (sha256_hex b) = None)
    (H0 : aes_gcm_encrypt b (key params) (iv params) 0 = Ok c0)
    (H1 : aes_gcm_encrypt b (key params) (iv params) 1 = Ok c1)
    (Hauth : aes_gcm_decrypt c1 (key params) (iv params) 0 = Throw e) :
  ∃ entries w', upload_loop wanted d (Some params) replicas 2 0 [mk_chunk [] b; mk_chunk [] b] w =
                (Ok entries, w') ∧
    ∃ w'', download_loop wanted' d cfg (Some params) out 2 0 entries w' =
           (Throw (RuntimeError (lit "Failed to retrieve chunk " ++ sha256_hex b)), w'').
Proof.
  set (cid := sha256_hex b) in *.
  assert (∃ ts, store d cid replicas = Ok ts) as [ts Ets]
    by (apply (findValue_total d (peers cfg) cid replicas Hd)).
  assert (∀ p, p ∈ ts → p ∈ peers cfg) as Hts
    by (intros p Hp; by apply (store_in_peers d (peers cfg) cid replicas ts)).
  pose proof (store_distinct d (peers cfg) cid replicas ts Hd Ets) as Hnd.
  pose proof (zlen_nonneg c0). pose proof (zlen_nonneg c1).
  destruct (put_all_law ts cid c0 (net w)) as (n1 & E1 & Hv1 & _ & Hh1 & _ & Hs1);
    [done|done|apply Hsmall|by auto|done| |].
  { intros p Hp. eapply room_weaken; [by apply Hroom, Hts|lia]. }
  destruct (put_all_law ts cid c1 n1) as (n2 & E2 & Hv2 & _ & Hh2 & _ & _);
    [done|done|apply Hsmall|by auto|done| |].
  { intros p Hp. eapply spent_all; [exact Hs1|done|done|]. rewrite Z.add_comm. by apply Hroom, Hts. }
  assert (∃ w1, upload_loop wanted d (Some params) replicas 2 0 [mk_chunk [] b; mk_chunk [] b] w =
          (Ok [mk_entry cid; mk_entry cid], w1) ∧ net w1 = n2) as (w1 & E & En).
  { cbn [upload_loop]. unfold upload_chunk, on_net, report. cbn [bytes]. fold cid. m_unfold.
    change (0 + 1) with 1. rewrite H0, Ets, E1.
    destruct wanted; cbn [net files reported]; rewrite H1, E2; cbn [net];
      eexists; (split; [done|]); done. }
  exists [mk_entry cid; mk_entry cid], w1. split; [done|].
  cbn [download_loop chunkId]. destruct (candidates_for_ok d cfg cid Hd) as (cs & Ecs & _).
  unfold mbind, M_bind, liftR. rewrite Ecs. unfold on_net.
  destruct (first_good_none (holds_as n2) cs (λ p, getChunk p cid) (accept_chunk (Some params) 0 cid)
    (net w1)) as [n3 ->]; [intros; by apply holds_as_get_chunk| |by rewrite En|by eexists].
  intros p n text a (Hvn & Hhn & _) Hask.
  assert (text = c1) as ->.
  { destruct (held n p cid) as [x|] eqn:Hx.
    - rewrite (get_chunk_law p cid n x Hvn Hname Hx) in Hask. injection Hask as <-.
      rewrite Hhn, Hh2, Hh1, Hfresh in Hx. by case_decide; simplify_eq.
    - apply get_chunk_missing in Hx; [|done|done]. by rewrite Hask in Hx. }
  unfold accept_chunk. m_unfold. by rewrite Hauth.
Qed.
End repeats.

(** ** Witnesses *)

(** Peers that keep two tables. *)
Definition HonestNet : Type := gmap (PeerEndpoint * str) str * gmap (PeerEndpoint * str) str.

Definition honest_get (l : gmap (PeerEndpoint * str) str) (p : PeerEndpoint) (j : str) : result str :=
  match l !! (p, j) with
  | Some d => Ok d
  | None => Throw (RuntimeError (lit "Peer returned non-OK"))
  end.

#[export] Instance honest_api : PeerApi HonestNet := {|
  putChunk p j d := λ n, (Ok (), (<[(p, j) := d]> n.1, n.2));
  getChunk p j := λ n, (honest_get n.1 p j, n);
  hasChunk p j := λ n, (Ok (bool_decide (is_Some (n.1 !! (p, j)))), n);
  putManifest p j t := λ n, (Ok (), (n.1, <[(p, j) := t]> n.2));
  getManifest p j := λ n, (honest_get n.2 p j, n);
|}.

Lemma honest_insert (l : gmap (PeerEndpoint * str) str) p j x q k :
  <[(p, j) := x]> l !! (q, k) = if decide (q = p ∧ k = j) then Some x else l !! (q, k).
Proof.
  case_decide as Hqk; [destruct Hqk as [-> ->]; apply lookup_insert_eq|].
  apply lookup_insert_ne. naive_solver.
Qed.

#[export] Instance honest_reads : PeerReads HonestNet.
Proof.
  refine {| good_name _ := True; valid _ := True;
            held n p j := n.1 !! (p, j); held_manifest n p j := n.2 !! (p, j) |}.
  - intros p j n d _ _ Hd. cbn. unfold honest_get. by rewrite Hd.
  - intros p j n _ _ Hd. cbn. unfold honest_get. by rewrite Hd.
  - done.
  - intros p j n d _ _ Hd. cbn. unfold honest_get. by rewrite Hd.
  - intros p j n _ _ Hd. cbn. unfold honest_get. by rewrite Hd.
  - done.
Defined.

#[export] Instance honest_laws : PeerLaws HonestNet.
Proof.
  refine {| laws_reads := honest_reads; member _ := True; room _ _ _ := True |}.
  - done.
  - done.
  - intros p j d n _ _ _ _ _. eexists. split; [done|]. split; [done|]. split; [|by split].
    intros. apply honest_insert.
  - intros p j d n _ _ _ _. eexists. split; [done|]. split; [done|]. split; [|done].
    intros. apply honest_insert.
Defined.

Definition demo_peers : list PeerEndpoint := [peer_at 9101; peer_at 9102; peer_at 9103].

Definition demo_config (size : Z) (pub : str) : ClientConfig :=
  mk_config demo_peers size 2 pub [] [].

(** Only the manifest directory exists. *)
Definition client_env : Env :=
  mk_env (λ _, true) (λ _ _, true) (λ _, true) (λ _, true)
    (λ p, bool_decide (p = lit "/home/u/manifests")) (λ _, None) (λ _, true) (lit "Success").

Definition demo_files : FS := <[resolve (lit "/home/u/a.txt") := lit "a file"]> ∅.

Definition demo_world : World HonestNet := mk_world (∅, ∅) demo_files [].

Lemma demo_setup :
  upload_setup (HS := toy_sha256) client_env (lit "/home/u") (demo_config 4 [])
    (lit "/home/u/a.txt") (lit "a file") demo_world.
Proof.
  split; try done; try by_eval.
  - intros j. split; [by apply bool_decide_eq_false_2|].
    unfold read_file, demo_world, demo_files. cbn [files].
    rewrite lookup_insert_ne; [apply lookup_empty|]. intros E. by apply (f_equal fst) in E.
  - apply (told_apart_list _ []); [|by_eval]. intros t (p & j & [E|E]); cbn in E; by rewrite lookup_empty in E.
Qed.

Lemma upload_then_download_witness :
  ∃ res w1, putFile (HS := toy_sha256) (HA := toy_aes) (HR := toy_rsa) client_env (lit "/home/u")
      None (demo_config 4 []) (lit "/home/u/a.txt") true demo_world = (Ok res, w1) ∧
    ∃ w2, getFile (HS := toy_sha256) (HA := toy_aes) (HR := toy_rsa) client_env
            (demo_config 1048576 []) (shareUri res) (lit "/home/u/b.txt") true w1 = (Ok (), w2) ∧
          read_file (lit "/home/u/b.txt") (files w2) = Some (lit "a file").
Proof.
  exact (upload_then_download (HS := toy_sha256) (HA := toy_aes) (HR := toy_rsa) client_env
    (lit "/home/u") None (demo_config 4 []) (demo_config 1048576 []) (lit "/home/u/a.txt")
    (lit "a file") (lit "/home/u/b.txt") true true demo_world demo_setup (reflexivity _)).
Defined.

(** What the demonstration has after its upload: two blocks, their manifest and
    its link. *)
Definition demo_blocks : list str := [lit "a fi"; lit "le"].

Definition demo_manifest : Manifest :=
  build_manifest (lit "a.txt") 6 (demo_config 4 []) None (entries_of (H := toy_sha256) demo_blocks).

Definition demo_link : str :=
  share_prefix ++ sha256_hex (H := toy_sha256) (serializeManifest demo_manifest).

(** One peer keeps the blocks and the manifest, the other two have nothing. *)
Definition demo_kept : World HonestNet :=
  let p := peer_at 9102 in
  let ids := λ b, sha256_hex (H := toy_sha256) b in
  mk_world (list_to_map (map (λ b, ((p, ids b), b)) demo_blocks),
            {[(p, ids (serializeManifest demo_manifest)) := serializeManifest demo_manifest]})
    demo_files [].

Definition demo_download : result () * World HonestNet :=
  getFile (HS := toy_sha256) (HA := toy_aes) (HR := toy_rsa) client_env (demo_config 4 [])
    demo_link (lit "/home/u/b.txt") true demo_kept.

Definition demo_after : World HonestNet := demo_download.2.

Lemma demo_download_ok :
  getFile (HS := toy_sha256) (HA := toy_aes) (HR := toy_rsa) client_env (demo_config 4 [])
    demo_link (lit "/home/u/b.txt") true demo_kept = (Ok (), demo_after).
Proof.
  unfold demo_after. change (getFile _ _ _ _ _ _) with demo_download.
  rewrite (surjective_pairing demo_download) at 1.
  assert (demo_download.1 = Ok ()) as -> by by_eval. reflexivity.
Qed.

Lemma download_is_verified_witness :
  ∃ m blocks, manifest_source (H := toy_sha256) client_env demo_link demo_files m ∧
    blocks_match (H := toy_sha256) (chunks m) blocks ∧
    read_file (lit "/home/u/b.txt") (files demo_after) = Some (concat blocks).
Proof.
  exact (download_is_verified (HS := toy_sha256) (HA := toy_aes) (HR := toy_rsa) client_env
    (demo_config 4 []) demo_link (lit "/home/u/b.txt") true demo_kept demo_after
    demo_download_ok).
Defined.

Lemma demo_manifest_ok : manifest_ok demo_manifest.
Proof. apply plain_manifest_ok; [by_eval|lia|cbn; lia|vm_compute; reflexivity]. Qed.

Lemma demo_link_is_remote : looks_like_local_manifest_path client_env demo_link demo_files = false.
Proof. by_eval. Qed.

(** Reading does not change tables. *)
Lemma asked_tables (n n' : HonestNet) :
  rtc (asked (HS := toy_sha256) demo_manifest) n n' → n' = n.
Proof. induction 1 as [|n n1 n' (p & [->|(e & _ & ->)]) _ ->]; done. Qed.

Lemma demo_blocks_apart b' b :
  b' ∈ demo_blocks → b ∈ demo_blocks → SHA256 (Sha256 := toy_sha256) b' = SHA256 (Sha256 := toy_sha256) b → b' = b.
Proof.
  intros H1 H2. assert (told_apart (H := toy_sha256) (λ _, False) demo_blocks) as Hd
    by (apply (told_apart_list _ []); [done|by_eval]). apply Hd; auto.
Qed.

Lemma honest_chunk (n : HonestNet) p j d : (getChunk p j n).1 = Ok d → n.1 !! (p, j) = Some d.
Proof. cbn. unfold honest_get. destruct (n.1 !! (p, j)); [|done]. by intros [= ->]. Qed.

Lemma honest_manifest (n : HonestNet) p j t :
  (getManifest p j n).1 = Ok t → n.2 !! (p, j) = Some t.
Proof. cbn. unfold honest_get. destruct (n.2 !! (p, j)); [|done]. by intros [= ->]. Qed.

Lemma demo_no_forgery (Inv : HonestNet → Prop) :
  (∀ n, Inv n → n = net demo_kept) →
  no_forgery (HS := toy_sha256) (HA := toy_aes) Inv None demo_manifest demo_blocks.
Proof.
  intros Hinv. split.
  - intros p n text Hn E _. apply honest_manifest in E. rewrite (Hinv n Hn) in E.
    unfold demo_kept in E. cbn [net snd] in E. by apply lookup_singleton_Some in E as [_ E].
  - intros p n k b wire b' Hn Hb E [= <-]. apply honest_chunk in E. rewrite (Hinv n Hn) in E.
    unfold demo_kept in E. cbn [net fst] in E. apply elem_of_list_to_map_2 in E. apply list_elem_of_fmap in E as (x & Ex & Hx).
    assert (wire = x) as -> by exact (f_equal snd Ex).
    apply demo_blocks_apart; [done|by apply list_elem_of_lookup_2 with k].
Qed.

Lemma download_is_original_witness :
  read_file (lit "/home/u/b.txt") (files demo_after) = Some (lit "a file").
Proof.
  exact (download_is_original (HS := toy_sha256) (HA := toy_aes) (HR := toy_rsa) client_env
    (demo_config 4 []) demo_manifest demo_blocks (lit "/home/u/b.txt") true demo_kept
    demo_after None demo_manifest_ok eq_refl eq_refl demo_link_is_remote eq_refl
    (demo_no_forgery _ (asked_tables _)) demo_download_ok).
Defined.

Lemma one_good_peer_suffices_witness :
  ∃ w', demo_download = (Ok (), w') ∧
        read_file (lit "/home/u/b.txt") (files w') = Some (lit "a file").
Proof.
  refine (one_good_peer_suffices (HS := toy_sha256) (HA := toy_aes) (HR := toy_rsa)
    (λ n, n = net demo_kept) client_env (demo_config 4 []) demo_manifest demo_blocks
    (lit "/home/u/b.txt") true demo_kept None _ eq_refl _ (demo_no_forgery _ (λ _ H, H))
    demo_link_is_remote demo_manifest_ok eq_refl eq_refl eq_refl eq_refl _ _).
  - discriminate.
  - split; [intros p n ->; reflexivity|]. intros p e n _ ->. reflexivity.
  - exists (peer_at 9102). split; [by_eval|]. intros n ->. by_eval.
  - intros k b Hb. exists (peer_at 9102). split; [by_eval|]. intros n ->. exists b.
    destruct k as [|[|k]]; [| |discriminate Hb]; injection Hb as <-; split; by_eval.
Defined.

Definition toy_dht : DhtNode :=
  match new_dht (H := toy_sha256) demo_peers with
  | Ok d => d
  | Throw _ => mk_dht (replicate 20 0) (new_table (replicate 20 0))
  end.

Definition toy_sealed (i : Z) : str :=
  match aes_gcm_encrypt (HA := toy_aes) (lit "same") (key toy_params) (iv toy_params) i with
  | Ok c => c
  | Throw _ => []
  end.

Lemma repeated_block_is_lost_witness :
  ∃ entries w', upload_loop (HS := toy_sha256) (HA := toy_aes) true toy_dht (Some toy_params) 2 2 0
      [mk_chunk [] (lit "same"); mk_chunk [] (lit "same")] demo_world = (Ok entries, w') ∧
    ∃ w'', download_loop (HS := toy_sha256) (HA := toy_aes) true toy_dht (demo_config 4 [])
      (Some toy_params) (lit "/home/u/b.txt") 2 0 entries w' =
      (Throw (RuntimeError (lit "Failed to retrieve chunk " ++
                            sha256_hex (H := toy_sha256) (lit "same"))), w'').
Proof.
  refine (repeated_block_is_lost (HS := toy_sha256) (HA := toy_aes) (demo_config 4 []) toy_dht
    toy_params (lit "same") (toy_sealed 0) (toy_sealed 1)
    (RuntimeError (lit "AES-GCM tag verification failed")) 2 true true
    (lit "/home/u/b.txt") demo_world _ I (λ _ _, I) I _ (λ _ _, I) _ _ _ _).
  - vm_compute. reflexivity.
  - split; vm_compute; reflexivity.
  - intros q. reflexivity.
  - by_eval.
  - by_eval.
  - by_eval.
Defined.
