(* ===== verification/SealedTransfer.v ===== *)
(** * Encrypted transfers

    Uploads with a public key and downloads with the private one, through
    [src/core/dss/dss_client.cpp], [src/core/crypto/hybrid.cpp] and the manifest:
    the file comes back when no block of it occurs twice.  Encrypted chunks are kept
    under the digest of the plain text, so the second part shows what they do to
    the same block of a file in the clear. *)

From S2P Require Import Prelude.
From S2P Require Import CxxStd.
From S2P Require Import Hex.
From S2P Require Import PeerEndpoint.
From S2P Require Import DhtNode.
From S2P Require Import FileSystem.
From S2P Require Import Manifest.
From S2P Require Import Chunker.
From S2P Require Import Hybrid.
From S2P Require Import DssClient.
From S2P Require Import DssClientProps.

(** The name of a chunk. *)
Definition chunk_digest `{Sha256} (c : Chunk) : str := sha256_hex (bytes c).

Section sealed.
Context {W : Type} {HP : PeerApi W} {HL : PeerLaws W} {HS : Sha256} {HA : AesGcm} {HR : Rsa}.

(** Encryption of a small chunk succeeds, and adds 16 bytes. *)
Definition sealable (params : FileEncryptionParams) (b : str) : Prop :=
  zlen b < 2 ^ 61 ∧ ∀ idx, 0 ≤ idx →
    ∃ x, aes_gcm_encrypt b (key params) (iv params) idx = Ok x ∧ zlen x = zlen b + 16.

(** The bytes that the sealed chunks take. *)
Definition sealed_size (l : list Chunk) : Z := zlen (concat (map bytes l)) + 16 * zlen l.

Lemma sealed_size_cons c l : sealed_size (c :: l) = zlen (bytes c) + 16 + sealed_size l.
Proof. unfold sealed_size. cbn [map concat]. rewrite zlen_app, zlen_cons. lia. Qed.

Lemma sealed_size_nonneg l : 0 ≤ sealed_size l.
Proof.
  unfold sealed_size. pose proof (zlen_nonneg l). pose proof (zlen_nonneg (concat (map bytes l))). lia.
Qed.

Lemma sealable_small params b :
  length (iv params) = 12%nat → zlen b < 2 ^ 31 - 16 →
  (∀ n p, length n = 12%nat → is_ok (evp_seal (key params) n p) = true) → sealable params b.
Proof.
  intros Hiv Hb Hseal. split; [lia|]. intros idx Hidx.
  assert (∃ x, aes_gcm_encrypt b (key params) (iv params) idx = Ok x) as [x E].
  { unfold aes_gcm_encrypt. m_unfold. pose proof (zlen_nonneg b). rewrite i32_small by lia.
    rewrite derive_chunk_iv_ok by done. destruct (Z.ltb_spec (zlen b) 0); [lia|].
    match goal with |- context [evp_seal ?k ?n ?p] =>
      specialize (Hseal n p); destruct (evp_seal k n p) as [[ct tag]|] end; [by eexists|].
    exfalso. assert (false = true); [|done]. apply Hseal.
    rewrite length_app, length_take, Hiv. done. }
  exists x. split; [done|]. by eapply sealed_length.
Qed.

(** Chunks that differ have digests that differ. *)
Lemma digests_distinct others (l : list Chunk) :
  told_apart others (map bytes l) → NoDup (map bytes l) → NoDup (map chunk_digest l).
Proof.
  intros Hd Hl. assert (map chunk_digest l = map sha256_hex (map bytes l)) as ->
    by (by rewrite map_map). apply NoDup_fmap_2_strong; [|done].
  intros a b Ha Hb E%sha256_hex_inj. apply Hd; auto.
Qed.

(** One chunk goes, sealed under its index, to all of its targets. *)
Lemma upload_sealed_chunk cfg d params replicas i c w :
  new_dht (peers cfg) = Ok d → has_place cfg → valid w → (∀ p, p ∈ peers cfg → member p) →
  good_name (chunk_digest c) → sealable params (bytes c) → 0 ≤ i →
  (∀ p, p ∈ peers cfg → room w p (zlen (bytes c) + 16)) →
  ∃ w' x ts, upload_chunk d (Some params) replicas i c w = (Ok (mk_entry (chunk_digest c)), w') ∧
    valid w' ∧ (∀ q k, k ≠ chunk_digest c → held w' q k = held w q k) ∧
    aes_gcm_encrypt (bytes c) (key params) (iv params) i = Ok x ∧
    store d (chunk_digest c) replicas = Ok ts ∧ ts ≠ [] ∧ (∀ p, p ∈ ts → p ∈ peers cfg) ∧
    (∀ q, held w' q (chunk_digest c) =
          if decide (q ∈ ts) then Some x else held w q (chunk_digest c)) ∧
    (∀ q k, held_manifest w' q k = held_manifest w q k) ∧
    ∀ q n, 0 ≤ n → room w q (n + (zlen (bytes c) + 16)) → room w' q n.
Proof.
  intros Hd Hpl Hv Hmem Hj [Hb Hs] Hi Hroom. destruct (Hs i Hi) as (x & Ex & Hx).
  pose proof (zlen_nonneg (bytes c)).
  destruct (store_some_targets d (peers cfg) (chunk_digest c) replicas Hd Hpl)
    as (ts & Ets & Hne & _ & Hnd & Hts).
  destruct (put_all_law ts (chunk_digest c) x w) as (w' & E & Hv' & Ho & Hh & Hm & Hsp);
    [done|done|lia|by auto|done|rewrite Hx; by auto|].
  exists w', x, ts. split.
  2: { do 8 (split; [done|]). intros q n Hn Hr.
       eapply spent_all; [exact Hsp|lia|done|by rewrite Hx]. } unfold upload_chunk. fold (chunk_digest c).
  m_unfold. by rewrite Ex, Ets, E.
Qed.

Lemma upload_sealed_loop wanted cfg d params replicas total i l w :
  new_dht (peers cfg) = Ok d → has_place cfg → valid (net w) → (∀ p, p ∈ peers cfg → member p) →
  (∀ b, good_name (sha256_hex b)) → Forall (λ c, sealable params (bytes c)) l → 0 ≤ i →
  NoDup (map chunk_digest l) → (∀ p, p ∈ peers cfg → room (net w) p (sealed_size l)) →
  ∃ w', upload_loop wanted d (Some params) replicas total i l w =
        (Ok (entries_of (map bytes l)), w') ∧ files w' = files w ∧ valid (net w') ∧
    (∀ q k, k ∉ map chunk_digest l → held (net w') q k = held (net w) q k) ∧
    (∀ q k, held_manifest (net w') q k = held_manifest (net w) q k) ∧
    (∀ q n c x, l !! n = Some c → held (net w') q (chunk_digest c) = Some x →
       held (net w) q (chunk_digest c) = Some x ∨
       aes_gcm_encrypt (bytes c) (key params) (iv params) (i + Z.of_nat n) = Ok x) ∧
    ∀ n c, l !! n = Some c → ∃ p x, p ∈ peers cfg ∧ held (net w') p (chunk_digest c) = Some x ∧
      aes_gcm_encrypt (bytes c) (key params) (iv params) (i + Z.of_nat n) = Ok x.
Proof.
  intros Hd Hpl Hv Hmem Hgood Hl. revert i w Hv.
  induction Hl as [|c l Hc Hl IH]; intros i w Hv Hi Hnd Hroom; cbn [upload_loop].
  { exists w. repeat (split; [done|]). by intros n c. }
  cbn [map] in Hnd. apply NoDup_cons in Hnd as [Hfresh Hnd].
  pose proof (sealed_size_nonneg l). pose proof (zlen_nonneg (bytes c)).
  destruct (upload_sealed_chunk cfg d params replicas i c (net w))
    as (n1 & x & ts & E1 & Hv1 & Ho1 & Ex & _ & Hne & Hts & Hh1 & Hm1 & Hs1);
    [done..|apply Hgood|done|done| |].
  { intros p Hp. eapply room_weaken; [by apply Hroom|]. rewrite sealed_size_cons. lia. }
  unfold mbind at 1, M_bind at 1, on_net at 1. rewrite E1.
  unfold mbind at 1, M_bind at 1, report, modifyM. set (w1 := if wanted then _ else _).
  assert (net w1 = n1 ∧ files w1 = files w) as [En Ef] by (by subst w1; destruct wanted).
  destruct (IH (i + 1) w1) as (w' & E & Efi & Hv' & Ho & Hm & Hnew & Hin); [by rewrite En|lia|done| |].
  { intros p Hp. rewrite En. apply Hs1; [done|].
    replace (_ + _) with (sealed_size (c :: l)) by (rewrite sealed_size_cons; lia). by apply Hroom. }
  unfold mbind, M_bind. rewrite E. exists w'. rewrite En, Ef in *. split; [done|]. split; [done|].
  split; [done|]. split; [|split; [intros; by rewrite Hm, Hm1|split]].
  - intros q k Hk. cbn [map] in Hk. apply not_elem_of_cons in Hk as [? ?].
    by rewrite Ho, Ho1.
  - intros q [|n] c' y Hn Hy; cbn [lookup list_lookup] in Hn.
    + injection Hn as <-. rewrite Ho, Hh1 in Hy by done. rewrite Z.add_0_r.
      case_decide; [right; by injection Hy as <-|by left].
    + replace (i + Z.of_nat (S n)) with (i + 1 + Z.of_nat n) by lia.
      destruct (Hnew q n c' y Hn Hy) as [Hy'|]; [|by right]. left. rewrite Ho1 in Hy'; [done|].
      intros Ec. apply Hfresh. rewrite <- Ec. apply list_elem_of_fmap_2.
      by apply list_elem_of_lookup_2 with n.
  - intros [|n] c' Hn; cbn [lookup list_lookup] in Hn.
    + injection Hn as <-. destruct ts as [|p ts]; [done|]. exists p, x.
      split; [apply Hts; set_solver|]. rewrite Ho, Hh1, decide_True, Z.add_0_r by (done || set_solver).
      done.
    + replace (i + Z.of_nat (S n)) with (i + 1 + Z.of_nat n) by lia. by apply Hin.
Qed.
End sealed.

(** ** Upload and download *)

Section transfer.
Context {W : Type} {HP : PeerApi W} {HL : PeerLaws W} {HS : Sha256} {HA : AesGcm} {HR : Rsa}.

(** An encrypted upload in an environment that can store what it must: the system
    calls and OpenSSL succeed.  No text that is sent or sealed has the digest of another,
    or of a text that a peer holds or that can be opened with the key from what one
    holds. *)
Record sealed_setup (env : Env) (cwd : str) (cfg : ClientConfig) (filePath content : str)
    (params : FileEncryptionParams) (ek : EncryptedKey) (w : World W) : Prop := {
  se_place : has_place cfg;
  se_count : zlen (peers cfg) < 2 ^ 31;
  se_names b : good_name (sha256_hex b);
  se_members p : p ∈ peers cfg → member p;
  se_valid : valid (net w);
  se_file : read_file filePath (files w) = Some content;
  se_name : is_word (path_filename filePath) ∧ zlen (path_filename filePath) < 2 ^ 30;
  se_size : zlen content < 2 ^ 50;
  se_chunk : 0 < cfg_chunkSize cfg < 2 ^ 31 - 16;
  se_memory n : can_alloc env n = true;
  se_write path : can_open_out env path = true;
  se_dir : dir_exists env (manifest_dir cfg cwd) = true;
  se_key : length (key params) = 32%nat ∧ length (iv params) = 12%nat;
  se_seal n p : length n = 12%nat → is_ok (evp_seal (key params) n p) = true;
  se_wrap : rsaPublicKeyPath cfg ≠ [] ∧
            encrypt_file_key_rsa params (rsaPublicKeyPath cfg) (files w) = Ok ek;
  se_blob : blob ek ≠ [] ∧ Z.of_nat (length (blob ek)) < 2 ^ 30;
  se_room cks p : p ∈ peers cfg → chunkFile env filePath (cfg_chunkSize cfg) (files w) = Ok cks →
                  room (net w) p (sealed_size cks);
  se_digests : told_apart (opens_to (Some params) (net w))
                 (upload_texts env cfg (Some (params, ek)) filePath content (files w));
}.

(** A client with the private key that belongs to the public key of an upload. *)
Definition reads_sealed (cfg cfg' : ClientConfig) (fs fs' : FS) : Prop :=
  ∃ pk sk, rsa_pair pk sk ∧ rsaPrivateKeyPath cfg' ≠ [] ∧
    pem_public <$> read_file (rsaPublicKeyPath cfg) fs = Some (Some pk) ∧
    pem_private <$> read_file (rsaPrivateKeyPath cfg') fs' = Some (Some sk).

Lemma wrapped_words params ek pub fs :
  encrypt_file_key_rsa params pub fs = Ok ek → blob ek ≠ [] → Z.of_nat (length (blob ek)) < 2 ^ 30 →
  words_ok (Some (params, ek)).
Proof.
  unfold encrypt_file_key_rsa. destruct (read_file pub fs) as [pem|]; [|done].
  destruct (pem_public pem) as [pk|]; [|done]. m_unfold.
  destruct (rsa_encrypt pk _) as [out|] eqn:E; [|done]. intros [= <-] Hne Hlen. cbn [alg blob] in *.
  split; [by_eval|]. split; [apply bytesToHex_word; [by eapply rsa_bytes|done]|]. split; [done|].
  change (zlen (bytesToHex out) < 2 ^ 32). unfold zlen. rewrite length_bytesToHex. lia.
Qed.

(** What the manifest says about the key. *)
Lemma sealed_file_key cfg cfg' name size params ek entries fs fs' :
  length (key params) = 32%nat → length (iv params) = 12%nat → reads_sealed cfg cfg' fs fs' →
  encrypt_file_key_rsa params (rsaPublicKeyPath cfg) fs = Ok ek → blob ek ≠ [] →
  file_key cfg' (build_manifest name size cfg (Some (params, ek)) entries) fs' = Ok (Some params).
Proof.
  intros Hk Hn (pk & sk & Hpair & Hpath & Hpub & Hpriv) Hek Hne.
  destruct (unwrap_wrap params _ _ pk sk ek fs fs' Hk Hn Hpub Hpriv Hpair Hek) as [Hb Hdec].
  unfold file_key. cbn [build_manifest encrypted encryptedKeyHex keyEncAlgo andb].
  rewrite bool_decide_eq_false_2 by (by destruct (blob ek)). cbn [negb].
  rewrite bool_decide_eq_false_2 by done. m_unfold. rewrite from_hex_to_hex by done.
  replace (mk_ek (alg ek) (blob ek)) with ek by (by destruct ek). by rewrite Hdec.
Qed.

(** What an encrypted upload leaves in the network. *)
Lemma putFile_seals env cwd cfg filePath content params ek wanted w cks :
  sealed_setup env cwd cfg filePath content params ek w →
  chunkFile env filePath (cfg_chunkSize cfg) (files w) = Ok cks →
  blocks_of (Z.to_nat (cfg_chunkSize cfg)) content cks → NoDup (map chunk_digest cks) →
  let blocks := map bytes cks in
  let m := build_manifest (path_filename filePath) (zlen content) cfg (Some (params, ek))
             (entries_of blocks) in
  manifest_ok m ∧
  ∃ res w1, putFile env cwd (Some (key params, iv params)) cfg filePath wanted w = (Ok res, w1) ∧
    shareUri res = share_prefix ++ sha256_hex (serializeManifest m) ∧ valid (net w1) ∧
    (∀ n b, blocks !! n = Some b → ∃ p x, p ∈ peers cfg ∧
       held (net w1) p (sha256_hex b) = Some x ∧
       aes_gcm_decrypt x (key params) (iv params) (Z.of_nat n) = Ok b) ∧
    no_forgery (holds_as (net w1)) (Some params) m blocks ∧
    ∃ p, p ∈ peers cfg ∧
         held_manifest (net w1) p (sha256_hex (serializeManifest m)) = Some (serializeManifest m).
Proof.
  intros [Hpl Hcnt Hgood Hmem Hval Hfile [Hname Hnl] Hsize Hcs Hal Hwr Hdir [Hk Hiv] Hseal
    [Hpub Hek] [Hbne Hbl] Hroom Hdig] Ecks Hblk Hnd blocks m.
  unfold upload_texts in Hdig. rewrite Ecks in Hdig. fold blocks in Hdig. fold m in Hdig.
  pose proof (has_place_peers _ Hpl) as Hne. pose proof (blocks_of_length _ _ _ Hblk) as Hlen.
  pose proof (zlen_nonneg content).
  assert (zlen blocks < 2 ^ 50) as Hcount by (unfold blocks, zlen in *; rewrite length_map; lia).
  assert (words_ok (Some (params, ek))) as Hwords by (by eapply wrapped_words).
  assert (Forall (λ c, zlen (bytes c) < 2 ^ 31 - 16) cks) as Hsmall.
  { apply Forall_lookup. intros i c Hi. destruct Hblk as (_ & _ & Hb). specialize (Hb i c Hi).
    unfold zlen. lia. }
  split; [apply built_manifest_ok; [done|lia|lia|lia|done]|].
  assert (∃ d, new_dht (peers cfg) = Ok d) as [d Hd] by (eexists; apply new_dht_ok).
  destruct (upload_sealed_loop wanted cfg d params (clamp_replicas cfg) (i32 (zlen cks)) 0 cks w)
    as (w1 & E1 & _ & Hv1 & _ & Hman1 & Hnew & Hin); [done..| |lia|done|by auto|].
  { eapply Forall_impl; [exact Hsmall|]. intros c Hc. by apply sealable_small. }
  destruct (store_some_targets d (peers cfg) (manifest_key (sha256_hex (serializeManifest m)))
    (clamp_replicas cfg) Hd Hpl) as (ts & Ets & Htne & _ & _ & Hts).
  destruct (put_manifests_law ts (sha256_hex (serializeManifest m)) (serializeManifest m) (net w1))
    as (n2 & E2 & Hv2 & Hh2 & Hn2 & Hm2);
    [done|apply Hgood|apply built_manifest_small; [done|lia|lia|done|done]|by auto|].
  eexists _, _. split.
  { apply (putFile_result env cwd _ cfg filePath wanted w d content (Some (params, ek)) cks
      (entries_of blocks) w1 ts n2);
      [done..| |done|done|done|done|done|apply Hwr].
    unfold new_file_key, generate_file_key. rewrite bool_decide_eq_false_2 by done. m_unfold.
    replace (mk_params (key params) (iv params)) with params by (by destruct params).
    by rewrite Hek. }
  fold m. cbn [shareUri net]. split; [done|]. split; [done|]. split.
  - intros n b (c & -> & Hc)%list_lookup_fmap_Some.
    destruct (Hin n c Hc) as (p & x & Hp & Hx & Ex). exists p, x.
    split; [done|]. split; [by rewrite Hh2|]. eapply decrypt_encrypt; [|exact Ex].
    by apply (proj1 (Forall_lookup _ _) Hsmall n).
  - split; [split|].
    + intros p n text Hn Hask Ht. apply (answered_manifest n2) in Hask; [|apply Hgood|done].
      apply Hn2 in Hask as [Hask| ->]; [|done]. rewrite Hman1 in Hask.
      apply Hdig; [|by left|done]. left. left. eexists p, _. by right.
    + intros p n k b wire b' Hn Hb Hask Hop Ht. apply (answered_chunk n2) in Hask; [|apply Hgood|done].
      rewrite Hh2 in Hask. assert (b ∈ blocks) as Hbin by (by apply list_elem_of_lookup_2 with k).
      apply list_lookup_fmap_Some in Hb as (c & -> & Hc).
      destruct (Hnew p k c wire Hc Hask) as [Hold|Henc].
      * apply Hdig; [|by right|done]. left. right. exists wire, (Z.of_nat k).
        split; [|done]. eexists p, _. by left.
      * apply decrypt_encrypt in Henc; [|by apply (proj1 (Forall_lookup _ _) Hsmall k)].
        cbn [opened] in Hop. rewrite Z.add_0_l in Henc. rewrite Henc in Hop.
        by injection Hop.
    + destruct ts as [|p ts]; [done|]. exists p. split; [apply Hts; set_solver|].
      apply Hm2. set_solver.
Qed.

(** A file without a repeated block, uploaded with a public key, is downloaded
    byte for byte by every client that has the share link and the private key and
    knows at least the peers of the uploader, whatever the peers had kept before. *)
Theorem sealed_upload_then_download env cwd cfg cfg' filePath content params ek out up down w
    (Hset : sealed_setup env cwd cfg filePath content params ek w)
    (Hpeers : peers cfg ⊆ peers cfg')
    (Hrep : ∀ cks, chunkFile env filePath (cfg_chunkSize cfg) (files w) = Ok cks →
            NoDup (map bytes cks)) :
  ∃ res w1, putFile env cwd (Some (key params, iv params)) cfg filePath up w = (Ok res, w1) ∧
    ∀ w2, net w2 = net w1 → reads_sealed cfg cfg' (files w) (files w2) →
      looks_like_local_manifest_path env (shareUri res) (files w2) = false →
      ∃ w3, getFile env cfg' (shareUri res) out down w2 = (Ok (), w3) ∧
            read_file out (files w3) = Some content.
Proof.
  destruct (chunkFile_ok env filePath (cfg_chunkSize cfg) (files w) content (se_file _ _ _ _ _ _ _ _ Hset))
    as (cks & Ecks & Hblk); [destruct Hset; lia| |].
  { destruct Hset as [_ _ _ _ _ _ _ _ Hcs Hal _ _ _ _ _ _ _ _]. unfold new_buffer.
    destruct (Z.ltb_spec (2 ^ 63 - 1) (cfg_chunkSize cfg)); [lia|by rewrite Hal]. }
  assert (NoDup (map chunk_digest cks)) as Hnd.
  { eapply digests_distinct; [|by apply Hrep]. intros a b Ha Hb.
    pose proof (se_digests _ _ _ _ _ _ _ _ Hset) as Hd. unfold upload_texts in Hd.
    rewrite Ecks in Hd. apply Hd; [|by right]. destruct Ha; [by left|right; by right]. }
  destruct (putFile_seals env cwd cfg filePath content params ek up w cks Hset Ecks Hblk Hnd)
    as (Hm & res & w1 & E & Huri & Hv1 & Hheld & Hforge & q & Hq & Hqm).
  exists res, w1. split; [done|]. intros w2 Enet Hkey Hlocal. rewrite Huri in *.
  set (m := build_manifest _ _ _ _ _) in *.
  pose proof Hset as [_ _ Hgood _ _ _ _ _ _ Hal Hwr _ [Hk Hiv] _ [_ Hek] [Hbne _] _ _].
  assert (concat (map bytes cks) = content) as <- by (rewrite <- flat_map_concat_map; apply Hblk).
  apply (getFile_available (holds_as (net w1)) env cfg' m (map bytes cks) out down w2 (Some params));
    rewrite ?Enet; try done.
  - intros E0. rewrite E0 in Hpeers. by apply Hpeers, elem_of_nil in Hq.
  - apply holds_as_keeps; [done|by eexists].
  - by eapply sealed_file_key.
  - exists q. split; [by apply Hpeers|]. intros n (Hn & _ & Hmn).
    apply get_manifest_law; [done|apply Hgood|]. by rewrite Hmn.
  - intros k b Hb. destruct (Hheld k b Hb) as (p & x & Hp & Hx & Edec).
    exists p. split; [by apply Hpeers|]. intros n (Hn & Hh & _). exists x.
    split; [|done]. apply get_chunk_law; [done|apply Hgood|by rewrite Hh].
Qed.
End transfer.

(** ** Sealed and plain copies of a block *)

Section copies.
Context {W : Type} {HP : PeerApi W} {HL : PeerLaws W} {HS : Sha256} {HA : AesGcm} {HR : Rsa}.

(** Targets that all have the chunk are not sent it. *)
Lemma count_holders_all ts j a ms w :
  valid w → good_name j → (∀ p, p ∈ ts → member p) → (∀ p, p ∈ ts → is_Some (held w p j)) →
  count_holders ts j a ms w = (Ok (a + zlen ts, ms), w).
Proof.
  intros Hv Hj. revert a. induction ts as [|p ts IH]; intros a Hm Hh; cbn [count_holders].
  - by rewrite Z.add_0_r.
  - m_unfold. rewrite has_chunk_law by (done || (apply Hm; by left)).
    rewrite bool_decide_eq_true_2 by (apply Hh; by left).
    rewrite IH by (intros; (apply Hm || apply Hh); by right). rewrite zlen_cons.
    do 3 f_equal. lia.
Qed.

(** Nobody has anything under the name but one text. *)
Definition only_copy (w : W) (j x : str) : Prop :=
  ∀ q y, held w q j = Some y → y = x.

Lemma only_copy_lost cfg d j x wanted out total i w :
  new_dht (peers cfg) = Ok d → valid (net w) → good_name j → only_copy (net w) j x →
  sha256_hex x ≠ j →
  ∃ w', download_loop wanted d cfg None out total i [mk_entry j] w =
        (Throw (RuntimeError (lit "Failed to retrieve chunk " ++ j)), w').
Proof.
  intros Hd Hv Hj Hx Hne. cbn [download_loop chunkId].
  destruct (candidates_for_ok d cfg j Hd) as (cs & Ecs & _).
  unfold mbind, M_bind, liftR. rewrite Ecs. unfold on_net.
  destruct (first_good_none (holds_as (net w)) cs (λ p, getChunk p j) (accept_chunk None i j) (net w))
    as [n ->]; [intros; by apply holds_as_get_chunk| |done|by eexists].
  intros p n text a (Hvn & Hhn & _) Hask.
  assert (text = x) as ->.
  { destruct (held n p j) as [y|] eqn:Hy.
    - rewrite (get_chunk_law p j n y Hvn Hj Hy) in Hask. injection Hask as <-.
      rewrite Hhn in Hy. by eapply Hx.
    - apply get_chunk_missing in Hy; [|done|done]. by rewrite Hask in Hy. }
  unfold accept_chunk. m_unfold. by rewrite bool_decide_eq_false_2.
Qed.

(** C40. Sealed and plain copies of a block have the same name.  When nobody but the
    targets of a block has it, an encrypted upload of a file with that block
    replaces every plain copy; a later upload of the block in the clear sends
    nothing; and a download of the block in the clear fails, from every peer: the
    files in the clear that have it are lost.  (The sealed block has another digest than
    the block.) *)
Theorem sealed_block_replaces_plain cfg d params b ts replicas up up' down out w
    (Hd : new_dht (peers cfg) = Ok d) (Hpl : has_place cfg) (Hv : valid (net w))
    (Hmem : ∀ p, p ∈ peers cfg → member p) (Hname : good_name (sha256_hex b))
    (Hs : sealable params b) (Hb : zlen b < 2 ^ 31 - 16)
    (Hroom : ∀ p, p ∈ peers cfg → room (net w) p (zlen b + 16))
    (Hts : store d (sha256_hex b) replicas = Ok ts)
    (Hold : ∀ q, is_Some (held (net w) q (sha256_hex b)) → q ∈ ts)
    (Hdig : ∀ x, aes_gcm_encrypt b (key params) (iv params) 0 = Ok x → SHA256 x ≠ SHA256 b) :
  ∃ w1, upload_loop up d (Some params) replicas 1 0 [mk_chunk [] b] w =
         (Ok [mk_entry (sha256_hex b)], w1) ∧
     ∀ w2, net w2 = net w1 →
       (∃ w3, upload_loop up' d None replicas 1 0 [mk_chunk [] b] w2 =
              (Ok [mk_entry (sha256_hex b)], w3) ∧ net w3 = net w1) ∧
       ∃ w3, download_loop down d cfg None out 1 0 [mk_entry (sha256_hex b)] w2 =
             (Throw (RuntimeError (lit "Failed to retrieve chunk " ++ sha256_hex b)), w3).
Proof.
  destruct (upload_sealed_chunk cfg d params replicas 0 (mk_chunk [] b) (net w))
    as (n1 & x & ts' & E1 & Hv1 & _ & Ex & Ets & _ & Hin & Hh & _ & _); [done..|].
  unfold chunk_digest in *. cbn [bytes] in *. rewrite Hts in Ets. injection Ets as <-.
  set (cid := sha256_hex b) in *.
  assert (sha256_hex x ≠ cid) as Hx by (intros E; by apply (Hdig x Ex), sha256_hex_inj).
  eexists. split.
  { cbn [upload_loop]. unfold mbind at 1, M_bind at 1, on_net at 1. rewrite E1. reflexivity. }
  intros w2 Enet.
  assert (net w2 = n1) as E2 by (rewrite Enet; by destruct up). clear Enet.
  split.
  - eexists. split.
    + cbn [upload_loop]. unfold mbind at 1, M_bind at 1, on_net at 1. unfold upload_chunk.
      cbn [bytes]. fold cid. m_unfold. rewrite Hts. unfold upload_plain. m_unfold.
      rewrite E2, count_holders_all; [|done|done|by auto|].
      * replace (put_missing [] cid b (replicas - (0 + zlen ts)) n1) with (@Ok unit (), n1) by done.
        destruct (0 <? _); reflexivity.
      * intros p Hp. rewrite Hh, decide_True by done. by eexists.
    + by destruct up, up'.
  - apply (only_copy_lost cfg d cid x); rewrite ?E2; try done.
    intros q y. rewrite Hh. case_decide as Hq; [by intros [= <-]|].
    intros Hy. destruct Hq. apply Hold. by eexists.
Qed.
End copies.

(** ** Witnesses *)

Definition sealed_files : FS := <[resolve (lit "/home/u/a.txt") := lit "a file"]> key_files.

Definition sealed_world : World HonestNet := mk_world (∅, ∅) sealed_files [].

Definition toy_wrapped : EncryptedKey := mk_ek (lit "RSA") (seqZ 0 32 ++ seqZ 100 12).

(** Who has the private key. *)
Definition reader_config : ClientConfig := mk_config demo_peers 4 2 [] (lit "key.pem") [].

Definition sealed_run : result PutFileResult * World HonestNet :=
  putFile (HS := toy_sha256) (HA := toy_aes) (HR := toy_rsa) client_env (lit "/home/u")
    (Some (key toy_params, iv toy_params)) (demo_config 4 (lit "pub.pem")) (lit "/home/u/a.txt")
    true sealed_world.

Lemma demo_sealed_setup :
  sealed_setup (HS := toy_sha256) (HA := toy_aes) (HR := toy_rsa) client_env (lit "/home/u")
    (demo_config 4 (lit "pub.pem")) (lit "/home/u/a.txt") (lit "a file") toy_params toy_wrapped
    sealed_world.
Proof.
  split; try done; try by_eval. apply (told_apart_list _ []); [|by_eval].
  assert (∀ t, ¬ known (net sealed_world) t) as Hk
    by (intros t (p & j & [E|E]); cbn in E; by rewrite lookup_empty in E).
  intros t [Ht|(x & i & Hx & _)]; by edestruct Hk.
Qed.

Lemma demo_blocks_differ cks :
  chunkFile client_env (lit "/home/u/a.txt") 4 sealed_files = Ok cks → NoDup (map bytes cks).
Proof.
  intros E. assert (Ok cks = Ok [mk_chunk [] (lit "a fi"); mk_chunk [] (lit "le")]) as [= ->]
    by (rewrite <- E; vm_compute; reflexivity).
  apply (bool_decide_unpack _). by_eval.
Qed.

(** The link is not the name of a local file. *)
Lemma sealed_link_is_remote res w1 :
  sealed_run = (Ok res, w1) →
  looks_like_local_manifest_path client_env (shareUri res) sealed_files = false.
Proof.
  intros E. assert (match sealed_run.1 with
    | Ok res => looks_like_local_manifest_path client_env (shareUri res) sealed_files
    | Throw _ => false end = false) as H by by_eval.
  by rewrite E in H.
Qed.

Lemma sealed_upload_then_download_witness :
  ∃ res w1, sealed_run = (Ok res, w1) ∧
    ∃ w3, getFile (HS := toy_sha256) (HA := toy_aes) (HR := toy_rsa) client_env reader_config
            (shareUri res) (lit "/home/u/b.txt") true (mk_world (net w1) sealed_files []) =
          (Ok (), w3) ∧ read_file (lit "/home/u/b.txt") (files w3) = Some (lit "a file").
Proof.
  destruct (sealed_upload_then_download (HS := toy_sha256) (HA := toy_aes) (HR := toy_rsa) client_env
    (lit "/home/u") (demo_config 4 (lit "pub.pem")) reader_config (lit "/home/u/a.txt")
    (lit "a file") toy_params toy_wrapped (lit "/home/u/b.txt") true true sealed_world
    demo_sealed_setup (reflexivity _) demo_blocks_differ) as (res & w1 & E & Hget).
  exists res, w1. split; [exact E|].
  apply (Hget (mk_world (net w1) sealed_files []) eq_refl).
  - exists (() : public_key (Rsa := toy_rsa)), (() : private_key (Rsa := toy_rsa)).
    split; [exact I|]. split; [discriminate|]. split; vm_compute; reflexivity.
  - exact (sealed_link_is_remote res w1 E).
Defined.

Definition toy_targets : list PeerEndpoint :=
  match store (H := toy_sha256) toy_dht (sha256_hex (H := toy_sha256) (lit "same")) 2 with
  | Ok ts => ts
  | Throw _ => []
  end.

(** The targets had the block in the clear. *)
Definition plain_copies : World HonestNet :=
  mk_world (list_to_map (map (λ p, ((p, sha256_hex (H := toy_sha256) (lit "same")), lit "same"))
                           toy_targets), ∅) ∅ [].

Lemma plain_copies_at q :
  is_Some (held (net plain_copies) q (sha256_hex (H := toy_sha256) (lit "same"))) → q ∈ toy_targets.
Proof.
  intros [y Hy]. cbn [held laws_reads honest_laws honest_reads plain_copies net fst] in Hy.
  apply elem_of_list_to_map_2 in Hy.
  apply list_elem_of_fmap in Hy as (p & E & Hp). by injection E as -> _.
Qed.

Lemma sealed_block_replaces_plain_witness :
  ∃ w1, upload_loop (HS := toy_sha256) (HA := toy_aes) true toy_dht (Some toy_params) 2 1 0
           [mk_chunk [] (lit "same")] plain_copies =
         (Ok [mk_entry (sha256_hex (H := toy_sha256) (lit "same"))], w1) ∧
     ∃ w3, download_loop (HS := toy_sha256) (HA := toy_aes) true toy_dht (demo_config 4 []) None
             (lit "/home/u/b.txt") 1 0 [mk_entry (sha256_hex (H := toy_sha256) (lit "same"))] w1 =
           (Throw (RuntimeError (lit "Failed to retrieve chunk " ++
                                 sha256_hex (H := toy_sha256) (lit "same"))), w3).
Proof.
  destruct (sealed_block_replaces_plain (HS := toy_sha256) (HA := toy_aes) (demo_config 4 []) toy_dht
    toy_params (lit "same") toy_targets 2 true true true (lit "/home/u/b.txt") plain_copies)
    as (w1 & E & Hl).
  - vm_compute. reflexivity.
  - by_eval.
  - exact I.
  - intros p _. exact I.
  - exact I.
  - apply sealable_small; [done|by_eval|done].
  - by_eval.
  - intros p _. exact I.
  - vm_compute. reflexivity.
  - exact plain_copies_at.
  - intros x Hx. vm_compute in Hx. injection Hx as <-. vm_compute. discriminate.
  - exists w1. split; [exact E|]. exact (proj2 (Hl w1 eq_refl)).
Defined.
