(* ===== verification/PeerNetwork.v ===== *)
(** * A network of peers

    The peers of [PeerService], each over its own storage manager with a limit of
    its own, reached through the calls of [PeerClient] over TCP: as long as there is
    room they keep the promises of [PeerLaws], so that an uploaded file is
    downloaded again with every layer of the program in between.  [FullPeers] has
    what happens when there is no room. *)

From S2P Require Import Prelude.
From S2P Require Import CxxStd.
From S2P Require Import Hex.
From S2P Require Import PeerEndpoint.
From S2P Require Import FileSystem.
From S2P Require Import Storage.
From S2P Require Import StorageLru.
From S2P Require Import StorageProps.
From S2P Require Import Chunker.
From S2P Require Import Tcp.
From S2P Require Import PeerService.
From S2P Require Import PeerClient.
From S2P Require Import Hybrid.
From S2P Require Import DssClient.
From S2P Require Import DssClientProps.
From S2P Require Import SealedTransfer.

(** ** The files of one peer *)

Definition chunk_file (s : StorageManager) (j : str) : option str :=
  read_file (chunkPath s j) (disk s).
Definition manifest_file (s : StorageManager) (j : str) : option str :=
  read_file (manifestPath s j) (disk s).

(** [n] more bytes of chunks fit without an eviction. *)
Definition peer_room (s : StorageManager) (n : Z) : Prop :=
  maxBytes_ s = 0 ∨ usedBytes_ s + n ≤ maxBytes_ s.

(** A peer within its limit, whose table is its directory, and whose files can be
    sent. *)
Record peer_ok (s : StorageManager) : Prop := {
  ok_limit : 0 ≤ maxBytes_ s < 2 ^ 64;
  ok_used : 0 ≤ usedBytes_ s;
  ok_fits : peer_room s 0;
  ok_sizes : sizes_ok (meta_ s);
  ok_table j : chunk_name j → is_Some (meta_ s !! j) ↔ is_Some (chunk_file s j);
  ok_chunks j d : chunk_name j → chunk_file s j = Some d → zlen d < 2 ^ 62;
  ok_manifests j t : chunk_name j → manifest_file s j = Some t → zlen t < 2 ^ 62;
}.

(** Files that can be sent: what reading needs of a peer. *)
Record files_small (s : StorageManager) : Prop := {
  small_chunks j d : chunk_name j → chunk_file s j = Some d → zlen d < 2 ^ 62;
  small_manifests j t : chunk_name j → manifest_file s j = Some t → zlen t < 2 ^ 62;
}.

Lemma peer_ok_small s : peer_ok s → files_small s.
Proof. by intros []. Qed.

(** The same table and files. *)
Record same_peer (s s' : StorageManager) : Prop := {
  same_base : baseDir_ s' = baseDir_ s;
  same_limit : maxBytes_ s' = maxBytes_ s;
  same_used : usedBytes_ s' = usedBytes_ s;
  same_sizes : sizes_ok (meta_ s) → sizes_ok (meta_ s');
  same_table j : is_Some (meta_ s' !! j) ↔ is_Some (meta_ s !! j);
  same_chunks j : chunk_name j → chunk_file s' j = chunk_file s j;
  same_manifests j : chunk_name j → manifest_file s' j = manifest_file s j;
}.

Lemma same_peer_refl s : same_peer s s.
Proof. by split. Qed.

Lemma same_peer_room s s' n : same_peer s s' → peer_room s n → peer_room s' n.
Proof. intros [_ Hl Hu _ _ _ _]. unfold peer_room. by rewrite Hl, Hu. Qed.

Lemma same_peer_ok s s' : same_peer s s' → peer_ok s → peer_ok s'.
Proof.
  intros Hsame [Kl Ku Kf Ks Kt Kc Km]. pose proof Hsame as [Hb Hl Hu Hs Ht Hc Hm]. split.
  - by rewrite Hl.
  - by rewrite Hu.
  - by eapply same_peer_room.
  - by apply Hs.
  - intros j Hj. by rewrite Ht, Hc, Kt.
  - intros j d Hj. rewrite Hc by done. by apply Kc.
  - intros j t Hj. rewrite Hm by done. by apply Km.
Qed.

(** Writing the metadata file changes nothing that is asked for. *)
Lemma persist_same `{IterOrder} env s : same_peer s (persistMetadata env s).
Proof.
  destruct (persist_fields env s) as (Eb & El & Eu & _ & Em). split.
  - done.
  - done.
  - done.
  - by rewrite Em.
  - intros j. by rewrite Em.
  - intros j (_ & Hj & _). unfold chunk_file, read_file. rewrite (chunkPath_base _ s) by done.
    rewrite persist_disk_other; [done|]. by apply chunkPath_not_metaPath.
  - intros j (_ & Hj & _). unfold manifest_file, read_file, manifestPath, manifestsDir_.
    rewrite Eb. rewrite persist_disk_other; [done|]. by apply (manifest_not_meta s).
Qed.

(** Nothing is evicted while the chunks fit. *)
Lemma enforceLimit_fits `{IterOrder} env s : peer_room s 0 → same_peer s (enforceLimit env s).
Proof.
  intros Hr. unfold enforceLimit. destruct (Z.eqb_spec (maxBytes_ s) 0) as [|Hm]; [apply same_peer_refl|].
  assert (∀ n, enforce_loop n env s = s) as ->; [|apply persist_same].
  intros [|n]; [done|]. cbn [enforce_loop]. destruct Hr as [?|Hr]; [done|].
  destruct (Z.ltb_spec (maxBytes_ s) (usedBytes_ s)); [lia|done].
Qed.

Section peer.
Context `{IterOrder}.

(** What is needed of the machines and of the network between them. *)
Record link_ok (env cenv : Env) (seg seg' : str → list str) : Prop := {
  link_env : env_ok env;
  link_manifests s j : chunk_name j → open_dir env (manifestPath s j) = None;
  link_memory n : can_alloc cenv n = true;
  link_there : segments_of seg;
  link_back : segments_of seg';
}.

Context (env cenv : Env) (seg seg' : str → list str).
Context (Hlink : link_ok env cenv seg seg').

Lemma small_buffer e n : (∀ n, can_alloc e n = true) → n < 2 ^ 62 → new_buffer e n = Ok ().
Proof.
  intros Ha Hn. unfold new_buffer. destruct (Z.ltb_spec (2 ^ 63 - 1) n); [lia|]. by rewrite Ha.
Qed.

Lemma peer_buffer n : n < 2 ^ 62 → new_buffer env n = Ok ().
Proof. apply small_buffer. apply (link_env _ _ _ _ Hlink). Qed.

Lemma client_buffer n : n < 2 ^ 62 → new_buffer cenv n = Ok ().
Proof. apply small_buffer. apply (link_memory _ _ _ _ Hlink). Qed.

(** The names that requests may carry. *)
Definition sendable (j : str) : Prop := chunk_name j ∧ zlen j ≤ 8000.

Lemma sendable_request s r :
  sendable (request_name r) → zlen (payload r) < 2 ^ 62 →
  match r with GetManifest _ | HasManifest _ => False | _ => True end →
  request_ok env s r.
Proof. intros [[Hw _] Hl] Hp Hr. apply chunk_request_ok; [done|done|by apply peer_buffer|done]. Qed.

Lemma sendable_manifest_request s j :
  sendable j → files_small s → request_ok env s (GetManifest j).
Proof.
  intros [Hj Hl] Hs. pose proof (header_short (GetManifest j)) as Hh. cbn [payload request_name] in Hh.
  change (zlen []) with 0 in Hh. split; [apply Hj|]. split; [lia|].
  split; [by apply peer_buffer|]. split; [by apply (link_manifests _ _ _ _ Hlink)|].
  intros t Ht. apply peer_buffer. by apply (small_manifests s Hs j).
Qed.

(** Reading a chunk moves it to the front of the cache, no more. *)
Lemma touched_same j s : same_peer s (persistMetadata env (touch j s)).
Proof.
  assert (same_peer s (touch j s)) as Ht.
  { unfold touch. destruct (meta_ s !! j) as [m|] eqn:Hm; [|apply same_peer_refl].
    split; try done; cbn [meta_ set_meta set_counter].
    - intros Hz. apply map_Forall_insert_2; [|done]. exact (Hz j m Hm).
    - intros i. destruct (decide (i = j)) as [->|]; [by rewrite lookup_insert_eq, Hm|].
      by rewrite lookup_insert_ne. }
  destruct Ht as [Tb Tl Tu Ts Tt Tc Tm], (persist_same env (touch j s)) as [Pb Pl Pu Ps Pt Pc Pm].
  split; [by rewrite Pb|by rewrite Pl|by rewrite Pu|by intros ?; apply Ps, Ts|..].
  - intros i. by rewrite Pt.
  - intros i Hi. by rewrite Pc, Tc.
  - intros i Hi. by rewrite Pm, Tm.
Qed.

Lemma peer_get j s :
  files_small s → sendable j →
  ∃ s', talk env seg seg' (getChunk_session cenv j) s =
        (match chunk_file s j with
         | Some d => Ok d
         | None => Throw (RuntimeError (lit "Peer returned non-OK for GET_CHUNK"))
         end, s') ∧ same_peer s s'.
Proof.
  intros Hs Hj. destruct (chunk_file s j) as [d|] eqn:Hd.
  - pose proof (small_chunks s Hs j d (proj1 Hj) Hd) as Hsmall.
    assert (loadChunk env j s = (Ok d, persistMetadata env (touch j s))) as El
      by (apply loadChunk_found; [done|by apply peer_buffer]).
    eexists. rewrite talk_get_chunk; [rewrite El; cbn [fst snd]|apply Hlink|apply Hlink| |].
    + split; [done|apply touched_same].
    + by apply sendable_request.
    + rewrite El. intros d' [= <-]. by apply client_buffer.
  - assert (loadChunk env j s = (Throw (RuntimeError (lit "loadChunk: missing chunk " ++ j)), s)) as El.
    { apply loadChunk_missing; [done|]. by apply (link_env _ _ _ _ Hlink), Hj. }
    exists s. rewrite talk_get_chunk; [rewrite El; cbn [fst snd]|apply Hlink|apply Hlink| |].
    + by split.
    + by apply sendable_request.
    + by rewrite El.
Qed.

Lemma peer_has j s :
  peer_ok s → sendable j →
  talk env seg seg' (hasChunk_session j) s = (Ok (bool_decide (is_Some (chunk_file s j))), s).
Proof.
  intros Hs Hj. rewrite talk_has_chunk; [|apply Hlink|apply Hlink|by apply sendable_request].
  unfold Storage.hasChunk. do 2 f_equal. apply bool_decide_ext, (ok_table s Hs), Hj.
Qed.

(** Writing a chunk. *)
Lemma stored_disk_else s j d k :
  k ≠ resolve (chunkPath s j) → k ≠ resolve (tmpPath s j) → stored_disk s j d !! k = disk s !! k.
Proof.
  intros H1 H2. unfold stored_disk.
  by rewrite lookup_insert_ne, lookup_delete_ne, lookup_insert_ne.
Qed.

Lemma tmpPath_resolved s j :
  simple_name j →
  resolve (tmpPath s j) = ((base_key s).1, (j ++ lit ".tmp") :: lit "chunks" :: (base_key s).2).
Proof. intros Hj. rewrite tmpPath_eq, resolve_chunkPath; [done|by apply simple_name_tmp]. Qed.

Lemma stored_fields j d s :
  baseDir_ (stored j d s) = baseDir_ s ∧ maxBytes_ (stored j d s) = maxBytes_ s ∧
  disk (stored j d s) = stored_disk s j d ∧
  usedBytes_ (stored j d s) = u64 (usedBytes_ (forget_size j s) + zlen d) ∧
  (sizes_ok (meta_ s) → sizes_ok (meta_ (stored j d s))) ∧
  ∀ i, is_Some (meta_ (stored j d s) !! i) ↔ i = j ∨ is_Some (meta_ s !! i).
Proof.
  destruct (forget_size_fields j s) as (Eb & El & _ & Em & _). unfold stored, add_entry.
  cbn [baseDir_ maxBytes_ disk meta_ usedBytes_ set_used set_meta set_counter set_disk].
  do 4 (split; [done|]). rewrite Em. split.
  { intros Hz. apply map_Forall_insert_2; [apply zlen_nonneg|done]. }
  intros i. destruct (decide (i = j)) as [->|Hne].
  - rewrite lookup_insert_eq. split; [by left|by eexists].
  - rewrite lookup_insert_ne by done. naive_solver.
Qed.

Lemma stored_files j d s :
  chunk_name j →
  (∀ i, chunk_name i →
     chunk_file (stored j d s) i = if decide (i = j) then Some d else chunk_file s i) ∧
  (∀ i, chunk_name i → manifest_file (stored j d s) i = manifest_file s i).
Proof.
  intros Hj. destruct (stored_fields j d s) as (Eb & _ & Ed & _). split; intros i Hi.
  - unfold chunk_file, read_file. rewrite (chunkPath_base _ s), Ed by done.
    destruct (decide (i = j)) as [->|Hne]; [by apply lookup_insert_eq|].
    by rewrite stored_disk_other.
  - unfold manifest_file, read_file, manifestPath, manifestsDir_. rewrite Ed, Eb.
    apply stored_disk_else.
    + apply not_eq_sym. apply (chunk_not_manifest s); [apply Hj|apply Hi].
    + rewrite tmpPath_resolved by apply Hj. intros E.
      change (resolve (manifestPath s i) =
        ((base_key s).1, (j ++ lit ".tmp") :: lit "chunks" :: (base_key s).2)) in E.
      rewrite resolve_manifestPath in E by apply Hi.
      by apply (f_equal (λ k, k.2 !! 1%nat)) in E.
Qed.

(** What a chunk takes: never more than its length. *)
Lemma stored_room j d s :
  peer_ok s → peer_room s (zlen d) →
  0 ≤ usedBytes_ (stored j d s) ∧ peer_room (stored j d s) 0 ∧
  ∀ n, peer_room s (n + zlen d) → 0 ≤ n → peer_room (stored j d s) n.
Proof.
  intros Hs Hd. pose proof (ok_limit s Hs) as Hl. pose proof (ok_used s Hs) as Hu.
  pose proof (zlen_nonneg d). destruct (stored_fields j d s) as (_ & El & _ & Eu & _).
  assert (0 ≤ usedBytes_ (forget_size j s) ≤ usedBytes_ s) as Hf.
  { unfold forget_size. destruct (meta_ s !! j) as [m|] eqn:Hm; [|lia]. cbn [usedBytes_ set_used].
    destruct (Z.leb_spec (csize m) (usedBytes_ s)); [|lia]. split; [lia|].
    pose proof (ok_sizes s Hs j m Hm) as Hz. cbn in Hz. lia. }
  unfold peer_room in *. rewrite El, Eu. split; [apply u64_range|].
  assert (maxBytes_ s ≠ 0 → u64 (usedBytes_ (forget_size j s) + zlen d) =
          usedBytes_ (forget_size j s) + zlen d) as Ew.
  { intros Hm. apply u64_id. destruct Hd; [done|]. lia. }
  destruct (decide (maxBytes_ s = 0)) as [|Hm]; [by split; [left|intros; left]|].
  rewrite Ew by done. destruct Hd as [?|Hd]; [done|]. split; [right; lia|].
  intros n [?|Hn] ?; [done|]. right. lia.
Qed.

Lemma peer_put j d s :
  peer_ok s → sendable j → zlen d < 2 ^ 62 → peer_room s (zlen d) →
  ∃ s', talk env seg seg' (putChunk_session j d) s = (Ok (), s') ∧ peer_ok s' ∧
    (∀ i, chunk_name i → chunk_file s' i = if decide (i = j) then Some d else chunk_file s i) ∧
    (∀ i, chunk_name i → manifest_file s' i = manifest_file s i) ∧
    ∀ n, peer_room s (n + zlen d) → 0 ≤ n → peer_room s' n.
Proof.
  intros Hs Hj Hd Hroom. pose proof (proj1 Hj) as Hname.
  destruct (stored_fields j d s) as (_ & El & _ & _ & Ez & Em).
  destruct (stored_files j d s Hname) as [Ec Ef].
  destruct (stored_room j d s Hs Hroom) as (Hu & Hfit & Hr).
  pose proof (enforceLimit_fits env (stored j d s) Hfit) as Hsame.
  exists (enforceLimit env (stored j d s)).
  rewrite talk_put_chunk; [|apply Hlink|apply Hlink|by apply sendable_request].
  rewrite storeChunk_success; [split; [done|]| |split; apply (link_env _ _ _ _ Hlink)].
  2: { intros ->. by destruct Hname as [[? _] _]. }
  split; [|split; [|split]].
  - apply (same_peer_ok _ _ Hsame). split; [rewrite El; apply Hs|done|done|by apply Ez, Hs|..].
    + intros i Hi. rewrite Em, Ec by done. destruct (decide (i = j)) as [->|Hne].
      * split; [by eexists|by left].
      * rewrite (ok_table s Hs i Hi). naive_solver.
    + intros i x Hi. rewrite Ec by done. case_decide; [by intros [= <-]|]. by apply (ok_chunks s Hs).
    + intros i x Hi. rewrite Ef by done. by apply (ok_manifests s Hs).
  - intros i Hi. by rewrite (same_chunks _ _ Hsame), Ec.
  - intros i Hi. by rewrite (same_manifests _ _ Hsame), Ef.
  - intros n Hn H0. by apply (same_peer_room _ _ _ Hsame), Hr.
Qed.

(** Manifests. *)
Lemma peer_put_manifest j t s :
  peer_ok s → sendable j → zlen t < 2 ^ 62 →
  ∃ s', talk env seg seg' (putManifest_session j t) s = (Ok (), s') ∧ peer_ok s' ∧
    (∀ i, chunk_name i → manifest_file s' i = if decide (i = j) then Some t else manifest_file s i) ∧
    (∀ i, chunk_name i → chunk_file s' i = chunk_file s i) ∧ ∀ n, peer_room s n → peer_room s' n.
Proof.
  intros Hs Hj Ht. pose proof (proj1 Hj) as Hname.
  rewrite talk_put_manifest; [|apply Hlink|apply Hlink|by apply sendable_request].
  unfold write_file. destruct (link_env _ _ _ _ Hlink) as [Ho _]. rewrite Ho.
  eexists. split; [done|]. set (s' := set_disk _ s).
  assert (∀ i, chunk_name i →
    manifest_file s' i = if decide (i = j) then Some t else manifest_file s i) as Em.
  { intros i Hi. unfold manifest_file, read_file. cbn [disk set_disk s'].
    change (manifestPath s' i) with (manifestPath s i). destruct (decide (i = j)) as [->|Hne].
    - apply lookup_insert_eq.
    - rewrite lookup_insert_ne; [done|]. intros E. apply Hne. symmetry.
      apply (manifestPath_inj s); [apply Hname|apply Hi|done]. }
  assert (∀ i, chunk_name i → chunk_file s' i = chunk_file s i) as Ec.
  { intros i Hi. unfold chunk_file, read_file. cbn [disk set_disk s'].
    change (chunkPath s' i) with (chunkPath s i). rewrite lookup_insert_ne; [done|].
    apply not_eq_sym, chunk_not_manifest; [apply Hi|apply Hname]. }
  split; [|done]. split; [apply Hs|apply Hs|apply Hs|apply Hs|..].
  - intros i Hi. rewrite Ec by done. by apply (ok_table s Hs).
  - intros i x Hi. rewrite Ec by done. by apply (ok_chunks s Hs).
  - intros i x Hi. rewrite Em by done. case_decide; [by intros [= <-]|]. by apply (ok_manifests s Hs).
Qed.

Lemma peer_get_manifest j s :
  files_small s → sendable j →
  talk env seg seg' (getManifest_session cenv j) s =
  (match manifest_file s j with
   | Some t => Ok t
   | None => Throw (RuntimeError (lit "Peer returned non-OK for GET_MANIFEST"))
   end, s).
Proof.
  intros Hs Hj. apply talk_get_manifest; [apply Hlink|apply Hlink|by apply sendable_manifest_request|].
  intros t Ht. apply client_buffer. by apply (small_manifests s Hs j), Ht; apply Hj.
Qed.
End peer.

(** ** The network *)

Abbreviation Network := (gmap PeerEndpoint StorageManager).

Section network.
Context `{IterOrder}.
Context (env cenv : Env) (seg seg' : str → list str) (members : list PeerEndpoint).

(** A call to an endpoint: nobody answers where no peer runs. *)
Definition call {A} (p : PeerEndpoint) (body : M Conn A) : M Network A := λ n,
  match n !! p with
  | None => (Throw (RuntimeError (lit "connect: Connection refused")), n)
  | Some s => let (r, s') := talk env seg seg' body s in (r, <[p := s']> n)
  end.

Definition wire_api : PeerApi Network := {|
  DssClient.putChunk p j d := call p (putChunk_session j d);
  DssClient.getChunk p j := call p (getChunk_session cenv j);
  DssClient.hasChunk p j := call p (hasChunk_session j);
  DssClient.putManifest p j t := call p (putManifest_session j t);
  DssClient.getManifest p j := call p (getManifest_session cenv j);
|}.

(** Every member runs, and every peer is in order. *)
Definition network_ok (n : Network) : Prop :=
  map_Forall (λ _ s, peer_ok s) n ∧ ∀ p, p ∈ members → is_Some (n !! p).

Definition at_peer (file : StorageManager → str → option str) (n : Network) (p : PeerEndpoint)
    (j : str) : option str :=
  s ← n !! p; if decide (chunk_name j) then file s j else None.

Lemma network_set n p s s' :
  network_ok n → n !! p = Some s → peer_ok s' → network_ok (<[p := s']> n).
Proof.
  intros [Hn Hm] Hp Hs'. split; [by apply map_Forall_insert_2|].
  intros q Hq. destruct (decide (q = p)) as [->|]; [by rewrite lookup_insert_eq|].
  rewrite lookup_insert_ne by done. by apply Hm.
Qed.

Lemma at_peer_set file n p s s' q k :
  n !! p = Some s →
  at_peer file (<[p := s']> n) q k =
  if decide (q = p) then (if decide (chunk_name k) then file s' k else None) else at_peer file n q k.
Proof.
  intros Hp. unfold at_peer. destruct (decide (q = p)) as [->|Hne].
  - by rewrite lookup_insert_eq.
  - by rewrite lookup_insert_ne.
Qed.

(** A change of one peer that keeps a kind of file. *)
Lemma at_peer_same file n p s s' :
  n !! p = Some s → (∀ j, chunk_name j → file s' j = file s j) →
  ∀ q k, at_peer file (<[p := s']> n) q k = at_peer file n q k.
Proof.
  intros Hp Hf q k. rewrite (at_peer_set file n p s) by done.
  destruct (decide (q = p)) as [->|]; [|done]. unfold at_peer. rewrite Hp. cbn.
  case_decide; [by apply Hf|done].
Qed.

(** A change of one peer that writes one file. *)
Lemma at_peer_written file n p s s' j d :
  n !! p = Some s → chunk_name j →
  (∀ i, chunk_name i → file s' i = if decide (i = j) then Some d else file s i) →
  ∀ q k, at_peer file (<[p := s']> n) q k =
         if decide (q = p ∧ k = j) then Some d else at_peer file n q k.
Proof.
  intros Hp Hj Hf q k. rewrite (at_peer_set file n p s) by done.
  destruct (decide (q = p)) as [->|]; [|by rewrite decide_False by naive_solver].
  unfold at_peer. rewrite Hp. cbn. destruct (decide (k = j)) as [->|Hk].
  - rewrite !decide_True by done. rewrite Hf by done. by rewrite decide_True.
  - rewrite (decide_False (P := p = p ∧ k = j)) by naive_solver. case_decide; [|done].
    rewrite Hf by done. by rewrite decide_False.
Qed.

Lemma at_peer_some file n p j d :
  at_peer file n p j = Some d → ∃ s, n !! p = Some s ∧ file s j = Some d.
Proof.
  unfold at_peer. destruct (n !! p) as [s|]; [|done]. cbn. case_decide; [|done]. by exists s.
Qed.
End network.

(** ** The network keeps the promises *)

Section laws.
Context `{IterOrder}.
Context (env cenv : Env) (seg seg' : str → list str) (members : list PeerEndpoint).
Context (Hlink : link_ok env cenv seg seg').

Abbreviation valid_net := (network_ok members).
Abbreviation chunk_at := (at_peer chunk_file).
Abbreviation manifest_at := (at_peer manifest_file).

(** A call to a peer that runs changes that peer. *)
Lemma call_running {A} p (body : M Conn A) n s :
  n !! p = Some s →
  call env seg seg' p body n =
  ((talk env seg seg' body s).1, <[p := (talk env seg seg' body s).2]> n).
Proof. intros Hp. unfold call. rewrite Hp. by destruct (talk env seg seg' body s). Qed.

Lemma call_nobody {A} p (body : M Conn A) n :
  n !! p = None →
  call env seg seg' p body n = (Throw (RuntimeError (lit "connect: Connection refused")), n).
Proof. intros Hp. unfold call. by rewrite Hp. Qed.

Lemma net_peer_ok n p s : valid_net n → n !! p = Some s → peer_ok s.
Proof. intros [Hn _] Hp. by apply (Hn p). Qed.

Lemma at_running file n p s j :
  n !! p = Some s → sendable j → at_peer file n p j = file s j.
Proof. intros Hp [Hj _]. unfold at_peer. rewrite Hp. cbn. by rewrite decide_True. Qed.

Lemma at_nobody file n p j : n !! p = None → at_peer file n p j = None.
Proof. intros Hp. unfold at_peer. by rewrite Hp. Qed.

Lemma net_has_chunk p j n :
  valid_net n → p ∈ members → sendable j →
  call env seg seg' p (hasChunk_session j) n =
  (Ok (bool_decide (is_Some (chunk_at n p j))), n).
Proof.
  intros Hn Hp Hj. destruct (proj2 Hn p Hp) as [s Hs]. rewrite (call_running _ _ _ s) by done.
  rewrite (peer_has env cenv seg seg' Hlink) by (done || by eapply net_peer_ok).
  cbn [fst snd]. by rewrite insert_id, (at_running _ _ _ s).
Qed.

(** A peer that is read is the same peer. *)
Definition one_same (n n' : Network) : Prop :=
  n' = n ∨ ∃ p s s', n !! p = Some s ∧ same_peer s s' ∧ n' = <[p := s']> n.

Lemma call_get_chunk p j n :
  (∀ s, n !! p = Some s → files_small s) → sendable j →
  let out := call env seg seg' p (getChunk_session cenv j) n in
  (∀ d, chunk_at n p j = Some d → out.1 = Ok d) ∧
  (chunk_at n p j = None → is_ok out.1 = false) ∧ one_same n out.2.
Proof.
  intros Hn Hj. cbn zeta. destruct (n !! p) as [s|] eqn:Hs.
  - rewrite (call_running _ _ _ s) by done.
    destruct (peer_get env cenv seg seg' Hlink j s (Hn s eq_refl) Hj) as (s' & -> & Hsame).
    cbn [fst snd]. rewrite (at_running _ _ _ s) by done.
    split; [by intros d ->|]. split; [by intros ->|]. right. by exists p, s, s'.
  - rewrite call_nobody by done. rewrite at_nobody by done. split; [done|]. split; [done|by left].
Qed.

Lemma call_get_manifest p j n :
  (∀ s, n !! p = Some s → files_small s) → sendable j →
  let out := call env seg seg' p (getManifest_session cenv j) n in
  (∀ t, manifest_at n p j = Some t → out.1 = Ok t) ∧
  (manifest_at n p j = None → is_ok out.1 = false) ∧ out.2 = n.
Proof.
  intros Hn Hj. cbn zeta. destruct (n !! p) as [s|] eqn:Hs.
  - rewrite (call_running _ _ _ s) by done.
    rewrite (peer_get_manifest env cenv seg seg' Hlink j s) by (done || by apply Hn). cbn [fst snd].
    rewrite (at_running _ _ _ s) by done. split; [by intros t ->|].
    split; [by intros ->|by apply insert_id].
  - rewrite call_nobody by done. by rewrite at_nobody.
Qed.

Lemma one_same_files n n' :
  one_same n n' →
  (∀ q k, chunk_at n' q k = chunk_at n q k) ∧ ∀ q k, manifest_at n' q k = manifest_at n q k.
Proof.
  intros [->|(p & s & s' & Hp & Hsame & ->)]; [done|].
  split; apply (at_peer_same _ n p s); try done; apply Hsame.
Qed.

Lemma net_get_chunk p j n :
  valid_net n → sendable j →
  let out := call env seg seg' p (getChunk_session cenv j) n in
  (∀ d, chunk_at n p j = Some d → out.1 = Ok d) ∧
  (chunk_at n p j = None → is_ok out.1 = false) ∧
  valid_net out.2 ∧ (∀ q k, chunk_at out.2 q k = chunk_at n q k) ∧
  ∀ q k, manifest_at out.2 q k = manifest_at n q k.
Proof.
  intros Hn Hj. cbn zeta.
  destruct (call_get_chunk p j n) as (H1 & H2 & Hsame); [|done|].
  { intros s Hs. by apply peer_ok_small, (net_peer_ok n p). }
  split; [done|]. split; [done|]. split; [|by apply one_same_files].
  destruct Hsame as [->|(q & s & s' & Hq & Hs & ->)]; [done|].
  apply (network_set members n q s); [done|done|]. by apply (same_peer_ok s), (net_peer_ok n q).
Qed.

(** Room at an endpoint: where no peer runs nothing is ever stored. *)
Definition net_room (n : Network) (p : PeerEndpoint) (k : Z) : Prop :=
  ∀ s, n !! p = Some s → peer_room s k.

Lemma net_room_weaken n p i k : net_room n p k → 0 ≤ i ≤ k → net_room n p i.
Proof. intros Hr Hi s Hs. destruct (Hr s Hs) as [?|?]; [by left|right; lia]. Qed.

Lemma net_put_chunk p j d n :
  valid_net n → p ∈ members → sendable j → zlen d < 2 ^ 62 → net_room n p (zlen d) →
  ∃ n', call env seg seg' p (putChunk_session j d) n = (Ok (), n') ∧ valid_net n' ∧
    (∀ q k, chunk_at n' q k = if decide (q = p ∧ k = j) then Some d else chunk_at n q k) ∧
    (∀ q k, manifest_at n' q k = manifest_at n q k) ∧
    ∀ q k, 0 ≤ k → net_room n q (k + if decide (q = p) then zlen d else 0) → net_room n' q k.
Proof.
  intros Hn Hp Hj Hd Hroom. destruct (proj2 Hn p Hp) as [s Hs].
  pose proof (net_peer_ok n p s Hn Hs) as Hok. rewrite (call_running _ _ _ s) by done.
  destruct (peer_put env cenv seg seg' Hlink j d s Hok Hj Hd (Hroom s Hs))
    as (s' & -> & Hok' & Hc & Hm & Hr).
  cbn [fst snd]. eexists. split; [done|]. split; [by apply (network_set members n p s)|].
  split; [by apply (at_peer_written _ n p s); [|apply Hj|]|].
  split; [by apply (at_peer_same _ n p s)|]. intros q k Hk Hq s1.
  destruct (decide (q = p)) as [->|Hne].
  - rewrite lookup_insert_eq. intros [= <-]. apply Hr; [by apply Hq|done].
  - rewrite lookup_insert_ne by done. intros Hs1. rewrite Z.add_0_r in Hq. by apply Hq.
Qed.

Lemma net_get_manifest p j n :
  valid_net n → sendable j →
  let out := call env seg seg' p (getManifest_session cenv j) n in
  (∀ t, manifest_at n p j = Some t → out.1 = Ok t) ∧
  (manifest_at n p j = None → is_ok out.1 = false) ∧ out.2 = n.
Proof.
  intros Hn Hj. apply call_get_manifest; [|done].
  intros s Hs. by apply peer_ok_small, (net_peer_ok n p).
Qed.

Lemma net_put_manifest p j t n :
  valid_net n → p ∈ members → sendable j → zlen t < 2 ^ 62 →
  ∃ n', call env seg seg' p (putManifest_session j t) n = (Ok (), n') ∧ valid_net n' ∧
    (∀ q k, manifest_at n' q k = if decide (q = p ∧ k = j) then Some t else manifest_at n q k) ∧
    ∀ q k, chunk_at n' q k = chunk_at n q k.
Proof.
  intros Hn Hp Hj Hd. destruct (proj2 Hn p Hp) as [s Hs].
  pose proof (net_peer_ok n p s Hn Hs) as Hok. rewrite (call_running _ _ _ s) by done.
  destruct (peer_put_manifest env cenv seg seg' Hlink j t s Hok Hj Hd) as (s' & -> & Hok' & Hm & Hc & _).
  cbn [fst snd]. eexists. split; [done|]. split; [by apply (network_set members n p s)|].
  split; [by apply (at_peer_written _ n p s); [|apply Hj|]|by apply (at_peer_same _ n p s)].
Qed.

(** What [PeerReads] and [PeerLaws] ask for. *)
Definition wire_reads : PeerReads Network (HP := wire_api env cenv seg seg').
Proof.
  refine {| good_name := sendable; valid := valid_net;
            held := chunk_at; held_manifest := manifest_at |}.
  - intros p j n d Hn Hj. by apply net_get_chunk.
  - intros p j n Hn Hj. by apply net_get_chunk.
  - intros p j n Hn Hj. by apply net_get_chunk.
  - intros p j n t Hn Hj. by apply net_get_manifest.
  - intros p j n Hn Hj. by apply net_get_manifest.
  - intros p j n Hn Hj. cbn zeta. destruct (net_get_manifest p j n Hn Hj) as (_ & _ & E).
    cbn [getManifest wire_api]. by rewrite E.
Defined.

Definition wire_laws : PeerLaws Network (HP := wire_api env cenv seg seg').
Proof.
  refine {| laws_reads := wire_reads; member p := p ∈ members; room := net_room |}.
  - exact net_has_chunk.
  - exact net_room_weaken.
  - exact net_put_chunk.
  - exact net_put_manifest.
Defined.
End laws.

(** ** Digests as names *)

Lemma sha256_hex_digits `{Sha256} data : Forall (λ c, is_Some (digit_val c)) (sha256_hex data).
Proof.
  rewrite sha256_hex_bytesToHex. unfold bytesToHex.
  induction (SHA256_bytes data) as [|b l Hb _ IH]; [constructor|]. cbn [flat_map].
  rewrite hex_pair_digits by done. destruct (nibbles b Hb) as (_ & _ & H1 & H2).
  destruct (digit_char_spec (b / 16) _ H1 eq_refl) as [E1 _].
  destruct (digit_char_spec (b mod 16) _ H2 eq_refl) as [E2 _].
  repeat (constructor; [by eexists|]). done.
Qed.

Lemma sha256_hex_sendable `{Sha256} data : sendable (sha256_hex data).
Proof.
  destruct (sha256_hex_word data) as [Hw Hl]. pose proof (sha256_hex_digits data) as Hd.
  assert (¬ "."%char ∈ sha256_hex data) as Hdot.
  { intros Hin. rewrite Forall_forall in Hd. destruct (Hd _ Hin) as [x E]. by vm_compute in E. }
  split; [|unfold zlen; rewrite Hl; lia]. split; [done|]. split; [split; [|split; [|split]]|].
  - eapply Forall_impl; [exact Hd|]. intros c [x Hc]. destruct (Ascii.eqb_spec c "/") as [->|]; [|done].
    by vm_compute in Hc.
  - intros E. by rewrite E in Hl.
  - intros E. apply Hdot. rewrite E. by left.
  - intros E. apply Hdot. rewrite E. by left.
  - intros [k E]. apply Hdot. rewrite E. apply elem_of_app. right. by left.
Qed.

(** ** Peers that have just started *)

Definition fresh_peer `{IterOrder} (env : Env) (dir : str) (max : Z) : StorageManager :=
  init env (new_storage dir max ∅).

Lemma fresh_storage `{IterOrder} env dir max :
  env_ok env → fresh_peer env dir max = persistMetadata env (new_storage dir max ∅).
Proof.
  intros (Ho & _ & _ & Hd & _). unfold fresh_peer, init, loadMetadata, read_file.
  cbn [disk new_storage set_meta set_used set_counter]. rewrite lookup_empty.
  unfold rebuildMetadataFromDisk. rewrite Hd. cbn [disk new_storage set_meta set_used set_counter].
  match goal with |- context [dir_entries ?p ∅] => assert (dir_entries p ∅ = []) as -> end;
    [|done].
  apply elem_of_nil_inv. intros [i d] Hi%elem_of_dir_entries. by rewrite lookup_empty in Hi.
Qed.

Lemma fresh_files `{IterOrder} env dir max j :
  env_ok env → chunk_name j →
  chunk_file (fresh_peer env dir max) j = None ∧ manifest_file (fresh_peer env dir max) j = None.
Proof.
  intros He (_ & Hj & _). rewrite fresh_storage by done. set (s0 := new_storage dir max ∅).
  destruct (persist_fields env s0) as (Eb & _). split.
  - unfold chunk_file, read_file. rewrite (chunkPath_base _ s0) by done.
    rewrite persist_disk_other; [apply lookup_empty|by apply chunkPath_not_metaPath].
  - unfold manifest_file, read_file, manifestPath, manifestsDir_. rewrite Eb.
    rewrite persist_disk_other; [apply lookup_empty|by apply (manifest_not_meta s0)].
Qed.

(** A fresh peer has its whole limit left. *)
Lemma fresh_peer_room `{IterOrder} env dir max n :
  env_ok env → max = 0 ∨ n ≤ max → peer_room (fresh_peer env dir max) n.
Proof.
  intros He Hn. rewrite fresh_storage by done. unfold peer_room.
  destruct (persist_fields env (new_storage dir max ∅)) as (_ & -> & -> & _). exact Hn.
Qed.

Lemma fresh_peer_ok `{IterOrder} env dir max :
  env_ok env → 0 ≤ max < 2 ^ 64 → peer_ok (fresh_peer env dir max).
Proof.
  intros He Hmax. destruct (persist_fields env (new_storage dir max ∅)) as (_ & El & Eu & _ & Em).
  rewrite <- (fresh_storage env dir max He) in El, Eu, Em. split.
  - by rewrite El.
  - by rewrite Eu.
  - apply fresh_peer_room; [done|]. right. apply Hmax.
  - rewrite Em. apply map_Forall_empty.
  - intros j Hj. rewrite Em. destruct (fresh_files env dir max j He Hj) as [-> _].
    change (meta_ (new_storage dir max ∅)) with (∅ : gmap str ChunkMeta).
    rewrite lookup_empty. by split; intros [? ?].
  - intros j d Hj. by destruct (fresh_files env dir max j He Hj) as [-> _].
  - intros j t Hj. by destruct (fresh_files env dir max j He Hj) as [_ ->].
Qed.

Definition fresh_network `{IterOrder} (env : Env) (dir : PeerEndpoint → str) (max : Z)
    (members : list PeerEndpoint) : Network :=
  list_to_map (map (λ p, (p, fresh_peer env (dir p) max)) members).

Lemma fresh_lookup `{IterOrder} env dir max members p :
  fresh_network env dir max members !! p =
  if decide (p ∈ members) then Some (fresh_peer env (dir p) max) else None.
Proof.
  unfold fresh_network. induction members as [|q l IH]; cbn [map list_to_map foldr].
  - by rewrite decide_False by apply not_elem_of_nil.
  - destruct (decide (p = q)) as [->|Hne].
    + by rewrite lookup_insert_eq, decide_True by left.
    + rewrite lookup_insert_ne by done. etransitivity; [exact IH|].
      apply decide_ext. rewrite elem_of_cons. naive_solver.
Qed.

Lemma fresh_network_ok `{IterOrder} env dir max members :
  env_ok env → 0 ≤ max < 2 ^ 64 → network_ok members (fresh_network env dir max members).
Proof.
  intros He Hmax. split.
  - intros p s. rewrite fresh_lookup. case_decide; [|done]. intros [= <-]. by apply fresh_peer_ok.
  - intros p Hp. rewrite fresh_lookup. by rewrite decide_True.
Qed.

Lemma fresh_network_empty `{IterOrder} env dir max members p j :
  env_ok env → at_peer chunk_file (fresh_network env dir max members) p j = None ∧
               at_peer manifest_file (fresh_network env dir max members) p j = None.
Proof.
  intros He. unfold at_peer. rewrite fresh_lookup.
  destruct (decide (p ∈ members)); [|done]. cbn. destruct (decide (chunk_name j)); [|done].
  by apply fresh_files.
Qed.

Lemma fresh_network_room `{IterOrder} env dir max members p n :
  env_ok env → max = 0 ∨ n ≤ max → net_room (fresh_network env dir max members) p n.
Proof.
  intros He Hn s. rewrite fresh_lookup. case_decide; [|done]. intros [= <-].
  by apply fresh_peer_room.
Qed.

(** ** End to end *)

(** C1. A file that is uploaded in the clear to peers that run [PeerService] is
    downloaded byte for byte, as long as the digest tells its blocks and its manifest
    from each other and from what the peers have: through the requests and answers on
    TCP, whatever way they are cut into segments, the storage manager of every peer,
    the placement, the manifest and the checks of the digests. *)
Theorem network_upload_then_download `{IterOrder, Sha256, AesGcm, Rsa} penv cenv seg seg' members
    cwd rand cfg cfg' filePath content out up down w
    (Hlink : link_ok penv cenv seg seg')
    (Hset : upload_setup (HL := wire_laws penv cenv seg seg' members Hlink)
              cenv cwd cfg filePath content w)
    (Hpeers : peers cfg ⊆ peers cfg') :
  let put := putFile (HP := wire_api penv cenv seg seg') cenv cwd rand cfg filePath up in
  let get uri := getFile (HP := wire_api penv cenv seg seg') cenv cfg' uri out down in
  ∃ res w1, put w = (Ok res, w1) ∧
    ∃ w2, get (shareUri res) w1 = (Ok (), w2) ∧ read_file out (files w2) = Some content.
Proof.
  exact (upload_download_ok (HL := wire_laws penv cenv seg seg' members Hlink)
    cenv cwd rand cfg cfg' filePath content out up down w Hset Hpeers).
Qed.

(** C4. A file without a repeated block that is uploaded with a public key to running
    peers with room for the sealed blocks is downloaded byte for byte by every client
    that has the share link and the private key and knows at least the peers of the
    uploader, whatever the peers had stored before that cannot be opened to another text
    of the same digest. *)
Theorem network_sealed_upload_then_download `{IterOrder, Sha256, AesGcm, Rsa} penv cenv seg seg'
    members cwd cfg cfg' filePath content params ek out up down w
    (Hlink : link_ok penv cenv seg seg')
    (Hset : sealed_setup (HL := wire_laws penv cenv seg seg' members Hlink)
              cenv cwd cfg filePath content params ek w)
    (Hpeers : peers cfg ⊆ peers cfg')
    (Hrep : ∀ cks, chunkFile cenv filePath (cfg_chunkSize cfg) (files w) = Ok cks →
            NoDup (map bytes cks)) :
  let put := putFile (HP := wire_api penv cenv seg seg') cenv cwd
               (Some (key params, iv params)) cfg filePath up in
  let get uri := getFile (HP := wire_api penv cenv seg seg') cenv cfg' uri out down in
  ∃ res w1, put w = (Ok res, w1) ∧
    ∀ w2, net w2 = net w1 → reads_sealed cfg cfg' (files w) (files w2) →
      looks_like_local_manifest_path cenv (shareUri res) (files w2) = false →
      ∃ w3, get (shareUri res) w2 = (Ok (), w3) ∧ read_file out (files w3) = Some content.
Proof.
  exact (sealed_upload_then_download (HL := wire_laws penv cenv seg seg' members Hlink)
    cenv cwd cfg cfg' filePath content params ek out up down w Hset Hpeers Hrep).
Qed.

(** ** Witnesses *)

Lemma good_link : link_ok good_env client_env bytewise whole.
Proof. split; [done|done|done|apply bytewise_segments|apply whole_segments]. Qed.

(** Three peers that have just started, with a limit of 1000 bytes each. *)
Definition demo_dir (p : PeerEndpoint) : str := lit "peer" ++ to_string (port p).

Definition demo_network : World Network :=
  mk_world (fresh_network (H := some_order) good_env demo_dir 1000 demo_peers) demo_files [].

Lemma fresh_nothing_known t :
  ¬ known (HL := wire_reads (H := some_order) good_env client_env bytewise whole demo_peers good_link)
      (fresh_network (H := some_order) good_env demo_dir 1000 demo_peers) t.
Proof.
  intros (p & j & E). cbn [held held_manifest wire_reads] in E.
  destruct (fresh_network_empty (H := some_order) good_env demo_dir 1000 demo_peers p j good_env_ok)
    as [E1 E2]. rewrite E1, E2 in E. by destruct E.
Qed.

Lemma demo_network_setup :
  upload_setup (HS := toy_sha256)
    (HL := wire_laws (H := some_order) good_env client_env bytewise whole demo_peers good_link)
    client_env (lit "/home/u") (demo_config 4 []) (lit "/home/u/a.txt") (lit "a file") demo_network.
Proof.
  pose proof demo_setup as [? ? ? _ _ _ _ ? ? ? ? ? ? ? ? ? _ _]. split; try done.
  - intros b. apply sha256_hex_sendable.
  - by apply fresh_network_ok; [apply good_env_ok|].
  - intros p j d. cbn [held laws_reads wire_laws wire_reads]. unfold demo_network. cbn [net].
    by rewrite (proj1 (fresh_network_empty _ _ _ _ _ _ good_env_ok)).
  - intros p _. apply fresh_network_room; [apply good_env_ok|]. by right.
  - apply (told_apart_list _ []); [|by_eval]. intros t Ht. by apply fresh_nothing_known in Ht.
Qed.

Lemma network_upload_then_download_witness :
  let api := wire_api (H := some_order) good_env client_env bytewise whole in
  let put := putFile (HP := api) (HS := toy_sha256) (HA := toy_aes) (HR := toy_rsa) client_env
               (lit "/home/u") None (demo_config 4 []) (lit "/home/u/a.txt") true in
  let get uri := getFile (HP := api) (HS := toy_sha256) (HA := toy_aes) (HR := toy_rsa) client_env
               (demo_config 1048576 []) uri (lit "/home/u/b.txt") true in
  ∃ res w1, put demo_network = (Ok res, w1) ∧
    ∃ w2, get (shareUri res) w1 = (Ok (), w2) ∧
          read_file (lit "/home/u/b.txt") (files w2) = Some (lit "a file").
Proof.
  exact (network_upload_then_download (H := some_order) (H0 := toy_sha256) (H1 := toy_aes)
    (H2 := toy_rsa) good_env client_env bytewise whole demo_peers (lit "/home/u") None
    (demo_config 4 []) (demo_config 1048576 []) (lit "/home/u/a.txt") (lit "a file")
    (lit "/home/u/b.txt") true true demo_network good_link demo_network_setup (reflexivity _)).
Defined.

(** The same peers, and a public key. *)
Definition sealed_network : World Network :=
  mk_world (fresh_network (H := some_order) good_env demo_dir 1000 demo_peers) sealed_files [].

Lemma sealed_network_setup :
  sealed_setup (HS := toy_sha256) (HA := toy_aes) (HR := toy_rsa)
    (HL := wire_laws (H := some_order) good_env client_env bytewise whole demo_peers good_link)
    client_env (lit "/home/u") (demo_config 4 (lit "pub.pem")) (lit "/home/u/a.txt") (lit "a file")
    toy_params toy_wrapped sealed_network.
Proof.
  pose proof demo_sealed_setup as [? ? _ _ _ ? ? ? ? ? ? ? ? ? ? ? _ _]. split; try done.
  - intros b. apply sha256_hex_sendable.
  - by apply fresh_network_ok; [apply good_env_ok|].
  - intros cks p _ E.
    assert (Ok cks = Ok [mk_chunk [] (lit "a fi"); mk_chunk [] (lit "le")]) as [= ->]
      by (rewrite <- E; vm_compute; reflexivity).
    apply fresh_network_room; [apply good_env_ok|]. right. by_eval.
  - apply (told_apart_list _ []); [|by_eval].
    intros t [Ht|(x & i & Ht & _)]; by apply fresh_nothing_known in Ht.
Qed.

Definition sealed_network_run : result PutFileResult * World Network :=
  putFile (HP := wire_api (H := some_order) good_env client_env bytewise whole)
    (HS := toy_sha256) (HA := toy_aes) (HR := toy_rsa) client_env (lit "/home/u")
    (Some (key toy_params, iv toy_params)) (demo_config 4 (lit "pub.pem")) (lit "/home/u/a.txt")
    true sealed_network.

Lemma sealed_network_link res w1 :
  sealed_network_run = (Ok res, w1) →
  looks_like_local_manifest_path client_env (shareUri res) sealed_files = false.
Proof.
  intros E. assert (match sealed_network_run.1 with
    | Ok res => looks_like_local_manifest_path client_env (shareUri res) sealed_files
    | Throw _ => false end = false) as H by by_eval.
  by rewrite E in H.
Qed.

Lemma network_sealed_upload_then_download_witness :
  ∃ res w1, sealed_network_run = (Ok res, w1) ∧
    ∃ w3, getFile (HP := wire_api (H := some_order) good_env client_env bytewise whole)
            (HS := toy_sha256) (HA := toy_aes) (HR := toy_rsa) client_env reader_config
            (shareUri res) (lit "/home/u/b.txt") true (mk_world (net w1) sealed_files []) =
          (Ok (), w3) ∧ read_file (lit "/home/u/b.txt") (files w3) = Some (lit "a file").
Proof.
  destruct (network_sealed_upload_then_download (H := some_order) (H0 := toy_sha256) (H1 := toy_aes)
    (H2 := toy_rsa) good_env client_env bytewise whole demo_peers (lit "/home/u")
    (demo_config 4 (lit "pub.pem")) reader_config (lit "/home/u/a.txt") (lit "a file") toy_params
    toy_wrapped (lit "/home/u/b.txt") true true sealed_network good_link sealed_network_setup
    (reflexivity _) demo_blocks_differ) as (res & w1 & E & Hget).
  exists res, w1. split; [exact E|].
  apply (Hget (mk_world (net w1) sealed_files []) eq_refl).
  - exists (() : public_key (Rsa := toy_rsa)), (() : private_key (Rsa := toy_rsa)).
    split; [exact I|]. split; [discriminate|]. split; vm_compute; reflexivity.
  - exact (sealed_network_link res w1 E).
Defined.
