(* ===== verification/FullPeers.v ===== *)
(** * Peers that are full

    What an upload leaves on a peer with too little room.  The storage manager
    evicts without telling anybody: the client reports the upload of every block,
    the peer keeps the last blocks that fit, and the file cannot be downloaded. *)

From S2P Require Import Prelude.
From S2P Require Import CxxStd.
From S2P Require Import Hex.
From S2P Require Import PeerEndpoint.
From S2P Require Import DhtNode.
From S2P Require Import FileSystem.
From S2P Require Import Storage.
From S2P Require Import StorageLru.
From S2P Require Import StorageProps.
From S2P Require Import Manifest.
From S2P Require Import Chunker.
From S2P Require Import Tcp.
From S2P Require Import PeerService.
From S2P Require Import PeerClient.
From S2P Require Import Hybrid.
From S2P Require Import DssClient.
From S2P Require Import DssClientProps.
From S2P Require Import SealedTransfer.
From S2P Require Import PeerNetwork.

(** ** Caches *)

Lemma fit_fit {A} (sz : A → Z) b c l : b ≤ c → fit sz b (fit sz c l) = fit sz b l.
Proof.
  revert b c. induction l as [|x l IH]; intros b c Hbc; [done|]. cbn [fit].
  destruct (Z.leb_spec (sz x) c); cbn [fit]; destruct (Z.leb_spec (sz x) b); try done; [|lia].
  f_equal. apply IH. lia.
Qed.

Lemma fit_cons {A} (sz : A → Z) b x l : 0 ≤ sz x → fit sz b (x :: fit sz b l) = fit sz b (x :: l).
Proof.
  intros Hx. cbn [fit]. destruct (Z.leb_spec (sz x) b); [|done]. f_equal. apply fit_fit. lia.
Qed.

Lemma fit_subset {A} (sz : A → Z) b l e : e ∈ fit sz b l → e ∈ l.
Proof. intros He. destruct (fit_prefix sz b l) as [k ->]. apply elem_of_app. by left. Qed.

Lemma forget_absent {A} j (l : list (str * A)) : j ∉ l.*1 → forget j l = l.
Proof.
  intros Hj. unfold forget. induction l as [|e l IH]; [done|]. rewrite filter_cons.
  apply not_elem_of_cons in Hj as [Hne Hj]. rewrite decide_True by done. by rewrite IH.
Qed.

Lemma cache_find_absent j c : j ∉ (entries c).*1 → cache_find j c = None.
Proof.
  unfold cache_find. induction (entries c) as [|e l IH]; [done|].
  intros [Hne Hj]%not_elem_of_cons. cbn [find]. rewrite bool_decide_eq_false_2 by done. by apply IH.
Qed.

(** ** One peer that is a cache *)

Section peer.
Context `{IterOrder}.
Context (env cenv : Env) (seg seg' : str → list str).
Context (Hlink : link_ok env cenv seg seg').

Lemma cached_put c s j d :
  refines c s → maxBytes_ s < 2 ^ 63 → accessCounter_ s < 2 ^ 64 - 1 → sendable j → zlen d < 2 ^ 62 →
  ∃ s', talk env seg seg' (putChunk_session j d) s = (Ok (), s') ∧
    refines (mk_cache (limit c) (trim (limit c) ((j, d) :: forget j (entries c)))) s' ∧
    accessCounter_ s' = accessCounter_ s + 1.
Proof.
  intros Hc Hmax Hcnt Hj Hd. pose proof (ref_used _ _ Hc).
  destruct (store_refines env c s j d) as (s' & E & Hc' & Ec);
    [apply Hlink|done|split; [apply Hj|lia]|].
  exists s'. rewrite talk_put_chunk by (apply Hlink || by eapply sendable_request). by rewrite E.
Qed.

Lemma cached_has c s j :
  refines c s → sendable j → cache_find j c = None →
  talk env seg seg' (hasChunk_session j) s = (Ok false, s).
Proof.
  intros Hc Hj Hno. rewrite talk_has_chunk by (apply Hlink || by eapply sendable_request).
  unfold Storage.hasChunk. destruct Hc as [Hs _ _ _ _ _ (l & Hr & E)].
  rewrite (cache_find_view c s l) in Hno by done. destruct (meta_ s !! j) as [m|] eqn:Hm; [|done].
  destruct (inv_disk _ Hs j m Hm) as (data & Hf & _). unfold read_file in Hno. by rewrite Hf in Hno.
Qed.

Lemma cached_get c s j :
  refines c s → sendable j → cache_find j c = None →
  talk env seg seg' (getChunk_session cenv j) s =
  (Throw (RuntimeError (lit "Peer returned non-OK for GET_CHUNK")), s).
Proof.
  intros Hc Hj Hno. pose proof Hc as [Hs _ _ _ Ho _ (l & Hr & E)].
  rewrite (cache_find_view c s l) in Hno by done.
  assert (meta_ s !! j = None) as Hm.
  { destruct (meta_ s !! j) as [m|] eqn:Hm; [|done].
    destruct (inv_disk _ Hs j m Hm) as (data & Hf & _). unfold read_file in Hno. by rewrite Hf in Hno. }
  assert (loadChunk env j s = (Throw (RuntimeError (lit "loadChunk: missing chunk " ++ j)), s)) as El.
  { apply loadChunk_missing; [by apply Ho; [apply Hj|]|].
    by apply (link_env _ _ _ _ Hlink), Hj. }
  rewrite talk_get_chunk; [by rewrite El|apply Hlink|apply Hlink|by eapply sendable_request|by rewrite El].
Qed.
End peer.

(** ** An upload to a single peer *)

Section upload.
Context `{IterOrder} {HS : Sha256} {HA : AesGcm} {HR : Rsa}.
Context (env cenv : Env) (seg seg' : str → list str).
Context (Hlink : link_ok env cenv seg seg').
Context (cfg : ClientConfig) (d : DhtNode) (p : PeerEndpoint).
Context (Hpeer : peers cfg = [p]) (Hplace : has_place cfg) (Hd : new_dht (peers cfg) = Ok d).

#[local] Existing Instance wire_api.
Abbreviation api := (wire_api env cenv seg seg').

(** A block under its name. *)
Definition named (c : Chunk) : str * str := (sha256_hex (bytes c), bytes c).

Lemma named_bytes l : sum_sizes entry_bytes (map named l) = zlen (concat (map bytes l)).
Proof.
  induction l as [|c l IH]; [done|]. cbn [map sum_sizes concat]. rewrite zlen_app, <- IH. done.
Qed.

(** Everything goes to the only peer. *)
Lemma only_target j replicas : store d j replicas = Ok [p].
Proof.
  destruct (store_some_targets d (peers cfg) j replicas Hd Hplace) as (ts & E & Hne & _ & Hnd & Hts).
  rewrite E. f_equal. rewrite Hpeer in Hts. destruct ts as [|q [|q' ts]]; [done| |].
  - specialize (Hts q). rewrite !list_elem_of_singleton in Hts. by rewrite Hts.
  - apply NoDup_cons in Hnd as [Hq _]. destruct Hq.
    pose proof (Hts q ltac:(set_solver)). pose proof (Hts q' ltac:(set_solver)). set_solver.
Qed.

Lemma call_only {A} (body : M Conn A) s :
  call env seg seg' p body {[p := s]} =
  ((talk env seg seg' body s).1, {[p := (talk env seg seg' body s).2]}).
Proof.
  rewrite (call_running _ _ _ _ _ _ s) by apply lookup_singleton_eq. by rewrite insert_singleton_eq.
Qed.

Lemma upload_one c s max E replicas i :
  refines (mk_cache max (fit entry_bytes max E)) s → max < 2 ^ 63 → accessCounter_ s < 2 ^ 64 - 1 →
  zlen (bytes c) < 2 ^ 62 → 1 ≤ replicas → sha256_hex (bytes c) ∉ E.*1 →
  ∃ s', upload_chunk (HP := api) d None replicas i c {[p := s]} =
        (Ok (mk_entry (sha256_hex (bytes c))), {[p := s']}) ∧
    refines (mk_cache max (fit entry_bytes max (named c :: E))) s' ∧
    accessCounter_ s' = accessCounter_ s + 1.
Proof.
  intros Hc Hmax Hcnt Hz Hr Hnew. set (j := sha256_hex (bytes c)) in *.
  assert (sendable j) as Hj by apply sha256_hex_sendable.
  assert (j ∉ (fit entry_bytes max E).*1) as Hno.
  { intros (e & -> & He)%list_elem_of_fmap. apply Hnew, list_elem_of_fmap.
    exists e. split; [done|]. by eapply fit_subset. }
  pose proof (ref_limit _ _ Hc) as Hlim. pose proof (ref_positive _ _ Hc) as Hpos. cbn in Hlim.
  destruct (cached_put env cenv seg seg' Hlink _ s j (bytes c) Hc) as (s' & E1 & Hc' & Ec);
    [by rewrite Hlim|done..|].
  exists s'. split; [|split; [|done]].
  - unfold upload_chunk. fold j. m_unfold. rewrite only_target. unfold upload_plain.
    cbn [count_holders]. m_unfold. cbn [DssClient.hasChunk wire_api]. rewrite call_only.
    rewrite (cached_has env cenv seg seg' Hlink _ s j Hc Hj) by by apply cache_find_absent.
    cbn [fst snd]. destruct (Z.ltb_spec 0 (replicas - 0)); [|lia].
    cbn [app put_missing]. m_unfold. cbn [DssClient.putChunk wire_api]. rewrite call_only, E1.
    cbn [fst snd]. by destruct (_ <=? 0).
  - cbn [limit entries] in Hc'. unfold trim in Hc'.
    destruct (Z.eqb_spec max 0); [lia|]. rewrite forget_absent in Hc' by done.
    change (j, bytes c) with (named c) in Hc'. by rewrite fit_cons in Hc' by apply zlen_nonneg.
Qed.

(** The peer keeps the last blocks that fit. *)
Lemma upload_cached wanted replicas total i l E s max f r :
  refines (mk_cache max (fit entry_bytes max E)) s → max < 2 ^ 63 →
  accessCounter_ s + zlen l < 2 ^ 64 - 1 → Forall (λ c, zlen (bytes c) < 2 ^ 62) l →
  1 ≤ replicas → NoDup (map chunk_digest l) → (∀ c, c ∈ l → chunk_digest c ∉ E.*1) →
  ∃ w1 s1, upload_loop (HP := api) wanted d None replicas total i l (mk_world {[p := s]} f r) =
           (Ok (entries_of (map bytes l)), w1) ∧ net w1 = {[p := s1]} ∧
    refines (mk_cache max (fit entry_bytes max (reverse (map named l) ++ E))) s1.
Proof.
  intros Hc Hmax Hcnt Hl Hr. revert i E s f r Hc Hcnt.
  induction Hl as [|c l Hz Hl IH]; intros i E s f r Hc Hcnt Hnd Hnew; cbn [upload_loop].
  - by exists (mk_world {[p := s]} f r), s.
  - rewrite zlen_cons in Hcnt. pose proof (zlen_nonneg l).
    cbn [map] in Hnd. apply NoDup_cons in Hnd as [Hcl Hnd].
    destruct (upload_one c s max E replicas i) as (s1 & E1 & Hc1 & Ec);
      [done|done|lia|done|done|apply Hnew; by left|].
    unfold mbind at 1, M_bind at 1, on_net at 1. cbn [net files reported]. rewrite E1.
    unfold report, mbind at 1, M_bind at 1, modifyM. cbn [net files reported].
    set (w1 := if wanted then _ else _).
    assert (∃ r1, w1 = mk_world {[p := s1]} f r1) as [r1 ->]
      by (subst w1; destruct wanted; by eexists).
    destruct (IH (i + 1) (named c :: E) s1 f r1) as (w2 & s2 & E2 & Enet & Hc2);
      [done|rewrite Ec; lia|done| |].
    { intros x Hx. cbn [fmap list_fmap fst named]. apply not_elem_of_cons. split; [|by apply Hnew; right].
      intros Ex. apply Hcl. change (chunk_digest x = chunk_digest c) in Ex. rewrite <- Ex. by apply (list_elem_of_fmap_2 chunk_digest). }
    exists w2, s2. unfold mbind, M_bind. rewrite E2. split; [done|]. split; [done|].
    cbn [map]. rewrite reverse_cons, <- app_assoc. exact Hc2.
Qed.

(** C38. A plain upload of different blocks to a single peer that has just started
    reports every block as uploaded, whatever the limit of the peer.  The peer keeps
    the longest run of last blocks that fits the limit; when the whole does not fit,
    every download of the file fails at its first block. *)
Theorem overfull_upload_is_lost up down replicas c0 l max s out f r
    (Hfresh : refines (mk_cache max []) s) (Hmax : max < 2 ^ 63)
    (Hcnt : accessCounter_ s + zlen (c0 :: l) < 2 ^ 64 - 1)
    (Hz : Forall (λ c, zlen (bytes c) < 2 ^ 62) (c0 :: l))
    (Hr : 1 ≤ replicas) (Hnd : NoDup (map chunk_digest (c0 :: l)))
    (Hover : max < zlen (concat (map bytes (c0 :: l)))) :
  ∃ w1 s1,
    upload_loop (HP := api) up d None replicas (zlen (c0 :: l)) 0 (c0 :: l) (mk_world {[p := s]} f r) =
      (Ok (entries_of (map bytes (c0 :: l))), w1) ∧
    net w1 = {[p := s1]} ∧
    refines (mk_cache max (fit entry_bytes max (reverse (map named (c0 :: l))))) s1 ∧
    ∀ w2, net w2 = net w1 →
      ∃ w3, download_loop (HP := api) down d cfg None out (zlen (c0 :: l)) 0
              (entries_of (map bytes (c0 :: l))) w2 =
            (Throw (RuntimeError (lit "Failed to retrieve chunk " ++ chunk_digest c0)), w3).
Proof.
  destruct (upload_cached up replicas (zlen (c0 :: l)) 0 (c0 :: l) [] s max f r)
    as (w1 & s1 & E1 & Enet & Hc1); [done..|by intros ? ? ?%not_elem_of_nil|].
  rewrite app_nil_r in Hc1. exists w1, s1. do 3 (split; [done|]). intros w2 E2.
  set (j := chunk_digest c0). cbn [map entries_of download_loop chunkId].
  destruct (candidates_for_ok d cfg j Hd) as (cs & Ecs & _).
  unfold mbind, M_bind, liftR. change (sha256_hex (bytes c0)) with j. rewrite Ecs. unfold on_net.
  assert (cache_find j (mk_cache max (fit entry_bytes max (reverse (map named (c0 :: l))))) = None)
    as Hno.
  { cbn [map]. rewrite reverse_cons, fit_snoc.
    - apply cache_find_absent. cbn [entries]. intros (e & Ej & He)%list_elem_of_fmap.
      apply fit_subset, elem_of_reverse, list_elem_of_fmap in He as (c & -> & Hc).
      cbn [map] in Hnd. apply NoDup_cons in Hnd as [Hno _]. apply Hno. fold j. rewrite Ej.
      by apply (list_elem_of_fmap_2 chunk_digest).
    - rewrite sum_sizes_app, (sum_sizes_perm _ _ (map named l)) by apply reverse_Permutation.
      cbn [sum_sizes]. change (entry_bytes (named c0)) with (zlen (bytes c0)). rewrite named_bytes.
      cbn [map concat] in Hover. rewrite zlen_app in Hover. lia. }
  assert (∀ q n, n = {[p := s1]} →
    ∃ e, DssClient.getChunk (PeerApi := api) q j n = (Throw e, n)) as Hask.
  { intros q n ->. cbn [DssClient.getChunk wire_api]. destruct (decide (q = p)) as [->|Hq].
    - rewrite call_only, (cached_get env cenv seg seg' Hlink _ s1 j Hc1) by (done || apply sha256_hex_sendable).
      by eexists.
    - rewrite call_nobody by by apply lookup_singleton_ne. by eexists. }
  destruct (first_good_none (λ n, n = {[p := s1]}) cs (λ q, DssClient.getChunk (PeerApi := api) q j)
    (accept_chunk None 0 j) (net w2)) as [n ->].
  - intros q n Hn. by destruct (Hask q n Hn) as [e ->].
  - intros q n text a Hn. by destruct (Hask q n Hn) as [e ->].
  - by rewrite E2.
  - by eexists.
Qed.
End upload.

(** ** Witnesses *)

(** A peer for 5 bytes, and a file of 6. *)
Definition tight_config : ClientConfig := mk_config [peer_at 9101] 4 1 [] [] [].

Definition tight_peer : StorageManager :=
  fresh_peer (H := some_order) good_env (demo_dir (peer_at 9101)) 5.

Definition tight_blocks : list Chunk := [mk_chunk [] (lit "a fi"); mk_chunk [] (lit "le")].

Definition tight_dht : DhtNode :=
  mk_dht (client_id (H := toy_sha256)) (peers_table (H := toy_sha256) [peer_at 9101]).

Lemma overfull_upload_is_lost_witness :
  let api := wire_api (H := some_order) good_env client_env bytewise whole in
  ∃ w1, upload_loop (HP := api) (HS := toy_sha256) (HA := toy_aes) true tight_dht None 1 2 0 tight_blocks
          (mk_world {[peer_at 9101 := tight_peer]} demo_files []) =
        (Ok (entries_of (H := toy_sha256) (map bytes tight_blocks)), w1) ∧
    ∃ w3, download_loop (HP := api) (HS := toy_sha256) (HA := toy_aes) true tight_dht tight_config None
            (lit "/home/u/b.txt") 2 0 (entries_of (H := toy_sha256) (map bytes tight_blocks)) w1 =
          (Throw (RuntimeError (lit "Failed to retrieve chunk " ++
                    sha256_hex (H := toy_sha256) (lit "a fi"))), w3).
Proof.
  cbn zeta. destruct (init_refines (H := some_order) good_env (demo_dir (peer_at 9101)) 5)
    as (Hr & _ & Hc); [apply good_env_ok|lia|].
  destruct (overfull_upload_is_lost (H := some_order) (HS := toy_sha256) (HA := toy_aes)
    good_env client_env bytewise whole good_link tight_config tight_dht
    (peer_at 9101) (reflexivity _) ltac:(vm_compute; congruence) (new_dht_ok (H := toy_sha256) _)
    true true 1 (mk_chunk [] (lit "a fi")) [mk_chunk [] (lit "le")] 5 tight_peer (lit "/home/u/b.txt")
    demo_files [] Hr) as (w1 & s1 & E1 & _ & _ & Hget);
    [lia| |by_eval|lia|apply (bool_decide_unpack _); by_eval|by_eval|].
  - change (accessCounter_ tight_peer) with 0. reflexivity.
  - exists w1. split; [exact E1|]. exact (Hget w1 (reflexivity _)).
Defined.
