(* ===== verification/NetworkCrash.v ===== *)
(** * Downloading from peers that were killed

    A file stays with the network of [PeerNetwork] when its peers are killed at any
    moments while they serve readers, and started again. *)

From S2P Require Import Prelude.
From S2P Require Import CxxStd.
From S2P Require Import Hex.
From S2P Require Import PeerEndpoint.
From S2P Require Import KademliaId.
From S2P Require Import RoutingTable.
From S2P Require Import DhtNode.
From S2P Require Import FileSystem.
From S2P Require Import Storage.
From S2P Require Import StorageProps.
From S2P Require Import StorageLru.
From S2P Require Import StorageCrash.
From S2P Require Import Manifest.
From S2P Require Import Chunker.
From S2P Require Import Tcp.
From S2P Require Import PeerService.
From S2P Require Import PeerCrash.
From S2P Require Import PeerClient.
From S2P Require Import Hybrid.
From S2P Require Import DssClient.
From S2P Require Import DssClientProps.
From S2P Require Import PeerNetwork.

Section worn.
Context `{IterOrder}.
Context (env cenv : Env) (seg seg' : str → list str).
Context (Hlink : link_ok env cenv seg seg').

(** Every peer lives through some rounds, each with its own crashes. *)
Definition wear (lives : PeerEndpoint → list peer_life) (n : Network) : Network :=
  map_imap (λ p s, Some (peer_lifetime (lives p) s)) n.

Definition readable (n : Network) : Prop := map_Forall (λ _ s, files_small s) n.

(** What reading needs of a network, whatever the tables of its peers say. *)
Definition worn_reads : PeerReads Network (HP := wire_api env cenv seg seg').
Proof.
  refine {| good_name := sendable; valid := readable;
            held := at_peer chunk_file; held_manifest := at_peer manifest_file |}.
  - intros p j n d Hn Hj.
    by apply (call_get_chunk env cenv seg seg' Hlink p j n); [intros s; apply Hn|].
  - intros p j n Hn Hj.
    by apply (call_get_chunk env cenv seg seg' Hlink p j n); [intros s; apply Hn|].
  - intros p j n Hn Hj. cbn zeta. cbn [DssClient.getChunk wire_api].
    destruct (call_get_chunk env cenv seg seg' Hlink p j n) as (_ & _ & Hs); [intros s; apply Hn|done|].
    split; [|by apply one_same_files].
    destruct Hs as [->|(q & s & s' & Hq & Hs & ->)]; [done|].
    apply map_Forall_insert_2; [|done]. destruct (Hn q s Hq) as [Hc Hm]. split.
    + intros i x Hi. rewrite (same_chunks _ _ Hs) by done. by apply Hc.
    + intros i x Hi. rewrite (same_manifests _ _ Hs) by done. by apply Hm.
  - intros p j n t Hn Hj.
    by apply (call_get_manifest env cenv seg seg' Hlink p j n); [intros s; apply Hn|].
  - intros p j n Hn Hj.
    by apply (call_get_manifest env cenv seg seg' Hlink p j n); [intros s; apply Hn|].
  - intros p j n Hn Hj. cbn zeta.
    destruct (call_get_manifest env cenv seg seg' Hlink p j n) as (_ & _ & E); [intros s; apply Hn|done|].
    cbn [getManifest wire_api]. by rewrite E.
Defined.

(** The files of a peer that is only read are the same after any life. *)
Lemma lifetime_files ls s j :
  Forall only_reads ls → chunk_name j →
  chunk_file (peer_lifetime ls s) j = chunk_file s j ∧
  manifest_file (peer_lifetime ls s) j = manifest_file s j.
Proof.
  intros Hls Hj. pose proof (peer_lifetime_base ls s) as Eb. unfold chunk_file, manifest_file, read_file.
  unfold manifestPath, manifestsDir_. rewrite (chunkPath_base _ s), Eb by done. split.
  - by apply peer_lifetime_spares, meta_not_chunk.
  - apply peer_lifetime_spares; [done|]. apply not_eq_sym, (manifest_not_meta s), chunk_name_simple, Hj.
Qed.

Lemma wear_lookup lives n p :
  wear lives n !! p = (λ s, peer_lifetime (lives p) s) <$> n !! p.
Proof. unfold wear. rewrite map_lookup_imap. by destruct (n !! p). Qed.

Lemma wear_files lives n :
  (∀ p, Forall only_reads (lives p)) →
  (∀ q k, at_peer chunk_file (wear lives n) q k = at_peer chunk_file n q k) ∧
  ∀ q k, at_peer manifest_file (wear lives n) q k = at_peer manifest_file n q k.
Proof.
  intros Hl. split; intros q k; unfold at_peer; rewrite wear_lookup; destruct (n !! q) as [s|]; try done;
    cbn; (case_decide; [|done]); by apply lifetime_files.
Qed.

Lemma wear_readable lives n :
  (∀ p, Forall only_reads (lives p)) → readable n → readable (wear lives n).
Proof.
  intros Hl Hn p s'. rewrite wear_lookup. destruct (n !! p) as [s|] eqn:Hp; [|done].
  intros [= <-]. destruct (Hn p s Hp) as [Hc Hm]. split; intros j x Hj;
    destruct (lifetime_files (lives p) s j (Hl p) Hj) as [E1 E2].
  - rewrite E1. by apply Hc.
  - rewrite E2. by apply Hm.
Qed.
End worn.

(** C2. A file that is uploaded in the clear to running peers with room for it is
    downloaded byte for byte by every client with the share link, although every peer
    serves other readers in the meantime, any bytes on any connections that change
    nothing, and is killed at any moments, as often as one likes, also while it writes
    its table, and started again with any limit; as long as the digest tells the blocks
    and the manifest from each other and from what the peers have. *)
Theorem download_survives_crashes `{IterOrder, Sha256, AesGcm, Rsa} penv cenv seg seg' members
    cwd rand cfg cfg' filePath content out up down w lives
    (Hlink : link_ok penv cenv seg seg')
    (Hset : upload_setup (HL := wire_laws penv cenv seg seg' members Hlink)
              cenv cwd cfg filePath content w)
    (Hpeers : peers cfg ⊆ peers cfg') (Hlives : ∀ p, Forall only_reads (lives p)) :
  let put := putFile (HP := wire_api penv cenv seg seg') cenv cwd rand cfg filePath up in
  let get uri := getFile (HP := wire_api penv cenv seg seg') cenv cfg' uri out down in
  ∃ res w1, put w = (Ok res, w1) ∧
    ∃ w2, get (shareUri res) (mk_world (wear lives (net w1)) (files w1) (reported w1)) =
          (Ok (), w2) ∧ read_file out (files w2) = Some content.
Proof.
  cbn zeta. destruct (putFile_stores (HL := wire_laws penv cenv seg seg' members Hlink)
    cenv cwd rand cfg filePath content up w Hset)
    as (blocks & res & w1 & <- & Hblk & E & Huri & _ & Hnone & [Hval _] & Hcons & Hheld & Hdig & p & Hp & Hman).
  exists res, w1. split; [done|]. rewrite Huri.
  destruct (wear_files lives (net w1) Hlives) as [Ec Em].
  apply (stored_is_read (HL := worn_reads penv cenv seg seg' Hlink)); cbn [net files]; try done.
  - apply Hset.
  - by apply (uploaded_manifest_ok (HL := wire_laws penv cenv seg seg' members Hlink)
      cenv cwd cfg filePath blocks w).
  - apply Hset.
  - apply Hset.
  - unfold looks_like_local_manifest_path. cbn [files]. rewrite Hnone.
    apply (up_link _ _ _ _ _ _ Hset).
  - apply wear_readable; [done|]. intros q s Hq. by apply peer_ok_small, (Hval q).
  - intros q j d. cbn [held worn_reads]. rewrite Ec. apply Hcons.
  - intros a b Ha Hb. apply Hdig; [|done]. destruct Ha as [(q & j & Ha)|Ha]; [left|by right].
    exists q, j. cbn [held held_manifest worn_reads] in Ha. by rewrite Ec, Em in Ha.
  - intros b Hb. destruct (Hheld b Hb) as (q & Hq & Hx). exists q. split; [by apply Hpeers|].
    cbn [held worn_reads]. by rewrite Ec.
  - exists p. split; [by apply Hpeers|]. cbn [held_manifest worn_reads]. by rewrite Em.
Qed.

(** ** Witness *)

(** Every peer is asked for the first block, and killed when three bytes of its table are
    written. *)
Definition demo_reader : Conn :=
  incoming (lit "GET_CHUNK " ++ sha256_hex (H := toy_sha256) (lit "a fi") ++ [newline]).

Definition demo_wear (p : PeerEndpoint) : list peer_life :=
  [Served good_env demo_reader; KilledIn good_env demo_reader 0 (Some 3%nat) good_env 500].

Lemma download_survives_crashes_witness :
  let api := wire_api (H := some_order) good_env client_env bytewise whole in
  let put := putFile (HP := api) (HS := toy_sha256) (HA := toy_aes) (HR := toy_rsa) client_env
               (lit "/home/u") None (demo_config 4 []) (lit "/home/u/a.txt") true in
  let get uri := getFile (HP := api) (HS := toy_sha256) (HA := toy_aes) (HR := toy_rsa) client_env
               (demo_config 1048576 []) uri (lit "/home/u/b.txt") true in
  ∃ res w1, put demo_network = (Ok res, w1) ∧
    ∃ w2, get (shareUri res)
            (mk_world (wear (H := some_order) demo_wear (net w1)) (files w1) (reported w1)) =
          (Ok (), w2) ∧ read_file (lit "/home/u/b.txt") (files w2) = Some (lit "a file").
Proof.
  exact (download_survives_crashes (H := some_order) (H0 := toy_sha256) (H1 := toy_aes)
    (H2 := toy_rsa) good_env client_env bytewise whole demo_peers (lit "/home/u") None
    (demo_config 4 []) (demo_config 1048576 []) (lit "/home/u/a.txt") (lit "a file")
    (lit "/home/u/b.txt") true true demo_network demo_wear good_link demo_network_setup
    (reflexivity _) ltac:(intros p; by_eval)).
Defined.
