(* ===== verification/Tracker.v ===== *)
(** * The tracker

    Models [src/tracker/main.cpp]: the table of peers with the time of their last
    contact, the index of announced chunks, and the commands.  Times are readings
    of the steady clock in nanoseconds.  A round reads the clock at most twice:
    [now], then [later] in [prune_stale_and_cleanup]. *)

From S2P Require Import Prelude.
From S2P Require Import CxxStd.
From S2P Require Import PeerEndpoint.
From S2P Require Import Tcp.

Record PeerInfo := mk_info { last_seen : Z }.

Record Tracker := mk_tracker {
  peers : gmap str PeerInfo;
  chunk_index : gmap str (gset str);
}.

Definition no_tracker : Tracker := mk_tracker ∅ ∅.

Definition TTL : Z := 30 * 1000000000.

Definition stale (ttl now : Z) (i : PeerInfo) : bool := ttl <? now - last_seen i.

Definition OK_reply : str := lit "OK" ++ [newline].
Definition err_usage (cmd usage : str) : str :=
  lit "ERR invalid " ++ cmd ++ lit ". Use: " ++ usage ++ [newline].

Section tracker.
Context `{IterOrder}.

(** The loop that erases stale peers while it iterates; [dead] collects them. *)
Fixpoint erase_stale (ttl now : Z) (l : list (str * PeerInfo)) (ps : gmap str PeerInfo)
    (dead : list str) : gmap str PeerInfo * list str :=
  match l with
  | [] => (ps, dead)
  | (e, i) :: l' =>
      if stale ttl now i then erase_stale ttl now l' (delete e ps) (dead ++ [e])
      else erase_stale ttl now l' ps dead
  end.

Definition prune_stale (ttl now : Z) (ps : gmap str PeerInfo) : gmap str PeerInfo :=
  (erase_stale ttl now (iterate ps) ps []).1.

(** [for (const auto& d : dead) locs.erase(d)]. *)
Definition erase_all (dead : list str) (locs : gset str) : gset str :=
  foldl (λ l d, l ∖ {[d]}) locs dead.

Definition prune_stale_and_cleanup (ttl now : Z) (t : Tracker) : Tracker :=
  let (ps, dead) := erase_stale ttl now (iterate (peers t)) (peers t) [] in
  if bool_decide (dead = []) then mk_tracker ps (chunk_index t)
  else mk_tracker ps (filter (λ kv, kv.2 ≠ ∅) (erase_all dead <$> chunk_index t)).

(** ** The commands *)

Definition bad_peer (ip : str) (p : Z) : bool :=
  bool_decide (ip = []) || (p <=? 0) || (65535 <? p).

Definition see (now : Z) (entry : str) (t : Tracker) : Tracker :=
  mk_tracker (<[entry := mk_info now]> (peers t)) (chunk_index t).

Definition do_register (now : Z) (iss : istream) (t : Tracker) : str * Tracker :=
  let (ip, iss) := get_word [] iss in
  let (p, iss) := get_int 0 iss in
  if bad_peer ip p then (err_usage (lit "REGISTER") (lit "REGISTER <ip> <port>"), t)
  else (OK_reply, see now (endpoint_text (mk_endpoint ip p)) t).

Definition do_heartbeat (now : Z) (iss : istream) (t : Tracker) : str * Tracker :=
  let (ip, iss) := get_word [] iss in
  let (p, iss) := get_int 0 iss in
  if bad_peer ip p then (err_usage (lit "HEARTBEAT") (lit "HEARTBEAT <ip> <port>"), t)
  else (OK_reply, see now (endpoint_text (mk_endpoint ip p)) t).

(** [chunk_index[chunk_id].insert(entry)]. *)
Definition locate (chunk_id entry : str) (t : Tracker) : Tracker :=
  mk_tracker (peers t)
    (<[chunk_id := {[entry]} ∪ default ∅ (chunk_index t !! chunk_id)]> (chunk_index t)).

Definition alive (now : Z) (t : Tracker) (entry : str) : bool :=
  match peers t !! entry with
  | None => false
  | Some i => now - last_seen i <=? TTL
  end.

(** Both branches on the liveness of the peer insert and answer OK. *)
Definition do_announce (now : Z) (iss : istream) (t : Tracker) : str * Tracker :=
  let (chunk_id, iss) := get_word [] iss in
  let (ip, iss) := get_word [] iss in
  let (p, iss) := get_int 0 iss in
  let entry := endpoint_text (mk_endpoint ip p) in
  if bool_decide (chunk_id = []) || bad_peer ip p then
    (err_usage (lit "ANNOUNCE") (lit "ANNOUNCE <chunk_id> <ip> <port>"), t)
  else if negb (alive now t entry) then (OK_reply, locate chunk_id entry t)
  else (OK_reply, locate chunk_id entry t).

(** [if (out.empty()) out = "\n"]. *)
Definition or_blank (out : str) : str := if bool_decide (out = []) then [newline] else out.

Definition entry_lines (l : list str) : str := flat_map (λ e, e ++ [newline]) l.

Definition where_text (now : Z) (chunk_id : str) (t : Tracker) : str :=
  match chunk_index t !! chunk_id with
  | None => []
  | Some locs =>
      flat_map (λ e, if alive now t e then e ++ [newline] else []) (iterate_set locs)
  end.

Definition do_where (now : Z) (iss : istream) (t : Tracker) : str * Tracker :=
  let (chunk_id, iss) := get_word [] iss in
  if bool_decide (chunk_id = []) then (err_usage (lit "WHERE") (lit "WHERE <chunk_id>"), t)
  else (or_blank (where_text now chunk_id t), t).

Definition alive_count (t : Tracker) (locs : gset str) : Z :=
  zlen (filter (λ e, is_Some (peers t !! e)) (iterate_set locs)).

(** The loop over the index, with its [break] at the limit. *)
Fixpoint repair_loop (t : Tracker) (desired limit : Z) (l : list (str * gset str)) (sent_ : Z)
    (out : str) : str :=
  match l with
  | [] => out
  | (chunk_id, locs) :: l' =>
      let n := alive_count t locs in
      if (0 <? n) && (n <? desired) then
        let out := out ++ chunk_id ++ lit " " ++ to_string n ++ [newline] in
        if limit <=? sent_ + 1 then out else repair_loop t desired limit l' (sent_ + 1) out
      else repair_loop t desired limit l' sent_ out
  end.

Definition do_need_repair (later : Z) (iss : istream) (t : Tracker) : str * Tracker :=
  let (desired, iss) := get_int 0 iss in
  let (limit, iss) := get_int 0 iss in
  let desired := if desired <=? 0 then 2 else desired in
  let limit := if limit <=? 0 then 50 else limit in
  let t := prune_stale_and_cleanup TTL later t in
  (or_blank (repair_loop t desired limit (iterate (chunk_index t)) 0 []), t).

Definition do_get_peers (now later : Z) (t : Tracker) : str * Tracker :=
  let t := prune_stale_and_cleanup TTL later t in
  let t := mk_tracker (prune_stale TTL now (peers t)) (chunk_index t) in
  (or_blank (flat_map (λ kv, kv.1 ++ [newline]) (iterate (peers t))), t).

Definition dispatch (now later : Z) (line : str) (t : Tracker) : str * Tracker :=
  let (cmd, iss) := get_word [] (istringstream line) in
  if bool_decide (cmd = lit "REGISTER") then do_register now iss t
  else if bool_decide (cmd = lit "HEARTBEAT") then do_heartbeat now iss t
  else if bool_decide (cmd = lit "ANNOUNCE") then do_announce now iss t
  else if bool_decide (cmd = lit "WHERE") then do_where now iss t
  else if bool_decide (cmd = lit "NEED_REPAIR") then do_need_repair later iss t
  else if bool_decide (cmd = lit "GET_PEERS") then do_get_peers now later t
  else (lit "ERR unknown command" ++ [newline], t).

(** One round of the loop after [accept]. *)
Definition serve (now later : Z) (c : Conn) (t : Tracker) : Conn * Tracker :=
  let '(ok, line, c) := recv_line c in
  if negb ok then (close c, t)
  else let (out, t) := dispatch now later line t in
       (close (send_all_nothrow out c).2, t).

(** ** The protocol

    A line that the tracker understands, and what it does. *)

Inductive command :=
  | Contact (entry : str)
  | Announce (chunk_id entry : str)
  | Where (chunk_id : str)
  | NeedRepair (desired limit : Z)
  | GetPeers.

#[export] Instance command_eq_dec : EqDecision command.
Proof. solve_decision. Defined.

Definition read_peer (iss : istream) : option str :=
  let (ip, iss) := get_word [] iss in
  let (p, iss) := get_int 0 iss in
  if bad_peer ip p then None else Some (endpoint_text (mk_endpoint ip p)).

Definition understand (line : str) : option command :=
  let (cmd, iss) := get_word [] (istringstream line) in
  if bool_decide (cmd = lit "REGISTER") || bool_decide (cmd = lit "HEARTBEAT") then
    Contact <$> read_peer iss
  else if bool_decide (cmd = lit "ANNOUNCE") then
    let (c, iss) := get_word [] iss in
    if bool_decide (c = []) then None else Announce c <$> read_peer iss
  else if bool_decide (cmd = lit "WHERE") then
    let (c, iss) := get_word [] iss in if bool_decide (c = []) then None else Some (Where c)
  else if bool_decide (cmd = lit "NEED_REPAIR") then
    let (d, iss) := get_int 0 iss in
    let (l, iss) := get_int 0 iss in
    Some (NeedRepair (if d <=? 0 then 2 else d) (if l <=? 0 then 50 else l))
  else if bool_decide (cmd = lit "GET_PEERS") then Some GetPeers
  else None.

(** The answer to a command and the state after it. *)
Definition exec (now later : Z) (k : command) (t : Tracker) : str * Tracker :=
  match k with
  | Contact e => (OK_reply, see now e t)
  | Announce c e => (OK_reply, locate c e t)
  | Where c => (or_blank (where_text now c t), t)
  | NeedRepair desired limit =>
      let t := prune_stale_and_cleanup TTL later t in
      (or_blank (repair_loop t desired limit (iterate (chunk_index t)) 0 []), t)
  | GetPeers => do_get_peers now later t
  end.

Definition is_error (text : str) : Prop := ∃ why, text = lit "ERR " ++ why.

(** A line is a command, or is answered with an error and changes nothing. *)
Lemma dispatch_understood now later line t :
  match understand line with
  | Some k => dispatch now later line t = exec now later k t
  | None => (dispatch now later line t).2 = t ∧ is_error (dispatch now later line t).1
  end.
Proof.
  unfold understand, dispatch. destruct (get_word [] (istringstream line)) as [cmd iss].
  assert (∀ a b, is_error (err_usage a b)) as Herr by (intros; by eexists).
  repeat case_bool_decide; subst; try done; cbn [orb];
    unfold do_register, do_heartbeat, do_announce, do_where, do_need_repair, read_peer;
    cbn [orb].
  - destruct (get_word [] iss) as [i iss1], (get_int 0 iss1) as [p iss2].
    destruct (bad_peer i p); [split; [done|apply Herr]|done].
  - destruct (get_word [] iss) as [i iss1], (get_int 0 iss1) as [p iss2].
    destruct (bad_peer i p); [split; [done|apply Herr]|done].
  - destruct (get_word [] iss) as [c iss0], (get_word [] iss0) as [i iss1],
      (get_int 0 iss1) as [p iss2].
    case_bool_decide; [split; [done|apply Herr]|]. cbn [orb].
    destruct (bad_peer i p); [split; [done|apply Herr]|]. by destruct (negb _).
  - destruct (get_word [] iss) as [c iss0]. case_bool_decide; [split; [done|apply Herr]|done].
  - by destruct (get_int 0 iss) as [d iss1], (get_int 0 iss1) as [l iss2].
  - split; [done|by eexists].
Qed.

(** ** Pruning *)

Lemma erase_stale_spec ttl now l ps dead :
  erase_stale ttl now l ps dead =
  (foldl (λ m e, delete e m) ps (filter (λ kv, stale ttl now kv.2 = true) l).*1,
   dead ++ (filter (λ kv, stale ttl now kv.2 = true) l).*1).
Proof.
  revert ps dead. induction l as [|[e i] l IH]; intros ps dead; cbn [erase_stale].
  - by rewrite app_nil_r.
  - rewrite filter_cons. cbn [snd]. destruct (stale ttl now i); rewrite IH.
    + rewrite decide_True by done. rewrite fmap_cons. cbn [foldl fst]. by rewrite <- app_assoc.
    + by rewrite decide_False by done.
Qed.

Lemma lookup_delete_all {V} (l : list str) (m : gmap str V) e :
  foldl (λ m e, delete e m) m l !! e = if decide (e ∈ l) then None else m !! e.
Proof.
  revert m. induction l as [|d l IH]; intros m; cbn [foldl].
  - by rewrite decide_False by apply not_elem_of_nil.
  - rewrite IH. destruct (decide (e ∈ l)); [by rewrite decide_True by set_solver|].
    destruct (decide (e = d)) as [->|].
    + rewrite decide_True by set_solver. apply lookup_delete_eq.
    + rewrite decide_False by set_solver. by apply lookup_delete_ne.
Qed.

Definition dead_peers (ttl now : Z) (ps : gmap str PeerInfo) : list str :=
  (filter (λ kv, stale ttl now kv.2 = true) (iterate ps)).*1.

Lemma elem_of_dead ttl now ps e :
  e ∈ dead_peers ttl now ps ↔ ∃ i, ps !! e = Some i ∧ stale ttl now i = true.
Proof.
  unfold dead_peers. rewrite list_elem_of_fmap. split.
  - intros ([? i] & -> & [Hs Hi]%list_elem_of_filter). apply elem_of_iterate in Hi. by exists i.
  - intros (i & Hi & Hs). exists (e, i). split; [done|]. apply list_elem_of_filter.
    split; [done|]. by apply elem_of_iterate.
Qed.

(** What is left are the peers that are not stale. *)
Lemma lookup_prune ttl now ps e :
  foldl (λ m e, delete e m) ps (dead_peers ttl now ps) !! e =
  ps !! e ≫= λ i, if stale ttl now i then None else Some i.
Proof.
  rewrite lookup_delete_all. destruct (decide _) as [Hd|Hd]; rewrite elem_of_dead in Hd.
  - destruct Hd as (i & -> & Hs). cbn. by rewrite Hs.
  - destruct (ps !! e) as [i|] eqn:Hi; [|done]. cbn.
    destruct (stale ttl now i) eqn:Hs; [|done]. destruct Hd. by exists i.
Qed.

Lemma lookup_prune_stale ttl now ps e :
  prune_stale ttl now ps !! e = ps !! e ≫= λ i, if stale ttl now i then None else Some i.
Proof. unfold prune_stale. rewrite erase_stale_spec. apply lookup_prune. Qed.

Lemma elem_of_erase_all dead locs e : e ∈ erase_all dead locs ↔ e ∈ locs ∧ e ∉ dead.
Proof.
  unfold erase_all. revert locs. induction dead as [|d dead IH]; intros locs; cbn [foldl].
  - set_solver.
  - rewrite IH. set_solver.
Qed.

(** The index as a relation. *)
Definition located (t : Tracker) (c e : str) : Prop :=
  ∃ locs, chunk_index t !! c = Some locs ∧ e ∈ locs.

Lemma prune_peers ttl now t e :
  peers (prune_stale_and_cleanup ttl now t) !! e =
  peers t !! e ≫= λ i, if stale ttl now i then None else Some i.
Proof.
  unfold prune_stale_and_cleanup. rewrite erase_stale_spec.
  case_bool_decide; cbn [peers]; apply lookup_prune.
Qed.

Lemma prune_located ttl now t c e :
  located (prune_stale_and_cleanup ttl now t) c e ↔
  located t c e ∧ ∀ i, peers t !! e = Some i → stale ttl now i = false.
Proof.
  assert (e ∉ dead_peers ttl now (peers t) ↔
          ∀ i, peers t !! e = Some i → stale ttl now i = false) as <-.
  { rewrite elem_of_dead. split.
    - intros Hn i Hi. destruct (stale ttl now i) eqn:Hs; [|done]. destruct Hn. by exists i.
    - intros Hf (i & Hi & Hs). by rewrite Hf in Hs. }
  unfold prune_stale_and_cleanup. rewrite erase_stale_spec. cbn [app].
  fold (dead_peers ttl now (peers t)). unfold located. case_bool_decide as Hd; cbn [chunk_index].
  - rewrite Hd. set_solver.
  - split.
    + intros (locs & Hl & He). apply map_lookup_filter_Some in Hl as [Hl _].
      rewrite lookup_fmap in Hl. destruct (chunk_index t !! c) as [old|] eqn:Ho; [|done].
      injection Hl as <-. apply elem_of_erase_all in He as [He Hn]. split; [by exists old|done].
    + intros [(old & Ho & He) Hn]. exists (erase_all (dead_peers ttl now (peers t)) old).
      assert (e ∈ erase_all (dead_peers ttl now (peers t)) old) by (by apply elem_of_erase_all).
      split; [|done]. apply map_lookup_filter_Some. rewrite lookup_fmap, Ho.
      split; [done|]. cbn [snd]. set_solver.
Qed.

Lemma locate_located c e t c' e' :
  located (locate c e t) c' e' ↔ located t c' e' ∨ c' = c ∧ e' = e.
Proof.
  unfold located, locate. cbn [chunk_index]. destruct (decide (c' = c)) as [->|Hne].
  - rewrite lookup_insert_eq. split.
    + intros (l & [= <-] & He). apply elem_of_union in He as [->%elem_of_singleton|He]; [by right|].
      destruct (chunk_index t !! c) as [old|] eqn:Ho; [|by apply elem_of_empty in He].
      left. by exists old.
    + intros Hl. eexists. split; [done|]. destruct Hl as [(old & -> & He)|[_ ->]]; cbn; set_solver.
  - rewrite lookup_insert_ne by done. naive_solver.
Qed.

(** ** Histories

    The rounds of a tracker since its start, the last one first. *)

Record Round := mk_round { at_now : Z; at_later : Z; did : option command }.

Inductive tracked : list Round → Tracker → Z → Prop :=
  | tracked_start T : tracked [] no_tracker T
  | tracked_line h t T now later line :
      tracked h t T → T ≤ now → now ≤ later →
      tracked (mk_round now later (understand line) :: h) (dispatch now later line t).2 later.

(** When a peer was last heard of. *)
Fixpoint last_contact (h : list Round) (e : str) : option Z :=
  match h with
  | [] => None
  | r :: h' => if bool_decide (did r = Some (Contact e)) then Some (at_now r) else last_contact h' e
  end.

Definition announced (h : list Round) (c e : str) : Prop :=
  Exists (λ r, did r = Some (Announce c e)) h.

(** A peer that was never silent for longer than the limit, once heard of. *)
Fixpoint steady (h : list Round) (e : str) : Prop :=
  match h with
  | [] => True
  | r :: h' => steady h' e ∧ ∀ s, last_contact h' e = Some s → at_later r - s ≤ TTL
  end.

Record history_inv (h : list Round) (t : Tracker) (T : Z) : Prop := {
  inv_peer e i : peers t !! e = Some i → last_contact h e = Some (last_seen i);
  inv_past e s : last_contact h e = Some s → s ≤ T;
  inv_gone e s : last_contact h e = Some s → peers t !! e = None → TTL < T - s;
  inv_located c e : located t c e → announced h c e;
  inv_steady c e : announced h c e → steady h e → located t c e;
}.

(** A round that neither hears of a peer nor announces one. *)
Lemma inv_quiet h t T r t' :
  history_inv h t T → T ≤ at_later r →
  (∀ e, did r ≠ Some (Contact e)) → (∀ c e, did r ≠ Some (Announce c e)) →
  (∀ e i, peers t' !! e = Some i → peers t !! e = Some i) →
  (∀ e i, peers t !! e = Some i → peers t' !! e = None → TTL < at_later r - last_seen i) →
  (∀ c e, located t' c e → located t c e) →
  (∀ c e, located t c e → (∀ i, peers t !! e = Some i → at_later r - last_seen i ≤ TTL) →
     located t' c e) →
  history_inv (r :: h) t' (at_later r).
Proof.
  intros [Hp Hs Hg Hl Hst] HT Hc Ha Hp' Hd Hl' Hk.
  assert (∀ e, last_contact (r :: h) e = last_contact h e) as E.
  { intros e. cbn [last_contact]. by rewrite bool_decide_eq_false_2. }
  split.
  - intros e i Hi. rewrite E. auto.
  - intros e s. rewrite E. intros H1%Hs. lia.
  - intros e s. rewrite E. intros H1 Hn. destruct (peers t !! e) as [i|] eqn:Hi.
    + rewrite (Hp _ _ Hi) in H1. injection H1 as <-. by apply (Hd e).
    + specialize (Hg e s H1 Hi). lia.
  - intros c e Hloc. right. by apply Hl, Hl'.
  - intros c e Han [Hse Hb]. apply Exists_cons in Han as [Han|Han]; [by destruct (Ha c e)|].
    apply Hk; [auto|]. intros i Hi. apply Hb. auto.
Qed.

Lemma stale_false ttl now i : stale ttl now i = false ↔ now - last_seen i ≤ ttl.
Proof. unfold stale. apply Z.ltb_ge. Qed.

Lemma prune_quiet h t T now later k :
  history_inv h t T → T ≤ later → (∀ e, k ≠ Contact e) → (∀ c e, k ≠ Announce c e) →
  history_inv (mk_round now later (Some k) :: h) (prune_stale_and_cleanup TTL later t) later.
Proof.
  intros Hinv HT Hc Ha.
  apply (inv_quiet h t T (mk_round now later (Some k))); try done; cbn [at_later did].
  - naive_solver.
  - naive_solver.
  - intros e i. rewrite prune_peers. destruct (peers t !! e) as [j|]; cbn; [|done].
    by destruct (stale _ _ _).
  - intros e i Hi. rewrite prune_peers, Hi. cbn. destruct (stale TTL later i) eqn:Hst; [|done].
    intros _. apply Z.ltb_lt in Hst. done.
  - intros c e [? _]%prune_located. done.
  - intros c e Hl Hb. apply prune_located. split; [done|]. intros i Hi. apply stale_false. auto.
Qed.

(** The second pass of [GET_PEERS] finds nothing: its reading is older. *)
Lemma get_peers_state now later t :
  now ≤ later →
  (do_get_peers now later t).2 = prune_stale_and_cleanup TTL later t.
Proof.
  intros Hle. unfold do_get_peers. cbn [snd].
  destruct (prune_stale_and_cleanup TTL later t) as [ps ix] eqn:E. f_equal. cbn [peers].
  apply map_eq. intros e. rewrite lookup_prune_stale.
  pose proof (prune_peers TTL later t e) as Hp. rewrite E in Hp. cbn [peers] in Hp.
  destruct (ps !! e) as [i|] eqn:Hi; [|done]. cbn.
  destruct (peers t !! e) as [j|]; [|done]. cbn in Hp.
  destruct (stale TTL later j) eqn:Hs; [done|]. injection Hp as ->.
  apply stale_false in Hs. assert (stale TTL now j = false) as -> by (apply stale_false; lia). done.
Qed.

Lemma tracked_inv h t T : tracked h t T → history_inv h t T.
Proof.
  induction 1 as [T|h t T now later line _ Hinv HT Hle].
  { split; try done; [by intros c e (l & Hl & _)|by intros c e ?%Exists_nil]. }
  pose proof (dispatch_understood now later line t) as Hd.
  destruct (understand line) as [k|].
  2: { destruct Hd as [-> _]. apply (inv_quiet h t T (mk_round now later None)); try done.
       - cbn. lia.
       - congruence. }
  rewrite Hd. clear Hd. destruct k as [e|c e|c|d n|]; cbn [exec snd].
  - destruct Hinv as [Hp Hs Hg Hl Hst]. split.
    + intros e' i. cbn [see peers last_contact did at_now]. destruct (decide (e' = e)) as [->|Hne].
      * rewrite lookup_insert_eq. intros [= <-]. by rewrite bool_decide_eq_true_2.
      * rewrite lookup_insert_ne, bool_decide_eq_false_2 by congruence. auto.
    + intros e' s. cbn [last_contact did at_now]. case_bool_decide; [intros [= <-]; lia|].
      intros H1%Hs. lia.
    + intros e' s. cbn [see peers last_contact did at_now]. case_bool_decide as Hk.
      * injection Hk as ->. by rewrite lookup_insert_eq.
      * rewrite lookup_insert_ne by congruence. intros H1 Hn. specialize (Hg _ _ H1 Hn). lia.
    + intros c e' Hloc. right. by apply Hl.
    + intros c e' Han [Hse _]. apply Exists_cons in Han as [Han|Han]; [done|]. by apply Hst.
  - destruct Hinv as [Hp Hs Hg Hl Hst]. split.
    + intros e' i. cbn [locate peers last_contact did]. rewrite bool_decide_eq_false_2 by done. auto.
    + intros e' s. cbn [last_contact did]. rewrite bool_decide_eq_false_2 by done.
      intros H1%Hs. lia.
    + intros e' s. cbn [locate peers last_contact did]. rewrite bool_decide_eq_false_2 by done.
      intros H1 Hn. specialize (Hg _ _ H1 Hn). lia.
    + intros c' e' [Hloc|[-> ->]]%locate_located; [right; by apply Hl|by left].
    + intros c' e' Han [Hse _]. apply locate_located.
      apply Exists_cons in Han as [[= -> ->]|Han]; [by right|left; by apply Hst].
  - apply (inv_quiet h t T (mk_round now later (Some (Where c)))); try done.
    + cbn. lia.
    + congruence.
  - apply (prune_quiet h t T); [done|lia|done|done].
  - rewrite get_peers_state by done. apply (prune_quiet h t T); [done|lia|done|done].
Qed.

(** ** Answers *)

Lemma dispatch_command now later line t k :
  understand line = Some k → dispatch now later line t = exec now later k t.
Proof. intros E. pose proof (dispatch_understood now later line t) as Hd. by rewrite E in Hd. Qed.

Lemma NoDup_iterate_set (X : gset str) : NoDup (iterate_set X).
Proof. rewrite iterate_set_perm. apply NoDup_elements. Qed.

Definition where_entries (now : Z) (c : str) (t : Tracker) : list str :=
  filter (λ e, alive now t e = true) (iterate_set (default ∅ (chunk_index t !! c))).

Lemma where_text_entries now c t : where_text now c t = entry_lines (where_entries now c t).
Proof.
  unfold where_text, where_entries, entry_lines.
  destruct (chunk_index t !! c) as [locs|]; cbn [default]; cycle 1.
  { pose proof (iterate_set_perm (∅ : gset str)) as Hp. rewrite elements_empty in Hp.
    apply Permutation_nil_r in Hp. by rewrite Hp, filter_nil. }
  change (id locs) with locs. induction (iterate_set locs) as [|e l IH]; [by rewrite filter_nil|].
  cbn [flat_map]. rewrite filter_cons.
  destruct (alive now t e); [rewrite decide_True by done|rewrite decide_False by done];
    cbn [flat_map]; by rewrite IH.
Qed.

Lemma elem_of_where now c t e :
  e ∈ where_entries now c t ↔ located t c e ∧ alive now t e = true.
Proof.
  unfold where_entries, located. rewrite list_elem_of_filter, elem_of_iterate_set.
  destruct (chunk_index t !! c) as [l|]; cbn; [naive_solver|]. set_solver.
Qed.

Lemma alive_spec now t e :
  alive now t e = true ↔ ∃ i, peers t !! e = Some i ∧ now - last_seen i ≤ TTL.
Proof.
  unfold alive. destruct (peers t !! e) as [i|]; [rewrite Z.leb_le; naive_solver|naive_solver].
Qed.

Lemma entry_lines_fst {V} (l : list (str * V)) :
  flat_map (λ kv, kv.1 ++ [newline]) l = entry_lines l.*1.
Proof. induction l as [|kv l IH]; cbn; [done|]. by rewrite IH. Qed.

Lemma get_peers_answer now later t :
  now ≤ later →
  (do_get_peers now later t).1 =
  or_blank (entry_lines (iterate (peers (prune_stale_and_cleanup TTL later t))).*1).
Proof.
  intros Hle. pose proof (get_peers_state now later t Hle) as E. unfold do_get_peers in *.
  cbn [fst snd] in *. by rewrite E, entry_lines_fst.
Qed.

(** Exactly the peers heard of in the last half minute are in the pruned table. *)
Lemma pruned_peers h t T later e :
  tracked h t T → T ≤ later →
  e ∈ (iterate (peers (prune_stale_and_cleanup TTL later t))).*1 ↔
  ∃ s, last_contact h e = Some s ∧ later - s ≤ TTL.
Proof.
  intros [Hp _ Hg _ _]%tracked_inv HT. rewrite list_elem_of_fmap. split.
  - intros ([? i] & -> & Hi). apply elem_of_iterate in Hi. rewrite prune_peers in Hi. cbn [fst].
    destruct (peers t !! _) as [j|] eqn:Hj; [|done]. cbn in Hi.
    destruct (stale TTL later j) eqn:Hs; [done|]. apply stale_false in Hs.
    exists (last_seen j). split; [by apply Hp|done].
  - intros (s & Hs & Hb). destruct (peers t !! e) as [i|] eqn:Hi.
    + pose proof (Hp _ _ Hi) as E. rewrite Hs in E. injection E as ->.
      exists (e, i). split; [done|]. apply elem_of_iterate. rewrite prune_peers, Hi. cbn.
      by rewrite (proj2 (stale_false TTL later i)).
    + specialize (Hg e s Hs Hi). lia.
Qed.

(** ** Repair *)

Definition report_lines (l : list (str * Z)) : str :=
  flat_map (λ cn, cn.1 ++ lit " " ++ to_string cn.2 ++ [newline]) l.

Definition rare (t : Tracker) (desired : Z) (l : list (str * gset str)) : list (str * Z) :=
  filter (λ cn, 0 < cn.2 < desired) ((λ cl, (cl.1, alive_count t cl.2)) <$> l).

Lemma repair_loop_spec t desired limit l n out :
  n < limit →
  repair_loop t desired limit l n out =
  out ++ report_lines (take (Z.to_nat (limit - n)) (rare t desired l)).
Proof.
  revert n out. induction l as [|[c locs] l IH]; intros n out Hn; cbn [repair_loop].
  { unfold rare. rewrite fmap_nil, filter_nil, take_nil. by rewrite app_nil_r. }
  unfold rare. rewrite fmap_cons, filter_cons. cbn [fst snd]. fold (rare t desired l).
  destruct (decide (0 < alive_count t locs < desired)) as [Hr|Hr].
  - assert ((0 <? alive_count t locs) && (alive_count t locs <? desired) = true) as ->.
    { by rewrite andb_true_iff, !Z.ltb_lt. }
    replace (Z.to_nat (limit - n)) with (S (Z.to_nat (limit - (n + 1)))) by lia.
    cbn [take report_lines flat_map fst snd].
    destruct (Z.leb_spec limit (n + 1)) as [Hle|Hlt].
    + replace (Z.to_nat (limit - (n + 1))) with O by lia. cbn [take flat_map].
      by rewrite app_nil_r.
    + rewrite IH by lia. unfold report_lines. by rewrite <- !app_assoc.
  - assert ((0 <? alive_count t locs) && (alive_count t locs <? desired) = false) as ->.
    { apply andb_false_iff. rewrite !Z.ltb_ge. lia. }
    by apply IH.
Qed.

(** The live holders of a chunk. *)
Definition holders (t : Tracker) (later : Z) (c : str) : gset str :=
  filter (λ e, alive later t e = true) (default ∅ (chunk_index t !! c)).

Lemma alive_count_holders later t c locs :
  chunk_index (prune_stale_and_cleanup TTL later t) !! c = Some locs →
  alive_count (prune_stale_and_cleanup TTL later t) locs = Z.of_nat (size (holders t later c)).
Proof.
  intros Hl. unfold alive_count, zlen. f_equal. unfold size, set_size. f_equal. cbn.
  apply Permutation_length. apply NoDup_Permutation.
  - apply NoDup_filter, NoDup_iterate_set.
  - apply NoDup_elements.
  - intros e. rewrite list_elem_of_filter, elem_of_iterate_set, elem_of_elements.
    unfold holders. rewrite elem_of_filter, alive_spec, prune_peers.
    assert (e ∈ locs ↔ located (prune_stale_and_cleanup TTL later t) c e) as ->.
    { unfold located. rewrite Hl. naive_solver. }
    rewrite prune_located.
    assert (e ∈ default ∅ (chunk_index t !! c) ↔ located t c e) as ->.
    { unfold located. destruct (chunk_index t !! c); cbn; set_solver. }
    destruct (peers t !! e) as [i|]; cbn; [|split; [by intros [[??] _]|naive_solver]].
    destruct (stale TTL later i) eqn:Hs.
    + apply Z.ltb_lt in Hs. split; [by intros [[??] _]|]. intros [(j & Hj & ?) _].
      injection Hj as ->. lia.
    + apply stale_false in Hs. split.
      * intros (_ & Hloc & _). split; [by exists i|done].
      * intros [_ Hloc]. split; [by eexists|]. split; [done|].
        intros j Hj. injection Hj as <-. by apply stale_false.
Qed.

(** ** Theorems *)

(** The answer to [WHERE] after any history of lines: every peer in it
    announced the chunk and was heard of in the last 30 seconds, and every peer
    that did and was never silent for longer is in it, once. *)
Theorem where_lists_live_holders h t T now later line c
    (Ht : tracked h t T) (Hnow : T ≤ now) (Hline : understand line = Some (Where c)) :
  ∃ l, (dispatch now later line t).1 = or_blank (entry_lines l) ∧ NoDup l ∧
    (∀ e, e ∈ l → announced h c e ∧ ∃ s, last_contact h e = Some s ∧ now - s ≤ TTL) ∧
    (∀ e s, announced h c e → steady h e → last_contact h e = Some s → now - s ≤ TTL → e ∈ l).
Proof.
  pose proof (tracked_inv h t T Ht) as [Hp Hs Hg Hl Hst].
  rewrite (dispatch_command _ _ _ _ _ Hline). cbn [exec fst].
  exists (where_entries now c t). rewrite where_text_entries. split; [done|].
  split; [apply NoDup_filter, NoDup_iterate_set|].
  split; intros e.
  - rewrite elem_of_where, alive_spec. intros [Hloc (i & Hi & Hb)]. split; [by apply Hl|]. exists (last_seen i). auto.
  - intros s Ha Hse Hc Hb. rewrite elem_of_where, alive_spec. split; [by apply Hst|].
    destruct (peers t !! e) as [i|] eqn:Hi; [|specialize (Hg e s Hc Hi); lia].
    exists i. split; [done|]. rewrite (Hp _ _ Hi) in Hc. by injection Hc as ->.
Qed.

(** The answer to [GET_PEERS] after any history of lines lists exactly the
    peers that were heard of in the last 30 seconds, each once. *)
Theorem get_peers_lists_live_peers h t T now later line
    (Ht : tracked h t T) (Hnow : T ≤ now ≤ later) (Hline : understand line = Some GetPeers) :
  ∃ l, (dispatch now later line t).1 = or_blank (entry_lines l) ∧ NoDup l ∧
    ∀ e, e ∈ l ↔ ∃ s, last_contact h e = Some s ∧ later - s ≤ TTL.
Proof.
  rewrite (dispatch_command _ _ _ _ _ Hline). cbn [exec].
  rewrite get_peers_answer by lia. eexists. split; [done|]. split; [apply NoDup_iterate|].
  intros e. apply (pruned_peers h t T); [done|lia].
Qed.

(** The answer to [NEED_REPAIR] lists chunks with the number of their live
    holders, where that number is positive and below the desired one: no chunk
    twice, no more than the limit, and all of them when the limit is not reached. *)
Theorem need_repair_lists_rare_chunks now later line desired limit t
    (Hline : understand line = Some (NeedRepair desired limit)) :
  ∃ l, (dispatch now later line t).1 = or_blank (report_lines l) ∧ NoDup l.*1 ∧
    zlen l ≤ limit ∧
    (∀ c n, (c, n) ∈ l → n = Z.of_nat (size (holders t later c)) ∧ 0 < n < desired) ∧
    (zlen l < limit → ∀ c, 0 < Z.of_nat (size (holders t later c)) < desired →
       (c, Z.of_nat (size (holders t later c))) ∈ l).
Proof.
  assert (0 < limit) as Hlim.
  { revert Hline. unfold understand. destruct (get_word _ _) as [cmd iss].
    repeat case_bool_decide; cbn [orb]; try done.
    all: try (by destruct (read_peer iss)).
    all: try (destruct (get_word [] iss) as [c iss0]; case_bool_decide; try done;
              by destruct (read_peer iss0)).
    destruct (get_int 0 iss) as [d iss1], (get_int 0 iss1) as [l iss2]. intros [= <- <-].
    destruct (Z.leb_spec l 0); lia. }
  rewrite (dispatch_command _ _ _ _ _ Hline). cbn [exec fst].
  set (t' := prune_stale_and_cleanup TTL later t).
  rewrite repair_loop_spec by done. rewrite Z.sub_0_r. cbn [app].
  set (all := rare t' desired (iterate (chunk_index t'))).
  assert (∀ c n, (c, n) ∈ all ↔
    ∃ locs, chunk_index t' !! c = Some locs ∧ n = alive_count t' locs ∧ 0 < n < desired) as Hall.
  { intros c n. unfold all, rare. rewrite list_elem_of_filter, list_elem_of_fmap. split.
    - intros [Hr ([c' locs] & [= -> ->] & Hin%elem_of_iterate)]. by exists locs.
    - intros (locs & Hl%elem_of_iterate & -> & Hr). split; [done|]. by exists (c, locs). }
  assert (NoDup all.*1) as Hnd.
  { unfold all, rare. eapply sublist_NoDup; [|apply (fmap_sublist fst), sublist_filter].
    rewrite <- list_fmap_compose. apply NoDup_iterate. }
  exists (take (Z.to_nat limit) all). split; [done|]. split.
  { eapply sublist_NoDup; [exact Hnd|]. apply (fmap_sublist fst), sublist_take. }
  split; [unfold zlen; rewrite length_take; lia|]. split.
  - intros c n (k & Hk%list_elem_of_lookup_2 & _)%elem_of_take.
    apply Hall in Hk as (locs & Hl & -> & Hr).
    split; [|done]. by apply alive_count_holders.
  - intros Hlen c Hr. rewrite take_ge by (unfold zlen in Hlen; rewrite length_take in Hlen; lia).
    apply Hall. destruct (chunk_index t' !! c) as [locs|] eqn:Hl.
    + exists locs. split; [done|]. split; [symmetry; by apply alive_count_holders|done].
    + exfalso. destruct (size_pos_elem_of (holders t later c)) as [e He]; [lia|].
      unfold holders in He. apply elem_of_filter in He as [Ha%alive_spec He].
      assert (located t' c e) as (locs & Hl' & _); [|congruence].
      apply prune_located. split.
      * unfold located. destruct (chunk_index t !! c) as [old|]; [by exists old|].
        by apply elem_of_empty in He.
      * intros i Hi. destruct Ha as (j & Hj & Hb). apply stale_false. congruence.
Qed.

(** An announcement is kept whether its peer was ever heard of or not. *)
Theorem announce_accepts_strangers now later line c e t
    (Hline : understand line = Some (Announce c e)) (Hstranger : peers t !! e = None) :
  dispatch now later line t = (OK_reply, locate c e t) ∧ located (locate c e t) c e.
Proof.
  rewrite (dispatch_command _ _ _ _ _ Hline). split; [done|]. apply locate_located. by right.
Qed.

(** A question changes later answers: a peer that comes back after half a
    minute of silence is listed for its chunks, unless somebody asked for the
    peers meanwhile. *)
Theorem get_peers_forgets_holders t c e i later now
    (Hpeer : peers t !! e = Some i) (Hsilent : TTL < later - last_seen i)
    (Hloc : located t c e) :
  e ∈ where_entries now c (exec now now (Contact e) t).2 ∧
  e ∉ where_entries now c (exec now now (Contact e) (exec later later GetPeers t).2).2.
Proof.
  cbn [exec snd]. rewrite !elem_of_where, get_peers_state by done. split.
  - split; [done|]. apply alive_spec. cbn [see peers]. rewrite lookup_insert_eq.
    eexists. split; [done|]. cbn. unfold TTL. lia.
  - intros [Hn _]. change (located (prune_stale_and_cleanup TTL later t) c e) in Hn.
    apply prune_located in Hn as [_ Hn].
    specialize (Hn i Hpeer). apply stale_false in Hn. lia.
Qed.

End tracker.

(** ** Witnesses *)

Definition demo_entry : str := lit "10.0.0.1:9000".
Definition demo_register : str := lit "REGISTER 10.0.0.1 9000".
Definition demo_announce : str := lit "ANNOUNCE c1 10.0.0.1 9000".

(** A tracker that heard of one peer and one chunk, at 0 s and at 1 s. *)
Definition demo_history : list Round :=
  [mk_round 1000000000 1000000000 (Some (Announce (lit "c1") demo_entry));
   mk_round 0 0 (Some (Contact demo_entry))].

Definition demo_tracker : Tracker :=
  let t := (dispatch (H := some_order) 0 0 demo_register no_tracker).2 in
  (dispatch (H := some_order) 1000000000 1000000000 demo_announce t).2.

Lemma demo_tracked : tracked (H := some_order) demo_history demo_tracker 1000000000.
Proof.
  apply (tracked_line (H := some_order) [mk_round 0 0 (understand demo_register)]
    (dispatch (H := some_order) 0 0 demo_register no_tracker).2 0 1000000000 1000000000
    demo_announce); [|lia|lia].
  apply (tracked_line (H := some_order) [] no_tracker 0 0 0 demo_register); [|lia|lia].
  apply tracked_start.
Qed.

Lemma where_lists_live_holders_witness :
  ∃ l, (dispatch (H := some_order) 2000000000 2000000000 (lit "WHERE c1") demo_tracker).1 =
       or_blank (entry_lines l) ∧ demo_entry ∈ l.
Proof.
  destruct (where_lists_live_holders (H := some_order) demo_history demo_tracker 1000000000
    2000000000 2000000000 (lit "WHERE c1") (lit "c1") demo_tracked ltac:(lia) eq_refl)
    as (l & E & _ & _ & Hl).
  exists l. split; [exact E|]. apply (Hl demo_entry 0).
  - by left.
  - split; [split; [done|]|].
    + intros s Hs. vm_compute in Hs. discriminate Hs.
    + intros s Hs. vm_compute in Hs. injection Hs as <-. vm_compute. discriminate.
  - by vm_compute.
  - vm_compute. discriminate.
Defined.

Lemma get_peers_lists_live_peers_witness :
  ∃ l, (dispatch (H := some_order) 2000000000 2000000001 (lit "GET_PEERS") demo_tracker).1 =
       or_blank (entry_lines l) ∧ demo_entry ∈ l.
Proof.
  destruct (get_peers_lists_live_peers (H := some_order) demo_history demo_tracker 1000000000
    2000000000 2000000001 (lit "GET_PEERS") demo_tracked ltac:(lia) eq_refl) as (l & E & _ & Hl).
  exists l. split; [exact E|]. apply Hl. exists 0. split; [by vm_compute|]. vm_compute. discriminate.
Defined.

Lemma need_repair_lists_rare_chunks_witness :
  ∃ l, (dispatch (H := some_order) 2000000000 2000000000 (lit "NEED_REPAIR 2 9") demo_tracker).1 =
       or_blank (report_lines l) ∧ zlen l ≤ 9 ∧
    (zlen l < 9 → (lit "c1", 1) ∈ l).
Proof.
  destruct (need_repair_lists_rare_chunks (H := some_order) 2000000000 2000000000
    (lit "NEED_REPAIR 2 9") 2 9 demo_tracker eq_refl) as (l & E & _ & Hlen & _ & Hall).
  exists l. split; [exact E|]. split; [exact Hlen|]. intros Hlt.
  exact (Hall Hlt (lit "c1") ltac:(by_eval)).
Defined.

Lemma announce_accepts_strangers_witness :
  dispatch (H := some_order) 5 5 demo_announce no_tracker =
    (OK_reply, locate (lit "c1") demo_entry no_tracker) ∧
  located (locate (lit "c1") demo_entry no_tracker) (lit "c1") demo_entry.
Proof.
  exact (announce_accepts_strangers (H := some_order) 5 5 demo_announce (lit "c1") demo_entry
    no_tracker eq_refl eq_refl).
Defined.

Lemma get_peers_forgets_holders_witness :
  let o := some_order in
  let now := 41000000000 in
  demo_entry ∈ where_entries now (lit "c1") (exec now now (Contact demo_entry) demo_tracker).2 ∧
  demo_entry ∉ where_entries now (lit "c1")
    (exec now now (Contact demo_entry) (exec 40000000000 40000000000 GetPeers demo_tracker).2).2.
Proof.
  refine (get_peers_forgets_holders (H := some_order) demo_tracker (lit "c1") demo_entry
    (mk_info 0) 40000000000 41000000000 _ _ _).
  - vm_compute. reflexivity.
  - vm_compute. reflexivity.
  - exists {[demo_entry]}. split; [vm_compute; reflexivity|set_solver].
Defined.
