(* ===== verification/TrackerClient.v ===== *)
(** * The tracker client

    Models [src/core/tracker/tracker_client.cpp]: one line is sent over a fresh
    connection, and the answer is read until the tracker closes. *)

From S2P Require Import Prelude.
From S2P Require Import CxxStd.
From S2P Require Import PeerEndpoint.
From S2P Require Import Tcp.
From S2P Require Import PeerClient.
From S2P Require Import Tracker.

(** [if (toSend.empty() || toSend.back() != '\n') toSend.push_back('\n')]. *)
Definition terminated (line : str) : str :=
  if bool_decide (line = []) || negb (bool_decide (last line = Some newline))
  then line ++ [newline] else line.

Definition requestLine_session (line : str) : M Conn str :=
  session (
    send_all_or_throw (terminated line) ;;
    resp ← recv_all_text;
    close_now ;;
    mret resp).

(** The endpoint of [ip:port], split at the first colon. *)
Definition split_endpoint (text : str) : result (option PeerEndpoint) :=
  match find_char ":" text with
  | None => Ok None
  | Some pos =>
      p ← stoi 10 (drop (S pos) text);
      Ok (Some (mk_endpoint (take pos text) p))
  end.

Definition keep {A} (x : option A) (l : list A) : list A :=
  match x with Some a => a :: l | None => l end.

(** The loop of [getPeers]: the first word of each line. *)
Fixpoint read_peers (lines : list str) : result (list PeerEndpoint) :=
  match lines with
  | [] => Ok []
  | line :: lines' =>
      let (ipPort, _) := get_word [] (istringstream line) in
      if bool_decide (line = []) || bool_decide (ipPort = []) then read_peers lines'
      else
        ep ← split_endpoint ipPort;
        out ← read_peers lines';
        Ok (keep ep out)
  end.

(** The loop of [whereChunk]: the whole line. *)
Fixpoint read_locations (lines : list str) : result (list PeerEndpoint) :=
  match lines with
  | [] => Ok []
  | l :: lines' =>
      if bool_decide (l = []) then read_locations lines'
      else
        ep ← split_endpoint l;
        out ← read_locations lines';
        Ok (keep ep out)
  end.

(** [while (iss >> cid >> count)]; each round consumes input. *)
Fixpoint read_rare (fuel : nat) (cid : str) (count : Z) (iss : istream) : list str :=
  match fuel with
  | O => []
  | S fuel' =>
      let (cid, iss) := get_word cid iss in
      let (count, iss) := get_int count iss in
      if in_fail iss then []
      else let out := read_rare fuel' cid count iss in
           if bool_decide (cid = []) then out else cid :: out
  end.

Definition getPeers_session : M Conn (list PeerEndpoint) :=
  resp ← requestLine_session (lit "GET_PEERS" ++ [newline]);
  liftR (read_peers (getlines newline resp)).

Definition whereChunk_session (chunk_id : str) : M Conn (list PeerEndpoint) :=
  resp ← requestLine_session (lit "WHERE " ++ chunk_id ++ [newline]);
  liftR (read_locations (getlines newline resp)).

(** [try { requestLine } catch (...) {}]. *)
Definition announceChunk_session (chunk_id peer_ip : str) (peer_port : Z) : M Conn unit := λ c,
  let line := lit "ANNOUNCE " ++ chunk_id ++ lit " " ++ peer_ip ++ lit " " ++
              to_string peer_port ++ [newline] in
  let (_, c) := requestLine_session line c in (Ok (), c).

Definition needRepair_session (desired limit : Z) : M Conn (list str) :=
  resp ← requestLine_session (lit "NEED_REPAIR " ++ to_string desired ++ lit " " ++
                              to_string limit ++ [newline]);
  mret (read_rare (S (length resp)) [] 0 (istringstream resp)).

Definition requestLine (net : Net) (ip_ : str) (port_ : Z) (line : str) : result str :=
  over net (mk_endpoint ip_ port_) (requestLine_session line).
Definition getPeers (net : Net) (ip_ : str) (port_ : Z) : result (list PeerEndpoint) :=
  over net (mk_endpoint ip_ port_) getPeers_session.
Definition whereChunk (net : Net) (ip_ : str) (port_ : Z) (chunk_id : str)
    : result (list PeerEndpoint) :=
  over net (mk_endpoint ip_ port_) (whereChunk_session chunk_id).
Definition announceChunk (net : Net) (ip_ : str) (port_ : Z) (chunk_id peer_ip : str)
    (peer_port : Z) : result unit :=
  match over net (mk_endpoint ip_ port_) (announceChunk_session chunk_id peer_ip peer_port) with
  | Ok _ => Ok ()
  | Throw _ => Ok ()
  end.
Definition needRepair (net : Net) (ip_ : str) (port_ : Z) (desired limit : Z)
    : result (list str) :=
  over net (mk_endpoint ip_ port_) (needRepair_session desired limit).

(** ** What the tracker answers *)

Lemma requestLine_spec line c :
  sends c = [] → conn_end c = PeerClosed →
  ∃ c', requestLine_session line c = (Ok (stream c), c') ∧
        sent c' = sent c ++ terminated line ∧ closes c' = S (closes c).
Proof.
  intros Hc He. unfold requestLine_session, session, close_now. m_unfold.
  rewrite send_all_or_throw_clean by done. rewrite recv_all_text_spec.
  cbn [conn_end set_sent]. rewrite He. eexists. split; [done|]. done.
Qed.

Lemma terminated_line l : terminated (l ++ [newline]) = l ++ [newline].
Proof.
  unfold terminated. rewrite last_snoc. rewrite bool_decide_eq_false_2; [done|].
  by destruct l.
Qed.

Section talk_tracker.
Context `{IterOrder}.

(** A session against a tracker, over a network that cuts both directions into
    segments of its choice. *)
Definition talk_tracker {A} (now later : Z) (seg seg' : str → list str) (body : M Conn A)
    (t : Tracker) : result A * Tracker :=
  let (c, t) := serve now later (fresh (seg (requested body))) t in
  ((body (fresh (seg' (sent c)))).1, t).

Lemma serve_line now later l c t :
  stream c = l ++ [newline] → sends c = [] → plain l → zlen l ≤ 8192 →
  ∃ c', serve now later c t = (c', (dispatch now later l t).2) ∧
        sent c' = sent c ++ (dispatch now later l t).1.
Proof.
  intros Hs Hc Hl Hz. unfold serve.
  destruct (recv_line_plain c l [] Hs Hl Hz) as (c1 & -> & _ & Ec). cbn [negb].
  destruct (dispatch now later l t) as [out t']. eexists. split; [done|].
  rewrite send_all_clean by (by rewrite Ec). cbn [snd close sent set_sent]. by rewrite Ec.
Qed.

(** A request of one line reaches the tracker, and its answer the client. *)
Lemma talk_request now later seg seg' l {A} (k : str → result A) t :
  segments_of seg → segments_of seg' → plain l → zlen l ≤ 8192 →
  talk_tracker now later seg seg'
    (resp ← requestLine_session (l ++ [newline]); liftR (k resp)) t =
  (k (dispatch now later l t).1, (dispatch now later l t).2).
Proof.
  intros H1 H2 Hl Hz. unfold talk_tracker.
  assert (requested (resp ← requestLine_session (l ++ [newline]); liftR (k resp)) =
          l ++ [newline]) as ->.
  { unfold requested. m_unfold.
    destruct (requestLine_spec (l ++ [newline]) (fresh [])) as (c' & -> & Es & _); [done|done|].
    cbn [snd]. by rewrite Es, terminated_line. }
  destruct (serve_line now later l (fresh (seg (l ++ [newline]))) t) as (c & -> & Es);
    [by unfold stream; cbn; rewrite H1|done|done|done|].
  cbn [sent fresh app] in Es. rewrite Es. m_unfold.
  destruct (requestLine_spec (l ++ [newline]) (fresh (seg' (dispatch now later l t).1)))
    as (c' & -> & _); [done|done|].
  unfold stream. cbn [segments fresh fst]. by rewrite H2.
Qed.
End talk_tracker.

(** ** Reading the answers *)

Definition colon_free (s : str) : Prop := Forall (λ x, Ascii.eqb x ":" = false) s.

(** Endpoints whose text is one word with one colon. *)
Definition endpoint_ok (p : PeerEndpoint) : Prop :=
  is_word (ip p) ∧ colon_free (ip p) ∧ 0 < port p ≤ 65535.

#[export] Instance endpoint_ok_dec p : Decision (endpoint_ok p).
Proof. unfold endpoint_ok, colon_free. apply _. Defined.

Lemma endpoint_text_word p : endpoint_ok p → is_word (endpoint_text p).
Proof.
  intros (Hi & _ & Hp). unfold endpoint_text. destruct Hi as [Hne Hi]. split.
  - by destruct (ip p).
  - apply Forall_app. split; [done|]. constructor; [done|]. apply to_string_word. lia.
Qed.

Lemma split_endpoint_text p : endpoint_ok p → split_endpoint (endpoint_text p) = Ok (Some p).
Proof.
  intros (_ & Hc & Hp). unfold split_endpoint, endpoint_text.
  rewrite find_char_first by done. rewrite take_app_length.
  replace (drop (S (length (ip p))) (ip p ++ ":"%char :: to_string (port p)))
    with (to_string (port p) ++ []).
  - rewrite stoi_to_string; [by destruct p|unfold INT_MIN, INT_MAX; lia|apply no_digit_nil].
  - rewrite app_nil_r. rewrite drop_app_ge by lia.
    by replace (S (length (ip p)) - length (ip p))%nat with 1%nat by lia.
Qed.

Lemma endpoint_text_inj p q :
  endpoint_ok p → endpoint_ok q → endpoint_text p = endpoint_text q → p = q.
Proof.
  intros Hp Hq E. pose proof (split_endpoint_text p Hp) as E1. rewrite E in E1.
  rewrite split_endpoint_text in E1 by done. congruence.
Qed.

Lemma read_peers_entries ps :
  Forall endpoint_ok ps → read_peers (map endpoint_text ps) = Ok ps.
Proof.
  induction 1 as [|p ps Hp _ IH]; [done|]. cbn [map read_peers].
  pose proof (endpoint_text_word p Hp) as Hw.
  pose proof (get_word_first [] _ [] Hw word_end_nil) as E. rewrite app_nil_r in E. rewrite E.
  destruct Hw as [Hne _]. rewrite !bool_decide_eq_false_2 by done. cbn [orb].
  rewrite split_endpoint_text by done. m_unfold. by rewrite IH.
Qed.

Lemma read_locations_entries ps :
  Forall endpoint_ok ps → read_locations (map endpoint_text ps) = Ok ps.
Proof.
  induction 1 as [|p ps Hp _ IH]; [done|]. cbn [map read_locations].
  destruct (endpoint_text_word p Hp) as [Hne _]. rewrite !bool_decide_eq_false_2 by done.
  rewrite split_endpoint_text by done. m_unfold. by rewrite IH.
Qed.

Lemma word_no_newline w : is_word w → Forall (λ c, negb (Ascii.eqb c newline) = true) w.
Proof.
  intros [_ Hw]. eapply Forall_impl; [exact Hw|]. intros c Hc. cbn in Hc.
  by destruct (Ascii.eqb_spec c newline) as [->|].
Qed.

Lemma getlines_entries fuel l :
  Forall is_word l → (length (entry_lines l) ≤ fuel)%nat →
  getlines_fuel fuel newline (entry_lines l) = l.
Proof.
  intros Hl. revert fuel. induction Hl as [|w l Hw Hl IH]; intros fuel Hf.
  { by destruct fuel. }
  unfold entry_lines in *. cbn [flat_map] in *. rewrite <- app_assoc in *. cbn [app] in *.
  rewrite length_app in Hf. cbn [length] in Hf. destruct fuel as [|fuel]; [lia|].
  cbn [getlines_fuel]. rewrite getline_delim by (by apply word_no_newline). f_equal. apply IH. lia.
Qed.

(** What the two loops read from an answer that lists endpoints. *)
Lemma read_answer ps :
  Forall endpoint_ok ps →
  read_peers (getlines newline (or_blank (entry_lines (map endpoint_text ps)))) = Ok ps ∧
  read_locations (getlines newline (or_blank (entry_lines (map endpoint_text ps)))) = Ok ps.
Proof.
  intros Hps. destruct ps as [|p ps]; [split; vm_compute; reflexivity|].
  unfold or_blank. rewrite bool_decide_eq_false_2; cycle 1.
  { unfold entry_lines. cbn. by destruct (endpoint_text p). }
  unfold getlines. rewrite getlines_entries; [|apply Forall_map|done].
  - split; [by apply read_peers_entries|by apply read_locations_entries].
  - eapply Forall_impl; [exact Hps|]. apply endpoint_text_word.
Qed.

(** The endpoints whose texts are listed. *)
Lemma entries_endpoints l :
  (∀ e, e ∈ l → ∃ p, endpoint_ok p ∧ e = endpoint_text p) →
  ∃ ps, Forall endpoint_ok ps ∧ l = map endpoint_text ps.
Proof.
  induction l as [|e l IH]; intros Hl; [by exists []|].
  destruct (Hl e) as (p & Hp & ->); [by left|].
  destruct IH as (ps & Hps & ->); [intros; apply Hl; by right|]. by exists (p :: ps); split; [constructor|].
Qed.

Lemma elem_of_endpoints ps p :
  Forall endpoint_ok ps → endpoint_ok p → p ∈ ps ↔ endpoint_text p ∈ map endpoint_text ps.
Proof.
  intros Hps Hp. split.
  - intros Hin. apply list_elem_of_fmap. by exists p.
  - intros (q & E & Hq)%list_elem_of_fmap. rewrite Forall_forall in Hps.
    by rewrite (endpoint_text_inj p q Hp (Hps q Hq) E).
Qed.

Lemma read_peers_throws l e x :
  Forall is_word l → e ∈ l → split_endpoint e = Throw x → ∃ y, read_peers l = Throw y.
Proof.
  intros Hl He Hx. induction Hl as [|w l Hw _ IH]; [by apply elem_of_nil in He|].
  cbn [read_peers]. pose proof (get_word_first [] _ [] Hw word_end_nil) as E.
  rewrite app_nil_r in E. rewrite E. destruct Hw as [Hne _].
  rewrite !bool_decide_eq_false_2 by done. cbn [orb]. m_unfold.
  apply elem_of_cons in He as [<-|He]; [by rewrite Hx; eexists|].
  destruct (IH He) as [y ->]. destruct (split_endpoint w); by eexists.
Qed.

Lemma understand_where c : is_word c → understand (lit "WHERE " ++ c) = Some (Where c).
Proof.
  intros Hc. unfold understand. change (lit "WHERE " ++ c) with (lit "WHERE" ++ space :: c).
  rewrite get_word_first by (by_eval || by apply word_end_cons).
  rewrite !(bool_decide_eq_false_2 (lit "WHERE" = _)) by by_eval. cbn [orb].
  rewrite bool_decide_eq_true_2 by done.
  pose proof (get_word_next [] c [] Hc word_end_nil) as E. rewrite app_nil_r in E. rewrite E.
  destruct Hc as [Hne _]. by rewrite bool_decide_eq_false_2.
Qed.

Lemma get_int_text old b z k :
  blank b → 0 ≤ z ≤ INT_MAX → no_digit 10 k →
  get_int old (mk_istream (b ++ to_string z ++ k) false) = (z, mk_istream k false).
Proof. intros. by apply get_int_gen_to_string. Qed.

Lemma understand_repair desired limit :
  0 < desired ≤ INT_MAX → 0 < limit ≤ INT_MAX →
  understand (lit "NEED_REPAIR " ++ to_string desired ++ lit " " ++ to_string limit) =
  Some (NeedRepair desired limit).
Proof.
  intros Hd Hl. unfold understand.
  change (lit "NEED_REPAIR " ++ to_string desired ++ lit " " ++ to_string limit)
    with (lit "NEED_REPAIR" ++ [space] ++ to_string desired ++ space :: to_string limit).
  rewrite get_word_first by (by_eval || by apply word_end_cons).
  rewrite !(bool_decide_eq_false_2 (lit "NEED_REPAIR" = _)) by by_eval. cbn [orb].
  rewrite bool_decide_eq_true_2 by done.
  rewrite get_int_text by (auto with dss || lia || by apply space_no_digit).
  pose proof (get_int_text 0 [space] limit [] ltac:(auto with dss) ltac:(lia) (no_digit_nil 10)) as E.
  rewrite app_nil_r in E. change (space :: to_string limit) with ([space] ++ to_string limit).
  rewrite E. destruct (Z.leb_spec desired 0), (Z.leb_spec limit 0); (lia || done).
Qed.

(** The loop of [needRepair] reads the names of a list of chunks. *)
Lemma read_rare_lines b l fuel cid count :
  blank b → Forall (λ cn, is_word cn.1 ∧ 0 ≤ cn.2 ≤ INT_MAX) l → (length l < fuel)%nat →
  read_rare fuel cid count (mk_istream (b ++ report_lines l) false) = l.*1.
Proof.
  intros Hb Hl. revert b fuel cid count Hb.
  induction Hl as [|[c n] l [Hw Hn] Hl IH]; intros b [|fuel] cid count Hb Hf;
    cbn [length] in Hf; try lia; cbn [read_rare].
  - cbn [report_lines flat_map]. rewrite app_nil_r, get_word_eof by done. done.
  - cbn [fst snd] in *.
    assert (b ++ report_lines ((c, n) :: l) =
            b ++ c ++ [space] ++ to_string n ++ newline :: report_lines l) as ->.
    { unfold report_lines. cbn [flat_map fst snd]. by rewrite <- !app_assoc. }
    rewrite get_word_word by (done || by apply word_end_cons).
    rewrite get_int_text by (auto with dss || lia || by apply space_no_digit).
    cbn [in_fail]. change (newline :: report_lines l) with ([newline] ++ report_lines l).
    rewrite IH by (auto with dss || lia).
    rewrite bool_decide_eq_false_2 by apply Hw. done.
Qed.

Lemma read_rare_answer l :
  Forall (λ cn, is_word cn.1 ∧ 0 ≤ cn.2 ≤ INT_MAX) l →
  let resp := or_blank (report_lines l) in
  read_rare (S (length resp)) [] 0 (istringstream resp) = l.*1.
Proof.
  intros Hl. cbn zeta. unfold or_blank. case_bool_decide as E.
  - destruct l as [|cn l]; [by vm_compute|]. unfold report_lines in E. cbn [flat_map] in E.
    rewrite <- !app_assoc in E. by destruct (cn.1).
  - apply (read_rare_lines []); [constructor|done|].
    clear. induction l as [|cn l IH]; [cbn; lia|]. unfold report_lines in *. cbn [flat_map length].
    rewrite !length_app. cbn [length] in *. lia.
Qed.

(** Announced chunks have names that are words. *)
Lemma understood_word line c e : understand line = Some (Announce c e) → is_word c.
Proof.
  unfold understand. destruct (get_word [] (istringstream line)) as [cmd iss].
  repeat case_bool_decide; cbn [orb]; try done; try (by destruct (read_peer iss)).
  - destruct (get_word [] iss) as [c' iss0] eqn:Ec. case_bool_decide as Hc; [done|].
    destruct (read_peer iss0) as [e'|]; [|done]. intros [= <- _].
    destruct (in_fail iss0) eqn:Hf.
    + destruct Hc. revert Ec. unfold get_word. destruct (in_fail iss); [by intros [= <- _]|].
      destruct (drop_while is_space (in_rest iss)); [by intros [= <- _]|].
      destruct (span not_space _) as [w k]. intros [= _ <-]. done.
    + by apply get_word_ok in Ec as [? _].
  - destruct (get_word [] iss) as [c' iss0]. by case_bool_decide.
  - by destruct (get_int 0 iss) as [d iss1], (get_int 0 iss1) as [l iss2].
Qed.

Lemma announced_word `{IterOrder} h t T c e : tracked h t T → announced h c e → is_word c.
Proof.
  induction 1 as [T|h t T now later line _ IH _ _]; intros Ha; [by apply Exists_nil in Ha|].
  apply Exists_cons in Ha as [Ha|Ha]; [by apply understood_word in Ha|by apply IH].
Qed.

(** ** Theorems *)

Section calls.
Context `{IterOrder}.

(** Every address that was ever in contact with the tracker is an endpoint, [host:port]
    with a host without a colon. *)
Definition known_endpoints (h : list Round) : Prop :=
  ∀ e s, last_contact h e = Some s → ∃ p, endpoint_ok p ∧ e = endpoint_text p.

(** C32. As long as every address that was in contact with the tracker is an endpoint,
    [host:port] with a host without a colon, a client's [getPeers] returns exactly the
    endpoints that were in contact with it in the last 30 seconds, each once, however
    the network cuts the messages.  (With any other address it throws, see
    [colon_address_breaks_clients].) *)
Theorem get_peers_call h t T now later seg seg'
    (Ht : tracked h t T) (Hnow : T ≤ now ≤ later) (Hknown : known_endpoints h)
    (Hs1 : segments_of seg) (Hs2 : segments_of seg') :
  ∃ ps t', talk_tracker now later seg seg' getPeers_session t = (Ok ps, t') ∧ NoDup ps ∧
    ∀ p, endpoint_ok p →
      p ∈ ps ↔ ∃ s, last_contact h (endpoint_text p) = Some s ∧ later - s ≤ TTL.
Proof.
  unfold getPeers_session.
  rewrite talk_request by (done || by_eval).
  rewrite (dispatch_command now later (lit "GET_PEERS") t GetPeers) by done. cbn [exec].
  rewrite get_peers_answer by lia.
  set (l := (iterate _).*1).
  assert (∀ e, e ∈ l ↔ ∃ s, last_contact h e = Some s ∧ later - s ≤ TTL) as Hl
    by (intros e; apply (pruned_peers h t T); [done|lia]).
  destruct (entries_endpoints l) as (ps & Hps & E).
  { intros e (s & Hs & _)%Hl. by apply (Hknown e s). }
  rewrite E. exists ps. rewrite (proj1 (read_answer ps Hps)). eexists. split; [done|].
  split; [apply (NoDup_fmap_1 endpoint_text); change (NoDup (map endpoint_text ps));
          rewrite <- E; apply NoDup_iterate|].
  intros p Hp. rewrite elem_of_endpoints, <- E by done. apply Hl.
Qed.

(** A client's [whereChunk] returns endpoints that announced the chunk and
    were heard of in the last 30 seconds, and all of those that were never silent
    for longer. *)
Theorem where_call h t T now later seg seg' c
    (Ht : tracked h t T) (Hnow : T ≤ now) (Hknown : known_endpoints h)
    (Hc : is_word c) (Hlen : zlen c ≤ 8000) (Hs1 : segments_of seg) (Hs2 : segments_of seg') :
  ∃ ps, talk_tracker now later seg seg' (whereChunk_session c) t = (Ok ps, t) ∧ NoDup ps ∧
    ∀ p, endpoint_ok p →
      (p ∈ ps → announced h c (endpoint_text p) ∧
         ∃ s, last_contact h (endpoint_text p) = Some s ∧ now - s ≤ TTL) ∧
      (∀ s, announced h c (endpoint_text p) → steady h (endpoint_text p) →
         last_contact h (endpoint_text p) = Some s → now - s ≤ TTL → p ∈ ps).
Proof.
  pose proof (tracked_inv h t T Ht) as [Hp _ Hg Hl Hst].
  unfold whereChunk_session. rewrite app_assoc.
  rewrite talk_request; [|done|done|apply plain_app; [by_eval|by apply plain_word]|].
  2: { rewrite zlen_app. change (zlen (lit "WHERE ")) with 6. lia. }
  rewrite (dispatch_command now later _ t (Where c)) by (by apply understand_where).
  cbn [exec fst snd]. rewrite where_text_entries.
  destruct (entries_endpoints (where_entries now c t)) as (ps & Hps & E).
  { intros e [_ (i & Hi & _)%alive_spec]%elem_of_where. by apply (Hknown e (last_seen i)), Hp. }
  rewrite E, (proj2 (read_answer ps Hps)). exists ps. split; [done|].
  split; [apply (NoDup_fmap_1 endpoint_text); change (NoDup (map endpoint_text ps));
          rewrite <- E; apply NoDup_filter, NoDup_iterate_set|].
  intros p Hok. pose proof (elem_of_endpoints ps p Hps Hok) as Hin.
  rewrite <- E, elem_of_where, alive_spec in Hin. split.
  - intros [Hloc (i & Hi & Hb)]%Hin. split; [by apply Hl|]. exists (last_seen i). auto.
  - intros s Ha Hse Hs Hb. apply Hin. split; [by apply Hst|].
    destruct (peers t !! endpoint_text p) as [i|] eqn:Hi; [|specialize (Hg _ s Hs Hi); lia].
    exists i. split; [done|]. rewrite (Hp _ _ Hi) in Hs. by injection Hs as ->.
Qed.

(** C33. A client's [needRepair] returns chunks, each once and at most [limit], whose
    number of live holders is positive and below [desired], and all of these when the
    limit is not reached, after any history of the tracker and however the network
    cuts the messages. *)
Theorem repair_call h t T now later seg seg' desired limit
    (Ht : tracked h t T) (Hd : 0 < desired ≤ INT_MAX) (Hl : 0 < limit ≤ INT_MAX)
    (Hs1 : segments_of seg) (Hs2 : segments_of seg') :
  let live c := Z.of_nat (size (holders t later c)) in
  ∃ ids t', talk_tracker now later seg seg' (needRepair_session desired limit) t = (Ok ids, t') ∧
    NoDup ids ∧ zlen ids ≤ limit ∧ (∀ c, c ∈ ids → 0 < live c < desired) ∧
    (zlen ids < limit → ∀ c, 0 < live c < desired → c ∈ ids).
Proof.
  cbn zeta. pose proof (understand_repair desired limit Hd Hl) as Hline.
  destruct (need_repair_lists_rare_chunks now later _ desired limit t Hline)
    as (l & E & Hnd & Hlen & Hin & Hall).
  assert (Forall (λ cn, is_word cn.1 ∧ 0 ≤ cn.2 ≤ INT_MAX) l) as Hok.
  { apply Forall_forall. intros [c n] Hc. destruct (Hin c n Hc) as [En Hn]. cbn [fst snd].
    split; [|lia]. destruct (size_pos_elem_of (holders t later c)) as [e He]; [lia|].
    unfold holders in He. apply elem_of_filter in He as [_ He].
    apply (announced_word h t T c e Ht), (inv_located h t T (tracked_inv h t T Ht)).
    destruct (chunk_index t !! c) as [locs|] eqn:Hi; [by exists locs|by apply elem_of_empty in He]. }
  exists l.*1. eexists. split; [|split; [done|]].
  - unfold needRepair_session.
    change (λ resp, mret (read_rare (S (length resp)) [] 0 (istringstream resp)))
      with (λ resp, liftR (S := Conn) (Ok (read_rare (S (length resp)) [] 0 (istringstream resp)))).
    rewrite !app_assoc. rewrite talk_request; [|done|done| |].
    + rewrite <- !app_assoc, E. f_equal. f_equal. by apply read_rare_answer.
    + repeat apply plain_app; try by_eval; apply plain_to_string; lia.
    + rewrite !zlen_app. change (zlen (lit "NEED_REPAIR ")) with 12. change (zlen (lit " ")) with 1.
      unfold INT_MAX in *. pose proof (to_string_length desired ltac:(lia)).
      pose proof (to_string_length limit ltac:(lia)). lia.
  - unfold zlen. rewrite length_fmap. change (Z.of_nat (length l)) with (zlen l).
    split; [done|]. split.
    + intros c ([c' n] & -> & Hc)%list_elem_of_fmap. destruct (Hin c' n Hc) as [-> Hn]. done.
    + intros Hlt c Hc. apply list_elem_of_fmap. eexists. split; [|by apply Hall]. done.
Qed.

(** The tracker accepts any word as the address of a peer, and the client
    splits an entry at its first colon: one live peer whose address has a colon
    before something that is no number makes every [getPeers] throw. *)
Theorem colon_address_breaks_clients h t T now later seg seg' e s a b x
    (Ht : tracked h t T) (Hnow : T ≤ now ≤ later)
    (Hwords : ∀ e s, last_contact h e = Some s → is_word e)
    (Hs1 : segments_of seg) (Hs2 : segments_of seg')
    (Hlive : last_contact h e = Some s) (Hrecent : later - s ≤ TTL)
    (He : e = a ++ ":"%char :: b) (Ha : colon_free a) (Hb : stoi 10 b = Throw x) :
  ∃ y, (talk_tracker now later seg seg' getPeers_session t).1 = Throw y.
Proof.
  unfold getPeers_session. rewrite talk_request by (done || by_eval).
  rewrite (dispatch_command now later (lit "GET_PEERS") t GetPeers) by done. cbn [exec].
  rewrite get_peers_answer by lia. cbn [fst].
  set (l := (iterate _).*1).
  assert (∀ e, e ∈ l ↔ ∃ s, last_contact h e = Some s ∧ later - s ≤ TTL) as Hl
    by (intros; apply (pruned_peers h t T); [done|lia]).
  assert (e ∈ l) as Hin by (apply Hl; by exists s).
  assert (Forall is_word l) as Hw.
  { apply Forall_forall. intros e' (s' & Hs' & _)%Hl. by apply (Hwords e' s'). }
  assert (getlines newline (or_blank (entry_lines l)) = l) as ->.
  { destruct l as [|w l']; [by apply elem_of_nil in Hin|].
    unfold or_blank. rewrite bool_decide_eq_false_2 by (unfold entry_lines; cbn; by destruct w).
    by apply getlines_entries. }
  apply (read_peers_throws l e x); [done|done|]. subst e. unfold split_endpoint.
  rewrite find_char_first by done.
  assert (drop (S (length a)) (a ++ ":"%char :: b) = b) as ->; [|by rewrite Hb].
  rewrite drop_app_ge by lia. by replace (S (length a) - length a)%nat with 1%nat by lia.
Qed.
End calls.

(** ** Witnesses *)

Definition demo_endpoint : PeerEndpoint := mk_endpoint (lit "10.0.0.1") 9000.

Lemma demo_known : known_endpoints demo_history.
Proof.
  intros e s. cbn. case_bool_decide as E; [done|]. case_bool_decide as E'; [|done].
  intros _. exists demo_endpoint. split; [by_eval|]. injection E' as <-. by_eval.
Qed.

(** Cuts a message into single bytes. *)
Definition bytewise (t : str) : list str := map (λ c, [c]) t.

Lemma bytewise_ok : segments_of bytewise.
Proof. intros t. unfold bytewise. induction t as [|c t IH]; [done|]. cbn. by rewrite IH. Qed.

Lemma get_peers_call_witness :
  ∃ ps t', talk_tracker (H := some_order) 2000000000 2000000000 bytewise bytewise getPeers_session
             demo_tracker = (Ok ps, t') ∧ demo_endpoint ∈ ps.
Proof.
  destruct (get_peers_call (H := some_order) demo_history demo_tracker 1000000000 2000000000
    2000000000 bytewise bytewise demo_tracked ltac:(lia) demo_known bytewise_ok bytewise_ok)
    as (ps & t' & E & _ & Hps).
  exists ps, t'. split; [exact E|]. apply (Hps demo_endpoint ltac:(by_eval)).
  exists 0. split; [by vm_compute|]. vm_compute. discriminate.
Defined.

Lemma repair_call_witness :
  ∃ ids t', talk_tracker (H := some_order) 2000000000 2000000000 bytewise bytewise
              (needRepair_session 2 9) demo_tracker = (Ok ids, t') ∧ zlen ids ≤ 9 ∧
            (zlen ids < 9 → lit "c1" ∈ ids).
Proof.
  destruct (repair_call (H := some_order) demo_history demo_tracker 1000000000 2000000000
    2000000000 bytewise bytewise 2 9 demo_tracked ltac:(unfold INT_MAX; lia)
    ltac:(unfold INT_MAX; lia) bytewise_ok bytewise_ok) as (ids & t' & E & _ & Hlen & _ & Hall).
  exists ids, t'. split; [exact E|]. split; [exact Hlen|]. intros Hlt.
  exact (Hall Hlt (lit "c1") ltac:(by_eval)).
Defined.

Lemma where_call_witness :
  ∃ ps, talk_tracker (H := some_order) 2000000000 2000000000 bytewise bytewise
          (whereChunk_session (lit "c1")) demo_tracker = (Ok ps, demo_tracker) ∧
        demo_endpoint ∈ ps.
Proof.
  destruct (where_call (H := some_order) demo_history demo_tracker 1000000000 2000000000
    2000000000 bytewise bytewise (lit "c1") demo_tracked ltac:(lia) demo_known ltac:(by_eval)
    ltac:(by_eval) bytewise_ok bytewise_ok) as (ps & E & _ & Hps).
  exists ps. split; [exact E|].
  apply (proj2 (Hps demo_endpoint ltac:(by_eval)) 0).
  - by left.
  - split; [split; [done|]|].
    + intros s Hs. vm_compute in Hs. discriminate Hs.
    + intros s Hs. vm_compute in Hs. injection Hs as <-. vm_compute. discriminate.
  - by vm_compute.
  - vm_compute. discriminate.
Defined.

(** A tracker on which a peer registered with an IPv6 address. *)
Definition ipv6_entry : str := lit "fe80::1:9000".

Definition ipv6_history : list Round := [mk_round 0 0 (Some (Contact ipv6_entry))].

Definition ipv6_tracker : Tracker :=
  (dispatch (H := some_order) 0 0 (lit "REGISTER fe80::1 9000") no_tracker).2.

Lemma colon_address_breaks_clients_witness :
  ∃ y, (talk_tracker (H := some_order) 5 5 bytewise bytewise getPeers_session ipv6_tracker).1 =
       Throw y.
Proof.
  refine (colon_address_breaks_clients (H := some_order) ipv6_history ipv6_tracker 0 5 5 bytewise
    bytewise ipv6_entry 0 (lit "fe80") (lit ":1:9000") (InvalidArgument (lit "stoi")) _ _ _
    bytewise_ok bytewise_ok _ _ _ _ _).
  - apply (tracked_line (H := some_order) [] no_tracker 0 0 0 (lit "REGISTER fe80::1 9000"));
      [apply tracked_start|lia|lia].
  - lia.
  - intros e s. cbn. case_bool_decide as E; [|done]. injection E as <-. intros _. by_eval.
  - by vm_compute.
  - vm_compute. discriminate.
  - by vm_compute.
  - unfold colon_free. by_eval.
  - by vm_compute.
Defined.
