(* ===== verification/Cli.v ===== *)
(** * The command line client

    Models [src/client/main.cpp]: the arguments, the configuration they describe,
    the call of the client and the exit code.  The progress lines are what
    [DssClient] reports; the other lines that are printed are returned. *)

From S2P Require Import Prelude.
From S2P Require Import CxxStd.
From S2P Require Import Hex.
From S2P Require Import PeerEndpoint.
From S2P Require Import DhtNode.
From S2P Require Import FileSystem.
From S2P Require Import Hybrid.
From S2P Require Import DssClient.
From S2P Require Import DssClientProps.

(** [argv[n]], and how many there are. *)
Definition arg (argv : list str) (n : nat) : str := nth n argv [].

(** The loop over the items of the peer list. *)
Fixpoint parse_items (items : list str) : result (list PeerEndpoint) :=
  match items with
  | [] => Ok []
  | item :: items' =>
      if bool_decide (item = []) then parse_items items'
      else
        p ← parse_peer_entry item;
        ps ← parse_items items';
        Ok (p :: ps)
  end.

Definition parse_peers (peersArg : str) : result (list PeerEndpoint) :=
  ps ← parse_items (getlines "," peersArg);
  if bool_decide (ps = []) then Throw (RuntimeError (lit "No valid peers provided")) else Ok ps.

Definition one_mebibyte : Z := 1024 * 1024.

Definition put_config (manifestDir : option str) (argv : list str) : result ClientConfig :=
  ps ← parse_peers (arg argv 2);
  chunkSize ← (if 5 <=? zlen argv then stoul (arg argv 4) else Ok one_mebibyte);
  replicas ← (if 6 <=? zlen argv then stoi 10 (arg argv 5) else Ok 2);
  Ok (mk_config ps chunkSize replicas (if 7 <=? zlen argv then arg argv 6 else []) []
        (default [] manifestDir)).

Definition get_config (argv : list str) : result ClientConfig :=
  ps ← parse_peers (arg argv 2);
  Ok (mk_config ps one_mebibyte 2 [] (if 6 <=? zlen argv then arg argv 5 else []) []).

Definition usage (prog : str) : list str :=
  [lit "Usage:";
   lit "  " ++ prog ++
     lit " put <peers> <file_path> [chunk_size_bytes] [replicas] [rsa_public_key_pem]";
   lit "  " ++ prog ++
     lit " get <peers> <share_id_or_manifest_path> <output_file> [rsa_private_key_pem]";
   lit "  " ++ prog ++ lit " repair (not supported without tracker)";
   [];
   lit "Environment:";
   lit "  DECENT_STORE_MANIFEST_DIR  Directory for local *.manifest.txt after put (default: ./manifests)."].

Section cli.
Context {W : Type} {HP : PeerApi W} {HS : Sha256} {HA : AesGcm} {HR : Rsa}.

Definition run_put (env : Env) (cwd : str) (rand : option (list Z * list Z))
    (manifestDir : option str) (argv : list str) : M (World W) (Z * list str) :=
  if zlen argv <? 4 then mret (1, usage (arg argv 0))
  else
    cfg ← liftR (put_config manifestDir argv);
    res ← putFile env cwd rand cfg (arg argv 3) true;
    mret (0, [lit "DONE. Share ID: " ++ shareUri res;
              lit "Local manifest: " ++ localManifestPath res]).

Definition run_get (env : Env) (argv : list str) : M (World W) (Z * list str) :=
  if zlen argv <? 5 then mret (1, usage (arg argv 0))
  else
    cfg ← liftR (get_config argv);
    getFile env cfg (arg argv 3) (arg argv 4) true ;;
    mret (0, [lit "Download complete: " ++ arg argv 4]).

(** [try { body } catch (const std::exception& e) { ... return 1; }]. *)
Definition or_error (body : M (World W) (Z * list str)) : M (World W) (Z * list str) := λ w,
  match body w with
  | (Ok r, w) => (Ok r, w)
  | (Throw e, w) => (Ok (1, [lit "Error: " ++ what e]), w)
  end.

(** The exit code and the lines printed. *)
Definition main (env : Env) (cwd : str) (rand : option (list Z * list Z))
    (manifestDir : option str) (argv : list str) : M (World W) (Z * list str) :=
  if zlen argv <? 2 then mret (1, usage (arg argv 0))
  else
    or_error (
      if bool_decide (arg argv 1 = lit "put") then run_put env cwd rand manifestDir argv
      else if bool_decide (arg argv 1 = lit "get") then run_get env argv
      else if bool_decide (arg argv 1 = lit "repair") then
        mret (0, [lit "Repair is not supported in DHT mode (no tracker)."])
      else mret (1, usage (arg argv 0))).
End cli.

(** ** Peer lists *)

Definition no_comma (s : str) : Prop := Forall (λ c, negb (Ascii.eqb c ",") = true) s.

(** An endpoint whose text can be an item of a list. *)
Definition listed_ok (ep : PeerEndpoint) : Prop :=
  endpoint_ok ep ∧ has_tcp_prefix (endpoint_text ep) = false ∧ no_comma (ip ep).

(** The texts with a comma between each two. *)
Fixpoint with_commas (l : list str) : str :=
  match l with
  | [] => []
  | [s] => s
  | s :: l' => s ++ ","%char :: with_commas l'
  end.

(** A text that can be an item of a list. *)
Definition list_item (s : str) : Prop := s ≠ [] ∧ no_comma s.

(** [ip:port,ip:port,...]. *)
Definition peers_text (ps : list PeerEndpoint) : str := with_commas (map endpoint_text ps).

Lemma digit_no_comma d : 0 ≤ d < 10 → negb (Ascii.eqb (digit_char d) ",") = true.
Proof.
  intros Hd. assert (digit_val (digit_char d) = Some d) as E
    by (apply (digit_char_spec d _ ltac:(lia) eq_refl)).
  destruct (Ascii.eqb_spec (digit_char d) ",") as [Hc|]; [|done].
  rewrite Hc in E. vm_compute in E. discriminate E.
Qed.

Lemma endpoint_text_no_comma p : no_comma (ip p) → no_comma (endpoint_text p).
Proof.
  intros Hp. apply Forall_app. split; [done|]. constructor; [done|].
  apply to_string_forall; [done|apply digit_no_comma].
Qed.

Lemma endpoint_text_nonempty p : endpoint_text p ≠ [].
Proof. unfold endpoint_text. by destruct (ip p). Qed.

Lemma getlines_commas l : Forall list_item l → getlines "," (with_commas l) = l.
Proof.
  intros Hl. unfold getlines.
  assert (∀ fuel, (length (with_commas l) ≤ fuel)%nat →
    getlines_fuel fuel "," (with_commas l) = l) as H; [|by apply H].
  induction Hl as [|s l [Hne Hs] Hl IH]; intros fuel Hf; [by destruct fuel|].
  destruct l as [|t l]; cbn [with_commas] in *.
  - destruct fuel as [|fuel]; [destruct Hne; apply nil_length_inv; lia|].
    cbn [getlines_fuel]. rewrite getline_last by done. by destruct fuel.
  - rewrite length_app in Hf. cbn [length] in Hf. destruct fuel as [|fuel]; [lia|].
    cbn [getlines_fuel]. rewrite getline_delim by done. f_equal. apply IH. lia.
Qed.

Lemma listed_item p : listed_ok p → list_item (endpoint_text p).
Proof.
  intros (_ & _ & Hp). split; [apply endpoint_text_nonempty|by apply endpoint_text_no_comma].
Qed.

Lemma getlines_peers ps :
  Forall listed_ok ps → getlines "," (peers_text ps) = map endpoint_text ps.
Proof.
  intros Hps. apply getlines_commas, Forall_map. eapply Forall_impl; [exact Hps|apply listed_item].
Qed.

(** A list of endpoints is read back from its text. *)
Lemma parse_peers_text ps :
  Forall listed_ok ps → ps ≠ [] → parse_peers (peers_text ps) = Ok ps.
Proof.
  intros Hps Hne. unfold parse_peers. rewrite getlines_peers by done.
  assert (parse_items (map endpoint_text ps) = Ok ps) as ->.
  { clear Hne. induction Hps as [|p ps (Hp & Hs & _) _ IH]; [done|]. cbn [map parse_items].
    rewrite bool_decide_eq_false_2 by apply endpoint_text_nonempty.
    rewrite parse_endpoint_text by done. m_unfold. by rewrite IH. }
  m_unfold. by rewrite bool_decide_eq_false_2.
Qed.

Section cli_props.
Context {W : Type} {HP : PeerApi W} {HL : PeerLaws W} {HS : Sha256} {HA : AesGcm} {HR : Rsa}.

(** C5. What the command line uploads, it downloads again: [put] with a list of
    peers, a chunk size and a number of replicas exits with 0 and prints a link,
    and a later [get] of that link, with the defaults and any list of peers that
    has those of the upload, exits with 0 and leaves the same bytes in the output
    file, as long as the digest tells the blocks and the manifest from each other and
    from what the peers hold ([upload_setup]). *)
Theorem cli_put_then_get env cwd rand dir dir' prog prog' ps ps' file content cs r out w
    (Hps : Forall listed_ok ps) (Hps' : Forall listed_ok ps') (Hsub : ps ⊆ ps')
    (Hr : INT_MIN ≤ r ≤ INT_MAX)
    (Hset : upload_setup env cwd (mk_config ps cs r [] [] (default [] dir)) file content w) :
  ∃ uri where_ w1,
    main env cwd rand dir [prog; lit "put"; peers_text ps; file; to_string cs; to_string r] w =
      (Ok (0, [lit "DONE. Share ID: " ++ uri; lit "Local manifest: " ++ where_]), w1) ∧
    ∃ w2, main env cwd rand dir' [prog'; lit "get"; peers_text ps'; uri; out] w1 =
            (Ok (0, [lit "Download complete: " ++ out]), w2) ∧
          read_file out (files w2) = Some content.
Proof.
  assert (ps ≠ []) as Hne.
  { pose proof (has_place_peers _ (up_place _ _ _ _ _ _ Hset)) as Hne. exact Hne. }
  assert (ps' ≠ []) as Hne'.
  { intros ->. destruct ps as [|p ps]; [done|]. apply (not_elem_of_nil p), Hsub. by left. }
  pose proof (up_chunk _ _ _ _ _ _ Hset) as Hcs. cbn [cfg_chunkSize] in Hcs.
  destruct (upload_download_ok env cwd rand _ (mk_config ps' one_mebibyte 2 [] [] []) file content
    out true true w Hset Hsub) as (res & w1 & E1 & Hget).
  exists (shareUri res), (localManifestPath res), w1. split.
  - unfold main, or_error, run_put, put_config. cbn [arg nth].
    change (zlen ?l <? 2) with false. change (zlen ?l <? 4) with false.
    change (5 <=? zlen ?l) with true. change (6 <=? zlen ?l) with true.
    change (7 <=? zlen ?l) with false. cbn iota.
    rewrite bool_decide_eq_true_2 by done.
    rewrite parse_peers_text by done. rewrite stoul_to_string by lia.
    rewrite <- (app_nil_r (to_string r)), stoi_to_string by (done || apply no_digit_nil).
    m_unfold. by rewrite E1.
  - destruct Hget as (w2 & E2 & Hf). exists w2. split; [|done].
    unfold main, or_error, run_get, get_config. cbn [arg nth].
    change (zlen ?l <? 2) with false. change (zlen ?l <? 5) with false.
    change (6 <=? zlen ?l) with false. cbn iota.
    rewrite bool_decide_eq_false_2 by done. rewrite bool_decide_eq_true_2 by done.
    rewrite parse_peers_text by done. m_unfold. by rewrite E2.
Qed.
End cli_props.

(** ** A session *)

Lemma peer_at_listed p : INT_MIN ≤ p ≤ INT_MAX → listed_ok (peer_at p).
Proof.
  intros Hp. split; [split; [|done]|split; [done|by repeat constructor]].
  split; [by eexists _, _|]. by exists (lit "127.0.0."), "1"%char.
Qed.

Lemma demo_peers_listed : Forall listed_ok demo_peers.
Proof. repeat constructor; apply peer_at_listed; unfold INT_MIN, INT_MAX; lia. Qed.

Lemma cli_put_then_get_witness :
  let peers_arg := lit "127.0.0.1:9101,127.0.0.1:9102,127.0.0.1:9103" in
  let run := main (HS := toy_sha256) (HA := toy_aes) (HR := toy_rsa) client_env (lit "/home/u")
               None None in
  ∃ uri where_ w1,
    run [lit "client"; lit "put"; peers_arg; lit "/home/u/a.txt"; lit "4"; lit "2"] demo_world =
      (Ok (0, [lit "DONE. Share ID: " ++ uri; lit "Local manifest: " ++ where_]), w1) ∧
    ∃ w2, run [lit "client"; lit "get"; peers_arg; uri; lit "/home/u/b.txt"] w1 =
            (Ok (0, [lit "Download complete: " ++ lit "/home/u/b.txt"]), w2) ∧
          read_file (lit "/home/u/b.txt") (files w2) = Some (lit "a file").
Proof.
  exact (cli_put_then_get (HS := toy_sha256) (HA := toy_aes) (HR := toy_rsa) client_env
    (lit "/home/u") None None None (lit "client") (lit "client") demo_peers demo_peers
    (lit "/home/u/a.txt") (lit "a file") 4 2 (lit "/home/u/b.txt") demo_world demo_peers_listed
    demo_peers_listed (reflexivity _) ltac:(unfold INT_MIN, INT_MAX; lia) demo_setup).
Defined.
