(* ===== verification/PeerMain.v ===== *)
(** * The peer program

    Models [src/peer/main.cpp] and the start of [runLoop] of
    [src/core/peer/peer_service.cpp]: the arguments, the storage that is opened, the
    socket that is bound, and the rounds of the loop.  [runBlocking] runs the loop
    in the main thread, so an exception that leaves it ends the process. *)

From S2P Require Import Prelude.
From S2P Require Import CxxStd.
From S2P Require Import FileSystem.
From S2P Require Import Storage.
From S2P Require Import Tcp.
From S2P Require Import PeerService.
From S2P Require Import Cli.

(** What a [PeerService] is made with. *)
Record PeerArgs := mk_peer_args {
  advertiseIp : str;
  peerPort : Z;
  storageDir : str;
  maxBytes : Z;
}.

(** 10 GiB. *)
Definition default_max_bytes : Z := 10 * 1024 * 1024 * 1024.

Definition peer_args (argv : list str) : result PeerArgs :=
  p ← stoi 10 (arg argv 2);
  m ← (if 5 <=? zlen argv then stoull (arg argv 4) else Ok default_max_bytes);
  Ok (mk_peer_args (arg argv 1) p (arg argv 3) m).

(** Which of the system calls before the loop succeed. *)
Record Listener := mk_listener {
  socket_succeeds : bool;
  bind_succeeds : Z → bool;     (* by the port of the address *)
  listen_succeeds : bool;
}.

(** How the program ends, or that it is still serving. *)
Inductive peer_run :=
  | UsageExit
  | Uncaught (e : exn)
  | Killed (served : list Conn)
  | Serving (served : list Conn) (s : StorageManager).

Section peer_main.
Context `{IterOrder}.

(** The address gets the low 16 bits of the port. *)
Definition runLoop (env : Env) (l : Listener) (a : PeerArgs) (fs : FS) (rounds : list (Env * Conn))
    : peer_run :=
  let storage := init env (new_storage (storageDir a) (maxBytes a) fs) in
  if negb (socket_succeeds l) then Uncaught (RuntimeError (lit "PeerService socket() failed"))
  else if negb (bind_succeeds l (u16 (peerPort a))) then
    Uncaught (RuntimeError (lit "PeerService bind() failed"))
  else if negb (listen_succeeds l) then
    Uncaught (RuntimeError (lit "PeerService listen() failed"))
  else
    match run_loop rounds storage with
    | (served, Running s) => Serving served s
    | (_, Left e _) => Uncaught e
    | (served, Signalled) => Killed served
    end.

Definition peer_main (env : Env) (l : Listener) (fs : FS) (argv : list str)
    (rounds : list (Env * Conn)) : peer_run :=
  if zlen argv <? 4 then UsageExit
  else match peer_args argv with
       | Ok a => runLoop env l a fs rounds
       | Throw e => Uncaught e
       end.

(** ** Requests in a row *)

(** A well-formed request on each connection. *)
Fixpoint well_formed (rounds : list (Env * Conn)) (rs : list request) (s : StorageManager) : Prop :=
  match rounds, rs with
  | [], [] => True
  | (env, c) :: rounds, r :: rs =>
      sends c = [] ∧ signalled c = false ∧ (∃ rest, stream c = header r ++ newline :: payload r ++ rest) ∧
      request_ok env s r ∧ well_formed rounds rs (answer env r s).2
  | _, _ => False
  end.

(** What the requests ask for, one after the other. *)
Fixpoint answers (rounds : list (Env * Conn)) (rs : list request) (s : StorageManager)
    : list str * StorageManager :=
  match rounds, rs with
  | (env, _) :: rounds, r :: rs =>
      let '(text, s) := answer env r s in
      let '(texts, s) := answers rounds rs s in (text :: texts, s)
  | _, _ => ([], s)
  end.

(** Sent the text and closed once. *)
Definition served_with (round : Env * Conn) (text : str) (c' : Conn) : Prop :=
  sent c' = sent round.2 ++ text ∧ closes c' = S (closes round.2).

Lemma run_loop_answers rounds rs s :
  well_formed rounds rs s →
  ∃ served, run_loop rounds s = (served, Running (answers rounds rs s).2) ∧
    Forall3 served_with rounds (answers rounds rs s).1 served.
Proof.
  revert rs s. induction rounds as [|[env c] rounds IH]; intros [|r rs] s Hw; try done.
  { exists []. split; [done|constructor]. }
  destruct Hw as (Hc & Hk & (rest & Hs) & Hr & Hw). cbn [run_loop answers].
  destruct (serve_spec env r c rest s Hc Hs Hr) as (c' & E & Es & Ec & Ek).
  destruct (IH rs _ Hw) as (served & El & Hf). destruct (answer env r s) as [text s1].
  cbn [fst snd] in *. rewrite E, Ek, Hk, El. destruct (answers rounds rs s1) as [texts s2].
  exists (c' :: served). split; [done|]. constructor; [|done]. by split.
Qed.

(** C19. The peer program, started with the texts of its arguments on a port it can
    bind, answers every well-formed request of every connection, in order, as its
    storage manager over the given directory and limit, and closes each connection
    once; without the last argument the limit is 10 GiB. *)
Theorem peer_program_serves env l fs prog ip port dir max last rounds rs
    (Hport : INT_MIN ≤ port ≤ INT_MAX) (Hmax : 0 ≤ max < 2 ^ 64)
    (Hlast : last = [to_string max] ∨ last = [] ∧ max = default_max_bytes)
    (Hl : socket_succeeds l = true ∧ bind_succeeds l (u16 port) = true ∧ listen_succeeds l = true)
    (Hw : well_formed rounds rs (init env (new_storage dir max fs))) :
  let s0 := init env (new_storage dir max fs) in
  ∃ served, peer_main env l fs (prog :: ip :: to_string port :: dir :: last) rounds =
            Serving served (answers rounds rs s0).2 ∧
    Forall3 served_with rounds (answers rounds rs s0).1 served.
Proof.
  cbn zeta. destruct (run_loop_answers rounds rs _ Hw) as (served & E & Hf). exists served.
  split; [|done].
  assert (peer_args (prog :: ip :: to_string port :: dir :: last) =
          Ok (mk_peer_args ip port dir max)) as Ea.
  { unfold peer_args. cbn [arg nth].
    rewrite <- (app_nil_r (to_string port)), stoi_to_string by (done || apply no_digit_nil).
    destruct Hlast as [->|[-> ->]]; [|done].
    change (5 <=? zlen [prog; ip; to_string port ++ []; dir; to_string max]) with true.
    cbn iota. cbn [nth]. by rewrite stoull_to_string. }
  unfold peer_main. rewrite Ea.
  assert ((zlen (prog :: ip :: to_string port :: dir :: last) <? 4) = false) as ->.
  { apply Z.ltb_ge. unfold zlen. cbn [length]. lia. }
  destruct Hl as (Hs & Hb & Hli). unfold runLoop. cbn [storageDir maxBytes peerPort].
  by rewrite Hs, Hb, Hli, E.
Qed.
End peer_main.

(** ** Witnesses *)

Lemma peer_program_serves_witness :
  let r := PutChunk (lit "ab12") (lit "hello") in
  let c := incoming (header r ++ newline :: payload r) in
  let s0 := init (H := some_order) good_env (new_storage (lit "node") 1000 ∅) in
  ∃ served, peer_main (H := some_order) good_env (mk_listener true (λ _, true) true) ∅
      [lit "peer"; lit "127.0.0.1"; lit "9101"; lit "node"; lit "1000"] [(good_env, c)] =
    Serving served (answers (H := some_order) [(good_env, c)] [r] s0).2 ∧
    Forall3 served_with [(good_env, c)] [OK_line] served.
Proof.
  cbn zeta.
  refine (peer_program_serves (H := some_order) good_env (mk_listener true (λ _, true) true) ∅
    (lit "peer") (lit "127.0.0.1") 9101 (lit "node") 1000 [lit "1000"]
    [(good_env, incoming (header (PutChunk (lit "ab12") (lit "hello")) ++ newline ::
      payload (PutChunk (lit "ab12") (lit "hello"))))]
    [PutChunk (lit "ab12") (lit "hello")] ltac:(unfold INT_MIN, INT_MAX; lia) ltac:(lia)
    (or_introl eq_refl) (conj eq_refl (conj eq_refl eq_refl)) _).
  split; [done|]. split; [done|]. split; [exists []; by_eval|]. split; [|done].
  split; [by_eval|]. split; [by_eval|]. split; [by_eval|done].
Defined.
