(* ===== verification/TrackerMain.v ===== *)
(** * The tracker program

    Models [main] of [src/tracker/main.cpp] around the rounds of [Tracker]: the
    argument, the listening socket with the exits of [die], and the loop that
    accepts connections.  A failed [accept] is skipped; a reply to a client that is gone
    raises a signal that ends the program. *)

From S2P Require Import Prelude.
From S2P Require Import CxxStd.
From S2P Require Import PeerEndpoint.
From S2P Require Import Tcp.
From S2P Require Import Cli.
From S2P Require Import Tracker.

(** Which of the system calls before the loop succeed, and the text of [errno] when
    one fails. *)
Record TrackerSocket := mk_tracker_socket {
  has_socket : bool;
  sets_reuse : bool;
  binds : Z → bool;       (* by the port of the address *)
  listens : bool;
  errno_text : str;
}.

(** What the loop gets from [accept]: nothing, or a connection with the readings of
    the clock of its round. *)
Inductive arrival :=
  | Refused
  | Accepted (now later : Z) (c : Conn).

(** How the program ends, or that it is still serving; the connections are those of
    the arrivals, as they are left. *)
Inductive tracker_run :=
  | TrackerExit (code : Z) (err : str)
  | TrackerUncaught (e : exn)
  | TrackerKilled (out : str) (served : list (option Conn))
  | TrackerServing (out : str) (served : list (option Conn)) (t : Tracker).

Definition die (l : TrackerSocket) (msg : str) : tracker_run :=
  TrackerExit 1 (msg ++ lit ":" ++ errno_text l ++ [newline]).

Section tracker_main.
Context `{IterOrder}.

(** The loop [while (true)], as far as it got; no tables when a signal ended it. *)
Fixpoint accept_loop (arrivals : list arrival) (t : Tracker)
    : list (option Conn) * option Tracker :=
  match arrivals with
  | [] => ([], Some t)
  | Refused :: l => let (served, r) := accept_loop l t in (None :: served, r)
  | Accepted now later c :: l =>
      let (c, t) := serve now later c t in
      if signalled c then ([Some c], None)
      else let (served, r) := accept_loop l t in (Some c :: served, r)
  end.

Definition tracker_main (l : TrackerSocket) (argv : list str) (arrivals : list arrival)
    : tracker_run :=
  if negb (zlen argv =? 2) then TrackerExit 1 (lit "Usage: tracker <port>" ++ [newline])
  else
    match stoi 10 (arg argv 1) with
    | Throw e => TrackerUncaught e
    | Ok port =>
        if negb (has_socket l) then die l (lit "socket")
        else if negb (sets_reuse l) then die l (lit "setsockopt(SO_REUSEADDR)")
        else if negb (binds l (u16 port)) then die l (lit "bind")
        else if negb (listens l) then die l (lit "listen")
        else
          let out := lit "Tracker listening on port " ++ to_string port ++ [newline] in
          match accept_loop arrivals no_tracker with
          | (served, Some t) => TrackerServing out served t
          | (served, None) => TrackerKilled out served
          end
    end.

(** ** The history of a run *)

(** The line that a connection delivers, if it delivers one. *)
Definition heard (c : Conn) : option str :=
  let '(ok, line, _) := recv_line c in if ok : bool then Some line else None.

Fixpoint history (arrivals : list arrival) (h : list Round) : list Round :=
  match arrivals with
  | [] => h
  | Refused :: l => history l h
  | Accepted now later c :: l =>
      history l (match heard c with
                 | Some line => mk_round now later (understand line) :: h
                 | None => h
                 end)
  end.

(** No client goes away while it is answered. *)
Definition patient (a : arrival) : Prop :=
  match a with Refused => True | Accepted _ _ c => quiet c end.

(** The steady clock does not go back: [T] before, [T'] after. *)
Fixpoint clock_runs (arrivals : list arrival) (T T' : Z) : Prop :=
  match arrivals with
  | [] => T = T'
  | Refused :: l => clock_runs l T T'
  | Accepted now later c :: l => T ≤ now ∧ now ≤ later ∧ clock_runs l later T'
  end.

Lemma serve_heard now later c t :
  serve now later c t =
  match heard c with
  | Some line => let (out, t') := dispatch now later line t in
                 (close (send_all_nothrow out (recv_line c).2).2, t')
  | None => (close (recv_line c).2, t)
  end.
Proof. unfold serve, heard. by destruct (recv_line c) as [[[] line] c']. Qed.

Lemma serve_quiet now later c t : quiet c → signalled (serve now later c t).1 = false.
Proof.
  intros Hq. rewrite serve_heard. unfold heard.
  destruct (recv_line_stream c) as (c1 & -> & _ & Ec).
  assert (quiet c1) as Hq1 by (by rewrite Ec).
  destruct (line_of [] (stream c)) as [[[] line] rest]; cbn [fst snd]; [|apply Hq1].
  destruct (dispatch now later line t) as [out t']. apply (quiet_send out c1 Hq1).
Qed.

(** Every line is answered with some text. *)
Lemma dispatch_replies now later line t : (dispatch now later line t).1 ≠ [].
Proof.
  assert (∀ s, or_blank s ≠ []) as Hb by (intros s; unfold or_blank; by case_bool_decide).
  unfold dispatch, do_register, do_heartbeat, do_announce, do_where, do_need_repair, do_get_peers.
  repeat case_match; cbn [fst]; done || apply Hb.
Qed.

(** The loop gets past clients that wait for their answers. *)
Lemma accept_loop_app l k t :
  Forall patient l →
  ∃ served t1, accept_loop l t = (served, Some t1) ∧ length served = length l ∧
    accept_loop (l ++ k) t = (served ++ (accept_loop k t1).1, (accept_loop k t1).2).
Proof.
  intros Hl. revert t. induction Hl as [|[|now later c] l Hc _ IH]; intros t;
    cbn [app accept_loop].
  - exists [], t. split; [done|]. split; [done|]. by destruct (accept_loop k t).
  - destruct (IH t) as (served & t1 & -> & Hlen & ->). exists (None :: served), t1.
    split; [done|]. by split; [cbn; rewrite Hlen|].
  - pose proof (serve_quiet now later c t Hc) as Hs. destruct (serve now later c t) as [c' t'].
    cbn [fst] in Hs. rewrite Hs. destruct (IH t') as (served & t1 & -> & Hlen & ->).
    exists (Some c' :: served), t1. split; [done|]. by split; [cbn; rewrite Hlen|].
Qed.

Lemma accept_loop_alive l t :
  Forall patient l →
  ∃ served t', accept_loop l t = (served, Some t') ∧ length served = length l.
Proof.
  intros Hl. destruct (accept_loop_app l [] t Hl) as (served & t1 & E & Hlen & _).
  by exists served, t1.
Qed.

(** The tables of the loop are those of the lines that were heard. *)
Lemma accept_loop_tracked l h t T0 T T' served t' :
  tracked h t T0 → T0 ≤ T → clock_runs l T T' → accept_loop l t = (served, Some t') →
  ∃ T1, T1 ≤ T' ∧ tracked (history l h) t' T1.
Proof.
  revert h t T0 T served. induction l as [|[|now later c] l IH];
    intros h t T0 T served Ht HT Hl; cbn [history accept_loop].
  - cbn in Hl. subst T'. intros [= _ <-]. by exists T0.
  - destruct (accept_loop l t) as [served1 r] eqn:E. intros [= _ ->].
    exact (IH h t T0 T served1 Ht HT Hl E).
  - destruct Hl as (Hn & Hnl & Hl). rewrite serve_heard. destruct (heard c) as [line|].
    + destruct (dispatch now later line t) as [out t1] eqn:Ed. destruct (signalled _); [done|].
      destruct (accept_loop l t1) as [served1 r] eqn:E. intros [= _ ->].
      refine (IH (mk_round now later (understand line) :: h) t1 later later served1 _ _ Hl E);
        [|done].
      pose proof (tracked_line h t T0 now later line Ht ltac:(lia) Hnl) as Hr. by rewrite Ed in Hr.
    + destruct (signalled _); [done|]. destruct (accept_loop l t) as [served1 r] eqn:E.
      intros [= _ ->]. refine (IH h t T0 later served1 Ht _ Hl E). lia.
Qed.

(** A round whose connection delivers a line. *)
Lemma serve_reply now later c t line rest :
  stream c = line ++ newline :: rest → sends c = [] → plain line → zlen line ≤ 8192 →
  ∃ c', serve now later c t = (c', (dispatch now later line t).2) ∧
        sent c' = sent c ++ (dispatch now later line t).1 ∧ closes c' = S (closes c) ∧
        signalled c' = signalled c.
Proof.
  intros Hs Hc Hl Hz. unfold serve.
  destruct (recv_line_plain c line rest Hs Hl Hz) as (c1 & -> & _ & Ec). cbn [negb].
  destruct (dispatch now later line t) as [out t']. eexists. split; [done|].
  rewrite send_all_clean by (by rewrite Ec). cbn [snd close sent closes signalled set_sent]. by rewrite Ec.
Qed.

(** C18. The tracker program, started with the text of its port where the system calls
    succeed, keeps serving, whatever connections come as long as no client goes away
    while it is answered, and answers a [WHERE] that
    arrives after any of them once, with the peers that announced the chunk over the
    connections before and were heard of in the last 30 seconds: all of these, and all
    that announced it and were never silent for longer. *)
Theorem tracker_program_answers l prog port pre now later c post line rest chunk T T'
    (Hport : INT_MIN ≤ port ≤ INT_MAX)
    (Hl : has_socket l = true ∧ sets_reuse l = true ∧ binds l (u16 port) = true ∧ listens l = true)
    (Hclock : clock_runs pre T T') (Hnow : T' ≤ now)
    (Hpre : Forall patient pre) (Hpost : Forall patient post)
    (Hc : stream c = line ++ newline :: rest) (Hsend : sends c = []) (Halive : signalled c = false)
    (Hline : plain line ∧ zlen line ≤ 8192) (Hwhere : understand line = Some (Where chunk)) :
  let h := history pre [] in
  ∃ out served t c' es,
    tracker_main l [prog; to_string port] (pre ++ Accepted now later c :: post) =
      TrackerServing out served t ∧
    length served = length (pre ++ Accepted now later c :: post) ∧
    served !! length pre = Some (Some c') ∧ closes c' = S (closes c) ∧
    sent c' = sent c ++ or_blank (entry_lines es) ∧ NoDup es ∧
    (∀ e, e ∈ es → announced h chunk e ∧ ∃ s, last_contact h e = Some s ∧ now - s ≤ TTL) ∧
    (∀ e s, announced h chunk e → steady h e → last_contact h e = Some s → now - s ≤ TTL → e ∈ es).
Proof.
  cbn zeta.
  destruct (accept_loop_app pre (Accepted now later c :: post) no_tracker Hpre)
    as (served1 & t1 & E1 & Hlen1 & E).
  destruct (accept_loop_tracked pre [] no_tracker T T T' served1 t1) as (T1 & HT1 & Ht);
    [apply tracked_start|done|done|done|].
  destruct (where_lists_live_holders _ t1 T1 now later line chunk Ht ltac:(lia) Hwhere)
    as (es & Ees & Hnd & Hin & Hall).
  destruct (serve_reply now later c t1 line rest Hc Hsend) as (c' & Es & Esent & Ecl & Ek);
    [apply Hline|apply Hline|].
  destruct (accept_loop_alive post (dispatch now later line t1).2 Hpost)
    as (served2 & t & E2 & Hlen2).
  destruct Hl as (H1 & H2 & H3 & H4).
  unfold tracker_main. change (zlen [prog; to_string port] =? 2) with true. cbn [negb arg nth].
  rewrite <- (app_nil_r (to_string port)), stoi_to_string by (done || apply no_digit_nil).
  rewrite H1, H2, H3, H4. cbn [negb].
  cbn [accept_loop] in E. rewrite Es, Ek, Halive, E2 in E. cbn [fst snd] in E. rewrite E.
  eexists _, _, t, c', es. split; [done|].
  split; [rewrite !length_app; cbn [length]; by rewrite Hlen1, Hlen2|].
  split; [|by rewrite <- Ees]. rewrite lookup_app_r by lia. by rewrite Hlen1, Nat.sub_diag.
Qed.

(** A client that goes away before its answer is sent ends the tracker, and with it the
    tables, which are nowhere else. *)
Theorem vanished_client_kills_tracker l prog port pre now later c post line rest sig
    (Hport : INT_MIN ≤ port ≤ INT_MAX)
    (Hl : has_socket l = true ∧ sets_reuse l = true ∧ binds l (u16 port) = true ∧ listens l = true)
    (Hpre : Forall patient pre)
    (Hc : stream c = line ++ newline :: rest) (Hline : plain line ∧ zlen line ≤ 8192)
    (Hsends : sends c = - EPIPE :: sig) :
  ∃ out served c',
    tracker_main l [prog; to_string port] (pre ++ Accepted now later c :: post) =
      TrackerKilled out (served ++ [Some c']) ∧
    length served = length pre ∧ sent c' = sent c.
Proof.
  destruct (accept_loop_app pre (Accepted now later c :: post) no_tracker Hpre)
    as (served & t1 & _ & Hlen & E).
  destruct Hl as (H1 & H2 & H3 & H4).
  unfold tracker_main. change (zlen [prog; to_string port] =? 2) with true. cbn [negb arg nth].
  rewrite <- (app_nil_r (to_string port)), stoi_to_string by (done || apply no_digit_nil).
  rewrite H1, H2, H3, H4. cbn [negb].
  destruct (recv_line_plain c line rest Hc (proj1 Hline) (proj2 Hline)) as (c1 & El & _ & Ec).
  pose proof (dispatch_replies now later line t1) as Ho. cbn [accept_loop] in E. unfold serve in E. rewrite El in E.
  cbn [negb] in E. destruct (dispatch now later line t1) as [[|ch out] t']; [done|].
  assert (send_all_nothrow (ch :: out) c1 = (false, sigpipe c1)) as Esend.
  { unfold send_all_nothrow. cbn [length send_loop]. unfold send.
    rewrite Ec. cbn [sends set_segments]. rewrite Hsends, zlen_cons.
    pose proof (zlen_nonneg out). by destruct (Z.ltb_spec 0 (1 + zlen out)); [|lia]. }
  rewrite Esend in E. cbn [snd signalled sigpipe close fst] in E. rewrite E.
  eexists _, served, _. split; [done|]. split; [done|]. cbn [sent close sigpipe]. by rewrite Ec.
Qed.

(** A failing call ends the program with the call and the error, before any
    connection. *)
Theorem tracker_start_failure l prog port arrivals
    (Hport : INT_MIN ≤ port ≤ INT_MAX)
    (Hl : has_socket l && sets_reuse l && binds l (u16 port) && listens l = false) :
  ∃ msg, msg ∈ [lit "socket"; lit "setsockopt(SO_REUSEADDR)"; lit "bind"; lit "listen"] ∧
    tracker_main l [prog; to_string port] arrivals =
    TrackerExit 1 (msg ++ lit ":" ++ errno_text l ++ [newline]).
Proof.
  unfold tracker_main. change (zlen [prog; to_string port] =? 2) with true. cbn [negb arg nth].
  rewrite <- (app_nil_r (to_string port)), stoi_to_string by (done || apply no_digit_nil).
  destruct (has_socket l); [|eexists; split; [|done]; set_solver].
  destruct (sets_reuse l); [|eexists; split; [|done]; set_solver].
  destruct (binds l (u16 port)); [|eexists; split; [|done]; set_solver].
  destruct (listens l); [done|eexists; split; [|done]; set_solver].
Qed.
End tracker_main.

(** ** Witnesses *)

Definition tracker_sockets : TrackerSocket :=
  mk_tracker_socket true true (λ _, true) true (lit "Success").

Definition says (line : str) : Conn := mk_conn [line ++ [newline]] PeerClosed [] [] 0 (lit "Success") false.

(** A registration, a failed [accept], an announcement, a silent connection. *)
Definition demo_arrivals : list arrival :=
  [Accepted 0 0 (says demo_register); Refused;
   Accepted 1000000000 1000000000 (says demo_announce); Accepted 1500000000 1500000000 (mk_conn [] PeerClosed [] [] 0 (lit "Success") false)].

Lemma demo_heard : history demo_arrivals [] = demo_history.
Proof. vm_compute. reflexivity. Qed.

Lemma tracker_program_answers_witness :
  ∃ out served t c' es,
    tracker_main (H := some_order) tracker_sockets [lit "tracker"; lit "8000"]
      (demo_arrivals ++ [Accepted 2000000000 2000000000 (says (lit "WHERE c1"))]) =
      TrackerServing out served t ∧
    served !! 4%nat = Some (Some c') ∧ sent c' = or_blank (entry_lines es) ∧ demo_entry ∈ es.
Proof.
  destruct (tracker_program_answers (H := some_order) tracker_sockets (lit "tracker") 8000
    demo_arrivals 2000000000 2000000000 (says (lit "WHERE c1")) [] (lit "WHERE c1") [] (lit "c1")
    0 1500000000) as (out & served & t & c' & es & E & _ & Hs & _ & Hsent & _ & _ & Hall).
  - unfold INT_MIN, INT_MAX. lia.
  - by_eval.
  - cbn. lia.
  - lia.
  - repeat constructor; by_eval.
  - constructor.
  - reflexivity.
  - reflexivity.
  - reflexivity.
  - by_eval.
  - by vm_compute.
  - exists out, served, t, c', es. split; [exact E|]. split; [exact Hs|]. split; [exact Hsent|].
    rewrite demo_heard in Hall. apply (Hall demo_entry 0).
    + by left.
    + split; [split; [done|]|].
      * intros s' Hs'. vm_compute in Hs'. discriminate Hs'.
      * intros s' Hs'. vm_compute in Hs'. injection Hs' as <-. vm_compute. discriminate.
    + by vm_compute.
    + vm_compute. discriminate.
Defined.

(** A client that sends its line and is gone. *)
Lemma vanished_client_kills_tracker_witness :
  ∃ out served c',
    tracker_main (H := some_order) tracker_sockets [lit "tracker"; lit "8000"]
      (demo_arrivals ++ [Accepted 2000000000 2000000000
         (mk_conn [lit "WHERE c1" ++ [newline]] PeerClosed [- EPIPE] [] 0 (lit "Broken pipe") false);
       Accepted 3000000000 3000000000 (says (lit "WHERE c1"))]) =
      TrackerKilled out (served ++ [Some c']) ∧ length served = 4%nat ∧ sent c' = [].
Proof.
  apply (vanished_client_kills_tracker (H := some_order) tracker_sockets (lit "tracker") 8000
    demo_arrivals 2000000000 2000000000
    (mk_conn [lit "WHERE c1" ++ [newline]] PeerClosed [- EPIPE] [] 0 (lit "Broken pipe") false)
    _ (lit "WHERE c1") [] []).
  - unfold INT_MIN, INT_MAX. lia.
  - by_eval.
  - repeat constructor; by_eval.
  - reflexivity.
  - by_eval.
  - reflexivity.
Defined.

Lemma tracker_start_failure_witness :
  ∃ msg, msg ∈ [lit "socket"; lit "setsockopt(SO_REUSEADDR)"; lit "bind"; lit "listen"] ∧
    tracker_main (H := some_order)
      (mk_tracker_socket true true (λ _, false) true (lit "Address already in use"))
      [lit "tracker"; lit "8000"] [] =
    TrackerExit 1 (msg ++ lit ":" ++ lit "Address already in use" ++ [newline]).
Proof.
  exact (tracker_start_failure (H := some_order)
    (mk_tracker_socket true true (λ _, false) true (lit "Address already in use")) (lit "tracker")
    8000 [] ltac:(unfold INT_MIN, INT_MAX; lia) eq_refl).
Defined.
