(* ===== verification/Worker.v ===== *)
(** * The worker of the graphical client

    Models [src/client/dss_worker.cpp]: the slots that run the client in the
    background thread, and the signal that each emits at its end.  Progress signals
    are what [DssClient] reports.  Texts are the UTF-8 bytes of the [QString]s;
    [QString::trimmed] is a parameter. *)

From S2P Require Import Prelude.
From S2P Require Import CxxStd.
From S2P Require Import Hex.
From S2P Require Import PeerEndpoint.
From S2P Require Import FileSystem.
From S2P Require Import Hybrid.
From S2P Require Import DssClient.
From S2P Require Import DssClientProps.
From S2P Require Import Cli.

Inductive signal :=
  | PutFinished (shareId localManifestPath : str)
  | GetFinished (outputPath : str)
  | Error (message : str).

(** The loop over the items: those that cannot be parsed are left out. *)
Fixpoint keep_items (items : list str) : list PeerEndpoint :=
  match items with
  | [] => []
  | item :: items' =>
      if bool_decide (item = []) then keep_items items'
      else match parse_peer_entry item with
           | Ok p => p :: keep_items items'
           | Throw _ => keep_items items'
           end
  end.

Definition keep_peers (peers_ : str) : result (list PeerEndpoint) :=
  let ps := keep_items (getlines "," peers_) in
  if bool_decide (ps = []) then Throw (RuntimeError (lit "No valid peers provided")) else Ok ps.

Section worker.
Context {W : Type} {HP : PeerApi W} {HS : Sha256} {HA : AesGcm} {HR : Rsa}.
Variable trimmed_ : str → str.

(** [try { body; emit ... } catch (const std::exception& e) { emit error(...); }]. *)
Definition emit_or_error (body : M (World W) signal) : M (World W) signal := λ w,
  match body w with
  | (Ok s, w) => (Ok s, w)
  | (Throw e, w) => (Ok (Error (what e)), w)
  end.

Definition worker_put (env : Env) (cwd : str) (rand : option (list Z * list Z))
    (peers_ filePath manifestDir : str) (chunkSize replicas : Z) (rsaPublicKeyPem : str)
    : M (World W) signal :=
  emit_or_error (
    ps ← liftR (keep_peers peers_);
    let cfg := mk_config ps (if 0 <? chunkSize then chunkSize else one_mebibyte)
                 (if 0 <? replicas then replicas else 2) (trimmed_ rsaPublicKeyPem) [] manifestDir in
    res ← putFile env cwd rand cfg filePath true;
    mret (PutFinished (shareUri res) (localManifestPath res))).

Definition worker_get (env : Env) (peers_ manifestPath outputPath rsaPrivateKeyPem : str)
    : M (World W) signal :=
  emit_or_error (
    ps ← liftR (keep_peers peers_);
    let cfg := mk_config ps one_mebibyte 2 [] (trimmed_ rsaPrivateKeyPem) [] in
    getFile env cfg manifestPath outputPath true ;;
    mret (GetFinished outputPath)).

Definition worker_repair : M (World W) signal :=
  emit_or_error (throwM (RuntimeError (lit "Repair is not supported in DHT mode"))).
End worker.

(** ** The peers that are kept *)

Lemma keep_items_strict items ps : parse_items items = Ok ps → keep_items items = ps.
Proof.
  revert ps. induction items as [|item items IH]; intros ps; cbn [parse_items keep_items].
  { by intros [= <-]. }
  case_bool_decide; [apply IH|]. m_unfold.
  destruct (parse_peer_entry item) as [p|]; [|done].
  destruct (parse_items items) as [qs|] eqn:E; [|done]. intros [= <-]. by rewrite (IH qs).
Qed.

(** A list that the command line accepts is read alike. *)
Lemma keep_peers_strict text ps : parse_peers text = Ok ps → keep_peers text = Ok ps.
Proof.
  unfold parse_peers, keep_peers. m_unfold.
  destruct (parse_items _) as [qs|] eqn:E; [|done]. by rewrite (keep_items_strict _ qs E).
Qed.

Lemma exists_cons {A} (P : A → Prop) x l :
  (∃ y, y ∈ x :: l ∧ P y) ↔ P x ∨ ∃ y, y ∈ l ∧ P y.
Proof.
  split.
  - intros (y & [->|Hy]%elem_of_cons & HP); [by left|right; by exists y].
  - intros [HP|(y & Hy & HP)]; [exists x|exists y]; (split; [|done]); [by left|by right].
Qed.

Lemma elem_of_keep_items items p :
  p ∈ keep_items items ↔ ∃ item, item ∈ items ∧ item ≠ [] ∧ parse_peer_entry item = Ok p.
Proof.
  induction items as [|item items IH]; cbn [keep_items].
  - split; [by intros ?%elem_of_nil|]. by intros (item & ?%elem_of_nil & _).
  - rewrite (exists_cons (λ item, item ≠ [] ∧ parse_peer_entry item = Ok p)), <- IH.
    case_bool_decide as Hi; [tauto|].
    destruct (parse_peer_entry item) as [q|e]; [rewrite elem_of_cons|].
    + split; [intros [->|]; by auto|]. intros [[_ [= ->]]|]; by auto.
    + split; [by auto|]. by intros [[_ ?]|].
Qed.

Section worker_props.
Context {W : Type} {HP : PeerApi W} {HL : PeerLaws W} {HS : Sha256} {HA : AesGcm} {HR : Rsa}.

(** C8. What the worker uploads, it downloads again: of the peer lists, whatever
    else is in them, exactly the items that are endpoints are used; when those of
    the download include those of the upload, the upload emits [putFinished] with
    a link, and the download of that link emits [getFinished] and leaves the same
    bytes in the output file, as long as the digest tells the blocks and the manifest
    from each other and from what the peers hold ([upload_setup]). *)
Theorem worker_put_then_get env cwd rand trim text text' ps ps' file dir content cs r pub prv out w
    (Htext : keep_peers text = Ok ps) (Htext' : keep_peers text' = Ok ps') (Hsub : ps ⊆ ps')
    (Hset : upload_setup env cwd
              (mk_config ps (if 0 <? cs then cs else one_mebibyte) (if 0 <? r then r else 2)
                 (trim pub) [] dir) file content w) :
  (∀ p, p ∈ ps ↔ ∃ item, item ∈ getlines "," text ∧ item ≠ [] ∧ parse_peer_entry item = Ok p) ∧
  ∃ uri where_ w1,
    worker_put trim env cwd rand text file dir cs r pub w = (Ok (PutFinished uri where_), w1) ∧
    ∃ w2, worker_get trim env text' uri out prv w1 = (Ok (GetFinished out), w2) ∧
          read_file out (files w2) = Some content.
Proof.
  split.
  { revert Htext. unfold keep_peers. case_bool_decide; [done|]. intros [= <-].
    apply elem_of_keep_items. }
  destruct (upload_download_ok env cwd rand _ (mk_config ps' one_mebibyte 2 [] (trim prv) []) file
    content out true true w Hset Hsub) as (res & w1 & E1 & Hget).
  exists (shareUri res), (localManifestPath res), w1. split.
  - unfold worker_put, emit_or_error. m_unfold. by rewrite Htext, E1.
  - destruct Hget as (w2 & E2 & Hf). exists w2. split; [|done].
    unfold worker_get, emit_or_error. m_unfold. by rewrite Htext', E2.
Qed.
End worker_props.

Lemma worker_put_then_get_witness :
  let peers_ := lit "127.0.0.1:9101,nonsense,127.0.0.1:9102,,127.0.0.1:9103" in
  let put := worker_put (HS := toy_sha256) (HA := toy_aes) (HR := toy_rsa) id client_env
               (lit "/home/u") None peers_ (lit "/home/u/a.txt") [] 4 0 [] in
  let get uri := worker_get (HS := toy_sha256) (HA := toy_aes) (HR := toy_rsa) id client_env
               peers_ uri (lit "/home/u/b.txt") (lit "key.pem") in
  ∃ uri where_ w1, put demo_world = (Ok (PutFinished uri where_), w1) ∧
    ∃ w2, get uri w1 = (Ok (GetFinished (lit "/home/u/b.txt")), w2) ∧
          read_file (lit "/home/u/b.txt") (files w2) = Some (lit "a file").
Proof.
  exact (proj2 (worker_put_then_get (HS := toy_sha256) (HA := toy_aes) (HR := toy_rsa) client_env
    (lit "/home/u") None id (lit "127.0.0.1:9101,nonsense,127.0.0.1:9102,,127.0.0.1:9103")
    (lit "127.0.0.1:9101,nonsense,127.0.0.1:9102,,127.0.0.1:9103") demo_peers demo_peers
    (lit "/home/u/a.txt") [] (lit "a file") 4 0 [] (lit "key.pem") (lit "/home/u/b.txt") demo_world
    ltac:(by_eval) ltac:(by_eval) (reflexivity _) demo_setup)).
Defined.
