(* ===== verification/Qt.v ===== *)
(** * What the graphical client uses of Qt

    Texts of type [QString] are their UTF-8 bytes.  The functions of Qt whose work
    depends on Unicode or on the format of a text are parameters, [Qt], and what
    the program relies on is stated as laws, [QtLaws], after the documentation of
    Qt; [plain_qt] is an instance that satisfies them.  [Settings] is the map that
    [QSettings] keeps between runs, in a file. *)

From S2P Require Import Prelude.
From S2P Require Import CxxStd.
From S2P Require Import Cli.

(** A [QVariant] of the types that are stored. *)
Inductive Variant :=
  | QBool (b : bool)
  | QInt (z : Z)
  | QULongLong (z : Z)
  | QText (s : str).

#[export] Instance Variant_eq_dec : EqDecision Variant.
Proof. solve_decision. Defined.

Class Qt := {
  trim : str → str;                         (* [QString::trimmed] *)
  split_commas : str → list str;            (* [split(',', Qt::SkipEmptyParts)] *)
  joined : list str → str;                  (* [QStringList::join(',')] *)
  removeDuplicates : list str → list str;   (* [QStringList::removeDuplicates] *)
  qarg : str → str → str;                   (* [pattern.arg(a)] *)
  qarg2 : str → str → str → str;            (* [pattern.arg(a, b)] *)
  parseULongLong : str → option Z;          (* [toULongLong(&ok)]: [None] if not [ok] *)
  toBool : Variant → bool;
  toInt : Variant → Z;
  toULongLong : Variant → Z;
  toText : Variant → str;                   (* [QVariant::toString] *)
}.

(** A visible character of ASCII, and a text that starts and ends with one. *)
Definition visible (c : ascii) : Prop := 33 ≤ char_code c ≤ 126.

#[export] Instance visible_dec c : Decision (visible c).
Proof. unfold visible. apply _. Defined.

Definition visible_edges (s : str) : Prop :=
  (∃ c s', s = c :: s' ∧ visible c) ∧ (∃ s' c, s = s' ++ [c] ∧ visible c).

Class QtLaws {Q : Qt} := {
  trim_nil : trim [] = [];
  trim_trim s : trim (trim s) = trim s;
  trim_visible s : visible_edges s → trim s = s;
  split_items s : Forall list_item (split_commas s);
  split_joined l : Forall list_item l → split_commas (joined l) = l;
  joined_commas l : joined l = with_commas l;
  removeDuplicates_sublist l : removeDuplicates l `sublist_of` l;
  removeDuplicates_NoDup l : NoDup (removeDuplicates l);
  removeDuplicates_keeps l s : s ∈ l → s ∈ removeDuplicates l;
  qarg_host_port a b : "%"%char ∉ a →
    qarg (qarg (lit "%1:%2") a) b = a ++ ":"%char :: b;
  qarg2_host_port a b : qarg2 (lit "%1:%2") a b = a ++ ":"%char :: b;
  parseULongLong_range s z : parseULongLong s = Some z → 0 ≤ z < 2 ^ 64;
  parseULongLong_decimal z : 0 ≤ z < 2 ^ 64 → parseULongLong (to_string z) = Some z;
  toBool_bool b : toBool (QBool b) = b;
  toInt_int z : toInt (QInt z) = z;
  toULongLong_number z : toULongLong (QULongLong z) = z;
  toText_text s : toText (QText s) = s;
}.

(** ** Settings *)

Abbreviation Settings := (gmap str Variant).

(** [settings.value(key, default)]. *)
Definition value (s : Settings) (k : str) (d : Variant) : Variant := default d (s !! k).

(** ** Widgets *)

(** A [QSpinBox] moves what is set into its range. *)
Definition spin (lo hi v : Z) : Z := if v <? lo then lo else if hi <? v then hi else v.

Lemma spin_range lo hi v : lo ≤ hi → lo ≤ spin lo hi v ≤ hi.
Proof.
  intros. unfold spin. destruct (Z.ltb_spec v lo); [lia|]. destruct (Z.ltb_spec hi v); lia.
Qed.

Lemma spin_id lo hi v : lo ≤ v ≤ hi → spin lo hi v = v.
Proof.
  intros. unfold spin. destruct (Z.ltb_spec v lo); [lia|]. by destruct (Z.ltb_spec hi v); [lia|].
Qed.

(** ** An instance *)

Fixpoint drop_blank (s : str) : str :=
  match s with
  | c :: s' => if is_space c then drop_blank s' else s
  | [] => []
  end.

Definition plain_trim (s : str) : str := reverse (drop_blank (reverse (drop_blank s))).

Definition plain_split (s : str) : list str :=
  filter (λ p, p ≠ []) (getlines "," s).

Fixpoint keep_first (seen l : list str) : list str :=
  match l with
  | [] => []
  | s :: l' =>
      if bool_decide (s ∈ seen) then keep_first seen l' else s :: keep_first (s :: seen) l'
  end.

(** The lowest digit after a percent sign, and the pattern with what replaces the
    places of each digit. *)
Fixpoint lowest_place (p : str) : option ascii :=
  match p with
  | c :: ((d :: _) as p') =>
      if Ascii.eqb c "%" && bool_decide (is_Some (digit_val d)) then
        match lowest_place p' with
        | Some e => Some (if char_code d <? char_code e then d else e)
        | None => Some d
        end
      else lowest_place p'
  | _ => None
  end.

Fixpoint fill_places (f : ascii → option str) (p : str) : str :=
  match p with
  | c :: ((d :: p'') as p') =>
      if Ascii.eqb c "%" then
        match f d with Some t => t ++ fill_places f p'' | None => c :: fill_places f p' end
      else c :: fill_places f p'
  | p => p
  end.

Definition plain_arg (p a : str) : str :=
  match lowest_place p with
  | Some e => fill_places (λ d, if Ascii.eqb d e then Some a else None) p
  | None => p
  end.

Definition plain_arg2 (p a b : str) : str :=
  fill_places (λ d, if Ascii.eqb d "1" then Some a else if Ascii.eqb d "2" then Some b else None) p.

Definition plain_ulonglong (s : str) : option Z :=
  match stoul s with
  | Ok z => if bool_decide (to_string z = s) then Some z else None
  | Throw _ => None
  end.

#[export] Instance plain_qt : Qt := {|
  trim := plain_trim;
  split_commas := plain_split;
  joined := with_commas;
  removeDuplicates := keep_first [];
  qarg := plain_arg;
  qarg2 := plain_arg2;
  parseULongLong := plain_ulonglong;
  toBool v := match v with QBool b => b | _ => false end;
  toInt v := match v with QInt z => z | _ => 0 end;
  toULongLong v := match v with QULongLong z => z | _ => 0 end;
  toText v := match v with QText s => s | _ => [] end;
|}.

(** ** The instance satisfies the laws *)

Lemma drop_blank_visible c s : visible c → drop_blank (c :: s) = c :: s.
Proof.
  intros Hc. cbn [drop_blank]. destruct (is_space c) eqn:E; [|done]. exfalso.
  unfold is_space in E. unfold visible in Hc.
  destruct c as [[] [] [] [] [] [] [] []]; vm_compute in E; try discriminate E; by destruct Hc.
Qed.

Lemma drop_blank_idem s : drop_blank (drop_blank s) = drop_blank s.
Proof.
  induction s as [|c s IH]; [done|]. cbn [drop_blank]. destruct (is_space c) eqn:E; [done|].
  cbn [drop_blank]. by rewrite E.
Qed.

Lemma drop_blank_suffix s : drop_blank s `suffix_of` s.
Proof.
  induction s as [|c s IH]; [done|]. cbn [drop_blank]. destruct (is_space c); [|done].
  by apply suffix_cons_r.
Qed.

Lemma drop_blank_head s c s' : drop_blank s = c :: s' → is_space c = false.
Proof.
  induction s as [|d s IH]; [done|]. cbn [drop_blank]. destruct (is_space d) eqn:E; [done|].
  by intros [= <- _].
Qed.

Lemma plain_trim_idem s : plain_trim (plain_trim s) = plain_trim s.
Proof.
  unfold plain_trim. set (t := drop_blank s). set (r := reverse (drop_blank (reverse t))).
  assert (drop_blank r = r) as ->.
  { destruct (drop_blank_suffix (reverse t)) as [k Hk].
    assert (t = r ++ reverse k) as Ht
      by (unfold r; rewrite <- reverse_app, <- Hk; by rewrite reverse_involutive).
    destruct r as [|c r']; [done|]. cbn [drop_blank].
    by rewrite (drop_blank_head s c (r' ++ reverse k)). }
  unfold r. rewrite reverse_involutive. by rewrite drop_blank_idem.
Qed.

Lemma plain_trim_visible s : visible_edges s → plain_trim s = s.
Proof.
  intros [(c & s' & E & Hc) (s'' & d & E' & Hd)]. unfold plain_trim.
  assert (drop_blank s = s) as -> by (rewrite E; by apply drop_blank_visible).
  rewrite E', reverse_app. change (reverse [d]) with [d]. cbn [app].
  rewrite drop_blank_visible, reverse_cons, reverse_involutive by done. done.
Qed.

Lemma span_prefix {A} (p : A → bool) s : Forall (λ c, p c = true) (span p s).1.
Proof.
  induction s as [|c s IH]; cbn; [constructor|]. destruct (p c) eqn:E; [|constructor].
  destruct (span p s). by constructor.
Qed.

Lemma getlines_no_commas fuel s : Forall no_comma (getlines_fuel fuel "," s).
Proof.
  revert s. induction fuel as [|fuel IH]; intros s; cbn [getlines_fuel]; [constructor|].
  unfold getline. destruct s as [|c s]; [constructor|].
  pose proof (span_prefix (λ c, negb (Ascii.eqb c ",")) (c :: s)) as Hp.
  destruct (span _ (c :: s)) as [l r]. by constructor.
Qed.

Lemma plain_split_items s : Forall list_item (plain_split s).
Proof.
  apply Forall_forall. intros p [Hne Hp]%list_elem_of_filter. split; [done|].
  pose proof (getlines_no_commas (length s) s) as H. rewrite Forall_forall in H. by apply H.
Qed.

Lemma plain_split_joined l : Forall list_item l → plain_split (with_commas l) = l.
Proof.
  intros Hl. unfold plain_split. rewrite getlines_commas by done.
  induction Hl as [|s l [Hs _] _ IH]; [done|]. rewrite filter_cons_True by done. by rewrite IH.
Qed.

Lemma keep_first_spec seen l :
  keep_first seen l `sublist_of` l ∧ NoDup (keep_first seen l) ∧
  ∀ s, s ∈ keep_first seen l ↔ s ∈ l ∧ s ∉ seen.
Proof.
  revert seen. induction l as [|x l IH]; intros seen; cbn [keep_first].
  - split; [constructor|]. split; [constructor|]. intros s. rewrite elem_of_nil. tauto.
  - case_bool_decide as Hx.
    + destruct (IH seen) as (Hs & Hn & He). split; [by constructor|]. split; [done|].
      intros s. rewrite He, elem_of_cons. naive_solver.
    + destruct (IH (x :: seen)) as (Hs & Hn & He). split; [by constructor|]. split.
      * constructor; [|done]. rewrite He. set_solver.
      * intros s. rewrite !elem_of_cons, He, elem_of_cons. destruct (decide (s = x)); naive_solver.
Qed.

(** The places of a text that starts without one. *)
Lemma places_after a k :
  "%"%char ∉ a → lowest_place (a ++ ":"%char :: k) = lowest_place (":"%char :: k) ∧
  ∀ f, fill_places f (a ++ ":"%char :: k) = a ++ fill_places f (":"%char :: k).
Proof.
  induction a as [|c a IH]; intros Ha; [done|].
  apply not_elem_of_cons in Ha as [Hc Ha]. destruct (IH Ha) as [E1 E2].
  destruct (Ascii.eqb_spec c "%") as [->|Hne]; [done|]. apply Ascii.eqb_neq in Hne.
  cbn [app]. destruct (a ++ ":"%char :: k) as [|d l] eqn:E; [by destruct a|].
  split; [cbn [lowest_place]; by rewrite Hne|]. intros f.
  transitivity (c :: fill_places f (d :: l)); [cbn [fill_places]; by rewrite Hne|]. by rewrite E2.
Qed.

Lemma plain_arg_host_port a b :
  "%"%char ∉ a → plain_arg (plain_arg (lit "%1:%2") a) b = a ++ ":"%char :: b.
Proof.
  intros Ha. change (plain_arg (lit "%1:%2") a) with (a ++ lit ":%2").
  change (lit ":%2") with (":"%char :: lit "%2").
  destruct (places_after a (lit "%2") Ha) as [E1 E2]. unfold plain_arg. rewrite E1.
  change (lowest_place (":"%char :: lit "%2")) with (Some "2"%char). cbv beta iota. rewrite E2.
  cbn. by rewrite app_nil_r.
Qed.

Lemma plain_ulonglong_range s z : plain_ulonglong s = Some z → 0 ≤ z < 2 ^ 64.
Proof.
  unfold plain_ulonglong, stoul, sto_u64. destruct (strtol 10 s) as [v|]; [|done].
  destruct (UINT64_MAX <? Z.abs v); [done|]. case_bool_decide; [|done]. intros [= <-].
  apply u64_range.
Qed.

#[export] Instance plain_qt_laws : QtLaws.
Proof.
  split.
  - done.
  - apply plain_trim_idem.
  - apply plain_trim_visible.
  - apply plain_split_items.
  - apply plain_split_joined.
  - done.
  - intros l. apply (keep_first_spec [] l).
  - intros l. apply (keep_first_spec [] l).
  - intros l s Hs. apply (keep_first_spec [] l). split; [done|apply not_elem_of_nil].
  - apply plain_arg_host_port.
  - intros a b. cbn. by rewrite app_nil_r.
  - apply plain_ulonglong_range.
  - intros z Hz. cbn. unfold plain_ulonglong. rewrite stoul_to_string by done.
    by rewrite bool_decide_eq_true_2.
  - done.
  - done.
  - done.
  - done.
Qed.
