(* ===== verification/EmbeddedPeer.v ===== *)
(** * The peer inside the graphical client

    The [PeerService] that [src/client/main_window.cpp] owns, as the graphical
    client uses it: the calls of its members run while the thread of the service
    makes steps of its own, which are given as lists of events of
    [PeerLifecycle]. *)

From S2P Require Import Prelude.
From S2P Require Import PeerLifecycle.

(** A [PeerService] object: what it was made with, and its thread. *)
Record Embedded := mk_embedded {
  emb_ip : str;
  emb_port : Z;
  emb_dir : str;
  emb_max : Z;
  emb_service : Service;
}.

Definition set_service (s : Service) (e : Embedded) : Embedded :=
  mk_embedded (emb_ip e) (emb_port e) (emb_dir e) (emb_max e) s.

(** The worker's steps; an event for which it cannot move is skipped. *)
Definition run_worker (evs : list event) (s : Service) : Service :=
  foldl (λ s e, default s (worker_step e s)) s evs.

(** [stop()] up to [join]: the worker moves before the socket is shut down. *)
Definition begin_join (at_stop : list event) (s : Service) : Service :=
  stop_shutdown (run_worker at_stop (stop_begin s)).

(** [stop()]: the worker moves while the owner waits in [join]; [None] when the events
    do not bring it to its end. *)
Definition stop_member (at_stop at_join : list event) (s : Service) : option Service :=
  if running_ s then
    let s := run_worker at_join (begin_join at_stop s) in
    if bool_decide (worker s = Finished) || negb (joinable s) then Some (stop_join s) else None
  else Some s.

(** The moves that the worker makes on a list of events: those in which a handler goes
    on are not counted, nor those for which it cannot move. *)
Fixpoint moves_made (evs : list event) (s : Service) {struct evs} : nat :=
  match evs with
  | [] => 0
  | e :: evs =>
      match worker_step e s with
      | Some s' => (if decide (e = More) then 0 else 1) + moves_made evs s'
      | None => moves_made evs s
      end
  end.

(** ** Invariants *)

(** A service outside its members, in a process that is alive. *)
Definition resting (s : Service) : Prop :=
  service_inv s ∧ owner s = Outside ∧ terminated s = false.

Lemma worker_step_frame e s s' :
  worker_step e s = Some s' →
  owner s' = owner s ∧ joinable s' = joinable s ∧ terminated s' = terminated s ∧
  worker s' ≠ NotStarted.
Proof.
  destruct s as [r fd j w o l t]. unfold worker_step. cbn.
  destruct w, e; try done;
    repeat match goal with |- context [if ?b then _ else _] => destruct b end;
    by intros [= <-].
Qed.

(** A property of the states that the steps of the worker keep. *)
Lemma run_worker_ind (P : Service → Prop) evs s :
  (∀ e s s', P s → worker_step e s = Some s' → P s') → P s → P (run_worker evs s).
Proof.
  intros Hstep. revert s. induction evs as [|e evs IH]; intros s Hs; [done|]. cbn. apply IH.
  destruct (worker_step e s) as [s'|] eqn:E; [by eapply Hstep|done].
Qed.

Lemma run_worker_app evs evs' s : run_worker (evs ++ evs') s = run_worker evs' (run_worker evs s).
Proof. apply foldl_app. Qed.

Lemma run_worker_inv evs s : service_inv s → service_inv (run_worker evs s).
Proof. apply run_worker_ind. intros. by eapply worker_step_inv. Qed.

Lemma run_worker_frame evs s :
  owner (run_worker evs s) = owner s ∧ joinable (run_worker evs s) = joinable s ∧
  terminated (run_worker evs s) = terminated s.
Proof.
  apply (run_worker_ind (λ s', owner s' = owner s ∧ joinable s' = joinable s ∧
    terminated s' = terminated s)); [|done].
  intros e s1 s2 (<- & <- & <-) H. by destruct (worker_step_frame e s1 s2 H) as (? & ? & ? & _).
Qed.

Lemma run_worker_resting evs s : resting s → resting (run_worker evs s).
Proof.
  intros (Hi & Ho & Ht). destruct (run_worker_frame evs s) as (Eo & _ & Et).
  split; [by apply run_worker_inv|]. by rewrite Eo, Et.
Qed.

Lemma start_resting : resting (start new_service).
Proof. split; [split; cbn; naive_solver|done]. Qed.

(** What [stop] leaves behind. *)
Lemma stop_member_result at_stop at_join s s' :
  terminated s = false → stop_member at_stop at_join s = Some s' →
  terminated s' = false ∧ (running_ s = true → joinable s' = false) ∧ (running_ s = false → s' = s).
Proof.
  intros Ht. unfold stop_member. destruct (running_ s) eqn:Hr; [|by intros [= <-]].
  destruct (_ || _); [|done]. intros [= <-]. cbn. split; [|done].
  rewrite (proj2 (proj2 (run_worker_frame _ _))). unfold begin_join. cbn.
  rewrite (proj2 (proj2 (run_worker_frame _ _))). unfold stop_begin. by rewrite Hr.
Qed.

Lemma stop_begin_inv s : service_inv s → service_inv (stop_begin s).
Proof.
  intros Hs. unfold stop_begin. destruct (running_ s) eqn:Hr; [|done].
  destruct s, Hs. split; cbn in *; naive_solver.
Qed.

Lemma stop_shutdown_inv s : service_inv s → owner s = AtShutdown → service_inv (stop_shutdown s).
Proof. intros Hs Ho. destruct s, Hs. split; cbn in *; naive_solver. Qed.

Lemma begin_join_inv at_stop s :
  resting s → running_ s = true →
  service_inv (begin_join at_stop s) ∧ owner (begin_join at_stop s) = AtJoin.
Proof.
  intros (Hi & Ho & _) Hr. split; [|done]. apply stop_shutdown_inv.
  - by apply run_worker_inv, stop_begin_inv.
  - rewrite (proj1 (run_worker_frame _ _)). unfold stop_begin. by rewrite Hr.
Qed.

(** What the worker still does after it was told to stop. *)
Lemma moves_made_bound evs s :
  service_inv s → owner s = AtJoin →
  (moves_made evs s + remaining (run_worker evs s) ≤ remaining s)%nat.
Proof.
  revert s. induction evs as [|e evs IH]; intros s Hs Ho; [done|]. cbn.
  destruct (worker_step e s) as [s'|] eqn:E; cbn; [|by apply IH].
  pose proof (worker_step_inv _ _ _ Hs E) as Hs'. case_decide as He.
  - subst. apply more_step in E as [-> _]. by apply IH.
  - destruct (worker_move_joining e s s' He Hs Ho E) as [Ho' Hlt].
    specialize (IH s' Hs' Ho'). unfold run_worker in IH. lia.
Qed.

(** As long as [stop] does not return, the worker has made fewer than six moves since
    its socket was closed, and can make another. *)
Lemma stop_member_waits at_stop at_join s :
  resting s → stop_member at_stop at_join s = None →
  running_ s = true ∧ (moves_made at_join (begin_join at_stop s) < 6)%nat ∧
  can_move (run_worker at_join (begin_join at_stop s)).
Proof.
  intros Hrest. unfold stop_member. destruct (running_ s) eqn:Hr; [|done].
  destruct (begin_join_inv at_stop s Hrest Hr) as [Hi Ho].
  pose proof (moves_made_bound at_join _ Hi Ho) as Hm.
  pose proof (remaining_bound (begin_join at_stop s)) as Hb.
  pose proof (run_worker_inv at_join _ Hi) as Hi'.
  set (s' := run_worker at_join (begin_join at_stop s)) in *.
  destruct (bool_decide_reflect (worker s' = Finished)) as [Hf|Hf]; [done|].
  destruct (joinable s') eqn:Hj; [|done]. intros _. split; [done|].
  destruct (joining_can_move s') as [Hw|[Hw|Hw]]; [done|by destruct (inv_started _ Hi' Hj)|].
  split; [|done]. destruct (remaining s') eqn:Er; [|lia]. exfalso. unfold remaining in Er.
  destruct (worker s') eqn:Ew; try done. by destruct (inv_started _ Hi' Hj).
Qed.

(** ** A service whose worker does not fail *)

(** Only an [accept] on the closed socket fails. *)
Definition good_event (e : event) (s : Service) : Prop :=
  e ≠ Bad ∨ (worker s = AtAccept ∧ listening s = false).

Fixpoint good_run (evs : list event) (s : Service) : Prop :=
  match evs with
  | [] => True
  | e :: evs => good_event e s ∧ good_run evs (default s (worker_step e s))
  end.

Lemma good_run_tidy evs s : tidy s → good_run evs s → tidy (run_worker evs s).
Proof.
  revert s. induction evs as [|e evs IH]; intros s Hs Hg; [done|]. cbn in *. destruct Hg as [He Hg].
  apply IH; [|done]. destruct (worker_step e s) as [s'|] eqn:E; [|done].
  apply (good_step_tidy s); [done|].
  destruct e; [by apply good_worker| |by apply good_more].
  destruct He as [He|[? ?]]; [done|]. by apply good_closed.
Qed.

Lemma start_tidy : tidy (start new_service).
Proof.
  apply (good_step_tidy new_service); [|by apply good_start].
  split; [apply new_service_inv|cbn; naive_solver].
Qed.

(** Destroying what [stop] leaves behind ends well, unless the worker had failed. *)
Lemma stop_then_destroy at_stop at_join s s' :
  terminated s = false → stop_member at_stop at_join s = Some s' →
  terminated (destroy s') = negb (running_ s) && joinable s.
Proof.
  intros Ht Hs. destruct (stop_member_result _ _ _ _ Ht Hs) as (Ht' & Hrun & Hdead). cbn.
  rewrite Ht'. destruct (running_ s); [by rewrite Hrun|by rewrite Hdead].
Qed.

Lemma tidy_not_dead s :
  tidy s → owner s = Outside → negb (running_ s) && joinable s = false.
Proof.
  intros (_ & _ & Hj & _) Ho. destruct (running_ s); [done|]. by rewrite Hj.
Qed.
