(* ===== verification/MainWindow.v ===== *)
(** * The window of the graphical client

    Models [src/client/main_window.cpp]: the members and the widgets that carry
    state as records, one definition per member function.  A handler returns the
    new window; those that stop the embedded peer return [None] while they still
    wait for its thread.  Message boxes, lines of the log and the status line are
    values with their arguments; a box returns at once.  What the user answers to a
    dialog is an argument. *)

From S2P Require Import Prelude.
From S2P Require Import CxxStd.
From S2P Require Import Hex.
From S2P Require Import PeerEndpoint.
From S2P Require Import KademliaId.
From S2P Require Import FileSystem.
From S2P Require Import Manifest.
From S2P Require Import DssClient.
From S2P Require Import PeerLifecycle.
From S2P Require Import EmbeddedPeer.
From S2P Require Import Cli.
From S2P Require Import Worker.
From S2P Require Import Qt.

(** ** State *)

(** The members that the settings determine. *)
Record Config := mk_gui_config {
  peerEnabled_ : bool;
  peerMaxBytes_ : Z;
  peerPort_ : Z;
  peerStorageDir_ : str;
  localManifestDir_ : str;
  peerAdvertiseIp_ : str;
  bootstrapNodes_ : list str;
}.

(** What the user can edit. *)
Record Form := mk_form {
  putFileEdit_ : str;
  putChunkEdit_ : str;
  putReplicasSpin_ : Z;
  putRsaPublicEdit_ : str;
  getManifestEdit_ : str;
  getOutputEdit_ : str;
  getRsaPrivateEdit_ : str;
  repairReplicasSpin_ : Z;
  repairBatchSpin_ : Z;
  bootstrapSeedsEdit_ : str;
  advertiseIpEdit_ : str;
  settingsPeerEnabledCheck_ : bool;
  settingsPeerPortSpin_ : Z;
  settingsMaxGiBSpin_ : Z;
  settingsStorageDirEdit_ : str;
  settingsManifestDirEdit_ : str;
}.

(** The arguments of the last calls on the progress bar. *)
Record ProgressBar := mk_bar {
  bar_visible : bool;
  bar_max : Z;
  bar_value : option Z;
  bar_text : option (Z * Z * str);
}.

Inductive log_line :=
  | LogPutStarted (path : str)
  | LogEncryption
  | LogPutDone (shareId : str)
  | LogLocalManifest (path : str)
  | LogManifestUnreadable (what : str)
  | LogGetStarted (manifest output : str)
  | LogGetDone (output : str)
  | LogRepairStarted
  | LogRepairDone
  | LogError (message : str)
  | LogSettingsSaved (manifestDir : str) (port gib : Z)
  | LogNetworkSaved
  | LogPeerFailed (what : str).

Inductive box :=
  | NoPeersWarning (title : str)
  | Warning (text : str)
  | CannotCreate (message : str)
  | PutInformation (shareId localManifestPath : str)
  | GetInformation (outputPath : str)
  | RepairInformation
  | SettingsInformation
  | Critical (message : str).

Inductive status :=
  | Joining
  | ClientOnlyNoPeers
  | ClientOnly (count : Z)
  | NoReachablePeers (port mib : Z)
  | Routing (count : Z) (hasLocal : bool) (port mib : Z).

Record file_row := mk_file_row { row_shareId : str; row_name : str; row_size : str }.
Record peer_row := mk_peer_row { row_peer : str; row_online : bool; row_idHex : str }.

(** The invocations posted to the worker's thread. *)
Inductive Job :=
  | PutJob (peers path manifestDir : str) (chunkSize replicas : Z) (rsaPub : str)
  | GetJob (peers manifest output rsaPrv : str)
  | RepairJob (peers : str) (replicas batch : Z).

Record MainWindow := mk_window {
  config : Config;
  form : Form;
  settings : Settings;
  discoveredPeersCsv_ : str;
  bootstrapStatus : status;
  embeddedPeerService_ : option Embedded;
  progressBar_ : ProgressBar;
  logEdit_ : list log_line;
  messageBoxes : list box;
  filesTable_ : list file_row;
  peersTable_ : list peer_row;      (* the label of the network lists the same *)
  posted : list Job;
  crashed : bool;                   (* [std::terminate] was called *)
}.

Definition set_config c w := mk_window c (form w) (settings w) (discoveredPeersCsv_ w)
  (bootstrapStatus w) (embeddedPeerService_ w) (progressBar_ w) (logEdit_ w) (messageBoxes w)
  (filesTable_ w) (peersTable_ w) (posted w) (crashed w).
Definition set_form f w := mk_window (config w) f (settings w) (discoveredPeersCsv_ w)
  (bootstrapStatus w) (embeddedPeerService_ w) (progressBar_ w) (logEdit_ w) (messageBoxes w)
  (filesTable_ w) (peersTable_ w) (posted w) (crashed w).
Definition set_settings s w := mk_window (config w) (form w) s (discoveredPeersCsv_ w)
  (bootstrapStatus w) (embeddedPeerService_ w) (progressBar_ w) (logEdit_ w) (messageBoxes w)
  (filesTable_ w) (peersTable_ w) (posted w) (crashed w).
Definition set_discovered csv st w := mk_window (config w) (form w) (settings w) csv
  st (embeddedPeerService_ w) (progressBar_ w) (logEdit_ w) (messageBoxes w)
  (filesTable_ w) (peersTable_ w) (posted w) (crashed w).
Definition set_embedded e w := mk_window (config w) (form w) (settings w) (discoveredPeersCsv_ w)
  (bootstrapStatus w) e (progressBar_ w) (logEdit_ w) (messageBoxes w)
  (filesTable_ w) (peersTable_ w) (posted w) (crashed w).
Definition set_bar b w := mk_window (config w) (form w) (settings w) (discoveredPeersCsv_ w)
  (bootstrapStatus w) (embeddedPeerService_ w) b (logEdit_ w) (messageBoxes w)
  (filesTable_ w) (peersTable_ w) (posted w) (crashed w).
Definition log line w := mk_window (config w) (form w) (settings w) (discoveredPeersCsv_ w)
  (bootstrapStatus w) (embeddedPeerService_ w) (progressBar_ w) (logEdit_ w ++ [line])
  (messageBoxes w) (filesTable_ w) (peersTable_ w) (posted w) (crashed w).
Definition show b w := mk_window (config w) (form w) (settings w) (discoveredPeersCsv_ w)
  (bootstrapStatus w) (embeddedPeerService_ w) (progressBar_ w) (logEdit_ w)
  (messageBoxes w ++ [b]) (filesTable_ w) (peersTable_ w) (posted w) (crashed w).
Definition add_file_row r w := mk_window (config w) (form w) (settings w) (discoveredPeersCsv_ w)
  (bootstrapStatus w) (embeddedPeerService_ w) (progressBar_ w) (logEdit_ w) (messageBoxes w)
  (filesTable_ w ++ [r]) (peersTable_ w) (posted w) (crashed w).
Definition set_peer_rows l w := mk_window (config w) (form w) (settings w) (discoveredPeersCsv_ w)
  (bootstrapStatus w) (embeddedPeerService_ w) (progressBar_ w) (logEdit_ w) (messageBoxes w)
  (filesTable_ w) l (posted w) (crashed w).
Definition set_posted js w := mk_window (config w) (form w) (settings w) (discoveredPeersCsv_ w)
  (bootstrapStatus w) (embeddedPeerService_ w) (progressBar_ w) (logEdit_ w) (messageBoxes w)
  (filesTable_ w) (peersTable_ w) js (crashed w).
Definition crash_if b w := mk_window (config w) (form w) (settings w) (discoveredPeersCsv_ w)
  (bootstrapStatus w) (embeddedPeerService_ w) (progressBar_ w) (logEdit_ w) (messageBoxes w)
  (filesTable_ w) (peersTable_ w) (posted w) (crashed w || b).

(** [QMetaObject::invokeMethod(worker_, ..., Qt::QueuedConnection, ...)]. *)
Definition post (j : Job) (w : MainWindow) : MainWindow := set_posted (posted w ++ [j]) w.

(** The machine: the files, the errors of [create_directories], the application
    data directory, which addresses accept a connection in time, and whether a
    thread can be made. *)
Record Host := mk_host {
  host_env : Env;
  mkdir_error : str → option str;
  appData : str;
  connects : str → Z → bool;
  thread_error : option str;
}.

(** The steps of the embedded peer's thread while a handler runs. *)
Record Schedule := mk_schedule { at_stop : list event; at_join : list event; at_probe : list event }.

(** The names under which the settings are kept. *)
Definition key_initialized : str := lit "peer/settings_initialized".
Definition key_enabled : str := lit "peer/enabled".
Definition key_max_bytes : str := lit "peer/max_bytes".
Definition key_port : str := lit "peer/port".
Definition key_storage_dir : str := lit "peer/storage_dir".
Definition key_manifest_dir : str := lit "paths/local_manifest_dir".
Definition key_seeds : str := lit "network/bootstrap_seeds".
Definition key_advertise_ip : str := lit "network/advertise_ip".

Definition defaultSeeds : str := lit "127.0.0.1:9101,127.0.0.1:9102,127.0.0.1:9103".
Definition default_ip : str := lit "127.0.0.1".
Definition GiB : Z := 1024 * 1024 * 1024.

Section window.
Context {Q : Qt} {HS : Sha256}.

(** ** Settings *)

Definition nonempty_parts (l : list str) : list str := filter (λ t, t ≠ []) (map trim l).

Definition loadBootstrapSeedsFromSettings (s : Settings) : list str :=
  let seeds := toText (value s key_seeds (QText defaultSeeds)) in
  let nodes := nonempty_parts (split_commas seeds) in
  if bool_decide (nodes = []) then map trim (split_commas defaultSeeds) else nodes.

Definition data_dir (appData : str) : str := if bool_decide (appData = []) then lit "." else appData.
Definition default_storage (appData : str) : str := data_dir appData ++ lit "/peer-storage".
Definition default_manifests (appData : str) : str := data_dir appData ++ lit "/manifests".

(** What the user answers to the three questions of the first start. *)
Record Answers := mk_answers { contribute : bool; answer_gib : Z; answer_port : Z }.

(** [static_cast<std::uint64_t>(gib) * 1024ull * 1024ull * 1024ull]. *)
Definition max_bytes_of (gib : Z) : Z := u64 (u64 gib * GiB).

Definition set_default (k : str) (v : Variant) (s : Settings) : Settings :=
  if bool_decide (is_Some (s !! k)) then s else <[k := v]> s.

(** The settings that the first start writes. *)
Definition first_settings (a : Answers) (appData : str) (s : Settings) : Settings :=
  let s := <[key_manifest_dir := QText (default_manifests appData)]> s in
  let s := <[key_initialized := QBool true]> s in
  let s := <[key_enabled := QBool (contribute a)]> s in
  let s := <[key_max_bytes := QULongLong (max_bytes_of (answer_gib a))]> s in
  let s := <[key_port := QInt (answer_port a)]> s in
  let s := <[key_storage_dir := QText (default_storage appData)]> s in
  let s := set_default key_seeds (QText defaultSeeds) s in
  set_default key_advertise_ip (QText default_ip) s.

(** The address under which other peers reach this one. *)
Definition load_advertise_ip (s : Settings) : str :=
  let adv := trim (toText (value s key_advertise_ip (QText default_ip))) in
  if bool_decide (adv = []) then default_ip else adv.

Definition load_storage_dir (appData : str) (s : Settings) : str :=
  let dir := toText (value s key_storage_dir (QText [])) in
  if bool_decide (dir = []) then default_storage appData else dir.

Definition load_manifest_dir (appData : str) (s : Settings) : str :=
  let dir := trim (toText (value s key_manifest_dir (QText (default_manifests appData)))) in
  if bool_decide (dir = []) then default_manifests appData else dir.

Definition loadOrPromptPeerSettings (a : Answers) (appData : str) (s : Settings)
    : Config * Settings :=
  if negb (toBool (value s key_initialized (QBool false))) then
    let s' := first_settings a appData s in
    (mk_gui_config (contribute a) (max_bytes_of (answer_gib a)) (answer_port a)
       (default_storage appData) (default_manifests appData) (load_advertise_ip s')
       (loadBootstrapSeedsFromSettings s'), s')
  else
    (mk_gui_config (toBool (value s key_enabled (QBool true)))
       (toULongLong (value s key_max_bytes (QULongLong (5 * GiB))))
       (toInt (value s key_port (QInt 9101)))
       (load_storage_dir appData s) (load_manifest_dir appData s) (load_advertise_ip s)
       (loadBootstrapSeedsFromSettings s), s).

(** The whole gibibytes, within the range that the user can choose from. *)
Definition gib_shown (maxBytes : Z) : Z :=
  let gib := maxBytes / GiB in
  let gib := if gib <? 1 then 1 else gib in
  if 1024 <? gib then 1024 else gib.

Definition syncPeerSettingsToUi (w : MainWindow) : MainWindow :=
  let c := config w in let f := form w in
  set_form (mk_form (putFileEdit_ f) (putChunkEdit_ f) (putReplicasSpin_ f) (putRsaPublicEdit_ f)
    (getManifestEdit_ f) (getOutputEdit_ f) (getRsaPrivateEdit_ f) (repairReplicasSpin_ f)
    (repairBatchSpin_ f) (bootstrapSeedsEdit_ f) (advertiseIpEdit_ f) (peerEnabled_ c)
    (spin 1024 65535 (peerPort_ c)) (spin 1 1024 (gib_shown (peerMaxBytes_ c)))
    (peerStorageDir_ c) (localManifestDir_ c)) w.

(** ** The embedded peer *)

(** The thread of the embedded peer moves. *)
Definition tick (evs : list event) (w : MainWindow) : MainWindow :=
  set_embedded ((λ e, set_service (run_worker evs (emb_service e)) e) <$> embeddedPeerService_ w) w.

(** [embeddedPeerService_ && embeddedPeerService_->isRunning()]. *)
Definition peer_running (w : MainWindow) : bool :=
  match embeddedPeerService_ w with Some e => running_ (emb_service e) | None => false end.

(** The unique pointer gets a new value; the object it had is destroyed. *)
Definition replace_peer (e : option Embedded) (w : MainWindow) : MainWindow :=
  set_embedded e
    (crash_if (match embeddedPeerService_ w with
               | Some old => terminated (destroy (emb_service old))
               | None => false
               end) w).

Definition stopEmbeddedPeer (sched : Schedule) (w : MainWindow) : option MainWindow :=
  match embeddedPeerService_ w with
  | None => Some w
  | Some e =>
      s ← stop_member (at_stop sched) (at_join sched) (emb_service e);
      Some (replace_peer None (set_embedded (Some (set_service s e)) w))
  end.

Definition startEmbeddedPeerIfEnabled (host : Host) (w : MainWindow) : MainWindow :=
  let c := config w in
  if negb (peerEnabled_ c) then w
  else if peer_running w then w
  else if bool_decide (peerStorageDir_ c = []) then w
  else
    let e s := mk_embedded (peerAdvertiseIp_ c) (peerPort_ c) (peerStorageDir_ c)
                 (peerMaxBytes_ c) s in
    match thread_error host with
    | None => replace_peer (Some (e (start new_service))) w
    | Some what => set_embedded None (log (LogPeerFailed what) (replace_peer None w))
    end.

(** ** Discovery *)

(** [QStringLiteral("%1:%2").arg(ip).arg(port)]. *)
Definition shown_endpoint (p : PeerEndpoint) : str :=
  qarg (qarg (lit "%1:%2") (ip p)) (to_string (port p)).

(** One round of the loop over the seeds: the text of a peer that is reached. *)
Definition reached_seed (host : Host) (peerStrRaw : str) : option str :=
  let peerStr := trim peerStrRaw in
  if bool_decide (peerStr = []) then None
  else match parse_peer_entry peerStr with
       | Throw _ => None
       | Ok ep =>
           if port ep <=? 0 then None
           else if connects host (ip ep) (u16 (port ep)) then Some (shown_endpoint ep) else None
       end.

Definition local_peer (c : Config) : str :=
  qarg2 (lit "%1:%2") (peerAdvertiseIp_ c) (to_string (peerPort_ c)).

Definition status_of (c : Config) (merged : list str) (hasLocal : bool) : status :=
  let mib := peerMaxBytes_ c / (1024 * 1024) in
  if negb (peerEnabled_ c) then
    if bool_decide (merged = []) then ClientOnlyNoPeers else ClientOnly (zlen merged)
  else if bool_decide (merged = []) then NoReachablePeers (peerPort_ c) mib
  else Routing (zlen merged) hasLocal (peerPort_ c) mib.

(** The peers that are reached, and the embedded one. *)
Definition merged_peers (host : Host) (c : Config) (running : bool) : list str :=
  let merged := omap (reached_seed host) (bootstrapNodes_ c) in
  let merged :=
    if peerEnabled_ c && running then
      if bool_decide (local_peer c ∈ merged) then merged else merged ++ [local_peer c]
    else merged in
  removeDuplicates merged.

Definition discoverPeersFromBootstrap (host : Host) (evs : list event) (w : MainWindow)
    : MainWindow :=
  let w := tick evs w in
  let merged := merged_peers host (config w) (peer_running w) in
  set_discovered (joined merged) (status_of (config w) merged (peer_running w)) w.

Definition trackerIp (w : MainWindow) : str := trim (discoveredPeersCsv_ w).

(** ** Widgets *)

(** The widgets of a form before they are set up. *)
Definition no_widgets : Form := mk_form [] [] 0 [] [] [] [] 0 0 [] [] false 0 0 [] [].

Definition makePutTab (f : Form) : Form :=
  mk_form [] [] (spin 1 32 2) [] (getManifestEdit_ f) (getOutputEdit_ f) (getRsaPrivateEdit_ f)
    (repairReplicasSpin_ f) (repairBatchSpin_ f) (bootstrapSeedsEdit_ f) (advertiseIpEdit_ f)
    (settingsPeerEnabledCheck_ f) (settingsPeerPortSpin_ f) (settingsMaxGiBSpin_ f)
    (settingsStorageDirEdit_ f) (settingsManifestDirEdit_ f).

Definition makeGetTab (f : Form) : Form :=
  mk_form (putFileEdit_ f) (putChunkEdit_ f) (putReplicasSpin_ f) (putRsaPublicEdit_ f) [] [] []
    (repairReplicasSpin_ f) (repairBatchSpin_ f) (bootstrapSeedsEdit_ f) (advertiseIpEdit_ f)
    (settingsPeerEnabledCheck_ f) (settingsPeerPortSpin_ f) (settingsMaxGiBSpin_ f)
    (settingsStorageDirEdit_ f) (settingsManifestDirEdit_ f).

Definition makeRepairTab (f : Form) : Form :=
  mk_form (putFileEdit_ f) (putChunkEdit_ f) (putReplicasSpin_ f) (putRsaPublicEdit_ f)
    (getManifestEdit_ f) (getOutputEdit_ f) (getRsaPrivateEdit_ f) (spin 1 32 2) (spin 1 1000 50)
    (bootstrapSeedsEdit_ f) (advertiseIpEdit_ f) (settingsPeerEnabledCheck_ f)
    (settingsPeerPortSpin_ f) (settingsMaxGiBSpin_ f) (settingsStorageDirEdit_ f)
    (settingsManifestDirEdit_ f).

(** A spin box starts at 0 and is brought into the range it is given. *)
Definition makeSettingsTab (f : Form) : Form :=
  mk_form (putFileEdit_ f) (putChunkEdit_ f) (putReplicasSpin_ f) (putRsaPublicEdit_ f)
    (getManifestEdit_ f) (getOutputEdit_ f) (getRsaPrivateEdit_ f) (repairReplicasSpin_ f)
    (repairBatchSpin_ f) (bootstrapSeedsEdit_ f) (advertiseIpEdit_ f) false (spin 1024 65535 0)
    (spin 1 1024 0) [] [].

Definition makeNetworkTab (f : Form) : Form :=
  mk_form (putFileEdit_ f) (putChunkEdit_ f) (putReplicasSpin_ f) (putRsaPublicEdit_ f)
    (getManifestEdit_ f) (getOutputEdit_ f) (getRsaPrivateEdit_ f) (repairReplicasSpin_ f)
    (repairBatchSpin_ f) [] [] (settingsPeerEnabledCheck_ f) (settingsPeerPortSpin_ f)
    (settingsMaxGiBSpin_ f) (settingsStorageDirEdit_ f) (settingsManifestDirEdit_ f).

Definition setupUi (w : MainWindow) : MainWindow :=
  let f := makeNetworkTab (makeSettingsTab (makeRepairTab (makeGetTab (makePutTab (form w))))) in
  let w := syncPeerSettingsToUi (set_form f w) in
  set_bar (mk_bar false 0 None None) w.

(** The edits that a file dialog can fill. *)
Inductive Browse :=
  | BrowsePutFile
  | BrowseRsaPublic
  | BrowseManifest
  | BrowseOutput
  | BrowseRsaPrivate
  | BrowseManifestDir
  | BrowseStorageDir.

#[export] Instance Browse_eq_dec : EqDecision Browse.
Proof. solve_decision. Defined.

(** [setText] on the edit of a dialog. *)
Definition set_edit (b : Browse) (text : str) (f : Form) : Form :=
  let edit b' old := if decide (b = b') then text else old in
  mk_form (edit BrowsePutFile (putFileEdit_ f)) (putChunkEdit_ f) (putReplicasSpin_ f)
    (edit BrowseRsaPublic (putRsaPublicEdit_ f)) (edit BrowseManifest (getManifestEdit_ f))
    (edit BrowseOutput (getOutputEdit_ f)) (edit BrowseRsaPrivate (getRsaPrivateEdit_ f))
    (repairReplicasSpin_ f) (repairBatchSpin_ f) (bootstrapSeedsEdit_ f) (advertiseIpEdit_ f)
    (settingsPeerEnabledCheck_ f) (settingsPeerPortSpin_ f) (settingsMaxGiBSpin_ f)
    (edit BrowseStorageDir (settingsStorageDirEdit_ f))
    (edit BrowseManifestDir (settingsManifestDirEdit_ f)).

(** [QFile::exists]. *)
Definition exists_path (env : Env) (p : str) (fs : FS) : bool :=
  bool_decide (is_Some (read_file p fs)) || dir_exists env p.

(** Where the dialog for a manifest starts. *)
Definition manifest_start_dir (env : Env) (home : str) (fs : FS) (c : Config) : str :=
  if bool_decide (localManifestDir_ c = []) || negb (exists_path env (localManifestDir_ c) fs)
  then home else localManifestDir_ c.

(** What was chosen goes to the edit, unless the dialog was cancelled. *)
Definition choose (b : Browse) (path : str) (w : MainWindow) : MainWindow :=
  if bool_decide (path = []) then w else set_form (set_edit b path (form w)) w.

(** The buttons [Browse...]: [dialog] is what the user chooses when the dialog starts
    at a place, the empty one for the working directory. *)
Definition browse_put_file (dialog : str → str) : MainWindow → MainWindow :=
  choose BrowsePutFile (dialog []).

Definition browse_rsa_public (dialog : str → str) : MainWindow → MainWindow :=
  choose BrowseRsaPublic (dialog []).

Definition browse_manifest (env : Env) (home : str) (fs : FS) (dialog : str → str) (w : MainWindow)
    : MainWindow :=
  choose BrowseManifest (dialog (manifest_start_dir env home fs (config w))) w.

Definition browse_output (dialog : str → str) : MainWindow → MainWindow :=
  choose BrowseOutput (dialog []).

Definition browse_rsa_private (dialog : str → str) : MainWindow → MainWindow :=
  choose BrowseRsaPrivate (dialog []).

Definition browse_manifest_dir (dialog : str → str) (w : MainWindow) : MainWindow :=
  choose BrowseManifestDir (dialog (settingsManifestDirEdit_ (form w))) w.

Definition browse_storage_dir (dialog : str → str) (w : MainWindow) : MainWindow :=
  choose BrowseStorageDir (dialog (settingsStorageDirEdit_ (form w))) w.

Definition onBrowse (env : Env) (home : str) (fs : FS) (dialog : str → str) (b : Browse)
    : MainWindow → MainWindow :=
  match b with
  | BrowsePutFile => browse_put_file dialog
  | BrowseRsaPublic => browse_rsa_public dialog
  | BrowseManifest => browse_manifest env home fs dialog
  | BrowseOutput => browse_output dialog
  | BrowseRsaPrivate => browse_rsa_private dialog
  | BrowseManifestDir => browse_manifest_dir dialog
  | BrowseStorageDir => browse_storage_dir dialog
  end.

(** ** Opening and closing *)

Definition set_network_edits (c : Config) (f : Form) : Form :=
  mk_form (putFileEdit_ f) (putChunkEdit_ f) (putReplicasSpin_ f) (putRsaPublicEdit_ f)
    (getManifestEdit_ f) (getOutputEdit_ f) (getRsaPrivateEdit_ f) (repairReplicasSpin_ f)
    (repairBatchSpin_ f) (joined (bootstrapNodes_ c)) (peerAdvertiseIp_ c)
    (settingsPeerEnabledCheck_ f) (settingsPeerPortSpin_ f) (settingsMaxGiBSpin_ f)
    (settingsStorageDirEdit_ f) (settingsManifestDirEdit_ f).

(** The constructor. *)
Definition open_window (host : Host) (evs : list event) (a : Answers) (s : Settings) : MainWindow :=
  let '(c, s) := loadOrPromptPeerSettings a (appData host) s in
  let w := mk_window c no_widgets s [] Joining None (mk_bar false 0 None None)
             [] [] [] [] [] false in
  let w := setupUi w in
  let w := set_form (set_network_edits c (form w)) w in
  let w := startEmbeddedPeerIfEnabled host w in
  discoverPeersFromBootstrap host evs w.

(** The destructor.  The worker's thread is told to quit and waited for; it ends after
    the slot that it runs and those that it still begins: [slots_return] tells
    whether they do.  [None] while the destructor waits. *)
Definition close_window (sched : Schedule) (slots_return : bool) (w : MainWindow)
    : option MainWindow :=
  w ← stopEmbeddedPeer sched w;
  if crashed w || slots_return then Some w else None.

(** ** Settings that are applied

    What a handler sets is seen by other [QSettings] objects of the process at once,
    but it is written to the file when the handler returns to the event loop or its
    object is destroyed: not when the process is terminated before. *)

Definition restart_peer (host : Host) (sched : Schedule) (w : MainWindow) : option MainWindow :=
  w ← (if peer_running w then stopEmbeddedPeer sched w else Some w);
  let w := startEmbeddedPeerIfEnabled host w in
  Some (discoverPeersFromBootstrap host (at_probe sched) w).

Definition applied_config (f : Form) (manifestDir dir : str) (c : Config) : Config :=
  mk_gui_config (settingsPeerEnabledCheck_ f) (max_bytes_of (settingsMaxGiBSpin_ f))
    (settingsPeerPortSpin_ f) dir manifestDir (peerAdvertiseIp_ c) (bootstrapNodes_ c).

Definition applied_settings (c : Config) (s : Settings) : Settings :=
  let s := <[key_manifest_dir := QText (localManifestDir_ c)]> s in
  let s := <[key_enabled := QBool (peerEnabled_ c)]> s in
  let s := <[key_port := QInt (peerPort_ c)]> s in
  let s := <[key_max_bytes := QULongLong (peerMaxBytes_ c)]> s in
  <[key_storage_dir := QText (peerStorageDir_ c)]> s.

Definition onApplySettingsClicked (host : Host) (sched : Schedule) (w : MainWindow)
    : option MainWindow :=
  let f := form w in
  let manifestDir := trim (settingsManifestDirEdit_ f) in
  if bool_decide (manifestDir = []) then
    Some (show (Warning (lit "Manifest directory cannot be empty.")) w)
  else match mkdir_error host manifestDir with
  | Some message => Some (show (CannotCreate message) w)
  | None =>
      let dir := trim (settingsStorageDirEdit_ f) in
      if bool_decide (dir = []) then
        Some (show (Warning (lit "Storage directory cannot be empty.")) w)
      else
        let c := applied_config f manifestDir dir (config w) in
        let s := applied_settings c (settings w) in
        w ← restart_peer host sched (set_config c w);
        if crashed w then Some w
        else
          let w := log (LogSettingsSaved manifestDir (peerPort_ c) (settingsMaxGiBSpin_ f)) w in
          Some (show SettingsInformation (set_settings s w))
  end.

Definition set_seeds_edit (seeds : str) (f : Form) : Form :=
  mk_form (putFileEdit_ f) (putChunkEdit_ f) (putReplicasSpin_ f) (putRsaPublicEdit_ f)
    (getManifestEdit_ f) (getOutputEdit_ f) (getRsaPrivateEdit_ f) (repairReplicasSpin_ f)
    (repairBatchSpin_ f) seeds (advertiseIpEdit_ f)
    (settingsPeerEnabledCheck_ f) (settingsPeerPortSpin_ f) (settingsMaxGiBSpin_ f)
    (settingsStorageDirEdit_ f) (settingsManifestDirEdit_ f).

Definition applied_network (adv : str) (s : Settings) (c : Config) : Config :=
  mk_gui_config (peerEnabled_ c) (peerMaxBytes_ c) (peerPort_ c) (peerStorageDir_ c)
    (localManifestDir_ c) adv (loadBootstrapSeedsFromSettings s).

Definition onApplyNetworkSettingsClicked (host : Host) (sched : Schedule) (w : MainWindow)
    : option MainWindow :=
  let adv := trim (advertiseIpEdit_ (form w)) in
  if bool_decide (adv = []) then
    Some (show (Warning (lit "Advertise address cannot be empty.")) w)
  else
    let seeds := trim (bootstrapSeedsEdit_ (form w)) in
    let '(seeds, w) :=
      if bool_decide (seeds = []) then
        (defaultSeeds, set_form (set_seeds_edit defaultSeeds (form w)) w)
      else (seeds, w) in
    let s := <[key_advertise_ip := QText adv]> (<[key_seeds := QText seeds]> (settings w)) in
    w ← restart_peer host sched (set_config (applied_network adv s (config w)) w);
    if crashed w then Some w else Some (set_settings s (log LogNetworkSaved w)).

(** ** Jobs *)

Definition setBusy (busy : bool) (w : MainWindow) : MainWindow :=
  let b := progressBar_ w in
  set_bar (if busy then mk_bar true 0 (bar_value b) (bar_text b)
           else mk_bar false 100 (Some 100) (bar_text b)) w.

Definition onProgress (done total : Z) (message : str) (w : MainWindow) : MainWindow :=
  if 0 <? total then
    set_bar (mk_bar (bar_visible (progressBar_ w)) total (Some done) (Some (done, total, message))) w
  else w.

(** The chunk size that is asked for: the default for no number and for 0. *)
Definition chosen_chunk_size (chunkStr : str) : Z :=
  if bool_decide (chunkStr = []) then one_mebibyte
  else match parseULongLong chunkStr with
       | Some n => if n =? 0 then one_mebibyte else n
       | None => one_mebibyte
       end.

Definition onPutClicked (w : MainWindow) : MainWindow :=
  let f := form w in
  if bool_decide (trackerIp w = []) then show (NoPeersWarning (lit "Put")) w
  else
    let path := trim (putFileEdit_ f) in
    if bool_decide (path = []) then show (Warning (lit "Enter file path.")) w
    else
      let chunkSize := chosen_chunk_size (trim (putChunkEdit_ f)) in
      let w := log (LogPutStarted path) (setBusy true w) in
      let rsaPub := trim (putRsaPublicEdit_ f) in
      let w := if bool_decide (rsaPub = []) then w else log LogEncryption w in
      post (PutJob (trackerIp w) path (localManifestDir_ (config w)) chunkSize
              (putReplicasSpin_ f) rsaPub) w.

(** Name and size for the table, and a line for the log when there are none. *)
Definition manifest_columns (env : Env) (path : str) (fs : FS) : str * str * option log_line :=
  if exists_path env path fs then
    match readManifest env path fs with
    | Ok m => (originalName m, to_string (originalSize m), None)
    | Throw e => (lit "(unknown)", lit "-", Some (LogManifestUnreadable (what e)))
    end
  else (lit "(unknown)", lit "-", None).

Definition onPutFinished (env : Env) (fs : FS) (shareId localManifestPath : str) (w : MainWindow)
    : MainWindow :=
  let w := log (LogPutDone shareId) (setBusy false w) in
  let w := if bool_decide (localManifestPath = []) then w
           else log (LogLocalManifest localManifestPath) w in
  let w := show (PutInformation shareId localManifestPath) w in
  let '(nameText, sizeText, line) := manifest_columns env localManifestPath fs in
  let w := match line with Some l => log l w | None => w end in
  add_file_row (mk_file_row shareId nameText sizeText) w.

(** The invocation of [getFile] that both handlers end with. *)
Definition start_get (manifest output : str) (w : MainWindow) : MainWindow :=
  let w := log (LogGetStarted manifest output) (setBusy true w) in
  post (GetJob (trackerIp w) manifest output (trim (getRsaPrivateEdit_ (form w)))) w.

Definition onGetClicked (w : MainWindow) : MainWindow :=
  if bool_decide (trackerIp w = []) then show (NoPeersWarning (lit "Get")) w
  else
    let manifest := trim (getManifestEdit_ (form w)) in
    let output := trim (getOutputEdit_ (form w)) in
    if bool_decide (manifest = []) || bool_decide (output = []) then
      show (Warning (lit "Enter share ID (or manifest path) and output path.")) w
    else start_get manifest output w.

Definition onGetFinished (outputPath : str) (w : MainWindow) : MainWindow :=
  show (GetInformation outputPath) (log (LogGetDone outputPath) (setBusy false w)).

Definition onRepairClicked (w : MainWindow) : MainWindow :=
  if bool_decide (trackerIp w = []) then show (NoPeersWarning (lit "Repair")) w
  else
    let w := log LogRepairStarted (setBusy true w) in
    post (RepairJob (trackerIp w) (repairReplicasSpin_ (form w)) (repairBatchSpin_ (form w))) w.

Definition onRepairFinished (w : MainWindow) : MainWindow :=
  show RepairInformation (log LogRepairDone (setBusy false w)).

Definition onError (message : str) (w : MainWindow) : MainWindow :=
  show (Critical message) (log (LogError message) (setBusy false w)).

(** The name that the save dialog starts with. *)
Definition manifest_suffix : str := lit ".manifest.txt".

Definition suggested_name (shareId : str) : str :=
  let s := if starts_with share_prefix shareId then drop (length share_prefix) shareId
           else shareId in
  if bool_decide (manifest_suffix `suffix_of` s)
  then take (length s - length manifest_suffix) s else s.

(** The button of the row [row]; [save_dialog] is what the user makes of the
    suggested name, nothing when the dialog is cancelled. *)
Definition onDownloadButtonClicked (save_dialog : str → str) (row : nat) (w : MainWindow)
    : MainWindow :=
  match filesTable_ w !! row with
  | None => w
  | Some r =>
      let shareId := row_shareId r in
      if bool_decide (shareId = []) then w
      else if bool_decide (trackerIp w = []) then show (NoPeersWarning (lit "Get")) w
      else
        let output := save_dialog (suggested_name shareId) in
        if bool_decide (output = []) then w else start_get shareId output w
  end.

(** ** The table of peers *)

(** The rows, or the exception that leaves the slot. *)
Fixpoint peer_rows (host : Host) (parts : list str) : result (list peer_row) :=
  match parts with
  | [] => Ok []
  | part :: parts =>
      let peerStr := trim part in
      if bool_decide (peerStr = []) then peer_rows host parts
      else match parse_peer_entry peerStr with
           | Throw _ => peer_rows host parts
           | Ok ep =>
               id ← makeNodeId ep;
               rows ← peer_rows host parts;
               Ok (mk_peer_row (shown_endpoint ep) (connects host (ip ep) (u16 (port ep)))
                     (take 8 (toHex id)) :: rows)
           end
  end.

Definition refreshPeerMonitor (host : Host) (evs : list event) (w : MainWindow) : MainWindow :=
  let w := discoverPeersFromBootstrap host evs w in
  match peer_rows host (split_commas (trackerIp w)) with
  | Ok rows => set_peer_rows rows w
  | Throw _ => crash_if true w
  end.

(** ** Signals of the worker *)

Definition on_signal (env : Env) (fs : FS) (s : signal) (w : MainWindow) : MainWindow :=
  match s with
  | PutFinished shareId path => onPutFinished env fs shareId path w
  | GetFinished output => onGetFinished output w
  | Error message => onError message w
  end.
End window.
