(* ===== verification/MainWindowProps.v ===== *)
(** * What the window keeps

    Theorems about [MainWindow]: what is discovered is what the client uses, the
    settings that are kept are those of the window, they stay in their ranges, and
    when the embedded peer takes the process down and when it does not. *)

From S2P Require Import Prelude.
From S2P Require Import CxxStd.
From S2P Require Import Hex.
From S2P Require Import PeerEndpoint.
From S2P Require Import KademliaId.
From S2P Require Import FileSystem.
From S2P Require Import DssClient.
From S2P Require Import DssClientProps.
From S2P Require Import PeerLifecycle.
From S2P Require Import EmbeddedPeer.
From S2P Require Import Cli.
From S2P Require Import Worker.
From S2P Require Import Qt.
From S2P Require Import MainWindow.

(** Lines of the log that a started operation writes, and lines that end one. *)
Definition is_start (l : log_line) : bool :=
  match l with LogPutStarted _ | LogGetStarted _ _ | LogRepairStarted => true | _ => false end.
Definition is_end (l : log_line) : bool :=
  match l with LogPutDone _ | LogGetDone _ | LogRepairDone | LogError _ => true | _ => false end.

Definition started (w : MainWindow) : nat := length (filter is_start (logEdit_ w)).
Definition ended (w : MainWindow) : nat := length (filter is_end (logEdit_ w)).

(** Only the embedded peer, what is discovered and the log of failures change. *)
Record peer_only (w w' : MainWindow) : Prop := {
  po_config : config w' = config w;
  po_form : form w' = form w;
  po_settings : settings w' = settings w;
  po_bar : progressBar_ w' = progressBar_ w;
  po_files : filesTable_ w' = filesTable_ w;
  po_posted : posted w' = posted w;
  po_started : started w' = started w;
  po_ended : ended w' = ended w;
  po_alive : crashed w' = false → crashed w = false;
}.

#[export] Instance peer_only_preorder : PreOrder peer_only.
Proof.
  split; [done|]. intros w1 w2 w3 [] []. split; [congruence..|auto].
Qed.

Lemma started_log l w : started (log l w) = (started w + if is_start l then 1 else 0)%nat.
Proof.
  unfold started. cbn [logEdit_ log]. rewrite filter_app, length_app. f_equal.
  unfold filter. cbn. by destruct (is_start l).
Qed.

Lemma ended_log l w : ended (log l w) = (ended w + if is_end l then 1 else 0)%nat.
Proof.
  unfold ended. cbn [logEdit_ log]. rewrite filter_app, length_app. f_equal.
  unfold filter. cbn. by destruct (is_end l).
Qed.

Section peer_changes.
Context {Q : Qt} {HS : Sha256}.

Lemma tick_only evs w : peer_only w (tick evs w).
Proof. done. Qed.

Lemma replace_only e w : peer_only w (replace_peer e w).
Proof. split; try done. cbn. by destruct (crashed w). Qed.

Lemma stop_only sched w w' : stopEmbeddedPeer sched w = Some w' → peer_only w w'.
Proof.
  unfold stopEmbeddedPeer. destruct (embeddedPeerService_ w) as [e|]; [|by intros [= <-]].
  destruct (stop_member _ _ _); [|done]. intros [= <-]. etransitivity; [|apply replace_only]. done.
Qed.

Lemma start_only host w : peer_only w (startEmbeddedPeerIfEnabled host w).
Proof.
  unfold startEmbeddedPeerIfEnabled. destruct (negb _); [done|]. destruct (peer_running w); [done|].
  case_bool_decide; [done|]. destruct (thread_error host) as [what|]; [|apply replace_only].
  transitivity (replace_peer None w); [apply replace_only|]. split; try done.
  - etransitivity; [exact (started_log _ (replace_peer None w))|apply Nat.add_0_r].
  - etransitivity; [exact (ended_log _ (replace_peer None w))|apply Nat.add_0_r].
Qed.

Lemma discover_only host evs w : peer_only w (discoverPeersFromBootstrap host evs w).
Proof. done. Qed.

Lemma restart_only host sched w w' : restart_peer host sched w = Some w' → peer_only w w'.
Proof.
  unfold restart_peer. destruct (if peer_running w then _ else _) as [w1|] eqn:E; [|done].
  intros [= <-]. transitivity w1.
  - destruct (peer_running w); [by apply (stop_only sched)|by injection E as <-].
  - etransitivity; [apply start_only|apply discover_only].
Qed.
End peer_changes.

(** ** Discovery *)

(** A peer whose text means itself wherever the window uses it. *)
Definition plain_endpoint (p : PeerEndpoint) : Prop :=
  listed_ok p ∧ ("%"%char ∉ ip p) ∧ Forall visible (ip p).

(** A seed that is reached, and the peer it names. *)
Definition reaches (host : Host) `{Qt} (node : str) (p : PeerEndpoint) : Prop :=
  trim node ≠ [] ∧ parse_peer_entry (trim node) = Ok p ∧ 0 < port p ∧
  connects host (ip p) (u16 (port p)) = true.

Lemma digit_visible d : 0 ≤ d < 10 → visible (digit_char d).
Proof.
  intros Hd. assert (d = 0 ∨ d = 1 ∨ d = 2 ∨ d = 3 ∨ d = 4 ∨ d = 5 ∨ d = 6 ∨ d = 7 ∨ d = 8 ∨ d = 9)
    as Hc by lia.
  repeat (destruct Hc as [->|Hc]; [by_eval|]). subst. by_eval.
Qed.

Lemma visible_text_edges s : s ≠ [] → Forall visible s → visible_edges s.
Proof.
  intros Hne Hs. split.
  - destruct Hs as [|c s' Hc Hs]; [done|]. by exists c, s'.
  - destruct s as [|c s' _] using rev_ind; [done|]. exists s', c. split; [done|].
    by apply Forall_app in Hs as [_ [? _]%Forall_cons].
Qed.

Lemma endpoint_visible p : plain_endpoint p → Forall visible (endpoint_text p).
Proof.
  intros (_ & _ & Hv). apply Forall_app. split; [done|]. constructor; [by_eval|].
  apply to_string_forall; [by_eval|apply digit_visible].
Qed.

Lemma peers_text_visible ps : Forall plain_endpoint ps → Forall visible (peers_text ps).
Proof.
  unfold peers_text. induction 1 as [|p ps Hp Hps IH]; [constructor|].
  destruct ps as [|q ps]; cbn [map with_commas]; [by apply endpoint_visible|].
  apply Forall_app. split; [by apply endpoint_visible|]. constructor; [by_eval|done].
Qed.

Lemma peers_text_nonempty ps : peers_text ps = [] → ps = [].
Proof.
  unfold peers_text. destruct ps as [|p [|q ps]]; [done|..]; cbn [map with_commas]; intros E.
  - by destruct (endpoint_text_nonempty p).
  - apply app_eq_nil in E as [E _]. by destruct (endpoint_text_nonempty p).
Qed.

Lemma keep_listed ps : Forall listed_ok ps → keep_items (map endpoint_text ps) = ps.
Proof.
  intros Hps. destruct (decide (ps = [])) as [->|Hne]; [done|].
  apply keep_items_strict. pose proof (parse_peers_text ps Hps Hne) as E. revert E.
  unfold parse_peers. rewrite getlines_peers by done. m_unfold.
  destruct (parse_items _) as [qs|]; [|done]. case_bool_decide; [done|]. by intros [= ->].
Qed.

Lemma plain_endpoint_text_inj p q : plain_endpoint p → plain_endpoint q →
  endpoint_text p = endpoint_text q → p = q.
Proof.
  intros (Hp & _) (Hq & _) E. pose proof (parse_endpoint_text p) as Ep.
  pose proof (parse_endpoint_text q) as Eq. destruct Hp as (? & ? & _), Hq as (? & ? & _).
  rewrite E, Eq in Ep by done. by injection Ep.
Qed.

(** A dialog fills one edit or changes nothing. *)
Lemma browse_chooses `{Q : Qt} env home fs dialog b w :
  ∃ path, onBrowse env home fs dialog b w = choose b path w.
Proof. destruct b; by eexists. Qed.

Section discovery.
Context {Q : Qt} {QL : QtLaws} {HS : Sha256}.

Lemma shown_plain p : plain_endpoint p → shown_endpoint p = endpoint_text p.
Proof. intros (_ & Hp & _). by apply qarg_host_port. Qed.

Definition local_endpoint (c : Config) : PeerEndpoint := mk_endpoint (peerAdvertiseIp_ c) (peerPort_ c).

Lemma local_text c : local_peer c = endpoint_text (local_endpoint c).
Proof. apply qarg2_host_port. Qed.

Lemma reached_text host node t :
  (∀ p, reaches host node p → plain_endpoint p) →
  reached_seed host node = Some t ↔ ∃ p, reaches host node p ∧ t = endpoint_text p.
Proof.
  intros Hplain. unfold reached_seed, reaches in *. case_bool_decide as He.
  { split; [done|]. by intros (p & [? _] & _). }
  destruct (parse_peer_entry (trim node)) as [ep|e] eqn:E; [|by split; [|intros (p & (_ & ? & _) & _)]].
  destruct (Z.leb_spec (port ep) 0) as [Hp|Hp].
  { split; [done|]. intros (p & (_ & [= ->] & ? & _) & _). lia. }
  destruct (connects host (ip ep) (u16 (port ep))) eqn:Hc.
  - assert (shown_endpoint ep = endpoint_text ep) as Es by (apply shown_plain; by apply Hplain).
    split.
    + intros [= <-]. exists ep. by rewrite Es.
    + intros (p & (_ & [= ->] & _) & ->). by rewrite Es.
  - split; [done|]. intros (p & (_ & [= ->] & _ & ?) & _). congruence.
Qed.

(** The texts that are discovered are those of peers. *)
Lemma texts_of_peers (P : PeerEndpoint → Prop) l :
  (∀ t, t ∈ l → ∃ p, P p ∧ t = endpoint_text p) →
  ∃ ps, l = map endpoint_text ps ∧ Forall P ps.
Proof.
  induction l as [|t l IH]; intros Hl; [by exists []|].
  destruct (Hl t) as (p & Hp & ->); [by left|].
  destruct IH as (ps & -> & Hps); [intros; apply Hl; by right|]. exists (p :: ps).
  split; [done|]. by constructor.
Qed.

(** The peers to discover. *)
Definition to_discover (host : Host) (c : Config) (running : bool) (p : PeerEndpoint) : Prop :=
  (∃ node, node ∈ bootstrapNodes_ c ∧ reaches host node p) ∨
  (peerEnabled_ c = true ∧ running = true ∧ p = local_endpoint c).

Lemma elem_of_merged host c running t :
  (∀ p, to_discover host c running p → plain_endpoint p) →
  t ∈ merged_peers host c running ↔ ∃ p, to_discover host c running p ∧ t = endpoint_text p.
Proof.
  intros Hplain. unfold merged_peers, to_discover in *.
  set (seeds := omap (reached_seed host) (bootstrapNodes_ c)).
  assert (∀ u, u ∈ seeds ↔ ∃ p, (∃ node, node ∈ bootstrapNodes_ c ∧ reaches host node p) ∧
    u = endpoint_text p) as Hseeds.
  { intros u. unfold seeds. rewrite list_elem_of_omap. split.
    - intros (node & Hn & (p & Hp & ->)%reached_text); [|by eauto]. exists p. by eauto.
    - intros (p & (node & Hn & Hp) & ->). exists node. split; [done|].
      apply reached_text; [|by eauto]. eauto. }
  clearbody seeds.
  assert (∀ l : list str, t ∈ removeDuplicates l ↔ t ∈ l) as ->.
  { intros l. split; [|apply removeDuplicates_keeps]. intros Ht.
    eapply elem_of_submseteq; [exact Ht|]. apply sublist_submseteq, removeDuplicates_sublist. }
  destruct (peerEnabled_ c); cbn [andb]; [destruct running|].
  - rewrite local_text. transitivity (t ∈ seeds ∨ t = endpoint_text (local_endpoint c)).
    + destruct (bool_decide_reflect (endpoint_text (local_endpoint c) ∈ seeds)).
      * split; [by left|]. by intros [?| ->].
      * by rewrite elem_of_app, list_elem_of_singleton.
    + rewrite Hseeds. split.
      * intros [(p & Hp & ->)| ->]; [|eauto 6]. exists p. split; [by left|done].
      * intros (p & [Hp|(_ & _ & ->)] & ->); [left; by exists p|by right].
  - rewrite Hseeds. split; intros (p & Hp & ->); exists p; [by split; [left|]|].
    destruct Hp as [?|(_ & ? & _)]; done.
  - rewrite Hseeds. split; intros (p & Hp & ->); exists p; [by split; [left|]|].
    destruct Hp as [?|(? & _)]; done.
Qed.

Lemma merged_as_peers host c running :
  (∀ p, to_discover host c running p → plain_endpoint p) →
  ∃ ps, merged_peers host c running = map endpoint_text ps ∧ NoDup ps ∧
    Forall plain_endpoint ps ∧ ∀ p, p ∈ ps ↔ to_discover host c running p.
Proof.
  intros Hplain.
  destruct (texts_of_peers (to_discover host c running) (merged_peers host c running))
    as (ps & E & Hps); [intros t Ht; by apply elem_of_merged|].
  assert (Forall plain_endpoint ps) as Hpl by (eapply Forall_impl; [exact Hps|done]).
  exists ps. split; [done|]. split.
  - apply (NoDup_fmap_1 endpoint_text). change (NoDup (map endpoint_text ps)).
    rewrite <- E. apply removeDuplicates_NoDup.
  - split; [done|]. intros p. split; [by rewrite Forall_forall in Hps; apply Hps|].
    intros Hp. assert (endpoint_text p ∈ map endpoint_text ps) as Ht
      by (rewrite <- E; apply elem_of_merged; [done|by exists p]).
    apply list_elem_of_fmap in Ht as (q & Eq & Hq). rewrite Forall_forall in Hpl.
    by rewrite (plain_endpoint_text_inj p q (Hplain p Hp) (Hpl q Hq) Eq).
Qed.

(** C11. What the window discovers is what the client uses, for peers whose texts are
    plain (a visible host without a colon, a comma or a percent sign): the list that is handed
    to the worker is read back as peers without repetition, and they are exactly
    the seeds that are endpoints and accept a connection, and the embedded peer
    when it is enabled and runs. *)
Theorem discovery_feeds_client host evs w
    (Hplain : ∀ p, to_discover host (config w) (peer_running (tick evs w)) p → plain_endpoint p) :
  ∃ ps, keep_items (getlines "," (trackerIp (discoverPeersFromBootstrap host evs w))) = ps ∧
    NoDup ps ∧ ∀ p, p ∈ ps ↔ to_discover host (config w) (peer_running (tick evs w)) p.
Proof.
  destruct (merged_as_peers host (config w) (peer_running (tick evs w)) Hplain)
    as (ps & E & Hnd & Hpl & Hin).
  exists ps. split; [|by split]. unfold trackerIp.
  cbn [discoveredPeersCsv_ discoverPeersFromBootstrap set_discovered].
  change (config (tick evs w)) with (config w). rewrite E, joined_commas. fold (peers_text ps).
  assert (trim (peers_text ps) = peers_text ps) as ->.
  { destruct (decide (peers_text ps = [])) as [->|Hne]; [apply trim_nil|].
    apply trim_visible, visible_text_edges; [done|by apply peers_text_visible]. }
  assert (Forall listed_ok ps) as Hl by (eapply Forall_impl; [exact Hpl|by intros ? [? _]]).
  rewrite getlines_peers by done. by apply keep_listed.
Qed.
End discovery.

(** ** Settings *)

(** At the next start these members are loaded, whatever would be answered, and no
    setting changes. *)
Definition loads `{Qt} (appData : str) (s : Settings) (c : Config) : Prop :=
  toBool (value s key_initialized (QBool false)) = true ∧
  ∀ a, loadOrPromptPeerSettings a appData s = (c, s).

(** The ranges of the members. *)
Record config_ok `{Qt} (c : Config) : Prop := {
  ok_port : 1024 ≤ peerPort_ c ≤ 65535;
  ok_max : ∃ gib, 1 ≤ gib ≤ 1024 ∧ peerMaxBytes_ c = gib * GiB;
  ok_storage : peerStorageDir_ c ≠ [];
  ok_manifest : localManifestDir_ c ≠ [];
  ok_advertise : peerAdvertiseIp_ c ≠ [];
  ok_nodes : bootstrapNodes_ c ≠ [];
}.

Definition form_ok (f : Form) : Prop :=
  1 ≤ putReplicasSpin_ f ≤ 32 ∧ 1024 ≤ settingsPeerPortSpin_ f ≤ 65535 ∧
  1 ≤ settingsMaxGiBSpin_ f ≤ 1024.

(** The ranges of the questions at the first start. *)
Definition answers_ok (a : Answers) : Prop :=
  1 ≤ answer_gib a ≤ 1024 ∧ 1024 ≤ answer_port a ≤ 65535.

Lemma max_bytes_exact gib : 1 ≤ gib ≤ 1024 → max_bytes_of gib = gib * GiB.
Proof.
  intros Hg. unfold max_bytes_of, GiB. rewrite (u64_id gib) by lia. apply u64_id. lia.
Qed.

(** The spin box shows the number that the limit was made from. *)
Lemma gib_shown_max gib : 1 ≤ gib ≤ 1024 → gib_shown (max_bytes_of gib) = gib.
Proof.
  intros Hg. rewrite max_bytes_exact by done. unfold gib_shown, GiB.
  rewrite Z.div_mul by lia. destruct (Z.ltb_spec gib 1); [lia|].
  by destruct (Z.ltb_spec 1024 gib); [lia|].
Qed.

Lemma value_insert s k v d : value (<[k := v]> s) k d = v.
Proof. unfold value. by rewrite lookup_insert_eq. Qed.

Lemma value_insert_ne s k k' v d : k ≠ k' → value (<[k := v]> s) k' d = value s k' d.
Proof. intros. unfold value. by rewrite lookup_insert_ne. Qed.

Lemma value_default s k k' v d :
  k ≠ k' → value (set_default k v s) k' d = value s k' d.
Proof. intros. unfold set_default. case_bool_decide; [done|]. by apply value_insert_ne. Qed.

(** Reads a setting through the writes before it. *)
Ltac read_settings :=
  repeat first [rewrite value_insert | rewrite value_insert_ne by by_eval
               | rewrite value_default by by_eval].

Section settings.
Context {Q : Qt} {QL : QtLaws} {HS : Sha256}.

Lemma seeds_nonempty s : loadBootstrapSeedsFromSettings s ≠ [].
Proof.
  unfold loadBootstrapSeedsFromSettings. case_bool_decide as E; [|done].
  intros Hm. apply map_eq_nil in Hm.
  assert (split_commas defaultSeeds =
    [lit "127.0.0.1:9101"; lit "127.0.0.1:9102"; lit "127.0.0.1:9103"]) as Hd; [|by rewrite Hm in Hd].
  rewrite <- (split_joined [_; _; _]); [by rewrite joined_commas|].
  repeat (constructor; [split; [done|by_eval]|]). constructor.
Qed.

Lemma advertise_nonempty s : load_advertise_ip s ≠ [].
Proof. unfold load_advertise_ip. by case_bool_decide. Qed.

Lemma default_dirs a : default_storage a ≠ [] ∧ default_manifests a ≠ [].
Proof.
  unfold default_storage, default_manifests. split; intros E; by apply app_eq_nil in E as [_ E].
Qed.

(** Settings of a later start are loaded and left alone. *)
Lemma load_initialized a appData s :
  toBool (value s key_initialized (QBool false)) = true →
  loadOrPromptPeerSettings a appData s =
    (mk_gui_config (toBool (value s key_enabled (QBool true)))
       (toULongLong (value s key_max_bytes (QULongLong (5 * GiB))))
       (toInt (value s key_port (QInt 9101)))
       (load_storage_dir appData s) (load_manifest_dir appData s) (load_advertise_ip s)
       (loadBootstrapSeedsFromSettings s), s).
Proof. intros E. unfold loadOrPromptPeerSettings. by rewrite E. Qed.

Lemma first_start_loads a appData s c s' :
  trim (default_manifests appData) = default_manifests appData →
  loadOrPromptPeerSettings a appData s = (c, s') → loads appData s' c.
Proof.
  intros Happ. unfold loads. unfold loadOrPromptPeerSettings at 1.
  destruct (toBool (value s key_initialized (QBool false))) eqn:Hinit; cbn [negb].
  - intros [= <- <-]. split; [done|]. intros a'. by apply load_initialized.
  - intros [= <- <-]. set (s' := first_settings a appData s).
    assert (toBool (value s' key_initialized (QBool false)) = true) as Hi.
    { unfold s', first_settings. read_settings. apply toBool_bool. }
    split; [done|]. intros a'. rewrite load_initialized by done. f_equal.
    destruct (default_dirs appData) as [Hsd Hmd]. f_equal.
    + unfold s', first_settings. read_settings. apply toBool_bool.
    + unfold s', first_settings. read_settings. apply toULongLong_number.
    + unfold s', first_settings. read_settings. apply toInt_int.
    + unfold load_storage_dir, s', first_settings. read_settings. rewrite toText_text.
      by rewrite bool_decide_eq_false_2.
    + unfold load_manifest_dir, s', first_settings. read_settings. rewrite toText_text, Happ.
      by rewrite bool_decide_eq_false_2.
Qed.

Lemma applied_loads appData f md dir s0 c0 :
  loads appData s0 c0 → trim md = md → md ≠ [] → dir ≠ [] →
  let c := applied_config f md dir c0 in loads appData (applied_settings c s0) c.
Proof.
  intros [Hi Hl] Hmd Hne Hdir c. set (s := applied_settings c s0).
  assert (toBool (value s key_initialized (QBool false)) = true) as Hi'
    by (unfold s, applied_settings; by read_settings).
  split; [done|]. intros a.
  rewrite load_initialized by done. f_equal.
  specialize (Hl a). rewrite load_initialized in Hl by done. injection Hl as Hc.
  unfold c, applied_config. rewrite <- Hc. cbn [peerAdvertiseIp_ bootstrapNodes_]. f_equal.
  - unfold s, applied_settings. read_settings. apply toBool_bool.
  - unfold s, applied_settings. read_settings. apply toULongLong_number.
  - unfold s, applied_settings. read_settings. apply toInt_int.
  - unfold load_storage_dir, s, applied_settings. read_settings. rewrite toText_text.
    by rewrite bool_decide_eq_false_2.
  - unfold load_manifest_dir, s, applied_settings. read_settings. rewrite toText_text.
    cbn [localManifestDir_ c applied_config]. rewrite Hmd. by rewrite bool_decide_eq_false_2.
  - unfold load_advertise_ip, s, applied_settings. by read_settings.
  - unfold loadBootstrapSeedsFromSettings, s, applied_settings. by read_settings.
Qed.

Lemma network_loads appData adv seeds s0 c0 :
  loads appData s0 c0 → trim adv = adv → adv ≠ [] →
  let s := <[key_advertise_ip := QText adv]> (<[key_seeds := QText seeds]> s0) in
  loads appData s (applied_network adv s c0).
Proof.
  intros [Hi Hl] Hadv Hne s.
  assert (toBool (value s key_initialized (QBool false)) = true) as Hi'
    by (unfold s; by read_settings).
  split; [done|]. intros a.
  rewrite load_initialized by done. f_equal.
  specialize (Hl a). rewrite load_initialized in Hl by done. injection Hl as Hc.
  unfold applied_network. rewrite <- Hc. cbn [peerEnabled_ peerMaxBytes_ peerPort_ peerStorageDir_
    localManifestDir_]. f_equal.
  - unfold s. by read_settings.
  - unfold s. by read_settings.
  - unfold s. by read_settings.
  - unfold load_storage_dir, s. by read_settings.
  - unfold load_manifest_dir, s. by read_settings.
  - unfold load_advertise_ip, s. read_settings. rewrite toText_text, Hadv.
    by rewrite bool_decide_eq_false_2.
Qed.

End settings.

(** ** Applying settings *)

(** What every handler keeps: the settings are those of the window, or the process was
    terminated. *)
Record window_ok `{Qt} (appData : str) (w : MainWindow) : Prop := {
  wok_stored : ∃ c, loads appData (settings w) c ∧ config_ok c ∧
    (crashed w = false → c = config w);
  wok_config : config_ok (config w);
  wok_form : form_ok (form w);
}.

Section applying.
Context {Q : Qt} {QL : QtLaws} {HS : Sha256}.

Lemma window_ok_ext appData w w' :
  config w' = config w → settings w' = settings w → form w' = form w →
  (crashed w' = false → crashed w = false) →
  window_ok appData w → window_ok appData w'.
Proof.
  intros Ec Es Ef Ea [(c & Hl & Hc & Hs) ? ?].
  split; [exists c; rewrite Es, Ec; auto|by rewrite Ec|by rewrite Ef].
Qed.

Lemma window_ok_peer appData w w' : peer_only w w' → window_ok appData w → window_ok appData w'.
Proof. intros []. by apply window_ok_ext. Qed.

(** The cases of [onApplySettingsClicked]: a warning, or everything is applied. *)
Lemma apply_settings_cases host sched w w' :
  onApplySettingsClicked host sched w = Some w' →
  (∃ b, w' = show b w) ∨
  ∃ w1, let md := trim (settingsManifestDirEdit_ (form w)) in
    let dir := trim (settingsStorageDirEdit_ (form w)) in
    let c := applied_config (form w) md dir (config w) in
    md ≠ [] ∧ dir ≠ [] ∧
    restart_peer host sched (set_config c w) = Some w1 ∧
    w' = if crashed w1 then w1
         else show SettingsInformation (set_settings (applied_settings c (settings w))
                (log (LogSettingsSaved md (peerPort_ c) (settingsMaxGiBSpin_ (form w))) w1)).
Proof.
  unfold onApplySettingsClicked. case_bool_decide as Hm; [intros [= <-]; by eauto|].
  destruct (mkdir_error host _) as [m|]; [intros [= <-]; by eauto|].
  case_bool_decide as Hd; [intros [= <-]; by eauto|].
  destruct (restart_peer host sched _) as [w1|] eqn:E; [|done].
  cbn. intros H. right. exists w1. cbn zeta. split_and!; try done. by destruct (crashed w1); injection H as <-.
Qed.

(** The settings are written once the peer was restarted, unless that terminates the
    process: the ones from before are kept then. *)
Lemma written_ok appData w w1 c s :
  peer_only (set_config c w) w1 → window_ok appData w → config_ok c →
  (crashed w = false → loads appData (settings w) (config w) → loads appData s c) →
  window_ok appData (if crashed w1 then w1 else set_settings s w1).
Proof.
  intros Hp [(c0 & Hl & Hc0 & Hs) _ Hf] Hc Hloads.
  destruct (crashed w1) eqn:Ea.
  - split; [|by rewrite (po_config _ _ Hp)|by rewrite (po_form _ _ Hp)].
    exists c0. rewrite (po_settings _ _ Hp), Ea. by split_and!.
  - pose proof (po_alive _ _ Hp Ea) as Halive. cbn in Halive. specialize (Hs Halive). subst.
    split; cbn [config settings form crashed set_settings];
      [|by rewrite (po_config _ _ Hp)|by rewrite (po_form _ _ Hp)].
    exists c. rewrite (po_config _ _ Hp). by split_and!; auto.
Qed.

Lemma apply_settings_ok appData host sched w w' :
  onApplySettingsClicked host sched w = Some w' → window_ok appData w → window_ok appData w'.
Proof.
  intros [[b ->]|(w1 & Hmd & Hdir & Hr & ->)]%apply_settings_cases Hw;
    [by apply (window_ok_ext appData w)|].
  set (c := applied_config _ _ _ _) in *.
  assert (config_ok c) as Hc.
  { destruct Hw as [_ Hc Hf]. split; try apply Hc; [apply Hf| |done|done].
    exists (settingsMaxGiBSpin_ (form w)). split; [apply Hf|]. by apply max_bytes_exact, Hf. }
  pose proof (written_ok appData w w1 c (applied_settings c (settings w))
    (restart_only _ _ _ _ Hr) Hw Hc) as Hok.
  destruct (crashed w1); [|eapply window_ok_ext, Hok; try done]; [apply Hok|];
    intros _ Hl; apply applied_loads; done || apply trim_trim.
Qed.

Definition network_window (w : MainWindow) : str * MainWindow :=
  let seeds := trim (bootstrapSeedsEdit_ (form w)) in
  if bool_decide (seeds = []) then
    (defaultSeeds, set_form (set_seeds_edit defaultSeeds (form w)) w)
  else (seeds, w).

Lemma apply_network_cases host sched w w' :
  onApplyNetworkSettingsClicked host sched w = Some w' →
  (∃ b, w' = show b w) ∨
  ∃ w1, let adv := trim (advertiseIpEdit_ (form w)) in
    let '(seeds, w0) := network_window w in
    let s := <[key_advertise_ip := QText adv]> (<[key_seeds := QText seeds]> (settings w0)) in
    adv ≠ [] ∧
    restart_peer host sched (set_config (applied_network adv s (config w0)) w0) = Some w1 ∧
    w' = if crashed w1 then w1 else set_settings s (log LogNetworkSaved w1).
Proof.
  unfold onApplyNetworkSettingsClicked. case_bool_decide as Hm; [intros [= <-]; by eauto|].
  fold (network_window w). destruct (network_window w) as [seeds w0].
  destruct (restart_peer host sched _) as [w1|] eqn:E; [|done].
  cbn. intros H. right. exists w1. cbn zeta. split_and!; try done. by destruct (crashed w1); injection H as <-.
Qed.

Lemma network_window_ok appData w :
  window_ok appData w → window_ok appData (network_window w).2.
Proof. unfold network_window. case_bool_decide; [|done]. by intros []. Qed.

Lemma apply_network_ok appData host sched w w' :
  onApplyNetworkSettingsClicked host sched w = Some w' → window_ok appData w → window_ok appData w'.
Proof.
  intros [[b ->]|(w1 & H)]%apply_network_cases Hok; [by apply (window_ok_ext appData w)|].
  apply network_window_ok in Hok. destruct (network_window w) as [seeds w0]. cbn [snd] in Hok.
  destruct H as (Hadv & Hr & ->). set (s := <[_ := _]> _) in *.
  assert (config_ok (applied_network (trim (advertiseIpEdit_ (form w))) s (config w0))) as Hc.
  { destruct Hok as [_ Hc _]. split; try apply Hc; [done|apply seeds_nonempty]. }
  pose proof (written_ok appData w0 w1 _ s (restart_only _ _ _ _ Hr) Hok Hc) as Hw1.
  destruct (crashed w1); [|eapply window_ok_ext, Hw1; try done]; [apply Hw1|];
    intros _ Hl; apply network_loads; done || apply trim_trim.
Qed.

(** The window as it opens. *)
Lemma open_window_ok host evs a s :
  trim (default_manifests (appData host)) = default_manifests (appData host) →
  (toBool (value s key_initialized (QBool false)) = true →
     config_ok (loadOrPromptPeerSettings a (appData host) s).1) →
  answers_ok a → window_ok (appData host) (open_window host evs a s).
Proof.
  intros Happ Hold [Hg Hp]. unfold open_window.
  destruct (loadOrPromptPeerSettings a (appData host) s) as [c s'] eqn:E.
  eapply window_ok_peer; [apply discover_only|].
  eapply window_ok_peer; [apply start_only|].
  assert (config_ok c) as Hc; [|split; cbn [config settings form set_form setupUi set_bar
    syncPeerSettingsToUi]; [|done|]].
  - revert E Hold. unfold loadOrPromptPeerSettings. destruct (toBool _); cbn [negb fst].
    + intros [= <- <-] Hold. by apply Hold.
    + intros [= <- <-] _. destruct (default_dirs (appData host)). split; cbn; try done.
      * exists (answer_gib a). split; [done|by apply max_bytes_exact].
      * apply advertise_nonempty.
      * apply seeds_nonempty.
  - exists c. split; [by eapply first_start_loads|done].
  - split; [cbn; lia|]. split; cbn; [apply (spin_range 1024 65535); lia|apply (spin_range 1 1024); lia].
Qed.

(** ** The embedded peer and the process *)

(** The embedded peer has not failed, and the process is alive. *)
Definition peer_sound (w : MainWindow) : Prop :=
  crashed w = false ∧
  match embeddedPeerService_ w with
  | Some e => tidy (emb_service e) ∧ owner (emb_service e) = Outside
  | None => True
  end.

Lemma good_moves_tidy evs s : Forall (.≠ Bad) evs → tidy s → tidy (run_worker evs s).
Proof.
  intros Hg Hs. apply good_run_tidy; [done|]. clear Hs. revert s.
  induction Hg as [|e evs He _ IH]; intros s; [done|]. split; [by left|apply IH].
Qed.

Lemma tick_sound evs w : Forall (.≠ Bad) evs → peer_sound w → peer_sound (tick evs w).
Proof.
  intros Hg [Hc He]. split; [done|]. cbn. destruct (embeddedPeerService_ w) as [e|]; [|done]. cbn.
  destruct He as [Ht Ho]. split; [by apply good_moves_tidy|]. by rewrite (proj1 (run_worker_frame _ _)).
Qed.

Lemma stop_sound sched w w' :
  stopEmbeddedPeer sched w = Some w' → peer_sound w → peer_sound w'.
Proof.
  unfold stopEmbeddedPeer. intros E [Hc He].
  destruct (embeddedPeerService_ w) as [e|] eqn:Ee;
    [|injection E as <-; split; [done|by rewrite Ee]].
  destruct (stop_member _ _ _) as [s|] eqn:Es; [|done]. injection E as <-. split; [|done].
  cbn. rewrite Hc. destruct He as [Ht Ho].
  assert (terminated (emb_service e) = false) as Halive by apply Ht.
  pose proof (stop_then_destroy _ _ _ _ Halive Es) as Ed. cbn in Ed. rewrite Ed.
  by apply tidy_not_dead.
Qed.

Lemma replace_sound e w :
  peer_sound w → peer_running w = false →
  match e with Some e => tidy (emb_service e) ∧ owner (emb_service e) = Outside | None => True end →
  peer_sound (replace_peer e w).
Proof.
  intros [Hc He] Hr Hn. split; [|done]. cbn. rewrite Hc. unfold peer_running in Hr.
  destruct (embeddedPeerService_ w) as [old|]; [|done]. destruct He as [Ht Ho]. cbn.
  pose proof (tidy_not_dead _ Ht Ho) as Hd. rewrite Hr in Hd. cbn in Hd. rewrite Hd.
  by destruct Ht as (_ & -> & _).
Qed.

Lemma start_sound host w : peer_sound w → peer_sound (startEmbeddedPeerIfEnabled host w).
Proof.
  intros Hw. unfold startEmbeddedPeerIfEnabled. destruct (negb _); [done|].
  destruct (peer_running w) eqn:Hr; [done|]. case_bool_decide; [done|].
  destruct (thread_error host).
  - destruct (replace_sound None w Hw Hr I) as [Hc _]. by split.
  - apply replace_sound; [done|done|]. split; [apply start_tidy|done].
Qed.

Lemma discover_sound host evs w :
  Forall (.≠ Bad) evs → peer_sound w → peer_sound (discoverPeersFromBootstrap host evs w).
Proof. apply tick_sound. Qed.

Lemma restart_sound host sched w w' :
  Forall (.≠ Bad) (at_probe sched) → restart_peer host sched w = Some w' →
  peer_sound w → peer_sound w'.
Proof.
  unfold restart_peer. intros Hg E Hw.
  destruct (if peer_running w then _ else _) as [w1|] eqn:E1; [|done]. injection E as <-.
  apply discover_sound, start_sound; [done|].
  destruct (peer_running w); [by eapply stop_sound|by injection E1 as <-].
Qed.

(** A failed peer: its thread ended by itself. *)
Definition failed (s : Service) : Prop :=
  joinable s = true ∧ running_ s = false ∧ terminated s = false.

Lemma start_crashes host w e :
  embeddedPeerService_ w = Some e → failed (emb_service e) →
  peerEnabled_ (config w) = true → peerStorageDir_ (config w) ≠ [] →
  crashed (startEmbeddedPeerIfEnabled host w) = true.
Proof.
  intros He (Hj & Hr & Ht) Hen Hdir. unfold startEmbeddedPeerIfEnabled, peer_running.
  rewrite Hen, He, Hr. cbn [negb]. rewrite bool_decide_eq_false_2 by done.
  destruct (thread_error host); cbn; rewrite He; cbn; rewrite Hj, orb_true_r; apply orb_true_r.
Qed.

Lemma restart_crashes host sched w e :
  embeddedPeerService_ w = Some e → failed (emb_service e) →
  peerEnabled_ (config w) = true → peerStorageDir_ (config w) ≠ [] →
  ∃ w', restart_peer host sched w = Some w' ∧ crashed w' = true.
Proof.
  intros He Hf Hen Hdir. unfold restart_peer.
  assert (peer_running w = false) as -> by (unfold peer_running; rewrite He; apply Hf).
  eexists. split; [done|]. by apply (start_crashes host w e).
Qed.

(** C29. When the thread of the embedded peer has ended by itself (its port is taken,
    or a request made it throw), the window cannot be closed, nor any settings be
    applied with the peer enabled, without a call of [std::terminate]. *)
Theorem failed_peer_crashes_window host sched slots_return w e
    (He : embeddedPeerService_ w = Some e) (Hf : failed (emb_service e)) :
  (∃ w', close_window sched slots_return w = Some w' ∧ crashed w' = true) ∧
  (settingsPeerEnabledCheck_ (form w) = true → trim (settingsManifestDirEdit_ (form w)) ≠ [] →
   mkdir_error host (trim (settingsManifestDirEdit_ (form w))) = None →
   trim (settingsStorageDirEdit_ (form w)) ≠ [] →
   ∃ w', onApplySettingsClicked host sched w = Some w' ∧ crashed w' = true) ∧
  (peerEnabled_ (config w) = true → peerStorageDir_ (config w) ≠ [] →
   trim (advertiseIpEdit_ (form w)) ≠ [] →
   ∃ w', onApplyNetworkSettingsClicked host sched w = Some w' ∧ crashed w' = true).
Proof.
  split; [|split].
  - destruct Hf as (Hj & Hr & Ht). unfold close_window, stopEmbeddedPeer, stop_member.
    rewrite He, Hr. cbn. rewrite Hj, !orb_true_r. cbn. eexists. split; [done|]. cbn.
    by rewrite Hj, !orb_true_r.
  - intros Hen Hmd Hmk Hdir. unfold onApplySettingsClicked.
    rewrite bool_decide_eq_false_2, Hmk, bool_decide_eq_false_2 by done.
    set (w1 := set_config _ w).
    destruct (restart_crashes host sched w1 e) as (w2 & -> & Hc); [done..|]. cbn. rewrite Hc.
    by eexists.
  - intros Hen Hdir Hadv. unfold onApplyNetworkSettingsClicked.
    rewrite bool_decide_eq_false_2 by done. fold (network_window w).
    assert (∃ seeds w0, network_window w = (seeds, w0) ∧ config w0 = config w ∧
      embeddedPeerService_ w0 = Some e) as (seeds & w0 & -> & Ec & Ee).
    { unfold network_window. case_bool_decide; by eexists _, _. }
    set (w1 := set_config _ w0).
    destruct (restart_crashes host sched w1 e) as (w2 & -> & Hc);
      [done|done|by cbn; rewrite Ec|by cbn; rewrite Ec|]. cbn. rewrite Hc. by eexists.
Qed.

(** Settings whose application takes the process down are lost: they are not written
    yet then, so the next start loads the ones from before. *)
Theorem crash_loses_settings host sched w w'
    (H : onApplySettingsClicked host sched w = Some w' ∨
         onApplyNetworkSettingsClicked host sched w = Some w')
    (Hc : crashed w' = true) :
  settings w' = settings w.
Proof.
  destruct H as [[[b ->]|(w1 & _ & _ & Hr & ->)]%apply_settings_cases
                |[[b ->]|(w1 & H)]%apply_network_cases]; [done| |done|].
  - apply restart_only in Hr as []. destruct (crashed w1) eqn:E; [done|]. cbn in Hc. congruence.
  - assert (settings (network_window w).2 = settings w) as Es
      by (unfold network_window; by case_bool_decide).
    destruct (network_window w) as [seeds w0]. destruct H as (_ & Hr & ->). cbn in Es.
    apply restart_only in Hr as []. rewrite <- Es. destruct (crashed w1) eqn:E; [done|].
    cbn in Hc. congruence.
Qed.
End applying.

(** ** Witnesses *)

(** A machine on which every address accepts a connection, the first start on it,
    and the window that opens. *)
Definition demo_host : Host := mk_host client_env (λ _, None) (lit "/home/u") (λ _ _, true) None.

Definition demo_answers : Answers := mk_answers true 5 9101.

Definition demo_window (evs : list event) : MainWindow :=
  open_window (Q := plain_qt) demo_host evs demo_answers ∅.

Lemma demo_nodes evs :
  bootstrapNodes_ (config (demo_window evs)) = map endpoint_text demo_peers.
Proof. vm_compute. reflexivity. Qed.

Lemma demo_plain p : p ∈ demo_peers → plain_endpoint p.
Proof.
  intros Hp. split; [|split].
  - pose proof demo_peers_listed as H. rewrite Forall_forall in H. by apply H.
  - unfold demo_peers in Hp. rewrite !elem_of_cons, elem_of_nil in Hp.
    destruct Hp as [->|[->|[->|[]]]]; by_eval.
  - unfold demo_peers in Hp. rewrite !elem_of_cons, elem_of_nil in Hp.
    destruct Hp as [->|[->|[->|[]]]]; by_eval.
Qed.

Lemma demo_discovers p :
  to_discover (Q := plain_qt) demo_host (config (demo_window [])) true p → plain_endpoint p.
Proof.
  intros Hp. apply demo_plain. destruct Hp as [(node & Hn & _ & Hp & _)|(_ & _ & ->)]; [|by_eval].
  rewrite demo_nodes in Hn. cbn [map demo_peers] in Hn. rewrite !elem_of_cons, elem_of_nil in Hn.
  destruct Hn as [->|[->|[->|[]]]]; vm_compute in Hp; injection Hp as <-; by_eval.
Qed.

Lemma discovery_feeds_client_witness :
  ∃ ps, keep_items (getlines "," (trackerIp (Q := plain_qt)
          (discoverPeersFromBootstrap (Q := plain_qt) demo_host [] (demo_window [])))) = ps ∧
    NoDup ps ∧ ∀ p, p ∈ ps ↔
      to_discover (Q := plain_qt) demo_host (config (demo_window []))
        (peer_running (tick [] (demo_window []))) p.
Proof.
  exact (discovery_feeds_client (Q := plain_qt) demo_host [] (demo_window []) demo_discovers).
Defined.

(** The port of the embedded peer is taken: [bind] fails while the seeds are
    probed. *)
Definition dead_window : MainWindow := demo_window [Good; Good; Bad].

Definition dead_peer : Embedded :=
  mk_embedded (lit "127.0.0.1") 9101 (lit "/home/u/peer-storage") (5 * GiB)
    (run_worker [Good; Good; Bad] (start new_service)).

Lemma failed_peer_crashes_window_witness :
  (∃ w', close_window (mk_schedule [] [] []) false dead_window = Some w' ∧ crashed w' = true) ∧
  (∃ w', onApplySettingsClicked (Q := plain_qt) demo_host (mk_schedule [] [] []) dead_window =
         Some w' ∧ crashed w' = true).
Proof.
  assert (embeddedPeerService_ dead_window = Some dead_peer) as He by (vm_compute; reflexivity).
  destruct (failed_peer_crashes_window (Q := plain_qt) demo_host (mk_schedule [] [] []) false
    dead_window dead_peer He (conj eq_refl (conj eq_refl eq_refl))) as (H1 & H2 & _).
  split; [exact H1|]. apply H2; by_eval.
Defined.

Definition set_port (p : Z) (f : Form) : Form :=
  mk_form (putFileEdit_ f) (putChunkEdit_ f) (putReplicasSpin_ f) (putRsaPublicEdit_ f)
    (getManifestEdit_ f) (getOutputEdit_ f) (getRsaPrivateEdit_ f) (repairReplicasSpin_ f)
    (repairBatchSpin_ f) (bootstrapSeedsEdit_ f) (advertiseIpEdit_ f)
    (settingsPeerEnabledCheck_ f) p (settingsMaxGiBSpin_ f) (settingsStorageDirEdit_ f)
    (settingsManifestDirEdit_ f).

(** The user moves the peer to another port after the port it had was taken. *)
Definition dead_edited : MainWindow :=
  set_form (set_port 9200 (form dead_window)) dead_window.

Lemma crash_loses_settings_witness :
  ∃ w', onApplySettingsClicked (Q := plain_qt) demo_host (mk_schedule [] [] []) dead_edited = Some w' ∧
    peerPort_ (config w') = 9200 ∧ settings w' = settings dead_edited.
Proof.
  eexists. split; [vm_compute; reflexivity|]. split; [vm_compute; reflexivity|].
  apply (crash_loses_settings (Q := plain_qt) demo_host (mk_schedule [] [] []) dead_edited);
    [left; vm_compute; reflexivity|vm_compute; reflexivity].
Defined.
