(* ===== verification/Desktop.v ===== *)
(** * The graphical client at work

    The two threads of the graphical client and their event queues: the window
    posts invocations to the worker's thread, the slots of [DssWorker] run one
    after the other, and their signals are queued for the window, as
    [Qt::QueuedConnection] says.  The user edits and clicks at any time, the thread
    of the embedded peer moves at any time, and the work of a slot, its signals and
    their delivery interleave in any way.  A slot that waits for a peer may never
    return, for the client's connections have no timeouts: the worker's thread hangs
    in it then, and the window goes on. *)

From S2P Require Import Prelude.
From S2P Require Import CxxStd.
From S2P Require Import Hex.
From S2P Require Import PeerEndpoint.
From S2P Require Import FileSystem.
From S2P Require Import Manifest.
From S2P Require Import Hybrid.
From S2P Require Import DssClient.
From S2P Require Import DssClientProps.
From S2P Require Import PeerLifecycle.
From S2P Require Import EmbeddedPeer.
From S2P Require Import Cli.
From S2P Require Import Worker.
From S2P Require Import Qt.
From S2P Require Import MainWindow.
From S2P Require Import MainWindowProps.

(** A queued call of a slot of the window. *)
Inductive gui_signal :=
  | Progressed (p : Progress)
  | Done (s : signal).

Record Desktop (W : Type) := mk_desktop {
  window : MainWindow;
  world : World W;
  emitting : list gui_signal;   (* what the running slot still has to emit *)
  queue : list gui_signal;      (* emitted, not yet delivered *)
  hanging : option Job;         (* a slot that never returns *)
}.
Arguments mk_desktop {W}.
Arguments window {W}.
Arguments world {W}.
Arguments emitting {W}.
Arguments queue {W}.
Arguments hanging {W}.

(** What a job runs in: the machine, the working directory and what the random
    generator returns. *)
Record JobEnv := mk_job_env {
  job_env : Env;
  job_cwd : str;
  job_rand : option (list Z * list Z);
}.

(** What can happen. *)
Inductive desk_event :=
  | EditForm (f : Form)
  | ClickBrowse (env : Env) (home : str) (dialog : str → str) (b : Browse)
  | ClickPut
  | ClickGet
  | ClickRepair
  | ClickDownload (save_dialog : str → str) (row : nat)
  | ClickApply (host : Host) (sched : Schedule)
  | ClickApplyNetwork (host : Host) (sched : Schedule)
  | ClickRefresh (host : Host) (evs : list event)
  | PeerMoves (e : event)
  | RunJob (env : JobEnv)
  | HangJob (fs : FS) (ps : list Progress)
  | Emit
  | Deliver (env : Env).

Definition is_done (s : gui_signal) : bool := match s with Done _ => true | Progressed _ => false end.
Definition count_done (l : list gui_signal) : nat := length (filter is_done l).

Lemma count_done_app l l' : count_done (l ++ l') = (count_done l + count_done l')%nat.
Proof. unfold count_done. by rewrite filter_app, length_app. Qed.

Lemma count_done_cons s l :
  count_done (s :: l) = ((if is_done s then 1 else 0) + count_done l)%nat.
Proof. unfold count_done, filter. cbn. by destruct (is_done s). Qed.

Lemma count_done_progress l : count_done (map Progressed l) = 0%nat.
Proof. induction l as [|p l IH]; [done|]. cbn [map]. by rewrite count_done_cons. Qed.

(** The updates that leave the counts alone. *)
Lemma started_show b w : started (show b w) = started w. Proof. done. Qed.
Lemma ended_show b w : ended (show b w) = ended w. Proof. done. Qed.
Lemma started_busy b w : started (setBusy b w) = started w. Proof. done. Qed.
Lemma ended_busy b w : ended (setBusy b w) = ended w. Proof. done. Qed.
Lemma started_settings s w : started (set_settings s w) = started w. Proof. done. Qed.
Lemma ended_settings s w : ended (set_settings s w) = ended w. Proof. done. Qed.
Lemma started_post j w : started (post j w) = started w. Proof. done. Qed.
Lemma ended_post j w : ended (post j w) = ended w. Proof. done. Qed.
Lemma started_row r w : started (add_file_row r w) = started w. Proof. done. Qed.
Lemma ended_row r w : ended (add_file_row r w) = ended w. Proof. done. Qed.
Lemma posted_log l w : posted (log l w) = posted w. Proof. done. Qed.
Lemma posted_busy b w : posted (setBusy b w) = posted w. Proof. done. Qed.
Lemma posted_post j w : length (posted (post j w)) = S (length (posted w)).
Proof. cbn. rewrite length_app. cbn. lia. Qed.

Create Rewrite HintDb counts.
#[export] Hint Rewrite started_show ended_show started_busy ended_busy started_post ended_post
  started_settings ended_settings started_row ended_row started_log ended_log posted_log posted_busy posted_post : counts.

Ltac count := autorewrite with counts; cbn [is_start is_end]; lia.

Section desktop.
Context {Q : Qt} {HS : Sha256} {HA : AesGcm} {HR : Rsa} {W : Type} {HP : PeerApi W}.

(** The slot of the worker that a job calls, when every call to a peer that it makes
    returns or throws. *)
Definition run_job (je : JobEnv) (j : Job) : M (World W) signal :=
  match j with
  | PutJob peers_ path dir chunkSize replicas rsaPub =>
      worker_put trim (job_env je) (job_cwd je) (job_rand je) peers_ path dir chunkSize replicas rsaPub
  | GetJob peers_ manifest output rsaPrv => worker_get trim (job_env je) peers_ manifest output rsaPrv
  | RepairJob _ _ _ => worker_repair
  end.

Definition set_window (w : MainWindow) (d : Desktop W) : Desktop W :=
  mk_desktop w (world d) (emitting d) (queue d) (hanging d).

(** What was reported since. *)
Definition new_reports (w w' : World W) : list Progress :=
  drop (length (reported w)) (reported w').

(** The slot runs; what it reports it emits, then the signal of its end. *)
Definition job_step (je : JobEnv) (d : Desktop W) : option (Desktop W) :=
  match posted (window d), emitting d, hanging d with
  | j :: js, [], None =>
      match run_job je j (world d) with
      | (Ok s, w1) =>
          Some (mk_desktop (set_posted js (window d)) w1
                  (map Progressed (new_reports (world d) w1) ++ [Done s]) (queue d) None)
      | (Throw _, _) => None
      end
  | _, _, _ => None
  end.

(** The slots that talk to peers. *)
Definition may_hang (j : Job) : bool :=
  match j with PutJob _ _ _ _ _ _ | GetJob _ _ _ _ => true | RepairJob _ _ _ => false end.

(** The slot waits for a peer that neither answers nor closes: by then it has
    reported [ps] and left the files as [fs], and it never ends.  What it left on the
    peers does not matter to this client, which asks them nothing any more. *)
Definition hang_step (fs : FS) (ps : list Progress) (d : Desktop W) : option (Desktop W) :=
  match posted (window d), emitting d, hanging d with
  | j :: js, [], None =>
      if may_hang j then
        Some (mk_desktop (set_posted js (window d)) (mk_world (net (world d)) fs (reported (world d)))
                (map Progressed ps) (queue d) (Some j))
      else None
  | _, _, _ => None
  end.

Definition emit_step (d : Desktop W) : option (Desktop W) :=
  match emitting d with
  | s :: ss => Some (mk_desktop (window d) (world d) ss (queue d ++ [s]) (hanging d))
  | [] => None
  end.

Definition on_gui_signal (env : Env) (fs : FS) (s : gui_signal) (w : MainWindow) : MainWindow :=
  match s with
  | Progressed p => onProgress (done_ p) (total_ p) (message p) w
  | Done s => on_signal env fs s w
  end.

Definition deliver_step (env : Env) (d : Desktop W) : option (Desktop W) :=
  match queue d with
  | s :: ss =>
      Some (mk_desktop (on_gui_signal env (files (world d)) s (window d)) (world d) (emitting d) ss
              (hanging d))
  | [] => None
  end.

(** One event; [None] when it cannot happen, as nothing can after the process was
    terminated. *)
Definition desk_step (ev : desk_event) (d : Desktop W) : option (Desktop W) :=
  let w := window d in
  if crashed w then None
  else match ev with
  | EditForm f => Some (set_window (set_form f w) d)
  | ClickBrowse env home dialog b =>
      Some (set_window (onBrowse env home (files (world d)) dialog b w) d)
  | ClickPut => Some (set_window (onPutClicked w) d)
  | ClickGet => Some (set_window (onGetClicked w) d)
  | ClickRepair => Some (set_window (onRepairClicked w) d)
  | ClickDownload save_dialog row => Some (set_window (onDownloadButtonClicked save_dialog row w) d)
  | ClickApply host sched => (λ w, set_window w d) <$> onApplySettingsClicked host sched w
  | ClickApplyNetwork host sched =>
      (λ w, set_window w d) <$> onApplyNetworkSettingsClicked host sched w
  | ClickRefresh host evs => Some (set_window (refreshPeerMonitor host evs w) d)
  | PeerMoves e => Some (set_window (tick [e] w) d)
  | RunJob je => job_step je d
  | HangJob fs ps => hang_step fs ps d
  | Emit => emit_step d
  | Deliver env => deliver_step env d
  end.

(** The window is closed; the slots that the worker's thread still begins return if
    [later] says so. *)
Definition desk_close (sched : Schedule) (later : bool) (d : Desktop W) : option MainWindow :=
  close_window sched (bool_decide (hanging d = None) && later) (window d).

(** The program as it starts. *)
Definition open_desktop (host : Host) (evs : list event) (a : Answers) (s : Settings)
    (w : World W) : Desktop W :=
  mk_desktop (open_window host evs a s) w [] [] None.

(** What is typed into a spin box is in its range. *)
Definition user_event (ev : desk_event) : Prop :=
  match ev with EditForm f => form_ok f | _ => True end.

Definition step_of (ok : desk_event → Prop) (d d' : Desktop W) : Prop :=
  ∃ ev, ok ev ∧ desk_step ev d = Some d'.

(** The states that a user can bring about. *)
Definition desk_reachable (host : Host) (a : Answers) (s : Settings) (d : Desktop W) : Prop :=
  ∃ evs w, rtc (step_of user_event) (open_desktop host evs a s w) d.

(** The worker's thread and the deliveries, without the user. *)
Definition background_event (ev : desk_event) : Prop :=
  match ev with RunJob _ | HangJob _ _ | Emit | Deliver _ => True | _ => False end.

Definition background : relation (Desktop W) := step_of background_event.

(** ** The effect of the handlers on what is counted *)

(** A slot that hangs. *)
Definition hung (d : Desktop W) : nat := match hanging d with Some _ => 1 | None => 0 end.

(** Operations that are posted, running or about to be reported. *)
Definition in_flight (d : Desktop W) : nat :=
  (length (posted (window d)) + hung d + count_done (emitting d ++ queue d))%nat.

(** A handler starts as many operations as it posts, and ends none. *)
Definition starts_what_it_posts (w w' : MainWindow) : Prop :=
  ended w' = ended w ∧
  (∃ n, started w' = (started w + n)%nat ∧ length (posted w') = (length (posted w) + n)%nat) ∧
  (bar_visible (progressBar_ w') = true → bar_visible (progressBar_ w) = true ∨ posted w' ≠ []).

(** Nothing is started. *)
Lemma swp_none w w' :
  ended w' = ended w → started w' = started w → posted w' = posted w →
  progressBar_ w' = progressBar_ w → starts_what_it_posts w w'.
Proof.
  intros He Hs Hp Hb. split; [done|]. split; [|rewrite Hb; by left].
  exists 0%nat. rewrite Hs, Hp. lia.
Qed.

Lemma swp_refl w : starts_what_it_posts w w.
Proof. by apply swp_none. Qed.

Lemma swp_show b w : starts_what_it_posts w (show b w).
Proof. by apply swp_none. Qed.

Lemma swp_peer w w' : peer_only w w' → starts_what_it_posts w w'.
Proof. intros []. by apply swp_none. Qed.

Lemma edit_swp f w : starts_what_it_posts w (set_form f w).
Proof. by apply swp_none. Qed.

Lemma browse_swp env home fs dialog b w : starts_what_it_posts w (onBrowse env home fs dialog b w).
Proof.
  destruct (browse_chooses env home fs dialog b w) as [path ->]. unfold choose.
  case_bool_decide; [apply swp_refl|apply edit_swp].
Qed.

Lemma tick_swp evs w : starts_what_it_posts w (tick evs w).
Proof. by apply swp_none. Qed.

(** One operation is started. *)
Lemma swp_one w w' j :
  ended w' = ended w → started w' = S (started w) → posted w' = posted w ++ [j] →
  starts_what_it_posts w w'.
Proof.
  intros He Hs Hp. split; [done|]. rewrite Hs, Hp, length_app. cbn [length].
  split; [exists 1%nat; lia|]. intros _. right. by destruct (posted w).
Qed.

Lemma put_swp w : starts_what_it_posts w (onPutClicked w).
Proof.
  unfold onPutClicked. case_bool_decide; [apply swp_show|]. case_bool_decide; [apply swp_show|].
  case_bool_decide; eapply swp_one; try done; count.
Qed.

Lemma start_get_swp m o w : starts_what_it_posts w (start_get m o w).
Proof. unfold start_get. eapply swp_one; try done; count. Qed.

Lemma get_swp w : starts_what_it_posts w (onGetClicked w).
Proof.
  unfold onGetClicked. case_bool_decide; [apply swp_show|].
  destruct (_ || _); [apply swp_show|apply start_get_swp].
Qed.

Lemma download_swp dialog row w : starts_what_it_posts w (onDownloadButtonClicked dialog row w).
Proof.
  unfold onDownloadButtonClicked. destruct (filesTable_ w !! row); [|apply swp_refl].
  case_bool_decide; [apply swp_refl|]. case_bool_decide; [apply swp_show|].
  case_bool_decide; [apply swp_refl|apply start_get_swp].
Qed.

Lemma repair_swp w : starts_what_it_posts w (onRepairClicked w).
Proof.
  unfold onRepairClicked. case_bool_decide; [apply swp_show|]. eapply swp_one; try done; count.
Qed.

Lemma refresh_swp host evs w : starts_what_it_posts w (refreshPeerMonitor host evs w).
Proof. unfold refreshPeerMonitor. destruct (peer_rows _ _); by apply swp_none. Qed.

Lemma swp_ext w w1 w' :
  started w' = started w1 → ended w' = ended w1 → posted w' = posted w1 →
  progressBar_ w' = progressBar_ w1 → starts_what_it_posts w w1 → starts_what_it_posts w w'.
Proof. unfold starts_what_it_posts. by intros -> -> -> ->. Qed.

Lemma apply_swp host sched w w' :
  onApplySettingsClicked host sched w = Some w' → starts_what_it_posts w w'.
Proof.
  intros [[b ->]|(w1 & _ & _ & Hr & ->)]%apply_settings_cases; [apply swp_show|].
  pose proof (swp_peer _ _ (restart_only _ _ _ _ Hr)) as Hs.
  destruct (crashed w1); [exact Hs|]. eapply swp_ext, Hs; try done; count.
Qed.

Lemma network_swp host sched w w' :
  onApplyNetworkSettingsClicked host sched w = Some w' → starts_what_it_posts w w'.
Proof.
  intros [[b ->]|(w1 & H)]%apply_network_cases; [apply swp_show|].
  assert (starts_what_it_posts w (network_window w).2) as H0
    by (unfold network_window; case_bool_decide; by apply swp_none).
  destruct (network_window w) as [seeds w0]. destruct H as (_ & Hr & ->). cbn [snd] in H0.
  assert (starts_what_it_posts w w1) as Hs
    by (apply restart_only in Hr as []; by eapply swp_ext, H0).
  destruct (crashed w1); [exact Hs|]. eapply swp_ext, Hs; try done; count.
Qed.

(** Delivery of a signal. *)
Lemma deliver_counts env fs s w :
  let w' := on_gui_signal env fs s w in
  started w' = started w ∧ ended w' = (ended w + if is_done s then 1 else 0)%nat ∧
  posted w' = posted w ∧
  (bar_visible (progressBar_ w') = true → bar_visible (progressBar_ w) = true ∧ is_done s = false).
Proof.
  cbn zeta. destruct s as [p|[id path|out|m]]; cbn [on_gui_signal on_signal is_done].
  - unfold onProgress. destruct (0 <? total_ p); (split; [done|]); by rewrite Nat.add_0_r.
  - unfold onPutFinished, manifest_columns.
    destruct (exists_path env path fs); [destruct (readManifest env path fs)|];
      case_bool_decide; (split; [count|]); (split; [count|]); done.
  - unfold onGetFinished. split; [count|]. split; [count|]. done.
  - unfold onError. split; [count|]. split; [count|]. done.
Qed.

(** ** Every operation is reported once *)

Record balanced (d : Desktop W) : Prop := {
  bal_count : started (window d) = (ended (window d) + in_flight d)%nat;
  bal_bar : bar_visible (progressBar_ (window d)) = true → in_flight d ≠ 0%nat;
}.

Lemma balanced_handler d w' :
  starts_what_it_posts (window d) w' → balanced d → balanced (set_window w' d).
Proof.
  intros (He & (n & Hs & Hn) & Hb) [Hc Hbar]. unfold in_flight in Hc, Hbar.
  split; unfold in_flight, hung in *; cbn [window emitting queue hanging set_window]; [lia|].
  intros [Hv|Hne]%Hb; [specialize (Hbar Hv); lia|].
  destruct (posted w'); [done|]. cbn [length]. lia.
Qed.

Lemma job_step_shape je d d' :
  job_step je d = Some d' →
  ∃ j js s w1, posted (window d) = j :: js ∧ emitting d = [] ∧ hanging d = None ∧
    run_job je j (world d) = (Ok s, w1) ∧
    d' = mk_desktop (set_posted js (window d)) w1
           (map Progressed (new_reports (world d) w1) ++ [Done s]) (queue d) None.
Proof.
  unfold job_step. destruct (posted (window d)) as [|j js]; [done|].
  destruct (emitting d); [|done]. destruct (hanging d); [done|].
  destruct (run_job _ _ _) as [[s|e] w1] eqn:E; [|done].
  intros [= <-]. by exists j, js, s, w1.
Qed.

Lemma hang_step_shape fs ps d d' :
  hang_step fs ps d = Some d' →
  ∃ j js, posted (window d) = j :: js ∧ emitting d = [] ∧ hanging d = None ∧ may_hang j = true ∧
    d' = mk_desktop (set_posted js (window d)) (mk_world (net (world d)) fs (reported (world d)))
           (map Progressed ps) (queue d) (Some j).
Proof.
  unfold hang_step. destruct (posted (window d)) as [|j js]; [done|].
  destruct (emitting d); [|done]. destruct (hanging d); [done|].
  destruct (may_hang j) eqn:Ej; [|done]. intros [= <-]. by exists j, js.
Qed.

Lemma balanced_step ev d d' : desk_step ev d = Some d' → balanced d → balanced d'.
Proof.
  unfold desk_step. destruct (crashed (window d)); [done|].
  destruct ev; try (intros [= <-]; apply balanced_handler;
    auto using put_swp, get_swp, repair_swp, download_swp, refresh_swp, edit_swp, browse_swp, tick_swp; fail).
  - intros E. destruct (onApplySettingsClicked host sched (window d)) as [w'|] eqn:Ea; [|done].
    injection E as <-. apply balanced_handler. by apply (apply_swp host sched).
  - intros E. destruct (onApplyNetworkSettingsClicked host sched (window d)) as [w'|] eqn:Ea; [|done].
    injection E as <-. apply balanced_handler. by apply (network_swp host sched).
  - intros (j & js & s & w1 & Ep & Ee & Eh & _ & ->)%job_step_shape [Hc Hb].
    unfold in_flight, hung in *.
    rewrite Ep, Ee, Eh in *. rewrite count_done_app in *. cbn [length app] in *.
    split; unfold in_flight, hung; cbn [window emitting queue hanging posted set_posted];
      rewrite !count_done_app, count_done_progress, count_done_cons; cbn [is_done]; [|lia].
    change (started (set_posted js (window d))) with (started (window d)).
    change (ended (set_posted js (window d))) with (ended (window d)).
    cbn [count_done filter] in *. change (count_done []) with 0%nat in *. lia.
  - intros (j & js & Ep & Ee & Eh & _ & ->)%hang_step_shape [Hc Hb].
    unfold in_flight, hung in *.
    rewrite Ep, Ee, Eh in *. rewrite count_done_app in *. cbn [length app] in *.
    split; unfold in_flight, hung; cbn [window emitting queue hanging posted set_posted];
      rewrite !count_done_app, count_done_progress; [|lia].
    change (started (set_posted js (window d))) with (started (window d)).
    change (ended (set_posted js (window d))) with (ended (window d)).
    change (count_done []) with 0%nat in *. lia.
  - unfold emit_step. destruct (emitting d) as [|s ss] eqn:Ee; [done|]. intros [= <-] [Hc Hb].
    unfold in_flight, hung in *. rewrite Ee in *.
    split; unfold in_flight, hung; cbn [window emitting queue hanging];
      rewrite count_done_app, count_done_cons in *; rewrite count_done_app, count_done_cons;
      change (count_done []) with 0%nat; [lia|]. intros Hv. specialize (Hb Hv). lia.
  - unfold deliver_step. destruct (queue d) as [|s ss] eqn:Eq; [done|]. intros [= <-] [Hc Hb].
    destruct (deliver_counts env (files (world d)) s (window d)) as (E1 & E2 & E3 & E4).
    unfold in_flight, hung in *. rewrite Eq in *. rewrite count_done_app, count_done_cons in *.
    split; unfold in_flight, hung; cbn [window emitting queue hanging]; rewrite E3, count_done_app.
    + rewrite E1, E2. lia.
    + intros [Hv Hs]%E4. specialize (Hb Hv). rewrite Hs in Hb. lia.
Qed.

Lemma invariant_runs (ok : desk_event → Prop) (P : Desktop W → Prop) d d' :
  (∀ ev d d', ok ev → desk_step ev d = Some d' → P d → P d') →
  rtc (step_of ok) d d' → P d → P d'.
Proof.
  intros Hstep. induction 1 as [d|d d1 d' (ev & Hok & E) _ IH]; [done|].
  intros Hd. by apply IH, (Hstep ev d).
Qed.

Lemma open_balanced host evs a s w : balanced (open_desktop host evs a s w).
Proof.
  unfold open_desktop, open_window. destruct (loadOrPromptPeerSettings _ _ _) as [c s'].
  set (w0 := set_form _ (setupUi _)).
  assert (peer_only w0 (discoverPeersFromBootstrap host evs (startEmbeddedPeerIfEnabled host w0)))
    as [] by (etransitivity; [apply start_only|apply discover_only]).
  split; unfold in_flight; cbn [window emitting queue app].
  - rewrite po_started, po_ended, po_posted. done.
  - by rewrite po_bar.
Qed.

Lemma reachable_balanced host a s d : desk_reachable host a s d → balanced d.
Proof.
  intros (evs & w & Hr). eapply (invariant_runs user_event balanced);
    [|exact Hr|apply open_balanced]. intros ev d1 d2 _. apply balanced_step.
Qed.

(** ** The queues are emptied *)

Lemma run_job_ok je j w : ∃ s w', run_job je j w = (Ok s, w').
Proof.
  assert (∀ body : M (World W) signal, ∃ s w', emit_or_error body w = (Ok s, w')) as He.
  { intros body. unfold emit_or_error. destruct (body w) as [[s|e] w']; by eexists _, _. }
  destruct j; apply He.
Qed.

Lemma on_gui_signal_alive env fs s w : crashed (on_gui_signal env fs s w) = crashed w.
Proof.
  destruct s as [p|[id path|out|m]]; cbn [on_gui_signal on_signal]; [| |done|done].
  - unfold onProgress. by destruct (0 <? total_ p).
  - unfold onPutFinished. destruct (manifest_columns env path fs) as [[nt st] [l|]];
      by case_bool_decide.
Qed.

Lemma background_cases d d' :
  background d d' →
  crashed (window d) = false ∧
  ((∃ je, job_step je d = Some d') ∨ (∃ fs ps, hang_step fs ps d = Some d') ∨
   emit_step d = Some d' ∨ ∃ env, deliver_step env d = Some d').
Proof.
  intros (ev & Hev & E). unfold desk_step in E. destruct (crashed (window d)); [done|].
  split; [done|]. destruct ev; try done; eauto 6.
Qed.

(** Jobs first, then what is emitted, then what is delivered. *)
Lemma background_terminates (d : Desktop W) : Acc (flip background) d.
Proof.
  remember (length (posted (window d))) as n eqn:En. revert d En.
  induction (lt_wf n) as [n _ IHn]. intros d.
  remember (2 * length (emitting d) + length (queue d))%nat as k eqn:Ek. revert d Ek.
  induction (lt_wf k) as [k _ IHk]. intros d Ek En. constructor. intros d' Hstep.
  apply background_cases in Hstep as [_ [[je E]|[(fs & ps & E)|[E|[env E]]]]].
  - apply job_step_shape in E as (j & js & s & w1 & Ep & _ & _ & _ & ->).
    eapply (IHn (length js)); [rewrite En, Ep; cbn; lia|done].
  - apply hang_step_shape in E as (j & js & Ep & _ & _ & _ & ->).
    eapply (IHn (length js)); [rewrite En, Ep; cbn; lia|done].
  - unfold emit_step in E. destruct (emitting d) as [|s ss] eqn:Ee; [done|]. injection E as <-.
    eapply (IHk _); [|done|done]. cbn [emitting queue]. rewrite length_app. cbn [length] in *. lia.
  - unfold deliver_step in E. destruct (queue d) as [|s ss] eqn:Eq; [done|]. injection E as <-.
    eapply (IHk _); [|done|].
    + cbn [emitting queue length] in *. lia.
    + cbn [window]. by destruct (deliver_counts env (files (world d)) s (window d)) as (_ & _ & -> & _).
Qed.

Definition at_rest (d : Desktop W) : Prop :=
  posted (window d) = [] ∧ emitting d = [] ∧ queue d = [] ∧ hanging d = None.

(** No background step is possible: nothing is left to do, or a slot hangs and
    everything that does not wait for it is done. *)
Lemma stuck_cases d :
  crashed (window d) = false → (∀ d', ¬ background d d') →
  emitting d = [] ∧ queue d = [] ∧ (hanging d = None → posted (window d) = []).
Proof.
  intros Hc Hno. destruct (emitting d) as [|s ss] eqn:Ee.
  2: { exfalso. eapply Hno. exists Emit. split; [done|]. unfold desk_step, emit_step. by rewrite Hc, Ee. }
  destruct (queue d) as [|s ss] eqn:Eq.
  2: { exfalso. eapply Hno. exists (Deliver good_env). split; [done|].
       unfold desk_step, deliver_step. by rewrite Hc, Eq. }
  split; [done|]. split; [done|]. intros Eh.
  destruct (posted (window d)) as [|j js] eqn:Ep; [done|]. exfalso.
  destruct (run_job_ok (mk_job_env good_env [] None) j (world d)) as (s & w1 & E).
  eapply Hno. exists (RunJob (mk_job_env good_env [] None)). split; [done|].
  unfold desk_step, job_step. by rewrite Hc, Ep, Ee, Eh, E.
Qed.

Lemma background_alive d d' :
  rtc background d d' → crashed (window d) = false → crashed (window d') = false.
Proof.
  induction 1 as [d|d d1 d' Hstep _ IH]; [done|]. intros Hc. apply IH.
  apply background_cases in Hstep as [_ [[je E]|[(fs & ps & E)|[E|[env E]]]]].
  - apply job_step_shape in E as (j & js & s & w1 & _ & _ & _ & _ & ->). done.
  - apply hang_step_shape in E as (j & js & _ & _ & _ & _ & ->). done.
  - unfold emit_step in E. destruct (emitting d); [done|]. by injection E as <-.
  - unfold deliver_step in E. destruct (queue d); [done|]. injection E as <-. cbn [window].
    by rewrite on_gui_signal_alive.
Qed.

(** C9. No operation is lost or reported twice: whatever the user did, however the
    threads interleave and whichever slots hang, as many operations were started as
    were reported, are posted, running or about to be reported.  Left alone, the
    threads stop after finitely many steps, in every order of them; unless a slot
    hangs, every operation has been reported then and the progress bar is hidden; if
    one hangs, that operation and those posted behind it never are. *)
Theorem operations_are_reported host a s d (Hr : desk_reachable host a s d) :
  started (window d) = (ended (window d) + in_flight d)%nat ∧
  Acc (flip background) d ∧
  (crashed (window d) = false → ∀ d', rtc background d d' → (∀ d'', ¬ background d' d'') →
   match hanging d' with
   | None => started (window d') = ended (window d') ∧
             bar_visible (progressBar_ (window d')) = false
   | Some _ => started (window d') = (ended (window d') + S (length (posted (window d'))))%nat
   end).
Proof.
  split; [|split; [apply background_terminates|]].
  - by apply (reachable_balanced host a s).
  - intros Hc d' Hb Hstuck. apply stuck_cases in Hstuck as (Ee & Eq & Ep);
      [|by eapply background_alive].
    assert (balanced d') as [Hcount Hbar].
    { eapply (invariant_runs background_event balanced);
        [|exact Hb|by eapply reachable_balanced]. intros ev d1 d2 _. apply balanced_step. }
    unfold in_flight, hung in *. rewrite Ee, Eq in *.
    change (count_done ([] ++ [])) with 0%nat in *. destruct (hanging d'); [lia|].
    rewrite Ep in * by done. cbn [length] in *. split; [lia|].
    destruct (bar_visible _); [|done]. by destruct (Hbar eq_refl).
Qed.

(** ** A slot that hangs *)

Lemma hanging_step ev (d d' : Desktop W) j :
  desk_step ev d = Some d' → hanging d = Some j → hanging d' = Some j.
Proof.
  unfold desk_step. intros E Hj. destruct (crashed (window d)); [done|].
  destruct ev; try by injection E as <-.
  - destruct (onApplySettingsClicked host sched (window d)); [|done]. by injection E as <-.
  - destruct (onApplyNetworkSettingsClicked host sched (window d)); [|done]. by injection E as <-.
  - apply job_step_shape in E as (j' & js & s & w1 & _ & _ & ? & _). congruence.
  - apply hang_step_shape in E as (j' & js & _ & _ & ? & _). congruence.
  - unfold emit_step in E. destruct (emitting d); [done|]. by injection E as <-.
  - unfold deliver_step in E. destruct (queue d); [done|]. by injection E as <-.
Qed.

(** A slot that hangs is the last one: whatever the user does later, there is an
    operation that was started and is not reported, and closing the window never
    returns, unless the process was terminated. *)
Theorem hung_slot_is_last host a s (d d' : Desktop W) j
    (Hr : desk_reachable host a s d) (Hj : hanging d = Some j)
    (Hrun : rtc (step_of user_event) d d') :
  (ended (window d') < started (window d'))%nat ∧
  ∀ sched later w', desk_close sched later d' = Some w' → crashed w' = true.
Proof.
  assert (hanging d' = Some j) as Hj'.
  { eapply (invariant_runs user_event (λ d, hanging d = Some j)); [|exact Hrun|exact Hj].
    intros ev d1 d2 _. apply hanging_step. }
  split.
  - assert (balanced d') as [Hc _].
    { eapply (invariant_runs user_event balanced); [|exact Hrun|by eapply reachable_balanced].
      intros ev d1 d2 _. apply balanced_step. }
    unfold in_flight, hung in Hc. rewrite Hj' in Hc. lia.
  - intros sched later w'. unfold desk_close, close_window. rewrite Hj'. cbn.
    destruct (stopEmbeddedPeer _ _) as [w1|]; [|done]. cbn. rewrite orb_false_r.
    destruct (crashed w1) eqn:E; [|done]. by intros [= <-].
Qed.
End desktop.
