(* ===== verification/DesktopProps.v ===== *)
(** * What the graphical client keeps while it works

    Theorems about the runs of [Desktop]: the settings that are kept are those of
    the window and stay in their ranges, the process survives as long as the
    embedded peer does, how long stopping the peer takes, and a file that is put by
    clicks is got back by clicks. *)

From S2P Require Import Prelude.
From S2P Require Import CxxStd.
From S2P Require Import Hex.
From S2P Require Import PeerEndpoint.
From S2P Require Import KademliaId.
From S2P Require Import FileSystem.
From S2P Require Import Manifest.
From S2P Require Import Hybrid.
From S2P Require Import DssClient.
From S2P Require Import DssClientProps.
From S2P Require Import PeerLifecycle.
From S2P Require Import EmbeddedPeer.
From S2P Require Import Cli.
From S2P Require Import Worker.
From S2P Require Import Qt.
From S2P Require Import MainWindow.
From S2P Require Import MainWindowProps.
From S2P Require Import Desktop.

(** The handlers of jobs and of their signals leave the rest of the window alone. *)
Record job_only (w w' : MainWindow) : Prop := {
  jo_config : config w' = config w;
  jo_form : form w' = form w;
  jo_settings : settings w' = settings w;
  jo_csv : discoveredPeersCsv_ w' = discoveredPeersCsv_ w;
  jo_embedded : embeddedPeerService_ w' = embeddedPeerService_ w;
  jo_crashed : crashed w' = crashed w;
}.

Section desktop_props.
Context {Q : Qt} {HS : Sha256} {HA : AesGcm} {HR : Rsa} {W : Type} {HP : PeerApi W}.

Lemma put_only w : job_only w (onPutClicked w).
Proof. unfold onPutClicked. by repeat case_bool_decide. Qed.

Lemma get_only w : job_only w (onGetClicked w).
Proof. unfold onGetClicked. case_bool_decide; [done|]. by destruct (_ || _). Qed.

Lemma repair_only w : job_only w (onRepairClicked w).
Proof. unfold onRepairClicked. by case_bool_decide. Qed.

Lemma download_only dialog row w : job_only w (onDownloadButtonClicked dialog row w).
Proof.
  unfold onDownloadButtonClicked. destruct (filesTable_ w !! row); [|done].
  by repeat case_bool_decide.
Qed.

Lemma signal_only env fs s w : job_only w (on_gui_signal env fs s w).
Proof.
  destruct s as [p|[id path|out|m]]; cbn [on_gui_signal on_signal]; [| |done|done].
  - unfold onProgress. by destruct (0 <? total_ p).
  - unfold onPutFinished. destruct (manifest_columns env path fs) as [[nt st] [l|]];
      by case_bool_decide.
Qed.

(** The table of peers is always made. *)
Lemma peer_rows_ok host parts : ∃ rows, peer_rows host parts = Ok rows.
Proof.
  induction parts as [|part parts [rows IH]]; cbn [peer_rows]; [by eexists|].
  case_bool_decide; [by eexists|]. destruct (parse_peer_entry _); [|by eexists].
  rewrite makeNodeId_digest, IH. m_unfold. by eexists.
Qed.

Lemma refresh_result host evs w :
  ∃ rows, refreshPeerMonitor host evs w =
          set_peer_rows rows (discoverPeersFromBootstrap host evs w).
Proof.
  unfold refreshPeerMonitor. destruct (peer_rows_ok host
    (split_commas (trackerIp (discoverPeersFromBootstrap host evs w)))) as [rows ->].
  by eexists.
Qed.

(** What a step does to the window: one of four kinds of change. *)
Inductive window_change : MainWindow → MainWindow → Prop :=
  | change_jobs w w' : job_only w w' → window_change w w'
  | change_form f w : (form_ok (form w) → form_ok f) → window_change w (set_form f w)
  | change_peer host evs rows w :
      window_change w (set_peer_rows rows (discoverPeersFromBootstrap host evs w))
  | change_tick e w : window_change w (tick [e] w)
  | change_settings host sched w w' :
      onApplySettingsClicked host sched w = Some w' → window_change w w'
  | change_network host sched w w' :
      onApplyNetworkSettingsClicked host sched w = Some w' → window_change w w'.

Lemma desk_step_change ev (d d' : Desktop W) :
  user_event ev → desk_step ev d = Some d' → window_change (window d) (window d').
Proof.
  unfold desk_step. intros Hu. destruct (crashed (window d)); [done|].
  destruct ev; cbn [user_event] in Hu.
  - intros [= <-]. by apply change_form.
  - intros [= <-]. cbn [window set_window].
    destruct (browse_chooses env home (files (world d)) dialog b (window d)) as [path ->].
    unfold choose. case_bool_decide; [by apply change_jobs|]. by apply change_form.
  - intros [= <-]. apply change_jobs, put_only.
  - intros [= <-]. apply change_jobs, get_only.
  - intros [= <-]. apply change_jobs, repair_only.
  - intros [= <-]. apply change_jobs, download_only.
  - destruct (onApplySettingsClicked host sched (window d)) eqn:E; [|done]. intros [= <-].
    by eapply change_settings.
  - destruct (onApplyNetworkSettingsClicked host sched (window d)) eqn:E; [|done]. intros [= <-].
    by eapply change_network.
  - intros [= <-]. cbn [window set_window]. destruct (refresh_result host evs (window d)) as [rows ->].
    apply change_peer.
  - intros [= <-]. apply change_tick.
  - intros (j & js & s & w1 & _ & _ & _ & _ & ->)%job_step_shape. by apply change_jobs.
  - intros (j & js & _ & _ & _ & _ & ->)%hang_step_shape. by apply change_jobs.
  - unfold emit_step. destruct (emitting d); [done|]. intros [= <-]. by apply change_jobs.
  - unfold deliver_step. destruct (queue d); [done|]. intros [= <-]. apply change_jobs, signal_only.
Qed.
End desktop_props.

(** ** Settings *)

Section settings_props.
Context {Q : Qt} {QL : QtLaws} {HS : Sha256} {HA : AesGcm} {HR : Rsa} {W : Type} {HP : PeerApi W}.

Lemma change_window_ok appData w w' : window_change w w' → window_ok appData w → window_ok appData w'.
Proof.
  destruct 1 as [w w' []|f w Hf|host evs rows w|e w|host sched w w' E|host sched w w' E].
  - apply window_ok_ext; congruence.
  - intros [? ? ?]. split; auto.
  - by apply window_ok_ext.
  - by apply window_ok_ext.
  - by apply (apply_settings_ok _ host sched).
  - by apply (apply_network_ok _ host sched).
Qed.

(** What takes the process down writes no settings. *)
Lemma change_crashing w w' :
  window_change w w' → crashed w' = true → settings w' = settings w.
Proof.
  destruct 1 as [w w' []|f w Hf|host evs rows w|e w|host sched w w' E|host sched w w' E];
    [done..| |]; intros Hc; eapply (crash_loses_settings host sched w w'); eauto.
Qed.

End settings_props.

(** ** The process *)

(** The events of a run in which the embedded peer does not fail by itself. *)
Definition healthy_event (ev : desk_event) : Prop :=
  user_event ev ∧
  match ev with
  | PeerMoves e => e ≠ Bad
  | ClickApply _ sched | ClickApplyNetwork _ sched => Forall (.≠ Bad) (at_probe sched)
  | ClickRefresh _ evs => Forall (.≠ Bad) evs
  | _ => True
  end.

(** The embedded peer is not in the middle of a member, whatever its thread did. *)
Definition peer_resting (w : MainWindow) : Prop :=
  match embeddedPeerService_ w with Some e => resting (emb_service e) | None => True end.

Section process_props.
Context {Q : Qt} {QL : QtLaws} {HS : Sha256} {HA : AesGcm} {HR : Rsa} {W : Type} {HP : PeerApi W}.

Lemma peer_sound_ext w w' :
  embeddedPeerService_ w' = embeddedPeerService_ w → crashed w' = crashed w →
  peer_sound w → peer_sound w'.
Proof. unfold peer_sound. by intros -> ->. Qed.

Lemma apply_settings_sound host sched w w' :
  Forall (.≠ Bad) (at_probe sched) → onApplySettingsClicked host sched w = Some w' →
  peer_sound w → peer_sound w'.
Proof.
  intros Hg [[b ->]|(w1 & _ & _ & Hr & ->)]%apply_settings_cases Hw; [done|].
  assert (peer_sound w1) as H1 by (by eapply restart_sound). by destruct (crashed w1).
Qed.

Lemma apply_network_sound host sched w w' :
  Forall (.≠ Bad) (at_probe sched) → onApplyNetworkSettingsClicked host sched w = Some w' →
  peer_sound w → peer_sound w'.
Proof.
  intros Hg [[b ->]|(w1 & H)]%apply_network_cases Hw; [done|].
  assert (peer_sound (network_window w).2) as Hw0
    by (unfold network_window; by case_bool_decide).
  destruct (network_window w) as [seeds w0]. destruct H as (_ & Hr & ->).
  assert (peer_sound w1) as H1 by (by eapply restart_sound). by destruct (crashed w1).
Qed.

Lemma healthy_step ev (d d' : Desktop W) :
  healthy_event ev → desk_step ev d = Some d' → peer_sound (window d) → peer_sound (window d').
Proof.
  unfold desk_step. intros [_ Hg] E Hd. destruct (crashed (window d)) eqn:Hc; [done|].
  destruct ev; try (injection E as <-; cbn [window set_window]).
  - done.
  - destruct (browse_chooses env home (files (world d)) dialog b (window d)) as [path ->].
    unfold choose. by case_bool_decide.
  - by destruct (put_only (window d)); eapply peer_sound_ext.
  - by destruct (get_only (window d)); eapply peer_sound_ext.
  - by destruct (repair_only (window d)); eapply peer_sound_ext.
  - by destruct (download_only save_dialog row (window d)); eapply peer_sound_ext.
  - destruct (onApplySettingsClicked host sched (window d)) eqn:Ea; [|done]. injection E as <-.
    by eapply apply_settings_sound.
  - destruct (onApplyNetworkSettingsClicked host sched (window d)) eqn:Ea; [|done]. injection E as <-.
    by eapply apply_network_sound.
  - destruct (refresh_result host evs (window d)) as [rows ->].
    by apply (discover_sound host evs).
  - apply tick_sound; [|done]. by constructor.
  - apply job_step_shape in E as (j & js & s & w1 & _ & _ & _ & _ & ->). done.
  - apply hang_step_shape in E as (j & js & _ & _ & _ & _ & ->). done.
  - unfold emit_step in E. destruct (emitting d); [done|]. by injection E as <-.
  - unfold deliver_step in E. destruct (queue d); [done|]. injection E as <-. cbn [window].
    by destruct (signal_only env (files (world d)) g (window d)); eapply peer_sound_ext.
Qed.

Lemma open_sound host evs a s :
  Forall (.≠ Bad) evs → peer_sound (open_window host evs a s).
Proof.
  intros Hg. unfold open_window. destruct (loadOrPromptPeerSettings _ _ _) as [c s'].
  by apply discover_sound, start_sound.
Qed.

(** C27. As long as the thread of the embedded peer does not fail by itself, nothing
    the user does takes the process down, and neither does closing the window, at
    any moment and whatever the thread does while it is being stopped. *)
Theorem healthy_window_survives host evs a s w (d : Desktop W)
    (Hevs : Forall (.≠ Bad) evs)
    (Hr : rtc (step_of healthy_event) (open_desktop host evs a s w) d) :
  crashed (window d) = false ∧
  ∀ sched later w', desk_close sched later d = Some w' → crashed w' = false.
Proof.
  assert (peer_sound (window d)) as Hd.
  { eapply (invariant_runs healthy_event (λ d, peer_sound (window d)));
      [apply healthy_step|exact Hr|by apply open_sound]. }
  split; [apply Hd|]. intros sched later w'. unfold desk_close, close_window.
  destruct (stopEmbeddedPeer sched (window d)) as [w1|] eqn:Hc; [|done]. cbn.
  destruct (_ || _); [|done]. intros [= <-]. by destruct (stop_sound sched (window d) w1 Hc Hd).
Qed.

Lemma tick_resting evs w : peer_resting w → peer_resting (tick evs w).
Proof.
  unfold peer_resting. cbn. destruct (embeddedPeerService_ w); [|done]. apply run_worker_resting.
Qed.

Lemma start_peer_resting host w : peer_resting w → peer_resting (startEmbeddedPeerIfEnabled host w).
Proof.
  intros Hw. unfold startEmbeddedPeerIfEnabled. destruct (negb _); [done|].
  destruct (peer_running w); [done|]. case_bool_decide; [done|].
  destruct (thread_error host); [done|]. apply start_resting.
Qed.

Lemma stop_peer_resting sched w w' : stopEmbeddedPeer sched w = Some w' → peer_resting w'.
Proof.
  unfold stopEmbeddedPeer, peer_resting. destruct (embeddedPeerService_ w) eqn:E.
  - destruct (stop_member _ _ _); [|done]. by intros [= <-].
  - intros [= <-]. by rewrite E.
Qed.

Lemma restart_resting host sched w w' :
  restart_peer host sched w = Some w' → peer_resting w → peer_resting w'.
Proof.
  unfold restart_peer. intros E Hw.
  destruct (if peer_running w then _ else _) as [w1|] eqn:E1; [|done]. injection E as <-.
  apply tick_resting, start_peer_resting.
  destruct (peer_running w); [by eapply stop_peer_resting|by injection E1 as <-].
Qed.

Lemma change_resting w w' : window_change w w' → peer_resting w → peer_resting w'.
Proof.
  destruct 1 as [w w' Hj|f w Hf|host evs rows w|e w|host sched w w' E|host sched w w' E].
  - unfold peer_resting. by rewrite (jo_embedded _ _ Hj).
  - done.
  - apply tick_resting.
  - apply tick_resting.
  - apply apply_settings_cases in E as [[b ->]|(w1 & _ & _ & Hr & ->)]; [done|]. intros Hw.
    pose proof (restart_resting _ _ _ _ Hr Hw). by destruct (crashed w1).
  - apply apply_network_cases in E as [[b ->]|(w1 & H)]; [done|]. intros Hw.
    assert (peer_resting (network_window w).2) as Hw0
      by (unfold network_window; by case_bool_decide).
    destruct (network_window w) as [seeds w0]. destruct H as (_ & Hr & ->).
    pose proof (restart_resting _ _ _ _ Hr Hw0). by destruct (crashed w1).
Qed.

(** The peer waits to be joined: fewer than six moves were made on the schedule since
    its socket was closed, and it can make another. *)
Definition peer_waited_for (sched : Schedule) (w : MainWindow) : Prop :=
  ∃ e, embeddedPeerService_ w = Some e ∧ running_ (emb_service e) = true ∧
    (moves_made (MainWindow.at_join sched) (begin_join (at_stop sched) (emb_service e)) < 6)%nat ∧
    can_move (run_worker (MainWindow.at_join sched) (begin_join (at_stop sched) (emb_service e))).

Lemma stop_waits sched w :
  peer_resting w → stopEmbeddedPeer sched w = None → peer_waited_for sched w.
Proof.
  unfold peer_resting, stopEmbeddedPeer, peer_waited_for.
  destruct (embeddedPeerService_ w) as [e|]; [|done]. intros He.
  destruct (stop_member _ _ _) eqn:E; [done|]. intros _. exists e. split; [done|].
  by apply stop_member_waits.
Qed.

Lemma restart_waits host sched w :
  peer_resting w → restart_peer host sched w = None → peer_waited_for sched w.
Proof.
  intros Hw. unfold restart_peer. destruct (peer_running w); [|done].
  destruct (stopEmbeddedPeer sched w) eqn:E; [done|]. intros _. by apply stop_waits.
Qed.

Lemma reachable_resting host a s (d : Desktop W) : desk_reachable host a s d → peer_resting (window d).
Proof.
  intros (evs0 & w & Hr).
  eapply (invariant_runs user_event (λ d, peer_resting (window d))); [|exact Hr|].
  - intros ev d1 d2 Hu E. eapply change_resting, desk_step_change; done.
  - unfold open_desktop, open_window. destruct (loadOrPromptPeerSettings _ _ _) as [c s'].
    by apply tick_resting, start_peer_resting.
Qed.

End process_props.

(** ** One operation, left alone *)

(** The threads on a given machine, when every call to a peer returns or throws. *)
Definition on_machine (je : JobEnv) (ev : desk_event) : Prop :=
  match ev with
  | RunJob je' => je' = je
  | Emit => True
  | Deliver env => env = job_env je
  | _ => False
  end.

Section settling.
Context {Q : Qt} {HS : Sha256} {HA : AesGcm} {HR : Rsa} {W : Type} {HP : PeerApi W}.

(** The threads run until nothing is left to do. *)
Definition settles (je : JobEnv) (d d' : Desktop W) : Prop :=
  rtc (step_of (on_machine je)) d d' ∧ at_rest d'.

Definition deliver_all (env : Env) (fs : FS) (ss : list gui_signal) (w : MainWindow) : MainWindow :=
  foldl (λ w s, on_gui_signal env fs s w) w ss.

Lemma machine_cases je (d d' : Desktop W) :
  step_of (on_machine je) d d' →
  job_step je d = Some d' ∨ emit_step d = Some d' ∨ deliver_step (job_env je) d = Some d'.
Proof.
  intros (ev & Hev & E). unfold desk_step in E. destruct (crashed (window d)); [done|].
  destruct ev; cbn in Hev; try done; subst; auto.
Qed.

(** Signals are delivered in their order, whenever the window gets to them. *)
Lemma drained je d d' :
  posted (window d) = [] → settles je d d' →
  world d' = world d ∧
  window d' = deliver_all (job_env je) (files (world d)) (queue d ++ emitting d) (window d).
Proof.
  intros Hp [Hrun Hrest]. revert Hp. induction Hrun as [d|d d1 d' Hstep _ IH]; intros Hp.
  { destruct Hrest as (_ & -> & -> & _). done. }
  apply machine_cases in Hstep as [E|[E|E]].
  - apply job_step_shape in E as (j & js & s & w1 & Ep & _). congruence.
  - unfold emit_step in E. destruct (emitting d) as [|s ss]; [done|]. injection E as <-.
    destruct (IH Hrest Hp) as [-> ->]. cbn [world window queue emitting]. split; [done|].
    by rewrite <- app_assoc.
  - unfold deliver_step in E. destruct (queue d) as [|s ss]; [done|]. injection E as <-.
    destruct (IH Hrest) as [-> ->]; [|done]. cbn [window].
    by destruct (deliver_counts (job_env je) (files (world d)) s (window d)) as (_ & _ & -> & _).
Qed.

(** Progress moves the bar only. *)
Lemma deliver_progress env fs ps w :
  ∃ b, deliver_all env fs (map Progressed ps) w = set_bar b w.
Proof.
  revert w. induction ps as [|p ps IH]; intros w; [by exists (progressBar_ w); destruct w|].
  change (∃ b, deliver_all env fs (map Progressed ps) (onProgress (done_ p) (total_ p) (message p) w)
               = set_bar b w).
  unfold onProgress. destruct (0 <? total_ p); [|apply IH].
  match goal with |- context [set_bar ?x w] => destruct (IH (set_bar x w)) as [b ->] end.
  by exists b.
Qed.

(** One posted job at rest: it runs, and the signal of its end is delivered last. *)
Lemma one_job je d d' j :
  posted (window d) = [j] → emitting d = [] → queue d = [] → settles je d d' →
  ∃ s b, run_job je j (world d) = (Ok s, world d') ∧
    window d' = on_signal (job_env je) (files (world d')) s (set_bar b (set_posted [] (window d))).
Proof.
  intros Hp He Hq [Hrun Hrest]. destruct Hrun as [d|d d1 d' Hstep Hrun].
  { destruct Hrest as (Hp' & _). congruence. }
  apply machine_cases in Hstep as [E|[E|E]].
  - apply job_step_shape in E as (j' & js & s & w1 & Ep & _ & _ & Er & ->).
    rewrite Hp in Ep. injection Ep as <- <-.
    match type of Hrun with rtc _ ?x _ =>
      destruct (drained je x d' eq_refl (conj Hrun Hrest)) as [Ew Ewin] end.
    cbn [world] in Ew. subst w1. cbn [world queue emitting window] in Ewin. rewrite Hq in Ewin.
    cbn [app] in Ewin. unfold deliver_all in Ewin. rewrite foldl_app in Ewin.
    destruct (deliver_progress (job_env je) (files (world d')) (new_reports (world d) (world d'))
      (set_posted [] (window d))) as [b Eb]. unfold deliver_all in Eb. rewrite Eb in Ewin.
    by exists s, b.
  - unfold emit_step in E. by rewrite He in E.
  - unfold deliver_step in E. by rewrite Hq in E.
Qed.
End settling.

(** ** From click to click *)

Section clicks.
Context {Q : Qt} {QL : QtLaws} {W : Type} {HP : PeerApi W} {HL : PeerLaws W}
  {HS : Sha256} {HA : AesGcm} {HR : Rsa}.

(** What the form asks the client for. *)
Definition asked_config (w : MainWindow) (ps : list PeerEndpoint) : ClientConfig :=
  mk_config ps (chosen_chunk_size (trim (putChunkEdit_ (form w)))) (putReplicasSpin_ (form w)) [] []
    (localManifestDir_ (config w)).

Lemma chosen_chunk_size_pos s : 0 < chosen_chunk_size s.
Proof.
  unfold chosen_chunk_size, one_mebibyte. case_bool_decide; [lia|].
  destruct (parseULongLong s) as [n|] eqn:E; [|lia]. apply parseULongLong_range in E.
  destruct (Z.eqb_spec n 0); lia.
Qed.

Lemma tracker_list w ps : keep_peers (trackerIp w) = Ok ps → trackerIp w ≠ [].
Proof. intros E Hw. by rewrite Hw in E. Qed.

(** The job that the click on [Put file] posts. *)
Lemma put_click w ps :
  keep_peers (trackerIp w) = Ok ps → trim (putFileEdit_ (form w)) ≠ [] →
  trim (putRsaPublicEdit_ (form w)) = [] →
  onPutClicked w =
    post (PutJob (trackerIp w) (trim (putFileEdit_ (form w))) (localManifestDir_ (config w))
            (chosen_chunk_size (trim (putChunkEdit_ (form w)))) (putReplicasSpin_ (form w)) [])
      (log (LogPutStarted (trim (putFileEdit_ (form w)))) (setBusy true w)).
Proof.
  intros Hps Hfile Hpub. unfold onPutClicked.
  rewrite bool_decide_eq_false_2 by by eapply tracker_list.
  rewrite bool_decide_eq_false_2 by done.
  change (putRsaPublicEdit_ (form (log ?l (setBusy true w)))) with (putRsaPublicEdit_ (form w)).
  rewrite Hpub. by rewrite bool_decide_eq_true_2.
Qed.

Lemma run_put_job je w ps d res d1 :
  keep_peers (trackerIp w) = Ok ps → 1 ≤ putReplicasSpin_ (form w) →
  putFile (job_env je) (job_cwd je) (job_rand je) (asked_config w ps)
    (trim (putFileEdit_ (form w))) true d = (Ok res, d1) →
  run_job je (PutJob (trackerIp w) (trim (putFileEdit_ (form w))) (localManifestDir_ (config w))
    (chosen_chunk_size (trim (putChunkEdit_ (form w)))) (putReplicasSpin_ (form w)) []) d =
  (Ok (PutFinished (shareUri res) (localManifestPath res)), d1).
Proof.
  intros Hps Hr E. unfold run_job, worker_put, emit_or_error. m_unfold. rewrite Hps, trim_nil.
  pose proof (chosen_chunk_size_pos (trim (putChunkEdit_ (form w)))).
  destruct (Z.ltb_spec 0 (chosen_chunk_size (trim (putChunkEdit_ (form w))))); [|lia].
  destruct (Z.ltb_spec 0 (putReplicasSpin_ (form w))); [|lia].
  unfold asked_config in E. by rewrite E.
Qed.

(** The window after an upload. *)
Lemma put_finished_row env fs id path m w :
  is_Some (read_file path fs) → readManifest env path fs = Ok m →
  filesTable_ (on_signal env fs (PutFinished id path) w) =
    filesTable_ w ++ [mk_file_row id (originalName m) (to_string (originalSize m))] ∧
  posted (on_signal env fs (PutFinished id path) w) = posted w.
Proof.
  intros Hex Hm. cbn [on_signal]. unfold onPutFinished, manifest_columns, exists_path.
  rewrite bool_decide_eq_true_2 by done. cbn [orb]. rewrite Hm. by case_bool_decide.
Qed.

Lemma put_settles je (d d1 : Desktop W) ps content :
  at_rest d → keep_peers (trackerIp (window d)) = Ok ps →
  trim (putRsaPublicEdit_ (form (window d))) = [] → 1 ≤ putReplicasSpin_ (form (window d)) →
  let file := trim (putFileEdit_ (form (window d))) in
  let cfg := asked_config (window d) ps in
  upload_setup (job_env je) (job_cwd je) cfg file content (world d) →
  settles je (set_window (onPutClicked (window d)) d) d1 →
  ∃ res, putFile (job_env je) (job_cwd je) (job_rand je) cfg file true (world d) = (Ok res, world d1) ∧
    filesTable_ (window d1) = filesTable_ (window d) ++
      [mk_file_row (shareUri res) (path_filename file) (to_string (zlen content))] ∧
    shareUri res ≠ [] ∧ trackerIp (window d1) = trackerIp (window d) ∧
    posted (window d1) = [].
Proof.
  intros (Hp & He & Hq & _) Hps Hpub Hr file cfg Hset H1. subst file cfg.
  assert (trim (putFileEdit_ (form (window d))) ≠ []) as Hne.
  { intros E. destruct (up_name _ _ _ _ _ _ Hset) as [[Hw _] _]. by rewrite E in Hw. }
  destruct (upload_local_manifest _ (job_cwd je) (job_rand je) _ _ _ true _ Hset)
    as (res & w1 & m & Eput & Euri & Hex & Hman & Hname & Hsize).
  rewrite (put_click _ ps) in H1 by done.
  match type of H1 with settles _ ?d0 _ => match d0 with set_window (post ?j ?w) d =>
    assert (posted (window d0) = [j]) as Hp0 by exact (f_equal (λ l, l ++ [j]) Hp);
    destruct (one_job je d0 d1 j Hp0 He Hq H1) as (s & b & Erun & Ewin) end end.
  cbn [world set_window] in Erun. rewrite (run_put_job je (window d) ps (world d) res w1) in Erun by done.
  injection Erun as <- Ew. rewrite <- Ew in *. exists res. split; [done|].
  match type of Ewin with _ = on_signal _ _ _ ?w =>
    destruct (put_finished_row (job_env je) (files w1) (shareUri res) (localManifestPath res) m w Hex Hman)
      as [Et Ep]; destruct (signal_only (job_env je) (files w1)
        (Done (PutFinished (shareUri res) (localManifestPath res))) w) as [_ _ _ Hcsv _ _] end.
  rewrite Ewin, Et, Ep, Hname, Hsize. split; [done|]. split; [by rewrite Euri|].
  split; [|done]. unfold trackerIp. f_equal. exact Hcsv.
Qed.

(** C3. From click to click: when the form names a file, its upload is in the clear
    the network keeps what it is given, and the digest tells the contents of the
    file apart from what the network holds (as [upload_setup] states it), a click
    on [Put file] ends, in every interleaving of the threads in which no slot hangs,
    with a new row of the table that has the name and the size of the file; and a
    click on [Download] in that row ends, in every interleaving, with the same bytes
    in the file that is chosen for them. *)
Theorem put_and_download_by_clicks je (d d1 : Desktop W) ps content
    (Hrest : at_rest d) (Hps : keep_peers (trackerIp (window d)) = Ok ps)
    (Hpub : trim (putRsaPublicEdit_ (form (window d))) = [])
    (Hr : 1 ≤ putReplicasSpin_ (form (window d)))
    (Hset : upload_setup (job_env je) (job_cwd je) (asked_config (window d) ps)
              (trim (putFileEdit_ (form (window d)))) content (world d))
    (H1 : settles je (set_window (onPutClicked (window d)) d) d1) :
  ∃ row, filesTable_ (window d1) = filesTable_ (window d) ++ [row] ∧
    row_name row = path_filename (trim (putFileEdit_ (form (window d)))) ∧
    row_size row = to_string (zlen content) ∧
    ∀ dialog d2, let out := dialog (suggested_name (row_shareId row)) in out ≠ [] →
      settles je (set_window (onDownloadButtonClicked dialog (length (filesTable_ (window d)))
                                (window d1)) d1) d2 →
      last (logEdit_ (window d2)) = Some (LogGetDone out) ∧
      read_file out (files (world d2)) = Some content.
Proof.
  destruct (put_settles je d d1 ps content Hrest Hps Hpub Hr Hset H1)
    as (res & Eput & Et & Hid & Ecsv & Ep).
  eexists. split; [exact Et|]. split; [done|]. split; [done|]. cbn zeta.
  intros dialog d2 Hout H2. cbn [row_shareId] in *. set (out := dialog _) in *.
  unfold onDownloadButtonClicked in H2.
  rewrite Et, list_lookup_middle in H2 by done. cbn [row_shareId] in H2.
  rewrite bool_decide_eq_false_2 in H2 by done.
  rewrite bool_decide_eq_false_2 in H2 by (rewrite Ecsv; by eapply tracker_list).
  fold out in H2. rewrite bool_decide_eq_false_2 in H2 by done.
  destruct H1 as (_ & _ & He1 & Hq1 & _). unfold start_get in H2.
  match type of H2 with settles _ ?d0 _ => match d0 with set_window (post ?j ?w) d1 =>
    assert (posted (window d0) = [j]) as Hp0 by exact (f_equal (λ l, l ++ [j]) Ep);
    destruct (one_job je d0 d2 j Hp0 He1 Hq1 H2) as (s & b & Erun & Ewin) end end.
  cbn [world set_window] in Erun.
  set (cfg' := mk_config ps one_mebibyte 2 [] (trim (trim (getRsaPrivateEdit_ (form (window d1))))) []).
  destruct (upload_download_ok (job_env je) (job_cwd je) (job_rand je) _ cfg' _ content out true true
    (world d) Hset (reflexivity _)) as (res' & w1 & E1 & Hget).
  rewrite E1 in Eput. injection Eput as -> ->.
  destruct Hget as (w2 & E2 & Hf).
  assert (trackerIp (log (LogGetStarted (shareUri res) out) (setBusy true (window d1))) =
          trackerIp (window d)) as Etr by exact Ecsv.
  unfold run_job, worker_get, emit_or_error in Erun. m_unfold. rewrite Etr, Hps in Erun.
  fold cfg' in Erun.
  change (getRsaPrivateEdit_ (form (log ?l (setBusy true (window d1)))))
    with (getRsaPrivateEdit_ (form (window d1))) in Erun.
  unfold cfg' in E2. rewrite E2 in Erun. injection Erun as <- <-. split; [|done].
  rewrite Ewin. cbn [on_signal]. unfold onGetFinished. cbn [logEdit_ show log]. by rewrite last_snoc.
Qed.
End clicks.

(** ** Witnesses *)

(** A schedule: the worker's thread first, then the window. *)
Definition next_step `{Q : Qt, HS : Sha256, HA : AesGcm, HR : Rsa, HP : PeerApi W} (je : JobEnv)
    (d : Desktop W) : option (Desktop W) :=
  match desk_step (RunJob je) d with
  | Some d' => Some d'
  | None => match desk_step Emit d with
            | Some d' => Some d'
            | None => desk_step (Deliver (job_env je)) d
            end
  end.

Fixpoint drive `{Q : Qt, HS : Sha256, HA : AesGcm, HR : Rsa, HP : PeerApi W} (fuel : nat)
    (je : JobEnv) (d : Desktop W) : Desktop W :=
  match fuel with
  | O => d
  | S fuel => match next_step je d with Some d' => drive fuel je d' | None => d end
  end.

Lemma drive_runs `{Q : Qt, HS : Sha256, HA : AesGcm, HR : Rsa, HP : PeerApi W} fuel je (d : Desktop W) :
  rtc (step_of (on_machine je)) d (drive fuel je d).
Proof.
  revert d. induction fuel as [|fuel IH]; intros d; [done|]. cbn [drive]. unfold next_step.
  destruct (desk_step (RunJob je) d) as [d1|] eqn:E1; [eapply rtc_l; [by exists (RunJob je)|done]|].
  destruct (desk_step Emit d) as [d1|] eqn:E2; [eapply rtc_l; [by exists Emit|done]|].
  destruct (desk_step (Deliver (job_env je)) d) as [d1|] eqn:E3; [|done].
  eapply rtc_l; [by exists (Deliver (job_env je))|done].
Qed.

Definition rests {W} (d : Desktop W) : bool :=
  match posted (window d), emitting d, queue d, hanging d with
  | [], [], [], None => true
  | _, _, _, _ => false
  end.

Lemma rests_at_rest {W} (d : Desktop W) : rests d = true → at_rest d.
Proof.
  unfold rests, at_rest. destruct (posted (window d)), (emitting d), (queue d), (hanging d); done.
Qed.

Definition demo_form : Form :=
  mk_form (lit " /home/u/a.txt ") (lit "4") 2 [] [] [] [] 2 50 [] (lit "127.0.0.1") true 9101 5
    (lit "/home/u/peer-storage") (lit "/home/u/manifests").

(** The desktop as it opens, and with the form filled in. *)
Definition opened_desk : Desktop HonestNet :=
  open_desktop (Q := plain_qt) demo_host [] demo_answers ∅ demo_world.

Definition demo_desk : Desktop HonestNet :=
  set_window (set_form demo_form (window opened_desk)) opened_desk.

Definition demo_je : JobEnv := mk_job_env client_env (lit "/home/u") None.

Definition demo_drive : Desktop HonestNet → Desktop HonestNet :=
  drive (Q := plain_qt) (HS := toy_sha256) (HA := toy_aes) (HR := toy_rsa) 40 demo_je.

Definition clicked_put : Desktop HonestNet :=
  set_window (onPutClicked (Q := plain_qt) (window demo_desk)) demo_desk.
Definition demo_uploaded : Desktop HonestNet := demo_drive clicked_put.
Definition clicked_download : Desktop HonestNet :=
  set_window (onDownloadButtonClicked (Q := plain_qt) (λ _, lit "/home/u/b.txt")
                (length (filesTable_ (window demo_desk))) (window demo_uploaded)) demo_uploaded.
Definition demo_downloaded : Desktop HonestNet := demo_drive clicked_download.

Lemma demo_drive_settles d :
  rests (demo_drive d) = true →
  settles (Q := plain_qt) (HS := toy_sha256) (HA := toy_aes) (HR := toy_rsa) demo_je d (demo_drive d).
Proof. intros E. split; [apply drive_runs|by apply rests_at_rest]. Qed.

Lemma demo_click_setup :
  upload_setup (HS := toy_sha256) client_env (lit "/home/u")
    (asked_config (Q := plain_qt) (window demo_desk) demo_peers)
    (trim (Qt := plain_qt) (putFileEdit_ (form (window demo_desk)))) (lit "a file") (world demo_desk).
Proof.
  pose proof demo_setup as [_ _ _ _ _ _ _ _ _ _ _ _ _ _ _ Hlink Hapart].
  split; try by_eval; try done.
Qed.

Lemma put_and_download_by_clicks_witness :
  ∃ row, filesTable_ (window demo_uploaded) = [row] ∧ row_name row = lit "a.txt" ∧
    row_size row = lit "6" ∧
    last (logEdit_ (window demo_downloaded)) = Some (LogGetDone (lit "/home/u/b.txt")) ∧
    read_file (lit "/home/u/b.txt") (files (world demo_downloaded)) = Some (lit "a file").
Proof.
  destruct (put_and_download_by_clicks (Q := plain_qt) (HS := toy_sha256) (HA := toy_aes)
    (HR := toy_rsa) demo_je demo_desk demo_uploaded demo_peers (lit "a file")
    (rests_at_rest demo_desk eq_refl) ltac:(by_eval) eq_refl ltac:(by_eval) demo_click_setup
    (demo_drive_settles clicked_put ltac:(vm_compute; reflexivity)))
    as (row & Ht & Hn & Hs & Hget).
  exists row. split; [exact Ht|]. split; [exact Hn|]. split; [exact Hs|].
  apply (Hget (λ _, lit "/home/u/b.txt") demo_downloaded); [discriminate|].
  apply (demo_drive_settles clicked_download). vm_compute. reflexivity.
Defined.

Lemma demo_form_ok : form_ok demo_form.
Proof. unfold form_ok. cbn. lia. Qed.

Lemma demo_step (ok : desk_event → Prop) :
  ok (EditForm demo_form) →
  rtc (step_of (Q := plain_qt) (HS := toy_sha256) (HA := toy_aes) (HR := toy_rsa) ok)
    opened_desk demo_desk.
Proof.
  intros Hok. apply rtc_once. exists (EditForm demo_form). split; [exact Hok|].
  assert (crashed (window opened_desk) = false) as Hc by (vm_compute; reflexivity).
  unfold desk_step. rewrite Hc. exact eq_refl.
Qed.

Lemma demo_reachable :
  desk_reachable (Q := plain_qt) (HS := toy_sha256) (HA := toy_aes) (HR := toy_rsa)
    demo_host demo_answers ∅ demo_desk.
Proof. exists [], demo_world. apply demo_step, demo_form_ok. Qed.


Lemma healthy_window_survives_witness :
  crashed (window demo_desk) = false ∧
  ∀ sched later w', desk_close sched later demo_desk = Some w' → crashed w' = false.
Proof.
  exact (healthy_window_survives (Q := plain_qt) (HS := toy_sha256) (HA := toy_aes)
    (HR := toy_rsa) demo_host [] demo_answers ∅ demo_world demo_desk (Forall_nil_2 _)
    (demo_step healthy_event (conj demo_form_ok I))).
Defined.

(** The peer serves a connection when the window is closed, and its handler goes on. *)
Definition busy_desk : Desktop HonestNet :=
  open_desktop (Q := plain_qt) demo_host (replicate 5 Good) demo_answers ∅ demo_world.

Definition busy_schedule : Schedule := mk_schedule [More] [More; More; More] [].


(** ** The bar hides too early *)

Fixpoint replay `{Q : Qt, HS : Sha256, HA : AesGcm, HR : Rsa, HP : PeerApi W}
    (evs : list desk_event) (d : Desktop W) : option (Desktop W) :=
  match evs with
  | [] => Some d
  | ev :: evs => d' ← desk_step ev d; replay evs d'
  end.

Lemma replay_runs `{Q : Qt, HS : Sha256, HA : AesGcm, HR : Rsa, HP : PeerApi W} ok evs
    (d d' : Desktop W) :
  Forall ok evs → replay evs d = Some d' → rtc (step_of ok) d d'.
Proof.
  intros Hok. revert d. induction Hok as [|ev evs Hev _ IH]; intros d; [by intros [= ->]|].
  cbn [replay]. destruct (desk_step ev d) as [d1|] eqn:E; [|done]. intros H.
  eapply rtc_l; [by exists ev|by apply IH].
Qed.

Definition two_puts : list desk_event :=
  [EditForm demo_form; ClickPut; ClickPut; RunJob demo_je] ++ replicate 3 Emit ++
  replicate 3 (Deliver client_env).

Lemma two_puts_user : Forall user_event two_puts.
Proof. constructor; [exact demo_form_ok|]. by repeat constructor. Qed.

Definition bar_and_work (d : option (Desktop HonestNet)) : option (bool * nat) :=
  (λ d, (bar_visible (progressBar_ (window d)), in_flight d)) <$> d.

(** Nothing keeps a second operation from being started while one runs, and the end
    of the first hides the progress bar: it is hidden while the second is still
    to be done. *)
Theorem bar_hides_early :
  ∃ d, desk_reachable (Q := plain_qt) (HS := toy_sha256) (HA := toy_aes) (HR := toy_rsa)
         demo_host demo_answers ∅ d ∧
    bar_visible (progressBar_ (window d)) = false ∧ in_flight d = 1%nat.
Proof.
  assert (bar_and_work (replay (Q := plain_qt) (HS := toy_sha256) (HA := toy_aes) (HR := toy_rsa)
    two_puts opened_desk) = Some (false, 1%nat)) as E by (vm_compute; reflexivity).
  unfold bar_and_work in E. destruct (replay two_puts opened_desk) as [d|] eqn:Er; [|done].
  injection E as E1 E2. exists d. split; [|by split]. exists [], demo_world.
  eapply (replay_runs user_event two_puts); [|exact Er]. exact two_puts_user.
Qed.

(** ** Two operations *)

Definition replayed (evs : list desk_event) : Desktop HonestNet :=
  default opened_desk (replay (Q := plain_qt) (HS := toy_sha256) (HA := toy_aes) (HR := toy_rsa)
    evs opened_desk).

Definition replays (evs : list desk_event) : bool :=
  match replay (Q := plain_qt) (HS := toy_sha256) (HA := toy_aes) (HR := toy_rsa) evs opened_desk with
  | Some _ => true
  | None => false
  end.

Lemma replayed_reachable evs :
  Forall user_event evs → replays evs = true →
  desk_reachable (Q := plain_qt) (HS := toy_sha256) (HA := toy_aes) (HR := toy_rsa)
    demo_host demo_answers ∅ (replayed evs).
Proof.
  intros Hok. unfold replayed, replays. destruct (replay evs opened_desk) as [d|] eqn:E; [|done]. intros _.
  exists [], demo_world. by apply (replay_runs user_event evs).
Qed.

(** The second upload hangs after the first was reported. *)
Definition put_then_hang : list desk_event := two_puts ++ [HangJob ∅ []].

Lemma two_puts_replays : replays two_puts = true.
Proof. vm_compute. reflexivity. Qed.

Lemma put_then_hang_user : Forall user_event put_then_hang.
Proof. apply Forall_app. split; [exact two_puts_user|]. by repeat constructor. Qed.

Lemma put_then_hang_replays : replays put_then_hang = true.
Proof. vm_compute. reflexivity. Qed.

Lemma operations_are_reported_witness :
  started (window (replayed two_puts)) = 2%nat ∧ ended (window (replayed two_puts)) = 1%nat ∧
  started (window (replayed two_puts)) =
    (ended (window (replayed two_puts)) + in_flight (replayed two_puts))%nat.
Proof.
  split; [vm_compute; reflexivity|]. split; [vm_compute; reflexivity|].
  exact (proj1 (operations_are_reported (Q := plain_qt) (HS := toy_sha256) (HA := toy_aes)
    (HR := toy_rsa) demo_host demo_answers ∅ (replayed two_puts)
    (replayed_reachable two_puts two_puts_user two_puts_replays))).
Defined.

(** The job that hangs. *)
Definition hanging_job : Job :=
  PutJob (peers_text demo_peers) (lit "/home/u/a.txt") (lit "/home/u/manifests") 4 2 [].

Lemma put_then_hang_hangs : hanging (replayed put_then_hang) = Some hanging_job.
Proof. vm_compute. reflexivity. Qed.

Lemma hung_slot_is_last_witness :
  (ended (window (replayed put_then_hang)) < started (window (replayed put_then_hang)))%nat ∧
  ∀ sched later w', desk_close sched later (replayed put_then_hang) = Some w' → crashed w' = true.
Proof.
  exact (hung_slot_is_last (Q := plain_qt) (HS := toy_sha256) (HA := toy_aes) (HR := toy_rsa)
    demo_host demo_answers ∅ (replayed put_then_hang) (replayed put_then_hang) hanging_job
    (replayed_reachable put_then_hang put_then_hang_user put_then_hang_replays)
    put_then_hang_hangs (rtc_refl _ _)).
Defined.
