(* ===== verification/Layout.v ===== *)
(** * The widgets of the window

    Models the construction of the widgets in [src/client/main_window.cpp] and
    [src/client/main_gui.cpp]: the tree of layouts, edits, buttons and tables that
    [setupUi] builds, with the texts, ranges and slots they are given.  The tree says
    what the user can do: type into the edits that are enabled, within their ranges,
    and press the buttons that are enabled.  [Desktop] allows more; the theorems
    relate the two.

    Tooltips, word wrap, margins, sizes, how the columns of a table are stretched and
    that tables are read only are left out: nothing that the program computes depends
    on them. *)

From S2P Require Import Prelude.
From S2P Require Import CxxStd.
From S2P Require Import Hex.
From S2P Require Import PeerEndpoint.
From S2P Require Import FileSystem.
From S2P Require Import Manifest.
From S2P Require Import Hybrid.
From S2P Require Import DssClient.
From S2P Require Import DssClientProps.
From S2P Require Import PeerLifecycle.
From S2P Require Import EmbeddedPeer.
From S2P Require Import Cli.
From S2P Require Import Worker.
From S2P Require Import Qt.
From S2P Require Import MainWindow.
From S2P Require Import MainWindowProps.
From S2P Require Import Desktop.
From S2P Require Import DesktopProps.

(** ** Widgets *)

(** The members that are edits. *)
Inductive edit_id :=
  | PutFile | PutChunk | PutReplicas | PutRsaPublic
  | GetManifest | GetOutput | GetRsaPrivate
  | RepairReplicas | RepairBatch
  | BootstrapSeeds | AdvertiseIp
  | SettingsPeerEnabled | SettingsPeerPort | SettingsMaxGiB | SettingsStorageDir
  | SettingsManifestDir.

#[export] Instance edit_id_eq_dec : EqDecision edit_id.
Proof. solve_decision. Defined.

(** What the signal [clicked] of a button is connected to. *)
Inductive slot :=
  | PutSlot | GetSlot | RepairSlot
  | BrowseSlot (b : Browse)
  | ApplySlot | ApplyNetworkSlot | RefreshSlot.

#[export] Instance slot_eq_dec : EqDecision slot.
Proof. solve_decision. Defined.

(** A spin box keeps the range and the value that it was given, if any; a row of a
    form has a label or none. *)
Inductive widget :=
  | Label (text : str)
  | LineEdit (m : option edit_id) (read_only : bool) (placeholder : str)
  | SpinBox (m : edit_id) (lo hi : Z) (set : option Z) (enabled : bool)
  | CheckBox (m : edit_id) (text : str)
  | Button (text : str) (enabled : bool) (clicked : slot)
  | Table (headers : list str)
  | Bar (lo hi : Z) (visible : bool)
  | LogEdit (max_height : Z)
  | Stretch
  | VBox (l : list widget)
  | HBox (l : list widget)
  | FormRows (rows : list (option str * widget))
  | Group (title : str) (w : widget)
  | Tabs (tabs : list (str * widget)).

Definition with_browse (m : edit_id) (placeholder : str) (b : Browse) : widget :=
  HBox [LineEdit (Some m) false placeholder; Button (lit "Browse…") true (BrowseSlot b)].

(** ** The five tabs *)

Definition put_tab : widget :=
  VBox [
    Group (lit "Upload File") (FormRows [
      (Some (lit "File:"), with_browse PutFile (lit "Path to file to upload") BrowsePutFile);
      (Some (lit "Chunk size (bytes):"),
         LineEdit (Some PutChunk) false (lit "Default 1048576 (1 MiB)"));
      (Some (lit "Replicas:"), SpinBox PutReplicas 1 32 (Some 2) true);
      (Some (lit "RSA public key:"),
         with_browse PutRsaPublic
           (lit "Optional — RSA public key (.pem) for AES-256-GCM + hybrid wrap") BrowseRsaPublic);
      (None, Button (lit "Put file") true PutSlot)]);
    Group (lit "Stored Files") (VBox [
      Table [lit "Share ID"; lit "Name"; lit "Size (bytes)"; lit "Download"]]);
    Stretch].

Definition get_tab : widget :=
  FormRows [
    (Some (lit "Manifest:"),
       with_browse GetManifest (lit "dss://file/<sha256> or path to .manifest.txt") BrowseManifest);
    (Some (lit "Output file:"), with_browse GetOutput (lit "Output file path") BrowseOutput);
    (Some (lit "RSA private key:"),
       with_browse GetRsaPrivate
         (lit "Optional — RSA private key (.pem) if upload was encrypted") BrowseRsaPrivate);
    (None, Button (lit "Get file") true GetSlot)].

Definition repair_tab : widget :=
  VBox [
    Label (lit "Tracker-based automatic repair is not available in DHT-only mode. " ++
           lit "This single-app build uses peer bootstrap and embedded storage only. " ++
           lit "Upload with enough replicas to tolerate peer loss.");
    FormRows [
      (Some (lit "Desired replicas:"), SpinBox RepairReplicas 1 32 (Some 2) false);
      (Some (lit "Batch size:"), SpinBox RepairBatch 1 1000 (Some 50) false);
      (None, Button (lit "Repair") false RepairSlot)];
    Stretch].

Definition settings_tab : widget :=
  VBox [
    Group (lit "Client") (FormRows [
      (Some (lit "Manifest directory:"),
         with_browse SettingsManifestDir
           (lit "Directory for local .manifest.txt files after upload") BrowseManifestDir);
      (None, Label (lit "Uploaded files get a local manifest copy here (share ID and recovery)."))]);
    Group (lit "Local peer (embedded)") (FormRows [
      (None, CheckBox SettingsPeerEnabled
               (lit "Enable peer contribution (storage and network listener)"));
      (Some (lit "Peer port:"), SpinBox SettingsPeerPort 1024 65535 None true);
      (Some (lit "Max storage contribution (GiB):"), SpinBox SettingsMaxGiB 1 1024 None true);
      (Some (lit "Storage directory:"),
         with_browse SettingsStorageDir (lit "Directory for peer chunk storage") BrowseStorageDir);
      (None, Label (lit "Click Apply to save manifest folder and peer options. Changing port, storage cap, or peer " ++
                    lit "directory restarts the embedded peer."));
      (None, Button (lit "Apply settings") true ApplySlot)]);
    Stretch].

Definition network_tab : widget :=
  VBox [
    Group (lit "Routing configuration") (FormRows [
      (Some (lit "Bootstrap seeds:"),
         LineEdit (Some BootstrapSeeds) false
           (lit "Comma-separated host:port seeds, e.g. 127.0.0.1:9101,192.168.1.10:9101"));
      (Some (lit "Advertise address:"),
         LineEdit (Some AdvertiseIp) false
           (lit "Address other peers use to reach this node (e.g. LAN IP)"));
      (None, HBox [Button (lit "Apply network settings") true ApplyNetworkSlot; Stretch])]);
    HBox [Button (lit "Refresh peers") true RefreshSlot; Stretch];
    Table [lit "Peer"; lit "Status"; lit "Node ID (prefix)"];
    Label [];
    Stretch].

(** The central widget. *)
Definition central : widget :=
  VBox [
    Group (lit "Network Join (Bootstrap)") (FormRows [
      (Some (lit "Discovered peers:"),
         LineEdit None true (lit "Discovered peers will appear here"));
      (Some (lit "Status:"), Label (lit "Joining network via bootstrap nodes..."))]);
    Tabs [(lit "Put", put_tab); (lit "Get", get_tab); (lit "Repair", repair_tab);
          (lit "Settings", settings_tab); (lit "Network", network_tab)];
    Bar 0 0 false;
    LogEdit 120].

(** ** What the widgets hold and accept *)

(** The widgets without layouts. *)
Fixpoint leaves (w : widget) : list widget :=
  match w with
  | VBox l | HBox l => flat_map leaves l
  | FormRows rows => flat_map (λ r, leaves r.2) rows
  | Group _ w => leaves w
  | Tabs tabs => flat_map (λ t, leaves t.2) tabs
  | _ => [w]
  end.

Inductive datum := DText (s : str) | DInt (z : Z) | DBool (b : bool).

#[export] Instance datum_eq_dec : EqDecision datum.
Proof. solve_decision. Defined.

Definition get (m : edit_id) (f : Form) : datum :=
  match m with
  | PutFile => DText (putFileEdit_ f)
  | PutChunk => DText (putChunkEdit_ f)
  | PutReplicas => DInt (putReplicasSpin_ f)
  | PutRsaPublic => DText (putRsaPublicEdit_ f)
  | GetManifest => DText (getManifestEdit_ f)
  | GetOutput => DText (getOutputEdit_ f)
  | GetRsaPrivate => DText (getRsaPrivateEdit_ f)
  | RepairReplicas => DInt (repairReplicasSpin_ f)
  | RepairBatch => DInt (repairBatchSpin_ f)
  | BootstrapSeeds => DText (bootstrapSeedsEdit_ f)
  | AdvertiseIp => DText (advertiseIpEdit_ f)
  | SettingsPeerEnabled => DBool (settingsPeerEnabledCheck_ f)
  | SettingsPeerPort => DInt (settingsPeerPortSpin_ f)
  | SettingsMaxGiB => DInt (settingsMaxGiBSpin_ f)
  | SettingsStorageDir => DText (settingsStorageDirEdit_ f)
  | SettingsManifestDir => DText (settingsManifestDirEdit_ f)
  end.

(** The edit that a widget is, and the value it has when it is made. *)
Definition initial (w : widget) : option (edit_id * datum) :=
  match w with
  | LineEdit (Some m) _ _ => Some (m, DText [])
  | SpinBox m lo hi set _ => Some (m, DInt (spin lo hi (default 0 set)))
  | CheckBox m _ => Some (m, DBool false)
  | _ => None
  end.

(** Values that the user can give. *)
Inductive choice := AnyText | Between (lo hi : Z) | AnyBool.

Definition accepts (c : choice) (d : datum) : Prop :=
  match c, d with
  | AnyText, DText _ | AnyBool, DBool _ => True
  | Between lo hi, DInt z => lo ≤ z ≤ hi
  | _, _ => False
  end.

(** The edits that are enabled, and what they accept. *)
Definition editable_as (w : widget) : option (edit_id * choice) :=
  match w with
  | LineEdit (Some m) false _ => Some (m, AnyText)
  | SpinBox m lo hi _ true => Some (m, Between lo hi)
  | CheckBox m _ => Some (m, AnyBool)
  | _ => None
  end.

Definition editable (tree : widget) : list (edit_id * choice) := omap editable_as (leaves tree).

(** The user edits some of the widgets of a tree. *)
Definition edits (tree : widget) (f f' : Form) : Prop :=
  ∀ m, get m f' = get m f ∨ Exists (λ mc, mc.1 = m ∧ accepts mc.2 (get m f')) (editable tree).

(** The slots behind the buttons that can be pressed. *)
Definition pressable (tree : widget) : list slot :=
  omap (λ w, match w with Button _ true s => Some s | _ => None end) (leaves tree).

(** The slot that a click of [Desktop] runs. *)
Definition slot_of (ev : desk_event) : option slot :=
  match ev with
  | ClickPut => Some PutSlot
  | ClickGet => Some GetSlot
  | ClickRepair => Some RepairSlot
  | ClickBrowse _ _ _ b => Some (BrowseSlot b)
  | ClickApply _ _ => Some ApplySlot
  | ClickApplyNetwork _ _ => Some ApplyNetworkSlot
  | ClickRefresh _ _ => Some RefreshSlot
  | _ => None
  end.

(** ** The program *)

Record Application := mk_application {
  applicationName : str;
  organizationName : str;
  applicationDisplayName : str;
  applicationVersion : str;
}.

Definition decent_store : Application :=
  mk_application (lit "decent_store") (lit "decent_store") (lit "Decent Store") (lit "0.1").

Definition set_appData (dir : str) (h : Host) : Host :=
  mk_host (host_env h) (mkdir_error h) dir (connects h) (thread_error h).

Section layout.
Context {Q : Qt} {HS : Sha256} {HA : AesGcm} {HR : Rsa} {W : Type} {HP : PeerApi W}.

(** [main] up to [exec]: [location] is where Qt keeps the data of an application. *)
Definition gui_main (location : Application → str) (host : Host) (evs : list event) (a : Answers)
    (s : Settings) (w : World W) : Desktop W :=
  open_desktop (set_appData (location decent_store) host) evs a s w.

(** What the window offers: edits of the enabled widgets, presses of the enabled
    buttons, of them one per row of the table of files, and whatever the threads do. *)
Definition offered (d : Desktop W) (ev : desk_event) : Prop :=
  match ev with
  | EditForm f => edits central (form (window d)) f
  | ClickDownload _ row => (row < length (filesTable_ (window d)))%nat
  | PeerMoves _ | RunJob _ | HangJob _ _ | Emit | Deliver _ => True
  | _ => Exists (λ s, slot_of ev = Some s) (pressable central)
  end.

Definition ui_step (d d' : Desktop W) : Prop := ∃ ev, offered d ev ∧ desk_step ev d = Some d'.
End layout.

(** ** What the user can bring about *)

Definition is_repair (j : Job) : bool := match j with RepairJob _ _ _ => true | _ => false end.

(** The edits are in their ranges, and those that are disabled are as they were made;
    no repair was asked for. *)
Record ui_ok (w : MainWindow) : Prop := {
  uo_form : form_ok (form w);
  uo_repair : repairReplicasSpin_ (form w) = 2 ∧ repairBatchSpin_ (form w) = 50;
  uo_jobs : Forall (λ j, is_repair j = false) (posted w);
}.

Lemma editable_central :
  editable central =
  [(PutFile, AnyText); (PutChunk, AnyText); (PutReplicas, Between 1 32); (PutRsaPublic, AnyText);
   (GetManifest, AnyText); (GetOutput, AnyText); (GetRsaPrivate, AnyText);
   (SettingsManifestDir, AnyText); (SettingsPeerEnabled, AnyBool);
   (SettingsPeerPort, Between 1024 65535); (SettingsMaxGiB, Between 1 1024);
   (SettingsStorageDir, AnyText); (BootstrapSeeds, AnyText); (AdvertiseIp, AnyText)].
Proof. reflexivity. Qed.

(** What an edit may make of one member. *)
Lemma edits_member f f' m :
  edits central f f' →
  get m f' = get m f ∨ ∃ c, (m, c) ∈ editable central ∧ accepts c (get m f').
Proof.
  intros H. destruct (H m) as [E|Hc]; [by left|right].
  apply Exists_exists in Hc as ([m' c] & Hin & E & Ha). cbn in E. subst m'. by exists c.
Qed.

Lemma edits_spin f f' m lo hi z z' :
  edits central f f' → (∀ c, (m, c) ∈ editable central → c = Between lo hi) →
  get m f = DInt z → get m f' = DInt z' → z' = z ∨ lo ≤ z' ≤ hi.
Proof.
  intros H Hc E E'. destruct (edits_member f f' m H) as [Em|(c & Hin & Ha)].
  - left. congruence.
  - right. rewrite (Hc c Hin), E' in Ha. exact Ha.
Qed.

Lemma edits_ranges f f' :
  edits central f f' → form_ok f →
  form_ok f' ∧ repairReplicasSpin_ f' = repairReplicasSpin_ f ∧
  repairBatchSpin_ f' = repairBatchSpin_ f.
Proof.
  intros H (H1 & H2 & H3).
  assert (∀ m lo hi, (m, Between lo hi) ∈ editable central →
    ∀ c, (m, c) ∈ editable central → c = Between lo hi) as Hone.
  { rewrite editable_central. set_solver. }
  split; [split; [|split]|split].
  - destruct (edits_spin f f' PutReplicas 1 32 (putReplicasSpin_ f) (putReplicasSpin_ f') H) as [->|?]; try done.
    apply Hone. rewrite editable_central. set_solver.
  - destruct (edits_spin f f' SettingsPeerPort 1024 65535 (settingsPeerPortSpin_ f) (settingsPeerPortSpin_ f') H) as [->|?]; try done.
    apply Hone. rewrite editable_central. set_solver.
  - destruct (edits_spin f f' SettingsMaxGiB 1 1024 (settingsMaxGiBSpin_ f) (settingsMaxGiBSpin_ f') H) as [->|?]; try done.
    apply Hone. rewrite editable_central. set_solver.
  - destruct (edits_member f f' RepairReplicas H) as [[= E]|(c & Hc & _)]; [done|].
    rewrite editable_central in Hc. set_solver.
  - destruct (edits_member f f' RepairBatch H) as [[= E]|(c & Hc & _)]; [done|].
    rewrite editable_central in Hc. set_solver.
Qed.

(** The tree makes the form that [setupUi] of [MainWindow] makes: each member has one
    widget, with the value it is made with. *)
Lemma central_makes_form m :
  let f := MainWindow.makeNetworkTab (MainWindow.makeSettingsTab (MainWindow.makeRepairTab
             (MainWindow.makeGetTab (MainWindow.makePutTab no_widgets)))) in
  NoDup (omap initial (leaves central)).*1 ∧ (m, get m f) ∈ omap initial (leaves central).
Proof. cbn zeta. split; [|destruct m]; apply (bool_decide_unpack _); by_eval. Qed.

(** The slots that can be run are all but the repair. *)
Lemma pressable_slots s : s ∈ pressable central ↔ s ≠ RepairSlot.
Proof.
  destruct (decide (s = RepairSlot)) as [->|Hs].
  - assert (RepairSlot ∉ pressable central) by (apply (bool_decide_unpack _); by_eval). naive_solver.
  - split; [done|]. intros _. destruct s as [| | |[]| | |]; (done || (apply (bool_decide_unpack _); by_eval)).
Qed.

Section offered.
Context {Q : Qt} {HS : Sha256} {HA : AesGcm} {HR : Rsa} {W : Type} {HP : PeerApi W}.

Lemma ui_ok_ext w w' :
  form w' = form w → posted w' = posted w → ui_ok w → ui_ok w'.
Proof. intros Ef Ep []. split; by rewrite ?Ef, ?Ep. Qed.

Lemma ui_ok_peer w w' : peer_only w w' → ui_ok w → ui_ok w'.
Proof. intros []. by apply ui_ok_ext. Qed.

(** A click that posts a job at most, and no repair. *)
Definition asks (w w' : MainWindow) : Prop :=
  form w' = form w ∧
  (posted w' = posted w ∨ ∃ j, is_repair j = false ∧ posted w' = posted w ++ [j]).

Lemma ui_ok_asks w w' : asks w w' → ui_ok w → ui_ok w'.
Proof.
  intros [Ef Hp] [Hf Hr Hj]. split; rewrite ?Ef; [done|done|].
  destruct Hp as [->|(j & Hnr & ->)]; [done|]. apply Forall_app. split; [done|by constructor].
Qed.

Lemma put_asks w : asks w (onPutClicked w).
Proof.
  split; [apply put_only|]. unfold onPutClicked. case_bool_decide; [by left|].
  case_bool_decide; [by left|]. right.
  case_bool_decide; (eexists; split; [|reflexivity]; done).
Qed.

Lemma start_get_asks m o w : asks w (start_get m o w).
Proof. split; [done|]. right. eexists. split; [|reflexivity]. done. Qed.

Lemma get_asks w : asks w (onGetClicked w).
Proof.
  unfold onGetClicked. case_bool_decide; [by split; [|left]|].
  destruct (_ || _); [by split; [|left]|apply start_get_asks].
Qed.

Lemma download_asks dialog row w : asks w (onDownloadButtonClicked dialog row w).
Proof.
  unfold onDownloadButtonClicked. destruct (filesTable_ w !! row); [|by split; [|left]].
  case_bool_decide; [by split; [|left]|]. case_bool_decide; [by split; [|left]|].
  case_bool_decide; [by split; [|left]|apply start_get_asks].
Qed.

Lemma browse_ui_ok env home fs dialog b w : ui_ok w → ui_ok (onBrowse env home fs dialog b w).
Proof.
  intros Hw. destruct (browse_chooses env home fs dialog b w) as [path ->]. unfold choose.
  case_bool_decide; [done|]. destruct Hw as [Hf Hr Hj]. split; [exact Hf|exact Hr|exact Hj].
Qed.

Lemma settings_ui_ok host sched w w' :
  onApplySettingsClicked host sched w = Some w' → ui_ok w → ui_ok w'.
Proof.
  intros [[b ->]|(w1 & _ & _ & Hr & ->)]%apply_settings_cases Hw; [by apply (ui_ok_ext w)|].
  assert (ui_ok w1) as H1
    by (apply (ui_ok_peer _ _ (restart_only _ _ _ _ Hr)); by apply (ui_ok_ext w)).
  destruct (crashed w1); [done|]. by apply (ui_ok_ext w1).
Qed.

Lemma network_ui_ok host sched w w' :
  onApplyNetworkSettingsClicked host sched w = Some w' → ui_ok w → ui_ok w'.
Proof.
  intros [[b ->]|(w1 & H)]%apply_network_cases Hw; [by apply (ui_ok_ext w)|].
  assert (ui_ok (network_window w).2) as Hw0.
  { unfold network_window. case_bool_decide; [|done]. destruct Hw as [Hf Hr Hj].
    split; [exact Hf|exact Hr|exact Hj]. }
  destruct (network_window w) as [seeds w0]. destruct H as (_ & Hr & ->). cbn [snd] in Hw0.
  assert (ui_ok w1) as H1
    by (apply (ui_ok_peer _ _ (restart_only _ _ _ _ Hr)); by apply (ui_ok_ext w0)).
  destruct (crashed w1); [done|]. by apply (ui_ok_ext w1).
Qed.

Lemma offered_slot ev (d : Desktop W) s :
  slot_of ev = Some s → offered d ev ↔ s ≠ RepairSlot.
Proof.
  intros E. rewrite <- pressable_slots. transitivity (Exists (λ s, slot_of ev = Some s) (pressable central)).
  - by destruct ev.
  - rewrite Exists_exists. split; [intros (s' & Hs & E')|intros Hs; by exists s].
    rewrite E in E'. by injection E' as ->.
Qed.

(** A step of the window is one of [Desktop]. *)
Lemma ui_step_ok (d d' : Desktop W) :
  ui_step d d' → ui_ok (window d) → ui_ok (window d') ∧ step_of user_event d d'.
Proof.
  intros (ev & Ho & E) Hd. split.
  2: { exists ev. split; [|done]. destruct ev; try done.
       by apply (edits_ranges (form (window d)) f), Hd. }
  revert E. unfold desk_step. destruct (crashed (window d)); [done|]. destruct ev.
  - intros [= <-]. destruct Hd as [Hf [Hr1 Hr2] Hj].
    destruct (edits_ranges _ f Ho Hf) as (Hf' & E1 & E2). split; [done| |done].
    cbn [window set_window form set_form]. by rewrite E1, E2.
  - intros [= <-]. by apply browse_ui_ok.
  - intros [= <-]. by apply (ui_ok_asks _ _ (put_asks _)).
  - intros [= <-]. by apply (ui_ok_asks _ _ (get_asks _)).
  - by apply (offered_slot _ d RepairSlot) in Ho.
  - intros [= <-]. by apply (ui_ok_asks _ _ (download_asks _ _ _)).
  - destruct (onApplySettingsClicked host sched (window d)) eqn:E; [|done]. intros [= <-].
    by apply (settings_ui_ok host sched (window d)).
  - destruct (onApplyNetworkSettingsClicked host sched (window d)) eqn:E; [|done]. intros [= <-].
    by apply (network_ui_ok host sched (window d)).
  - intros [= <-]. cbn [window set_window].
    destruct (refresh_result host evs (window d)) as [rows ->]. by apply (ui_ok_ext (window d)).
  - intros [= <-]. by apply (ui_ok_ext (window d)).
  - intros (j & js & s & w1 & Ej & _ & _ & _ & ->)%job_step_shape. destruct Hd as [Hf Hr Hj].
    split; [done|done|]. rewrite Ej in Hj. by inversion Hj.
  - intros (j & js & Ej & _ & _ & _ & ->)%hang_step_shape. destruct Hd as [Hf Hr Hj].
    split; [done|done|]. rewrite Ej in Hj. by inversion Hj.
  - unfold emit_step. destruct (emitting d); [done|]. by intros [= <-].
  - unfold deliver_step. destruct (queue d) as [|g q]; [done|]. intros [= <-]. cbn [window].
    destruct (deliver_counts env (files (world d)) g (window d)) as (_ & _ & Ep & _).
    apply (ui_ok_ext (window d)); [apply signal_only|done|done].
Qed.

Lemma open_ui_ok host evs a s : ui_ok (open_window host evs a s).
Proof.
  unfold open_window. destruct (loadOrPromptPeerSettings a (appData host) s) as [c s'].
  eapply ui_ok_peer; [apply discover_only|]. eapply ui_ok_peer; [apply start_only|].
  split; [|done|constructor]. split; [cbn; lia|].
  split; [apply (spin_range 1024 65535); lia|apply (spin_range 1 1024); lia].
Qed.

(** C12. Whatever a user of the program does with the widgets that are enabled, in any
    interleaving with the threads, [Desktop] allows: its theorems hold of the window.
    Every button but Repair can be pressed at any time; the numbers of the spin boxes
    stay in their ranges, those of the repair as they were made; and the worker is
    never asked for a repair. *)
Theorem window_offers_no_repair location host evs a s w (d : Desktop W)
    (Hr : rtc ui_step (gui_main location host evs a s w) d) :
  desk_reachable (set_appData (location decent_store) host) a s d ∧
  (∀ ev slot, slot_of ev = Some slot → offered d ev ↔ slot ≠ RepairSlot) ∧
  form_ok (form (window d)) ∧
  repairReplicasSpin_ (form (window d)) = 2 ∧ repairBatchSpin_ (form (window d)) = 50 ∧
  Forall (λ j, is_repair j = false) (posted (window d)).
Proof.
  assert (∀ d0, ui_ok (window d0) → rtc ui_step d0 d →
    ui_ok (window d) ∧ rtc (step_of user_event) d0 d) as Hsteps.
  { intros d0 Hok H. clear Hr. induction H as [d0|d0 d1 d Hs _ IH]; [done|].
    destruct (ui_step_ok d0 d1 Hs Hok) as [Hok1 Hs1]. destruct (IH Hok1) as [Hok' Hr'].
    split; [done|]. by eapply rtc_l. }
  destruct (Hsteps (gui_main location host evs a s w) (open_ui_ok _ _ _ _) Hr) as [[Hf [H2 H50] Hj] Hd].
  split; [by exists evs, w|]. split; [|done]. intros ev slot. apply offered_slot.
Qed.
End offered.

(** ** Witnesses *)

(** Where Qt keeps the data of an application on Linux. *)
Definition demo_location (app : Application) : str :=
  lit "/home/u/.local/share/" ++ organizationName app ++ lit "/" ++ applicationName app.

Definition gui_opened : Desktop HonestNet :=
  gui_main (Q := plain_qt) demo_location demo_host [] demo_answers ∅ demo_world.

Definition gui_edited : Desktop HonestNet :=
  set_window (set_form demo_form (window gui_opened)) gui_opened.

Definition gui_put : Desktop HonestNet :=
  set_window (onPutClicked (Q := plain_qt) (window gui_edited)) gui_edited.

Lemma demo_form_edits : edits central (form (window gui_opened)) demo_form.
Proof.
  intros m. rewrite editable_central.
  destruct m; first [left; vm_compute; reflexivity|right];
    repeat (apply Exists_cons_hd; split; [reflexivity|by vm_compute]) || apply Exists_cons_tl.
Qed.

Lemma window_offers_no_repair_witness :
  repairReplicasSpin_ (form (window gui_put)) = 2 ∧
  Forall (λ j, is_repair j = false) (posted (window gui_put)) ∧
  desk_reachable (Q := plain_qt) (HS := toy_sha256) (HA := toy_aes) (HR := toy_rsa)
    (set_appData (demo_location decent_store) demo_host) demo_answers ∅ gui_put.
Proof.
  assert (rtc (ui_step (Q := plain_qt) (HS := toy_sha256) (HA := toy_aes) (HR := toy_rsa))
            gui_opened gui_put) as Hr.
  { apply (rtc_l _ _ gui_edited); [|apply rtc_once].
    - exists (EditForm demo_form). split; [exact demo_form_edits|].
      assert (crashed (window gui_opened) = false) as Hc by (vm_compute; reflexivity).
      unfold desk_step. rewrite Hc. exact eq_refl.
    - exists ClickPut. split; [apply (offered_slot ClickPut _ PutSlot eq_refl); discriminate|].
      assert (crashed (window gui_edited) = false) as Hc by (vm_compute; reflexivity).
      unfold desk_step. rewrite Hc. exact eq_refl. }
  destruct (window_offers_no_repair (Q := plain_qt) (HS := toy_sha256) (HA := toy_aes)
    (HR := toy_rsa) demo_location demo_host [] demo_answers ∅ demo_world gui_put Hr)
    as (Hd & _ & _ & H2 & _ & Hj).
  exact (conj H2 (conj Hj Hd)).
Defined.
